(** * The 2x2 matrix analyser: quadrant rules, classification and insights

    A shallow embedding of the rule evaluator, the quadrant classifier, the
    default quadrant builder ([src/lib/store.ts], second part: the utility
    module), the insight aggregator ([generateDataInsights]), the chart
    colouring of [AnalysisResults], the confidence summary of
    [analyzeContent] and the [POST] handler of the analysis route.

    The development goes on to the rest of the application: the in-memory
    store ([InMemoryDB]), the application state ([useAppStore]) with the
    start of an analysis and the dropping of files on the page, the
    processing and the validation of files, the health route, the table of
    the items ([DataTable]) and the CSV export.

    JavaScript numbers are IEEE 754 binary64 values: they are modelled by
    [spec_float] of the Standard Library at precision 53 and maximal exponent
    1024.  A number that is handed around as a coordinate additionally has to
    be printed by [Number.prototype.toString]; such a number is modelled by a
    decimal spelling of it ([number]) whose binary64 value is obtained by
    correct rounding ([number_value]).  JavaScript prints the shortest
    spelling that reads back as the same value; the development never relies
    on the spelling being the shortest one, so every statement that
    quantifies over [number] covers what JavaScript prints. *)

From Stdlib Require Import ZArith QArith Qpower Qreduction List String Ascii Bool Lia.
From Stdlib Require Import Floats.SpecFloat.
From Stdlib Require Import Sorting.Permutation Sorting.Sorted.
Import ListNotations.

Local Open Scope Z_scope.
Local Open Scope list_scope.

(** ** Text *)

(** JavaScript strings are sequences of code units; the model works on
    lists of characters and converts record fields of type [string] at the
    boundary. *)
Definition text := list ascii.

Definition text_of (s : string) : text := list_ascii_of_string s.
Definition string_of (t : text) : string := string_of_list_ascii t.

Definition char_code (c : ascii) : Z := Z.of_N (N_of_ascii c).

Definition is_digit (c : ascii) : bool :=
  (48 <=? char_code c) && (char_code c <=? 57).

Definition is_letter (c : ascii) : bool :=
  ((65 <=? char_code c) && (char_code c <=? 90))
  || ((97 <=? char_code c) && (char_code c <=? 122)).

(** Characters that may continue an identifier: letters, digits, [_], [$]. *)
Definition is_ident_char (c : ascii) : bool :=
  is_letter c || is_digit c || (char_code c =? 95) || (char_code c =? 36).

Definition is_ident_start (c : ascii) : bool :=
  is_letter c || (char_code c =? 95) || (char_code c =? 36).

(** Only the space and the horizontal tab are modelled as white space; a
    line terminator changes how a [return] statement is read and is left
    outside the model. *)
Definition is_space (c : ascii) : bool :=
  (char_code c =? 32) || (char_code c =? 9).

(** [s.replace(/c/g, by)] for a one-character pattern: every occurrence of
    [c] is replaced, from left to right, and the replacement text is not
    scanned again. *)
Fixpoint replace_all (c : ascii) (by_ : text) (s : text) : text :=
  match s with
  | [] => []
  | d :: s' =>
      if Ascii.eqb d c then by_ ++ replace_all c by_ s'
      else d :: replace_all c by_ s'
  end.

(** [String.prototype.toLowerCase], code unit by code unit.  A character
    of the model is a code unit below 256; among these the capital letters are
    [A] to [Z] and U+00C0 to U+00DE without the multiplication sign U+00D7,
    and each has its small letter 32 places further on. *)
Definition lower_char (c : ascii) : ascii :=
  if ((65 <=? char_code c) && (char_code c <=? 90))
     || ((192 <=? char_code c) && (char_code c <=? 222)
         && negb (char_code c =? 215))
  then ascii_of_N (N_of_ascii c + 32) else c.

Definition toLowerCase (s : string) : string :=
  string_of (map lower_char (text_of s)).

(** The longest prefix whose characters satisfy [p], and the rest. *)
Fixpoint span (p : ascii -> bool) (s : text) : text * text :=
  match s with
  | [] => ([], [])
  | c :: s' =>
      if p c then let '(a, b) := span p s' in (c :: a, b)
      else ([], s)
  end.

(** ** Decimal digits *)

Definition digit_char (d : Z) : ascii := ascii_of_N (Z.to_N (48 + d)).
Definition digit_val (c : ascii) : Z := char_code c - 48.

(** Value of a digit sequence, most significant digit first. *)
Definition of_digits_from (acc : Z) (ds : text) : Z :=
  fold_left (fun a c => 10 * a + digit_val c) ds acc.

Definition of_digits (ds : text) : Z := of_digits_from 0 ds.

Fixpoint digits_aux (fuel : nat) (n : Z) (acc : text) : text :=
  match fuel with
  | O => acc
  | S fuel' =>
      let acc' := digit_char (n mod 10) :: acc in
      if n / 10 =? 0 then acc' else digits_aux fuel' (n / 10) acc'
  end.

(** The decimal digits of a natural number, without leading zeros
    ([0] is printed as one digit). *)
Definition digits_of_Z (n : Z) : text :=
  digits_aux (S (Z.to_nat (Z.log2 n))) n [].

Definition is_zero_char (c : ascii) : bool := char_code c =? 48.

Fixpoint drop_zeros (s : text) : text :=
  match s with
  | [] => []
  | c :: s' => if is_zero_char c then drop_zeros s' else s
  end.

Definition strip_trailing_zeros (s : text) : text := rev (drop_zeros (rev s)).

Definition zeros (n : Z) : text := repeat "0"%char (Z.to_nat n).

(** ** Numbers *)

(** A decimal spelling: [mant * 10 ^ expo]. *)
Record decimal : Type := Decimal { mant : Z; expo : Z }.

(** A JavaScript number together with a decimal spelling of it. *)
Inductive number : Type :=
| Finite (d : decimal)
| NaN
| Infinity (negative : bool).

(** [Number::toString] (radix 10) for a positive number [a * 10 ^ e], from
    its significant digits [s] (there are [k] of them) and the position [n]
    of the decimal point. *)
Definition toString_pos (a e : Z) : text :=
  let ds := digits_of_Z a in
  let s := strip_trailing_zeros ds in
  let k := Z.of_nat (List.length s) in
  let n := Z.of_nat (List.length ds) + e in
  if (k <=? n) && (n <=? 21) then s ++ zeros (n - k)
  else if (0 <? n) && (n <=? 21) then
    firstn (Z.to_nat n) s ++ "."%char :: skipn (Z.to_nat n) s
  else if (-6 <? n) && (n <=? 0) then
    "0"%char :: "."%char :: zeros (- n) ++ s
  else
    let ex := n - 1 in
    let exs := (if ex <? 0 then "-"%char else "+"%char)
                 :: digits_of_Z (Z.abs ex) in
    match s with
    | [] => []
    | [d] => d :: "e"%char :: exs
    | d :: rest => d :: "."%char :: rest ++ "e"%char :: exs
    end.

Definition Number_toString (x : number) : text :=
  match x with
  | NaN => text_of "NaN"
  | Infinity neg => if neg then text_of "-Infinity" else text_of "Infinity"
  | Finite d =>
      if mant d =? 0 then text_of "0"
      else if mant d <? 0 then "-"%char :: toString_pos (- mant d) (expo d)
      else toString_pos (mant d) (expo d)
  end.

Definition dec (m e : Z) : number := Finite (Decimal m e).
Definition int (m : Z) : number := Finite (Decimal m 0).

(** The rational number a decimal spelling denotes. *)
Definition dec_to_Q (d : decimal) : Q :=
  (inject_Z (mant d) * Qpower (10 # 1) (expo d))%Q.

(** Correct rounding (to nearest, ties to even) of the positive ratio
    [num / den] to binary64, as in the reading of a numeric literal. *)
Definition float_of_ratio (neg : bool) (num den : positive) : spec_float :=
  let '(mz, ez, lz) :=
    SFdiv_core_binary 53 1024 (Zpos num) 0 (Zpos den) 0 in
  binary_round_aux 53 1024 neg mz ez lz.

Definition float_of_Q (q : Q) : spec_float :=
  match Qnum q with
  | Z0 => S754_zero false
  | Zpos n => float_of_ratio false n (Qden q)
  | Zneg n => float_of_ratio true n (Qden q)
  end.

Definition decimal_value (d : decimal) : spec_float :=
  float_of_Q (Qred (dec_to_Q d)).

(** The binary64 value of a number. *)
Definition number_value (x : number) : spec_float :=
  match x with
  | Finite d => decimal_value d
  | NaN => S754_nan
  | Infinity neg => S754_infinity neg
  end.

(** The binary64 value of an integer (array lengths, integer constants). *)
Definition float_of_Z (n : Z) : spec_float := binary_normalize 53 1024 n 0 false.

(** ** Tokens of the modelled expression language

    [new Function('return ' + expression)] hands the text to the JavaScript
    parser.  The model covers the expressions built from numeric literals,
    identifiers, [true], [false], [null], parentheses, [!], unary [-], the
    comparison and equality operators, [&&] and [||].  A text that uses
    anything else has no value in the model ([None]): the model is silent
    about it, it does not claim that JavaScript rejects it. *)

Inductive cmp_op : Type := Lt | Le | Gt | Ge | EqEq | NotEq | StrictEq | StrictNe.

Inductive token : Type :=
| TNum (f : spec_float)
| TIdent (name : string)
| TTrue | TFalse | TNull
| TLParen | TRParen
| TNot | TMinus
| TCmp (op : cmp_op)
| TAnd | TOr.

Definition is_exp_char (c : ascii) : bool :=
  (char_code c =? 101) || (char_code c =? 69).

Definition is_dot (c : ascii) : bool := char_code c =? 46.

(** What may follow a numeric literal or a word: not an identifier
    character and not a dot. *)
Definition boundary (s : text) : bool :=
  match s with
  | [] => true
  | c :: _ => negb (is_ident_char c || is_dot c)
  end.

Definition next_is (p : ascii) (s : text) : bool :=
  match s with
  | d :: _ => Ascii.eqb d p
  | [] => false
  end.

(** The exponent part of a literal: [e], an optional sign, digits. *)
Definition lex_exponent (s : text) : option (Z * text) :=
  match s with
  | c :: r =>
      if is_exp_char c then
        let sg := if next_is "-"%char r then -1 else 1 in
        let r' := if next_is "+"%char r || next_is "-"%char r then tl r else r in
        let '(ed, r'') := span is_digit r' in
        match ed with
        | [] => None
        | _ => Some (sg * of_digits ed, r'')
        end
      else Some (0, s)
  | [] => Some (0, [])
  end.

(** A decimal literal: integer digits, an optional fraction, an optional
    exponent.  Literals with a leading zero (legacy octal) are outside the
    model. *)
Definition leading_zero (ip : text) : bool :=
  match ip with
  | z :: _ :: _ => is_zero_char z
  | _ => false
  end.

Definition is_nil (s : text) : bool :=
  match s with [] => true | _ => false end.

Definition lex_number (s : text) : option (decimal * text) :=
  let '(ip, r1) := span is_digit s in
  let '(fp, r2) :=
    match r1 with
    | c :: r => if is_dot c then span is_digit r else ([], r1)
    | [] => ([], r1)
    end in
  if (is_nil ip && is_nil fp) || leading_zero ip then None
  else
    match lex_exponent r2 with
    | Some (ex, r3) =>
        if boundary r3
        then Some (Decimal (of_digits (ip ++ fp))
                           (ex - Z.of_nat (List.length fp)), r3)
        else None
    | None => None
    end.

(** Words that are operators, statements or have a meaning of their own
    inside a function body: outside the model. *)
Definition unmodelled_words : list string :=
  [ "break"; "case"; "catch"; "class"; "const"; "continue"; "debugger";
    "default"; "delete"; "do"; "else"; "enum"; "export"; "extends";
    "finally"; "for"; "function"; "if"; "import"; "in"; "instanceof";
    "new"; "return"; "super"; "switch"; "this"; "throw"; "try"; "typeof";
    "var"; "void"; "while"; "with"; "yield"; "let"; "static"; "implements";
    "interface"; "package"; "private"; "protected"; "public"; "await";
    "async"; "of"; "get"; "set"; "arguments"; "eval" ]%string.

Definition word_token (w : string) : option token :=
  if String.eqb w "true" then Some TTrue
  else if String.eqb w "false" then Some TFalse
  else if String.eqb w "null" then Some TNull
  else if existsb (String.eqb w) unmodelled_words then None
  else Some (TIdent w).

(** Punctuators are read by longest match; the ones outside the modelled
    language ([<<], [>>], [=], [=>], [&], [|], [--], [-=], ...) give
    [None]. *)
Definition lex_punct (c : ascii) (s : text) : option (token * text) :=
  if Ascii.eqb c "("%char then Some (TLParen, s)
  else if Ascii.eqb c ")"%char then Some (TRParen, s)
  else if Ascii.eqb c "<"%char then
    if next_is "="%char s then Some (TCmp Le, tl s)
    else if next_is "<"%char s then None
    else Some (TCmp Lt, s)
  else if Ascii.eqb c ">"%char then
    if next_is "="%char s then Some (TCmp Ge, tl s)
    else if next_is ">"%char s then None
    else Some (TCmp Gt, s)
  else if Ascii.eqb c "="%char then
    if next_is "="%char s then
      if next_is "="%char (tl s) then Some (TCmp StrictEq, tl (tl s))
      else Some (TCmp EqEq, tl s)
    else None
  else if Ascii.eqb c "!"%char then
    if next_is "="%char s then
      if next_is "="%char (tl s) then Some (TCmp StrictNe, tl (tl s))
      else Some (TCmp NotEq, tl s)
    else Some (TNot, s)
  else if Ascii.eqb c "&"%char then
    if next_is "&"%char s then
      if next_is "="%char (tl s) then None else Some (TAnd, tl s)
    else None
  else if Ascii.eqb c "|"%char then
    if next_is "|"%char s then
      if next_is "="%char (tl s) then None else Some (TOr, tl s)
    else None
  else if Ascii.eqb c "-"%char then
    if next_is "-"%char s || next_is "="%char s then None
    else Some (TMinus, s)
  else None.

(** A digit or a dot starts a numeric literal (a dot that starts none is
    outside the model). *)
Definition starts_number (c : ascii) : bool := is_digit c || is_dot c.

Fixpoint lex_fuel (fuel : nat) (s : text) : option (list token) :=
  match fuel with
  | O => None
  | S fuel' =>
      match s with
      | [] => Some []
      | c :: s' =>
          if is_space c then lex_fuel fuel' s'
          else if starts_number c then
            match lex_number s with
            | Some (d, rest) =>
                option_map (cons (TNum (decimal_value d))) (lex_fuel fuel' rest)
            | None => None
            end
          else if is_ident_start c then
            let '(w, rest) := span is_ident_char s in
            if boundary rest then
              match word_token (string_of w) with
              | Some t => option_map (cons t) (lex_fuel fuel' rest)
              | None => None
              end
            else None
          else
            match lex_punct c s' with
            | Some (t, rest) => option_map (cons t) (lex_fuel fuel' rest)
            | None => None
            end
      end
  end.

Definition lex (s : text) : option (list token) :=
  lex_fuel (S (List.length s)) s.

(** ** Expressions and their parser *)

Inductive expr : Type :=
| ENum (f : spec_float)
| EBool (b : bool)
| ENull
| EIdent (name : string)
| EParen (e : expr)
| ENot (e : expr)
| ENeg (e : expr)
| ECmp (op : cmp_op) (a b : expr)
| EAnd (a b : expr)
| EOr (a b : expr).

Inductive parsed (A : Type) : Type :=
| POk (a : A)
| PSyntaxError
| PFuel.
Arguments POk {A} a.
Arguments PSyntaxError {A}.
Arguments PFuel {A}.

Definition pbind {A B : Type} (m : parsed A) (k : A -> parsed B) : parsed B :=
  match m with
  | POk a => k a
  | PSyntaxError => PSyntaxError
  | PFuel => PFuel
  end.

(** The binary levels, from the loosest: [||], [&&], equality, relational. *)
Inductive level : Type := LOr | LAnd | LEq | LRel.

Definition is_equality (op : cmp_op) : bool :=
  match op with
  | EqEq | NotEq | StrictEq | StrictNe => true
  | _ => false
  end.

Definition level_op (l : level) (t : token) : option (expr -> expr -> expr) :=
  match l, t with
  | LOr, TOr => Some EOr
  | LAnd, TAnd => Some EAnd
  | LEq, TCmp op => if is_equality op then Some (ECmp op) else None
  | LRel, TCmp op => if is_equality op then None else Some (ECmp op)
  | _, _ => None
  end.

Definition next_level (l : level) : option level :=
  match l with
  | LOr => Some LAnd
  | LAnd => Some LEq
  | LEq => Some LRel
  | LRel => None
  end.

(** Recursive descent; every binary operator associates to the left. *)
Fixpoint parse_level (fuel : nat) (l : level) (toks : list token)
  : parsed (expr * list token) :=
  match fuel with
  | O => PFuel
  | S f =>
      pbind (match next_level l with
             | Some l' => parse_level f l' toks
             | None => parse_unary f toks
             end)
            (fun '(lhs, r) => parse_loop f l lhs r)
  end
with parse_loop (fuel : nat) (l : level) (lhs : expr) (toks : list token)
  : parsed (expr * list token) :=
  match fuel with
  | O => PFuel
  | S f =>
      match toks with
      | t :: r =>
          match level_op l t with
          | Some mk =>
              pbind (match next_level l with
                     | Some l' => parse_level f l' r
                     | None => parse_unary f r
                     end)
                    (fun '(rhs, r') => parse_loop f l (mk lhs rhs) r')
          | None => POk (lhs, toks)
          end
      | [] => POk (lhs, toks)
      end
  end
with parse_unary (fuel : nat) (toks : list token)
  : parsed (expr * list token) :=
  match fuel with
  | O => PFuel
  | S f =>
      match toks with
      | TNot :: r => pbind (parse_unary f r) (fun '(e, r') => POk (ENot e, r'))
      | TMinus :: r => pbind (parse_unary f r) (fun '(e, r') => POk (ENeg e, r'))
      | TNum n :: r => POk (ENum n, r)
      | TIdent s :: r => POk (EIdent s, r)
      | TTrue :: r => POk (EBool true, r)
      | TFalse :: r => POk (EBool false, r)
      | TNull :: r => POk (ENull, r)
      | TLParen :: r =>
          pbind (parse_level f LOr r)
                (fun '(e, r') =>
                   match r' with
                   | TRParen :: r'' => POk (EParen e, r'')
                   | _ => PSyntaxError
                   end)
      | _ => PSyntaxError
      end
  end.

(** A token that can end an operand. *)
Definition ends_operand (t : token) : bool :=
  match t with
  | TNum _ | TIdent _ | TTrue | TFalse | TNull | TRParen => true
  | _ => false
  end.

(** An operand directly followed by [-] is a subtraction and one directly
    followed by [(] is a call: both are outside the model. *)
Fixpoint unmodelled_adjacent (toks : list token) : bool :=
  match toks with
  | a :: ((b :: _) as r) =>
      (ends_operand a && match b with TMinus | TLParen => true | _ => false end)
      || unmodelled_adjacent r
  | _ => false
  end.

Definition parse_fuel (toks : list token) : nat := 6 * List.length toks + 6.

(** ** Values and evaluation *)

Inductive value : Type :=
| VUndefined
| VNull
| VBool (b : bool)
| VNum (f : spec_float)
| VOther.   (* a string, object, function, symbol or bigint *)

Inductive error_kind : Type := SyntaxError | ReferenceError.

Inductive completion : Type :=
| Normal (v : value)
| Throw (err : error_kind).

(** The global bindings an identifier of the text can resolve to. *)
Definition global_env : Type := string -> option value.

Definition SFzero : spec_float := S754_zero false.
Definition SFone64 : spec_float := float_of_Z 1.

Definition to_number (v : value) : option spec_float :=
  match v with
  | VUndefined => Some S754_nan
  | VNull => Some SFzero
  | VBool b => Some (if b then SFone64 else SFzero)
  | VNum f => Some f
  | VOther => None
  end.

Definition to_boolean (v : value) : option bool :=
  match v with
  | VUndefined | VNull => Some false
  | VBool b => Some b
  | VNum f =>
      Some (match f with
            | S754_zero _ | S754_nan => false
            | _ => true
            end)
  | VOther => None
  end.

Definition SFcmp (op : cmp_op) (a b : spec_float) : bool :=
  match op with
  | Lt => SFltb a b
  | Gt => SFltb b a
  | Le => SFleb a b
  | Ge => SFleb b a
  | EqEq | StrictEq => SFeqb a b
  | NotEq | StrictNe => negb (SFeqb a b)
  end.

Definition is_nullish (v : value) : bool :=
  match v with VUndefined | VNull => true | _ => false end.

Definition loosely_equal (a b : value) : option bool :=
  match a, b with
  | VOther, _ | _, VOther => None
  | _, _ =>
      if is_nullish a || is_nullish b then Some (is_nullish a && is_nullish b)
      else
        match to_number a, to_number b with
        | Some x, Some y => Some (SFeqb x y)
        | _, _ => None
        end
  end.

Definition strictly_equal (a b : value) : option bool :=
  match a, b with
  | VOther, _ | _, VOther => None
  | VUndefined, VUndefined | VNull, VNull => Some true
  | VBool x, VBool y => Some (Bool.eqb x y)
  | VNum x, VNum y => Some (SFeqb x y)
  | _, _ => Some false
  end.

Definition compare_values (op : cmp_op) (a b : value) : option bool :=
  match op with
  | EqEq => loosely_equal a b
  | NotEq => option_map negb (loosely_equal a b)
  | StrictEq => strictly_equal a b
  | StrictNe => option_map negb (strictly_equal a b)
  | _ =>
      match to_number a, to_number b with
      | Some x, Some y => Some (SFcmp op x y)
      | _, _ => None
      end
  end.

Definition cbind (m : option completion) (k : value -> option completion)
  : option completion :=
  match m with
  | Some (Normal v) => k v
  | _ => m
  end.

Definition lookup_identifier (genv : global_env) (name : string)
  : option completion :=
  if String.eqb name "undefined" then Some (Normal VUndefined)
  else if String.eqb name "NaN" then Some (Normal (VNum S754_nan))
  else if String.eqb name "Infinity" then Some (Normal (VNum (S754_infinity false)))
  else match genv name with
       | Some v => Some (Normal v)
       | None => Some (Throw ReferenceError)
       end.

Fixpoint eval (genv : global_env) (e : expr) : option completion :=
  match e with
  | ENum f => Some (Normal (VNum f))
  | EBool b => Some (Normal (VBool b))
  | ENull => Some (Normal VNull)
  | EIdent name => lookup_identifier genv name
  | EParen a => eval genv a
  | ENot a =>
      cbind (eval genv a) (fun v =>
        option_map (fun b => Normal (VBool (negb b))) (to_boolean v))
  | ENeg a =>
      cbind (eval genv a) (fun v =>
        option_map (fun f => Normal (VNum (SFopp f))) (to_number v))
  | ECmp op a b =>
      cbind (eval genv a) (fun va =>
      cbind (eval genv b) (fun vb =>
        option_map (fun r => Normal (VBool r)) (compare_values op va vb)))
  | EAnd a b =>
      cbind (eval genv a) (fun va =>
        match to_boolean va with
        | Some true => eval genv b
        | Some false => Some (Normal va)
        | None => None
        end)
  | EOr a b =>
      cbind (eval genv a) (fun va =>
        match to_boolean va with
        | Some true => Some (Normal va)
        | Some false => eval genv b
        | None => None
        end)
  end.

Fixpoint strip_prefix (p s : text) : option text :=
  match p, s with
  | [], _ => Some s
  | a :: p', b :: s' => if Ascii.eqb a b then strip_prefix p' s' else None
  | _ :: _, [] => None
  end.

(** Running [return <tokens>]: an empty expression makes the function
    return [undefined]; a text that does not parse is a syntax error, raised
    when the function is built. *)
Definition run_tokens (genv : global_env) (toks : list token)
  : option completion :=
  match toks with
  | [] => Some (Normal VUndefined)
  | _ =>
      if unmodelled_adjacent toks then None
      else
        match parse_level (parse_fuel toks) LOr toks with
        | POk (e, []) => eval genv e
        | POk (_, _ :: _) => Some (Throw SyntaxError)
        | PSyntaxError => Some (Throw SyntaxError)
        | PFuel => None
        end
  end.

(** [new Function(body)()] for a body of the form [return <expression>]. *)
Definition call_new_Function (genv : global_env) (body : text)
  : option completion :=
  match strip_prefix (text_of "return ") body with
  | None => None
  | Some src =>
      match lex src with
      | None => None
      | Some toks => run_tokens genv toks
      end
  end.

(** ** The quadrant classifier (utility module) *)

Record Quadrant : Type := {
  id : string;
  name : string;
  description : string;
  implication : string;
  rule : string;
  color : string
}.

(** [rule.replace(/x/g, x.toString()).replace(/y/g, y.toString())] *)
Definition substitute (x y : number) (s : text) : text :=
  replace_all "y"%char (Number_toString y)
    (replace_all "x"%char (Number_toString x) s).

(** [evaluateQuadrantRule]: the value the function returns ([None] when the
    text leaves the modelled language).  Whatever the evaluation throws is
    caught and turned into [false]. *)
Definition evaluateQuadrantRule (genv : global_env) (rule : string) (x y : number)
  : option value :=
  let expression := substitute x y (text_of rule) in
  match call_new_Function genv (text_of "return " ++ expression) with
  | Some (Normal v) => Some v
  | Some (Throw _) => Some (VBool false)
  | None => None
  end.

(** [getQuadrantForItem]: [Some (Some q)] for the quadrant found,
    [Some None] for [null]. *)
Fixpoint getQuadrantForItem (genv : global_env) (x y : number)
  (quadrants : list Quadrant) : option (option Quadrant) :=
  match quadrants with
  | [] => Some None
  | quadrant :: rest =>
      match evaluateQuadrantRule genv (rule quadrant) x y with
      | None => None
      | Some v =>
          match to_boolean v with
          | None => None
          | Some true => Some (Some quadrant)
          | Some false => getQuadrantForItem genv x y rest
          end
      end
  end.

Local Open Scope string_scope.

Definition generateDefaultQuadrants (xLabel yLabel : string) : list Quadrant :=
  let xLow := "Low " ++ xLabel in
  let xHigh := "High " ++ xLabel in
  let yLow := "Low " ++ yLabel in
  let yHigh := "High " ++ yLabel in
  [ {| id := "Q1";
       name := xHigh ++ " / " ++ yHigh;
       description := "Items with high " ++ toLowerCase xLabel
                        ++ " and high " ++ toLowerCase yLabel;
       implication := "High priority items requiring immediate attention";
       rule := "x >= 50 && y >= 50";
       color := "#ef4444" |};
    {| id := "Q2";
       name := xLow ++ " / " ++ yHigh;
       description := "Items with low " ++ toLowerCase xLabel
                        ++ " and high " ++ toLowerCase yLabel;
       implication := "Important but not urgent items";
       rule := "x < 50 && y >= 50";
       color := "#f97316" |};
    {| id := "Q3";
       name := xLow ++ " / " ++ yLow;
       description := "Items with low " ++ toLowerCase xLabel
                        ++ " and low " ++ toLowerCase yLabel;
       implication := "Low priority items that can be deprioritized";
       rule := "x < 50 && y < 50";
       color := "#22c55e" |};
    {| id := "Q4";
       name := xHigh ++ " / " ++ yLow;
       description := "Items with high " ++ toLowerCase xLabel
                        ++ " and low " ++ toLowerCase yLabel;
       implication := "Items that may need attention but are not critical";
       rule := "x >= 50 && y < 50";
       color := "#3b82f6" |} ]%list.

Local Close Scope string_scope.

(** ** The classifier in an arbitrary realm

    [evaluateQuadrantRule] and [getQuadrantForItem] once more, this time
    with the evaluation of the text as a parameter, so that every rule text
    and every realm is covered: what [new Function(body)()] does in a state
    of the realm (it returns a value or it throws, and it may change the
    state) is a field of the realm, and so is the truthiness of its values.
    The definitions above are the instance where the texts of the modelled
    expression language are run by the model. *)
Module Realm.

Inductive completion (V E : Type) : Type :=
| Returned (v : V)
| Thrown (e : E).
Arguments Returned {V E} v.
Arguments Thrown {V E} e.

Record realm (V E S : Type) : Type := {
  ToBoolean : V -> bool;
  false_value : V;
  false_is_falsy : ToBoolean false_value = false;
  new_Function : text -> S -> completion V E * S
}.
Arguments ToBoolean {V E S} r v.
Arguments false_value {V E S} r.
Arguments false_is_falsy {V E S} r.
Arguments new_Function {V E S} r body s.

Section Classifier.

Context {V E S : Type} (R : realm V E S).

(** The value the function returns, and the state afterwards. *)
Definition evaluateQuadrantRule (rule : string) (x y : number) (s : S) : V * S :=
  let expression := substitute x y (text_of rule) in
  match new_Function R (text_of "return " ++ expression) s with
  | (Returned v, s') => (v, s')
  | (Thrown _, s') => (false_value R, s')
  end.

Fixpoint getQuadrantForItem (x y : number) (quadrants : list Quadrant) (s : S)
  : option Quadrant * S :=
  match quadrants with
  | [] => (None, s)
  | quadrant :: rest =>
      let '(v, s') := evaluateQuadrantRule (rule quadrant) x y s in
      if ToBoolean R v then (Some quadrant, s')
      else getQuadrantForItem x y rest s'
  end.

End Classifier.

End Realm.

(** ** Items, axes and the analysis result (type declarations) *)

Module Item.
Record AnalysisItem : Type := {
  name : string;
  x : number;
  y : number;
  confidence : number;
  rationale : string;
  citations : list string
}.
End Item.
Definition AnalysisItem : Type := Item.AnalysisItem.

Module Axis.
Record Axes : Type := {
  x : string;
  y : string;
  rationale : string
}.
End Axis.
Definition Axes : Type := Axis.Axes.

Inductive Domain : Type := risk | priority | investments | sports | auto.

(** The metadata of a result: the two fields every result has and the
    fields the route adds. *)
Record Metadata : Type := {
  processing_time : spec_float;
  meta_confidence : spec_float;
  analysisId : option string;
  timestamp : option string;
  meta_domain : option Domain;
  textLength : option nat;
  usingMockData : option bool
}.

Record AnalysisResult : Type := {
  axes : Axes;
  items : list AnalysisItem;
  quadrants : list Quadrant;
  insights : list string;
  metadata : Metadata
}.

(** ** Binary64 helpers *)

Definition float_of_nat (n : nat) : spec_float := float_of_Z (Z.of_nat n).

(** The value of the numeric literal [m * 10 ^ e] of the source text. *)
Definition literal (m e : Z) : spec_float := decimal_value (Decimal m e).

Definition js_gt (a b : spec_float) : bool := SFltb b a.
Definition js_lt (a b : spec_float) : bool := SFltb a b.
Definition js_ge (a b : spec_float) : bool := SFleb b a.
Definition js_mul : spec_float -> spec_float -> spec_float := SFmul 53 1024.
Definition js_div : spec_float -> spec_float -> spec_float := SFdiv 53 1024.
Definition js_add : spec_float -> spec_float -> spec_float := SFadd 53 1024.

(** The exponent of the binary64 format for a number of magnitude [2^k]. *)
Definition fexp64 (k : Z) : Z := fexp 53 1024 k.

(** The value of a float in units of [2^-1074]: every binary64 number is
    an integer multiple of the least subnormal. *)
Definition SF2Z (f : spec_float) : Z :=
  match f with
  | S754_finite s m e => (if s then -1 else 1) * (Zpos m * 2 ^ (e + 1074))
  | _ => 0
  end.

(** The numbers that have a value: not NaN, not infinite. *)
Definition finite_or_zero (f : spec_float) : bool :=
  match f with
  | S754_zero _ | S754_finite _ _ _ => true
  | _ => false
  end.

Definition pad_left (n : nat) (s : text) : text :=
  repeat "0"%char (n - List.length s) ++ s.

(** The shortest decimal that reads back as the integer value [big] of [v]
    (which has [n] digits): for [k = 1, 2, ...] significant digits, the two
    [k]-digit neighbours of [big] are tried, and the nearer one is taken when
    both read back.  Seventeen digits always identify a binary64 value. *)
Fixpoint shortest_from (fuel : nat) (v : spec_float) (big n k : Z) : decimal :=
  match fuel with
  | O => Decimal big 0
  | S fuel' =>
      let e := n - k in
      let p := 10 ^ e in
      let lo := big / p in
      let hi := lo + 1 in
      let reads s := SFeqb (decimal_value (Decimal s e)) v in
      if reads lo then
        if reads hi && (hi * p - big <? big - lo * p) then Decimal hi e
        else Decimal lo e
      else if reads hi then Decimal hi e
      else shortest_from fuel' v big n (k + 1)
  end.

(** [Number::toString] of a finite value that is an integer of at least
    [10^21]. *)
Definition toString_large (v : spec_float) (big : Z) : text :=
  let d := shortest_from 17 v big (Z.of_nat (List.length (digits_of_Z big))) 1 in
  toString_pos (mant d) (expo d).

(** [Number.prototype.toFixed(f)] for [0 <= f <= 100]: below [10^21], the
    integer [n] nearest to [v * 10^f] (the larger one on a tie) printed with
    [f] decimals; from [10^21] on and for a value that is not finite, what
    [toString] prints.  The value is exactly [m * 2^e], so [n] is computed in
    integers. *)
Definition toFixed (v : spec_float) (f : nat) : text :=
  let render (neg : bool) (n : Z) : text :=
    let ds := pad_left (S f) (digits_of_Z n) in
    let k := (List.length ds - f)%nat in
    (if neg then ["-"%char] else [])
      ++ firstn k ds
      ++ (match f with O => [] | _ => "."%char :: skipn k ds end) in
  match v with
  | S754_nan => text_of "NaN"
  | S754_infinity neg => text_of (if neg then "-Infinity" else "Infinity")
  | S754_zero neg => render false 0
  | S754_finite neg m e =>
      if (0 <=? e) && (10 ^ 21 <=? Zpos m * 2 ^ e) then
        (if neg then ["-"%char] else [])
          ++ toString_large (S754_finite false m e) (Zpos m * 2 ^ e)
      else
        let scaled := Zpos m * 10 ^ Z.of_nat f in
        let n := if 0 <=? e then scaled * 2 ^ e
                 else (2 * scaled + 2 ^ (- e)) / 2 ^ (- e + 1) in
        render neg n
  end.

Definition nat_toString (n : nat) : string := string_of (digits_of_Z (Z.of_nat n)).

(** ** The insight aggregator *)

Inductive exn : Type := TypeError (msg : string) | Error (msg : string).

(** What a call does: it returns, it throws, or it leaves the model. *)
Inductive outcome (A : Type) : Type :=
| Returns (a : A)
| Throws (e : exn)
| Unmodelled.
Arguments Returns {A} a.
Arguments Throws {A} e.
Arguments Unmodelled {A}.

Definition obind {A B : Type} (m : outcome A) (k : A -> outcome B) : outcome B :=
  match m with
  | Returns a => k a
  | Throws e => Throws e
  | Unmodelled => Unmodelled
  end.

Definition of_option {A : Type} (m : option A) : outcome A :=
  match m with Some a => Returns a | None => Unmodelled end.

Module InsightType.
Inductive insight_type : Type :=
  distribution | confidence | outliers | patterns | recommendations.
End InsightType.
Definition insight_type : Type := InsightType.insight_type.

Inductive icon : Type :=
  BullseyeIcon | ArrowTrendingUpIcon | ExclamationTriangleIcon.

Module Insight.
Record GeneratedInsight : Type := {
  type : insight_type;
  title : string;
  description : string;
  icon : icon;
  color : string;
  items : option (list AnalysisItem)
}.
End Insight.
Definition GeneratedInsight : Type := Insight.GeneratedInsight.

Module Count.
Record QuadrantCount : Type := {
  quadrant : Quadrant;
  items : list AnalysisItem
}.
End Count.
Definition QuadrantCount : Type := Count.QuadrantCount.

Fixpoint filter_opt {A : Type} (p : A -> option bool) (l : list A)
  : option (list A) :=
  match l with
  | [] => Some []
  | a :: l' =>
      match p a, filter_opt p l' with
      | Some b, Some r => Some (if b then a :: r else r)
      | _, _ => None
      end
  end.

Fixpoint map_opt {A B : Type} (f : A -> option B) (l : list A) : option (list B) :=
  match l with
  | [] => Some []
  | a :: l' =>
      match f a, map_opt f l' with
      | Some b, Some r => Some (b :: r)
      | _, _ => None
      end
  end.

(** [itemQuadrant?.id === q.id] *)
Definition item_in_quadrant (genv : global_env) (quadrants : list Quadrant)
  (q : Quadrant) (item : AnalysisItem) : option bool :=
  match getQuadrantForItem genv (Item.x item) (Item.y item) quadrants with
  | None => None
  | Some None => Some false
  | Some (Some itemQuadrant) => Some (String.eqb (id itemQuadrant) (id q))
  end.

Definition quadrantCounts (genv : global_env) (items : list AnalysisItem)
  (quadrants : list Quadrant) : option (list QuadrantCount) :=
  map_opt (fun q =>
             option_map (fun its => {| Count.quadrant := q; Count.items := its |})
                        (filter_opt (item_in_quadrant genv quadrants q) items))
          quadrants.

(** [Array.prototype.reduce] without an initial value: the first element
    starts the fold, and an empty array is a TypeError. *)
Definition reduce {A : Type} (f : A -> A -> A) (l : list A) : outcome A :=
  match l with
  | [] => Throws (TypeError "Reduce of empty array with no initial value")
  | first :: rest => Returns (fold_left f rest first)
  end.

Definition larger_count (max current : QuadrantCount) : QuadrantCount :=
  if (List.length (Count.items max) <? List.length (Count.items current))%nat
  then current else max.

Definition quote : string := String (ascii_of_nat 34) EmptyString.

Definition fixed (v : spec_float) (f : nat) : string := string_of (toFixed v f).

Definition is_outlier (item : AnalysisItem) : bool :=
  (js_gt (number_value (Item.x item)) (literal 90 0)
   || js_lt (number_value (Item.x item)) (literal 10 0))
  || (js_gt (number_value (Item.y item)) (literal 90 0)
      || js_lt (number_value (Item.y item)) (literal 10 0)).

Definition sum_of (f : AnalysisItem -> number) (items : list AnalysisItem)
  : spec_float :=
  fold_left (fun sum item => js_add sum (number_value (f item))) items (literal 0 0).

Local Open Scope string_scope.

Definition clustering_insight (maxQuadrant : QuadrantCount) (pct : string)
  : GeneratedInsight :=
  {| Insight.type := InsightType.distribution;
     Insight.title := "Clustering Detected";
     Insight.description :=
       pct ++ "% of items are concentrated in the " ++ quote
           ++ name (Count.quadrant maxQuadrant) ++ quote
           ++ " quadrant, suggesting a clear pattern in your data.";
     Insight.icon := BullseyeIcon;
     Insight.color := "blue";
     Insight.items := Some (Count.items maxQuadrant) |}.

Definition outlier_insight (outliers : list AnalysisItem) : GeneratedInsight :=
  {| Insight.type := InsightType.outliers;
     Insight.title := "Extreme Positions Identified";
     Insight.description :=
       nat_toString (List.length outliers)
         ++ " items are positioned at extreme values, representing either exceptional cases or edge scenarios worth special attention.";
     Insight.icon := ExclamationTriangleIcon;
     Insight.color := "red";
     Insight.items := Some outliers |}.

Definition generateDataInsights (genv : global_env)
  (items : list AnalysisItem) (quadrants : list Quadrant) (axes : Axes)
  : outcome (list GeneratedInsight) :=
  let n := float_of_nat (List.length items) in
  (* Distribution analysis *)
  obind (of_option (quadrantCounts genv items quadrants)) (fun counts =>
  obind (reduce larger_count counts) (fun maxQuadrant =>
  let c := float_of_nat (List.length (Count.items maxQuadrant)) in
  let ins1 :=
    if js_gt c (js_mul n (literal 4 (-1)))
    then [clustering_insight maxQuadrant
            (fixed (js_mul (js_div c n) (literal 100 0)) 0)]%list
    else []%list in
  (* Confidence analysis *)
  let highConfidenceItems :=
    filter (fun item => js_gt (number_value (Item.confidence item)) (literal 8 (-1))) items in
  let lowConfidenceItems :=
    filter (fun item => js_lt (number_value (Item.confidence item)) (literal 6 (-1))) items in
  let ins2 :=
    if js_gt (float_of_nat (List.length highConfidenceItems)) (js_mul n (literal 7 (-1)))
    then [ {| Insight.type := InsightType.confidence;
              Insight.title := "High Analysis Confidence";
              Insight.description :=
                nat_toString (List.length highConfidenceItems) ++ " out of "
                  ++ nat_toString (List.length items)
                  ++ " items have high confidence scores (>80%), indicating reliable positioning.";
              Insight.icon := ArrowTrendingUpIcon;
              Insight.color := "green";
              Insight.items := Some highConfidenceItems |} ]%list
    else []%list in
  let ins3 :=
    if js_gt (float_of_nat (List.length lowConfidenceItems)) (js_mul n (literal 3 (-1)))
    then [ {| Insight.type := InsightType.confidence;
              Insight.title := "Some Uncertain Positions";
              Insight.description :=
                nat_toString (List.length lowConfidenceItems)
                  ++ " items have lower confidence scores, which may require additional context or data for better positioning.";
              Insight.icon := ExclamationTriangleIcon;
              Insight.color := "yellow";
              Insight.items := Some lowConfidenceItems |} ]%list
    else []%list in
  (* Outlier analysis *)
  let outliers := filter is_outlier items in
  let ins4 :=
    if (0 <? List.length outliers)%nat then [outlier_insight outliers]%list
    else []%list in
  (* Pattern analysis *)
  let xAverage := js_div (sum_of Item.x items) n in
  let yAverage := js_div (sum_of Item.y items) n in
  let ins5 :=
    if js_gt xAverage (literal 60 0)
    then [ {| Insight.type := InsightType.patterns;
              Insight.title := "High " ++ Axis.x axes ++ " Tendency";
              Insight.description :=
                "Most items show high " ++ toLowerCase (Axis.x axes)
                  ++ " values (average: " ++ fixed xAverage 1
                  ++ "), indicating a general trend toward this characteristic.";
              Insight.icon := ArrowTrendingUpIcon;
              Insight.color := "blue";
              Insight.items := None |} ]%list
    else []%list in
  let ins6 :=
    if js_gt yAverage (literal 60 0)
    then [ {| Insight.type := InsightType.patterns;
              Insight.title := "High " ++ Axis.y axes ++ " Pattern";
              Insight.description :=
                "The majority of items demonstrate high "
                  ++ toLowerCase (Axis.y axes)
                  ++ " (average: " ++ fixed yAverage 1
                  ++ "), suggesting this is a dominant theme.";
              Insight.icon := ArrowTrendingUpIcon;
              Insight.color := "purple";
              Insight.items := None |} ]%list
    else []%list in
  (* Strategic recommendations *)
  let topRightItems :=
    filter (fun item => js_gt (number_value (Item.x item)) (literal 70 0)
                        && js_gt (number_value (Item.y item)) (literal 70 0)) items in
  let ins7 :=
    if (0 <? List.length topRightItems)%nat
    then [ {| Insight.type := InsightType.recommendations;
              Insight.title := "Priority Focus Areas";
              Insight.description :=
                nat_toString (List.length topRightItems) ++ " items in the high-"
                  ++ Axis.x axes ++ "/high-" ++ Axis.y axes
                  ++ " area represent your highest priority opportunities requiring immediate attention.";
              Insight.icon := BullseyeIcon;
              Insight.color := "green";
              Insight.items := Some topRightItems |} ]%list
    else []%list in
  Returns (ins1 ++ ins2 ++ ins3 ++ ins4 ++ ins5 ++ ins6 ++ ins7)%list)).

Local Close Scope string_scope.

(** The data-driven insights of the insights panel: [AnalysisResults]
    hands the panel the items, the quadrants and the axes of the result, and
    the panel calls the aggregator with them. *)
Definition dataInsights (genv : global_env) (result : AnalysisResult)
  : outcome (list GeneratedInsight) :=
  generateDataInsights genv (items result) (quadrants result) (axes result).

(** ** The confidence summary and the placeholder analysis *)

(** The analyzer's reply once its JSON text is parsed. *)
Record OpenAIAnalysisResponse : Type := {
  reply_axes : Axes;
  reply_items : list AnalysisItem;
  reply_insights : list string
}.

Definition plain_metadata (time conf : spec_float) : Metadata :=
  {| processing_time := time; meta_confidence := conf;
     analysisId := None; timestamp := None; meta_domain := None;
     textLength := None; usingMockData := None |}.

(** [overallConfidence] of [analyzeContent]: the mean of the item
    confidences, [0] when there is no item. *)
Definition overallConfidence (items : list AnalysisItem) : spec_float :=
  if (0 <? List.length items)%nat
  then js_div (sum_of Item.confidence items) (float_of_nat (List.length items))
  else literal 0 0.

(** What awaiting a promise gives. *)
Inductive settled (A : Type) : Type :=
| Fulfilled (a : A)
| Rejected (e : exn).
Arguments Fulfilled {A} a.
Arguments Rejected {A} e.

(** [analyzeContent] after the exchange with the analyzer: [None] stands
    for a missing or unreadable reply, which the function turns into its own
    error. *)
Definition analyzeContent (reply : option OpenAIAnalysisResponse)
  (processingTime : spec_float) : settled AnalysisResult :=
  match reply with
  | None => Rejected (Error "Failed to analyze content. Please try again.")
  | Some analysisData =>
      Fulfilled
        {| axes := reply_axes analysisData;
           items := reply_items analysisData;
           quadrants := generateDefaultQuadrants
                          (Axis.x (reply_axes analysisData))
                          (Axis.y (reply_axes analysisData));
           insights := reply_insights analysisData;
           metadata := plain_metadata processingTime
                         (overallConfidence (reply_items analysisData)) |}
  end.

Local Open Scope string_scope.

Definition createMockAnalysis (text : string) (domain : string) : AnalysisResult :=
  let mockItems :=
    [ {| Item.name := "Item A"; Item.x := int 75; Item.y := int 85;
         Item.confidence := dec 9 (-1);
         Item.rationale := "High on both dimensions based on content analysis";
         Item.citations := ["Sample citation from text..."]%list |};
      {| Item.name := "Item B"; Item.x := int 25; Item.y := int 65;
         Item.confidence := dec 8 (-1);
         Item.rationale := "Low X but moderate Y based on characteristics";
         Item.citations := ["Another sample citation..."]%list |};
      {| Item.name := "Item C"; Item.x := int 60; Item.y := int 30;
         Item.confidence := dec 7 (-1);
         Item.rationale := "Moderate X but low Y value";
         Item.citations := ["Third citation example..."]%list |} ]%list in
  let axes :=
    {| Axis.x := if String.eqb domain "risk" then "Probability" else "Importance";
       Axis.y := if String.eqb domain "risk" then "Impact" else "Urgency";
       Axis.rationale :=
         "These variables provide the best separation of items in the content" |} in
  {| axes := axes;
     items := mockItems;
     quadrants := generateDefaultQuadrants (Axis.x axes) (Axis.y axes);
     insights :=
       [ "Most items cluster in the high-impact region";
         "There is a clear separation between high and low probability items";
         "Focus attention on the high-probability, high-impact quadrant first" ]%list;
     metadata := plain_metadata (literal 25 (-1)) (literal 8 (-1)) |}.

(** ** The analysis route *)

Module Request.
Record AnalysisRequest : Type := {
  text : option string;
  files : option (list string);
  domain_hint : option string;
  force_axes : option (option string * option string)
}.
End Request.
Definition AnalysisRequest : Type := Request.AnalysisRequest.

Inductive response_body : Type :=
| ResultBody (r : AnalysisResult)
| ErrorBody (error : string).

Record response : Type := { status : nat; body : response_body }.

(** The white space and the line terminators that [String.prototype.trim]
    and the class [\s] of a regular expression take: among the code units
    below 256 these are U+0009 to U+000D, the space and the no-break space
    U+00A0. *)
Definition is_trim_space (c : ascii) : bool :=
  ((9 <=? char_code c)%Z && (char_code c <=? 13)%Z) || (char_code c =? 32)%Z
  || (char_code c =? 160)%Z.

Definition trim (s : string) : string :=
  string_of (rev (snd (span is_trim_space
                            (rev (snd (span is_trim_space (text_of s))))))).

Definition validDomains : list string :=
  ["risk"; "priority"; "investments"; "sports"; "auto"]%list.

Definition parse_domain (d : string) : option Domain :=
  if String.eqb d "risk" then Some risk
  else if String.eqb d "priority" then Some priority
  else if String.eqb d "investments" then Some investments
  else if String.eqb d "sports" then Some sports
  else if String.eqb d "auto" then Some auto
  else None.

Definition unshift (note : string) (r : AnalysisResult) : AnalysisResult :=
  {| axes := axes r; items := items r; quadrants := quadrants r;
     insights := (note :: insights r)%list; metadata := metadata r |}.

Definition with_metadata (r : AnalysisResult) (m : Metadata) : AnalysisResult :=
  {| axes := axes r; items := items r; quadrants := quadrants r;
     insights := insights r; metadata := m |}.

(** [POST].  [request] is the parsed request body ([None] when reading it
    fails), [hasApiKey] says whether the analyzer's key is configured,
    [analysis] is what awaiting [analyzeContent] gives, and [newId] and [now]
    are the generated identifier and the time stamp.  A failure of the store
    is logged and ignored, so the store does not appear. *)
Definition POST (request : option AnalysisRequest) (hasApiKey : bool)
  (analysis : settled AnalysisResult) (newId now : string) : response :=
  match request with
  | None =>
      {| status := 500; body := ErrorBody "Internal server error during analysis" |}
  | Some body =>
      match Request.text body with
      | None =>
          {| status := 400;
             body := ErrorBody "Text content is required and must be at least 10 characters long" |}
      | Some text =>
          if (String.length text =? 0)%nat
             || (String.length (trim text) <? 10)%nat
          then
            {| status := 400;
               body := ErrorBody "Text content is required and must be at least 10 characters long" |}
          else if (50000 <? Z.of_nat (String.length text))%Z then
            {| status := 400;
               body := ErrorBody "Text content exceeds maximum length of 50,000 characters" |}
          else
            let domain :=
              match Request.domain_hint body with
              | Some d => if String.eqb d EmptyString then "auto" else d
              | None => "auto"
              end in
            if negb (existsb (String.eqb domain) validDomains) then
              {| status := 400; body := ErrorBody "Invalid domain hint" |}
            else
              let analysisResult :=
                if hasApiKey then
                  match analysis with
                  | Fulfilled r => r
                  | Rejected _ =>
                      unshift
                        "Note: This is a demonstration analysis. Configure OpenAI API key for full AI-powered analysis."
                        (createMockAnalysis text domain)
                  end
                else
                  unshift
                    "Demo Mode: This is sample analysis. Configure OpenAI API key for AI-powered analysis."
                    (createMockAnalysis text domain) in
              let m := metadata analysisResult in
              {| status := 200;
                 body := ResultBody (with_metadata analysisResult
                   {| processing_time := processing_time m;
                      meta_confidence := meta_confidence m;
                      analysisId := Some newId;
                      timestamp := Some now;
                      meta_domain := parse_domain domain;
                      textLength := Some (String.length text);
                      usingMockData := Some (negb hasApiKey) |}) |}
      end
  end.

(** ** The chart's marker colour ([AnalysisResults]) *)

(** The quadrant the scatter plot picks for an item: a fixed split at 50
    keyed by the quadrant's id. *)
Definition chart_quadrant (item : AnalysisItem) (quadrants : list Quadrant)
  : option Quadrant :=
  find (fun q =>
          let midX := literal 50 0 in
          let midY := literal 50 0 in
          let ix := number_value (Item.x item) in
          let iy := number_value (Item.y item) in
          if String.eqb (id q) "Q1" then js_ge ix midX && js_ge iy midY
          else if String.eqb (id q) "Q2" then js_lt ix midX && js_ge iy midY
          else if String.eqb (id q) "Q3" then js_lt ix midX && js_lt iy midY
          else if String.eqb (id q) "Q4" then js_ge ix midX && js_lt iy midY
          else false)
       quadrants.

Definition marker_color (item : AnalysisItem) (quadrants : list Quadrant)
  : string :=
  match chart_quadrant item quadrants with
  | Some quadrant => if String.eqb (color quadrant) EmptyString then "#3b82f6" else color quadrant
  | None => "#3b82f6"
  end.

Local Close Scope string_scope.

(** ** The rule language of the specification *)

(** Modelled from the spec: the rule grammar, its expression tree
    ([Literal | Var | Compare | And | Or]) and the two operations [compile]
    and [evaluate] of the Rule Evaluator.  The source has no such component
    (it hands the rule text to [new Function]); the definitions follow the
    grammar of the specification:
<<
    expr     := orExpr
    orExpr   := andExpr ( "||" andExpr )*
    andExpr  := cmpExpr ( "&&" cmpExpr )*
    cmpExpr  := operand ("<"|"<="|">"|">="|"=="|"!=") operand | "(" expr ")"
    operand  := "x" | "y" | number
>>
    Tokens are separated by optional spaces or tabs and a number is a decimal
    literal.  [compile] returns [None] for a ParseError. *)

Inductive variable : Type := VarX | VarY.

Inductive Operand : Type :=
| Literal (f : spec_float)
| Var (v : variable).

Inductive Rule : Type :=
| Compare (op : cmp_op) (a b : Operand)
| And (a b : Rule)
| Or (a b : Rule).

Definition grammar_op (op : cmp_op) : bool :=
  match op with
  | StrictEq | StrictNe => false
  | _ => true
  end.

Definition grammar_token (t : token) : bool :=
  match t with
  | TNum _ | TLParen | TRParen | TAnd | TOr => true
  | TIdent n => String.eqb n "x" || String.eqb n "y"
  | TCmp op => grammar_op op
  | _ => false
  end.

Definition to_operand (e : expr) : option Operand :=
  match e with
  | ENum f => Some (Literal f)
  | EIdent n =>
      if String.eqb n "x" then Some (Var VarX)
      else if String.eqb n "y" then Some (Var VarY)
      else None
  | _ => None
  end.

(** The trees of the grammar: a comparison has two operands, and a
    parenthesis encloses a whole expression. *)
Fixpoint to_rule (e : expr) : option Rule :=
  match e with
  | ECmp op a b =>
      if grammar_op op then
        match to_operand a, to_operand b with
        | Some a', Some b' => Some (Compare op a' b')
        | _, _ => None
        end
      else None
  | EAnd a b =>
      match to_rule a, to_rule b with
      | Some a', Some b' => Some (And a' b')
      | _, _ => None
      end
  | EOr a b =>
      match to_rule a, to_rule b with
      | Some a', Some b' => Some (Or a' b')
      | _, _ => None
      end
  | EParen a => to_rule a
  | _ => None
  end.

Definition compile (ruleText : string) : option Rule :=
  match lex (text_of ruleText) with
  | Some toks =>
      if forallb grammar_token toks && negb (unmodelled_adjacent toks) then
        match parse_level (parse_fuel toks) LOr toks with
        | POk (e, []) => to_rule e
        | _ => None
        end
      else None
  | None => None
  end.

Definition operand_value (o : Operand) (x y : spec_float) : spec_float :=
  match o with
  | Literal f => f
  | Var VarX => x
  | Var VarY => y
  end.

Fixpoint evaluate (r : Rule) (x y : spec_float) : bool :=
  match r with
  | Compare op a b => SFcmp op (operand_value a x y) (operand_value b x y)
  | And a b => evaluate a x y && evaluate b x y
  | Or a b => evaluate a x y || evaluate b x y
  end.

Definition no_globals : global_env := fun _ => None.

(** ** The in-memory store ([InMemoryDB])

    A JavaScript [Map] with string keys: the entries are kept in insertion
    order, and [set] on a key that is there replaces the value in place.  A
    map holds a key once; [remove] relies on it. *)
Module JsMap.
Section Entries.
Context {V : Type}.

Definition t : Type := list (string * V).

Fixpoint get (m : t) (k : string) : option V :=
  match m with
  | [] => None
  | (k', v) :: m' => if String.eqb k' k then Some v else get m' k
  end.

Definition has (m : t) (k : string) : bool :=
  match get m k with Some _ => true | None => false end.

Fixpoint set (m : t) (k : string) (v : V) : t :=
  match m with
  | [] => [(k, v)]
  | (k', v') :: m' =>
      if String.eqb k' k then (k, v) :: m' else (k', v') :: set m' k v
  end.

(** [delete] answers whether the key was there. *)
Fixpoint remove (m : t) (k : string) : t :=
  match m with
  | [] => []
  | (k', v) :: m' => if String.eqb k' k then m' else (k', v) :: remove m' k
  end.

Definition delete (m : t) (k : string) : t * bool := (remove m k, has m k).

Definition values (m : t) : list V := map snd m.
Definition keys (m : t) : list string := map fst m.
Definition size (m : t) : nat := List.length m.

End Entries.
Arguments t V : clear implicits.
End JsMap.

(** [Array.prototype.sort(compare)]: the sort is stable, so for a
    comparator that is a consistent ordering the result is the one of
    insertion from the right, which puts an element in front of the first
    element it does not come after.  Only the sign of what the comparator
    returns is looked at. *)
Fixpoint insert_sorted {A : Type} (compare : A -> A -> Z) (x : A) (l : list A)
  : list A :=
  match l with
  | [] => [x]
  | y :: l' =>
      if compare x y <=? 0 then x :: l else y :: insert_sorted compare x l'
  end.

Fixpoint sort {A : Type} (compare : A -> A -> Z) (l : list A) : list A :=
  match l with
  | [] => []
  | x :: l' => insert_sorted compare x (sort compare l')
  end.

(** [Array.prototype.slice(0, end)] for an integer [end]: a negative [end]
    counts from the end of the array. *)
Definition slice0 {A : Type} (l : list A) (end_ : Z) : list A :=
  let len := Z.of_nat (List.length l) in
  let final := if end_ <? 0 then Z.max (len + end_) 0 else Z.min end_ len in
  firstn (Z.to_nat final) l.

Module Stored.
(** A date is its time value, the milliseconds since the epoch (the dates
    are valid ones, as [new Date()] gives them).  The difference of two
    time values is rounded to binary64, which keeps its sign, so the
    comparators below are written over the integers.  [result] is declared
    [any]; the application stores analysis results. *)
Record StoredFile : Type := {
  id : string;
  name : string;
  type : string;
  size : Z;
  content : string;
  createdAt : Z
}.

Record StoredAnalysis : Type := {
  analysis_id : string;
  fileIds : list string;
  text : option string;
  domain : string;
  result : AnalysisResult;
  analysis_createdAt : Z
}.
End Stored.
Definition StoredFile : Type := Stored.StoredFile.
Definition StoredAnalysis : Type := Stored.StoredAnalysis.

Record InMemoryDB : Type := {
  files : JsMap.t StoredFile;
  analyses : JsMap.t StoredAnalysis
}.

Definition empty_db : InMemoryDB := {| files := []; analyses := [] |}.

Definition storeFile (db : InMemoryDB) (file : StoredFile) : InMemoryDB * string :=
  ({| files := JsMap.set (files db) (Stored.id file) file;
      analyses := analyses db |},
   Stored.id file).

(** [this.files.get(id) || null] *)
Definition getFile (db : InMemoryDB) (id : string) : option StoredFile :=
  JsMap.get (files db) id.

Definition deleteFile (db : InMemoryDB) (id : string) : InMemoryDB * bool :=
  let '(m, was_there) := JsMap.delete (files db) id in
  ({| files := m; analyses := analyses db |}, was_there).

Definition newest_file_first (a b : StoredFile) : Z :=
  Stored.createdAt b - Stored.createdAt a.

Definition listFiles (db : InMemoryDB) : list StoredFile :=
  sort newest_file_first (JsMap.values (files db)).

Definition storeAnalysis (db : InMemoryDB) (analysis : StoredAnalysis)
  : InMemoryDB * string :=
  ({| files := files db;
      analyses := JsMap.set (analyses db) (Stored.analysis_id analysis) analysis |},
   Stored.analysis_id analysis).

Definition getAnalysis (db : InMemoryDB) (id : string) : option StoredAnalysis :=
  JsMap.get (analyses db) id.

Definition newest_analysis_first (a b : StoredAnalysis) : Z :=
  Stored.analysis_createdAt b - Stored.analysis_createdAt a.

Definition listAnalyses (db : InMemoryDB) (limit : Z) : list StoredAnalysis :=
  slice0 (sort newest_analysis_first (JsMap.values (analyses db))) limit.

(** [cleanup]: [cutoffDate] is the date [olderThanDays] days before now in
    local time; the entries created before it are deleted. *)
Definition cleanup (db : InMemoryDB) (cutoffDate : Z) : InMemoryDB :=
  {| files := filter (fun e => negb (Stored.createdAt (snd e) <? cutoffDate))
                     (files db);
     analyses := filter (fun e => negb (Stored.analysis_createdAt (snd e) <? cutoffDate))
                        (analyses db) |}.

Definition getStats (db : InMemoryDB) : nat * nat :=
  (JsMap.size (files db), JsMap.size (analyses db)).

(** ** The application state ([useAppStore]) *)

Module Upload.
(** File sizes are byte counts, integers that binary64 holds exactly. *)
Record UploadedFile : Type := {
  id : string;
  name : string;
  size : Z;
  type : string;
  content : option string;
  preview : option string
}.
End Upload.
Definition UploadedFile : Type := Upload.UploadedFile.

Module Custom.
Record CustomAxes : Type := { x : option string; y : option string }.
End Custom.
Definition CustomAxes : Type := Custom.CustomAxes.

Inductive Tab : Type := text_tab | files_tab | settings_tab.
Inductive ExportFormat : Type := png | svg | pdf | csv.

Record AppState : Type := {
  inputText : string;
  uploadedFiles : list UploadedFile;
  selectedDomain : Domain;
  customAxes : CustomAxes;
  isAnalyzing : bool;
  analysisProgress : spec_float;
  analysisResult : option AnalysisResult;
  analysisError : option string;
  activeTab : Tab;
  showAdvancedOptions : bool;
  exportFormat : ExportFormat
}.

Definition initialState : AppState :=
  {| inputText := EmptyString;
     uploadedFiles := [];
     selectedDomain := auto;
     customAxes := {| Custom.x := None; Custom.y := None |};
     isAnalyzing := false;
     analysisProgress := literal 0 0;
     analysisResult := None;
     analysisError := None;
     activeTab := text_tab;
     showAdvancedOptions := false;
     exportFormat := png |}.

(** [set(partial)] merges the fields given into the state; each action is
    the state transformer of its [set]. *)
Definition setInputText (text : string) (s : AppState) : AppState :=
  {| inputText := text;
     uploadedFiles := uploadedFiles s; selectedDomain := selectedDomain s;
     customAxes := customAxes s; isAnalyzing := isAnalyzing s;
     analysisProgress := analysisProgress s; analysisResult := analysisResult s;
     analysisError := analysisError s; activeTab := activeTab s;
     showAdvancedOptions := showAdvancedOptions s; exportFormat := exportFormat s |}.

Definition setActiveTab (tab : Tab) (s : AppState) : AppState :=
  {| inputText := inputText s;
     uploadedFiles := uploadedFiles s; selectedDomain := selectedDomain s;
     customAxes := customAxes s; isAnalyzing := isAnalyzing s;
     analysisProgress := analysisProgress s; analysisResult := analysisResult s;
     analysisError := analysisError s; activeTab := tab;
     showAdvancedOptions := showAdvancedOptions s; exportFormat := exportFormat s |}.

Definition set_uploadedFiles (files : list UploadedFile) (s : AppState) : AppState :=
  {| inputText := inputText s;
     uploadedFiles := files; selectedDomain := selectedDomain s;
     customAxes := customAxes s; isAnalyzing := isAnalyzing s;
     analysisProgress := analysisProgress s; analysisResult := analysisResult s;
     analysisError := analysisError s; activeTab := activeTab s;
     showAdvancedOptions := showAdvancedOptions s; exportFormat := exportFormat s |}.

Definition addFile (file : UploadedFile) (s : AppState) : AppState :=
  set_uploadedFiles (uploadedFiles s ++ [file]) s.

Definition removeFile (fileId : string) (s : AppState) : AppState :=
  set_uploadedFiles
    (filter (fun f => negb (String.eqb (Upload.id f) fileId)) (uploadedFiles s)) s.

Definition clearFiles (s : AppState) : AppState := set_uploadedFiles [] s.

Definition setAnalyzing (analyzing : bool) (s : AppState) : AppState :=
  {| inputText := inputText s;
     uploadedFiles := uploadedFiles s; selectedDomain := selectedDomain s;
     customAxes := customAxes s; isAnalyzing := analyzing;
     analysisProgress := analysisProgress s; analysisResult := analysisResult s;
     analysisError := analysisError s; activeTab := activeTab s;
     showAdvancedOptions := showAdvancedOptions s; exportFormat := exportFormat s |}.

(** [Math.max] and [Math.min]: [NaN] if an argument is [NaN]; [+0] counts
    as larger than [-0]. *)
Definition Math_max (a b : spec_float) : spec_float :=
  match a, b with
  | S754_nan, _ | _, S754_nan => S754_nan
  | S754_zero sa, S754_zero sb => S754_zero (sa && sb)
  | _, _ => if SFltb a b then b else a
  end.

Definition Math_min (a b : spec_float) : spec_float :=
  match a, b with
  | S754_nan, _ | _, S754_nan => S754_nan
  | S754_zero sa, S754_zero sb => S754_zero (sa || sb)
  | _, _ => if SFltb b a then b else a
  end.

Definition setAnalysisProgress (progress : spec_float) (s : AppState) : AppState :=
  {| inputText := inputText s;
     uploadedFiles := uploadedFiles s; selectedDomain := selectedDomain s;
     customAxes := customAxes s; isAnalyzing := isAnalyzing s;
     analysisProgress := Math_min (literal 100 0) (Math_max (literal 0 0) progress);
     analysisResult := analysisResult s;
     analysisError := analysisError s; activeTab := activeTab s;
     showAdvancedOptions := showAdvancedOptions s; exportFormat := exportFormat s |}.

Definition setAnalysisResult (result : option AnalysisResult) (s : AppState)
  : AppState :=
  {| inputText := inputText s;
     uploadedFiles := uploadedFiles s; selectedDomain := selectedDomain s;
     customAxes := customAxes s; isAnalyzing := false;
     analysisProgress :=
       match result with Some _ => literal 100 0 | None => literal 0 0 end;
     analysisResult := result;
     analysisError := None; activeTab := activeTab s;
     showAdvancedOptions := showAdvancedOptions s; exportFormat := exportFormat s |}.

Definition setAnalysisError (error : option string) (s : AppState) : AppState :=
  {| inputText := inputText s;
     uploadedFiles := uploadedFiles s; selectedDomain := selectedDomain s;
     customAxes := customAxes s; isAnalyzing := false;
     analysisProgress := literal 0 0;
     analysisResult := analysisResult s;
     analysisError := error; activeTab := activeTab s;
     showAdvancedOptions := showAdvancedOptions s; exportFormat := exportFormat s |}.

Definition clearAnalysis (s : AppState) : AppState :=
  {| inputText := inputText s;
     uploadedFiles := uploadedFiles s; selectedDomain := selectedDomain s;
     customAxes := customAxes s; isAnalyzing := false;
     analysisProgress := literal 0 0;
     analysisResult := None;
     analysisError := None; activeTab := activeTab s;
     showAdvancedOptions := showAdvancedOptions s; exportFormat := exportFormat s |}.

(** [f.content && f.content.length > 10] *)
Definition has_content (f : UploadedFile) : bool :=
  match Upload.content f with
  | Some c => (10 <? String.length c)%nat
  | None => false
  end.

Definition canAnalyze (s : AppState) : bool :=
  let hasText := (10 <? String.length (trim (inputText s)))%nat in
  let hasFiles := existsb has_content (uploadedFiles s) in
  negb (isAnalyzing s) && (hasText || hasFiles).

(** [file.content?.length || 0] *)
Definition content_length (f : UploadedFile) : nat :=
  match Upload.content f with
  | Some c => String.length c
  | None => 0%nat
  end.

Definition getTotalCharacters (s : AppState) : nat :=
  let textChars := String.length (inputText s) in
  let fileChars :=
    fold_left (fun total file => (total + content_length file)%nat)
              (uploadedFiles s) 0%nat in
  (textChars + fileChars)%nat.

(** ** Combining the texts and starting an analysis ([HomePage]) *)

Local Open Scope string_scope.

Definition newline : string := String (ascii_of_nat 10) EmptyString.

(** [Array.prototype.join] *)
Fixpoint join (sep : string) (l : list string) : string :=
  match l with
  | [] => EmptyString
  | [a] => a
  | a :: l' => (a ++ sep ++ join sep l')%string
  end.

Definition truthy_text (s : option string) : bool :=
  match s with
  | Some c => negb (String.eqb c EmptyString)
  | None => false
  end.

(** [combineFileContents] reads the fields [name], [content] and [error]
    of the objects it is given; an uploaded file has no field [error]. *)
Definition combineFileContents {F : Type} (name : F -> string)
  (content error : F -> option string) (files : list F) : string :=
  join (newline ++ newline)
    (map (fun file =>
            ("=== " ++ name file ++ " ===" ++ newline ++ newline
             ++ match content file with Some c => c | None => "undefined" end)%string)
         (filter (fun file => truthy_text (content file) && negb (truthy_text (error file)))
                 files)).

Definition combine_uploaded (files : list UploadedFile) : string :=
  combineFileContents Upload.name Upload.content (fun _ => None) files.

Definition combinedText (s : AppState) : string :=
  let combinedText := trim (inputText s) in
  if (0 <? List.length (uploadedFiles s))%nat then
    let filesText := combine_uploaded (uploadedFiles s) in
    if negb (String.eqb combinedText EmptyString)
    then (combinedText ++ newline ++ newline ++ filesText)%string
    else filesText
  else combinedText.

Definition domain_name (d : Domain) : string :=
  match d with
  | risk => "risk"
  | priority => "priority"
  | investments => "investments"
  | sports => "sports"
  | auto => "auto"
  end.

Definition requestBody (s : AppState) : AnalysisRequest :=
  {| Request.text := Some (combinedText s);
     Request.files := None;
     Request.domain_hint := Some (domain_name (selectedDomain s));
     Request.force_axes :=
       if truthy_text (Custom.x (customAxes s)) && truthy_text (Custom.y (customAxes s))
       then Some (Custom.x (customAxes s), Custom.y (customAxes s))
       else None |}.

(** What the request comes to: [fetch] or the reading of the reply fails,
    the reply is not [ok], or the reply is read. *)
Inductive fetched : Type :=
| fetch_failed (error : option exn)
| not_ok (statusText : string)
| ok (result : AnalysisResult).

Definition exn_message (e : exn) : string :=
  match e with TypeError msg => msg | Error msg => msg end.

(** [handleAnalyze] up to the request: [None] when the guard returns. *)
Definition handleAnalyze_begin (s : AppState) : option AppState :=
  if negb (canAnalyze s) || isAnalyzing s then None
  else Some (clearAnalysis (setAnalyzing true s)).

(** ... and from the reply on.  [error] is [None] for a thrown value that
    is not an [Error]. *)
Definition handleAnalyze_end (reply : fetched) (s : AppState) : AppState :=
  match reply with
  | ok result => setAnalysisResult (Some result) s
  | not_ok statusText =>
      setAnalysisError (Some ("Analysis failed: " ++ statusText)%string) s
  | fetch_failed (Some e) => setAnalysisError (Some (exn_message e)) s
  | fetch_failed None =>
      setAnalysisError (Some "Analysis failed. Please try again.") s
  end.

Definition handleAnalyze (reply : fetched) (s : AppState) : option AppState :=
  option_map (handleAnalyze_end reply) (handleAnalyze_begin s).

Local Close Scope string_scope.

(** ** Short texts ([truncateText], [createPreview]) *)

(** [s.substring(0, end)] for an integer [end]: a negative [end] counts as
    0 and one beyond the length as the length. *)
Definition substring0 (end_ : Z) (t : text) : text := firstn (Z.to_nat end_) t.

(** [s.lastIndexOf(c)] for a one-character pattern: the index of the last
    occurrence, [-1] when there is none. *)
Fixpoint lastIndexOf_from (c : ascii) (t : text) (i found : Z) : Z :=
  match t with
  | [] => found
  | d :: t' => lastIndexOf_from c t' (i + 1) (if Ascii.eqb d c then i else found)
  end.

Definition lastIndexOf (c : ascii) (t : text) : Z := lastIndexOf_from c t 0 (-1).

Local Open Scope string_scope.

(** The lengths are integers. *)
Definition truncateText (text : string) (maxLength : Z) : string :=
  if (Z.of_nat (String.length text) <=? maxLength)%Z then text
  else string_of (substring0 maxLength (text_of text)) ++ "...".

Definition createPreview (text : string) (maxLength : Z) : string :=
  if (Z.of_nat (String.length text) <=? maxLength)%Z then text
  else
    (* Try to cut at a sentence boundary *)
    let truncated := substring0 maxLength (text_of text) in
    let lastSentenceEnd :=
      Z.max (Z.max (lastIndexOf "." truncated) (lastIndexOf "!" truncated))
            (lastIndexOf "?" truncated) in
    let threshold := js_mul (float_of_Z maxLength) (literal 7 (-1)) in
    if js_gt (float_of_Z lastSentenceEnd) threshold
    then string_of (substring0 (lastSentenceEnd + 1) truncated) ++ "..."
    else
      (* Cut at word boundary *)
      let lastSpace := lastIndexOf " " truncated in
      if js_gt (float_of_Z lastSpace) threshold
      then string_of (substring0 lastSpace truncated) ++ "..."
      else string_of truncated ++ "...".

(** ** Counting words ([countWords])

    [s.split(/\s+/)]: the pieces between the runs of white space; a run at
    the start or at the end leaves an empty piece there.  [cur] is the
    piece being read, in reverse. *)
Fixpoint split_spaces (cur : text) (in_run : bool) (t : text) : list text :=
  match t with
  | [] => [rev cur]
  | c :: t' =>
      if is_trim_space c
      then if in_run then split_spaces [] true t'
           else rev cur :: split_spaces [] true t'
      else split_spaces (c :: cur) false t'
  end.

Definition countWords (text : string) : nat :=
  if String.eqb (trim text) EmptyString then 0%nat
  else List.length (split_spaces [] false (text_of (trim text))).

(** ** Files of the browser and their processing ([processFile])

    What a [FileReader] reports for a file: the [load] event with a result,
    which may be missing, or the [error] event. *)
Inductive reader_event (A : Type) : Type :=
| onload (result : option A)
| onerror.
Arguments onload {A} result.
Arguments onerror {A}.

(** What awaiting the PDF library gives: the text items of every page, or
    a rejection, whose reason is [None] when it is not an [Error]. *)
Inductive pdf_document : Type :=
| pdf_pages (pages : list (list string))
| pdf_rejected (reason : option exn).

(** A file with what the browser and the PDF library make of it. *)
Module FileObj.
Record File : Type := {
  name : string;
  type : string;
  size : Z;
  readAsText : reader_event string;
  readAsArrayBuffer : reader_event (list Byte.byte);
  getDocument : pdf_document
}.
End FileObj.
Definition File : Type := FileObj.File.

Module Processed.
Record ProcessedFile : Type := {
  id : string;
  name : string;
  type : string;
  size : Z;
  content : string;
  preview : string;
  wordCount : nat;
  error : option string
}.
End Processed.
Definition ProcessedFile : Type := Processed.ProcessedFile.

Definition processTextFile (file : File) : settled string :=
  match FileObj.readAsText file with
  | onload (Some content) =>
      if String.eqb content EmptyString
      then Rejected (Error "Failed to read text file")
      else Fulfilled content
  | onload None => Rejected (Error "Failed to read text file")
  | onerror => Rejected (Error "File reading failed")
  end.

Definition processPDFFile (file : File) : settled string :=
  match FileObj.readAsArrayBuffer file with
  | onload (Some arrayBuffer) =>
      match FileObj.getDocument file with
      | pdf_pages pages =>
          let fullText :=
            fold_left (fun fullText items => fullText ++ join " " items ++ newline)
                      pages EmptyString in
          Fulfilled (trim fullText)
      | pdf_rejected (Some e) =>
          Rejected (Error ("PDF processing failed: " ++ exn_message e))
      | pdf_rejected None =>
          Rejected (Error "PDF processing failed: Unknown error")
      end
  | onload None => Rejected (Error "Failed to read PDF file")
  | onerror => Rejected (Error "PDF file reading failed")
  end.

(** The characters that the first [replace] of [processWordFile] leaves:
    word characters, white space and the punctuation marks listed. *)
Definition is_kept (c : ascii) : bool :=
  is_letter c || is_digit c || (char_code c =? 95)%Z
  || is_trim_space c
  || existsb (Ascii.eqb c)
       ["."; ","; "!"; "?"; ";"; ":"; "("; ")"; "-"; ascii_of_nat 34; "'"]%char.

(** [s.replace(/\s+/g, ' ')]: every run of white space becomes one space. *)
Fixpoint collapse_spaces (in_run : bool) (t : text) : text :=
  match t with
  | [] => []
  | c :: t' =>
      if is_trim_space c
      then if in_run then collapse_spaces true t'
           else " "%char :: collapse_spaces true t'
      else c :: collapse_spaces false t'
  end.

(** The text that [processWordFile] takes out of the bytes of a file. *)
Definition extractWordText (uint8Array : list Byte.byte) : string :=
  let text :=
    map ascii_of_byte
        (filter (fun char => (32 <=? Z.of_N (Byte.to_N char))%Z
                             && (Z.of_N (Byte.to_N char) <=? 126)%Z)
                uint8Array) in
  trim (string_of (collapse_spaces false (filter is_kept text))).

Definition processWordFile (file : File) : settled string :=
  match FileObj.readAsArrayBuffer file with
  | onload (Some arrayBuffer) =>
      let text := extractWordText arrayBuffer in
      if (String.length text <? 100)%nat
      then Rejected (Error "Could not extract text from Word document. Please try converting to PDF or plain text.")
      else Fulfilled text
  | onload None => Rejected (Error "Failed to read Word file")
  | onerror => Rejected (Error "Word file reading failed")
  end.

Definition docx_type : string :=
  "application/vnd.openxmlformats-officedocument.wordprocessingml.document".

Definition processFile (file : File) (id : string) : ProcessedFile :=
  let read :=
    if String.eqb (FileObj.type file) "text/plain" then processTextFile file
    else if String.eqb (FileObj.type file) "application/pdf" then processPDFFile file
    else if String.eqb (FileObj.type file) docx_type
            || String.eqb (FileObj.type file) "application/msword"
    then processWordFile file
    else Rejected (Error ("Unsupported file type: " ++ FileObj.type file)) in
  match read with
  | Fulfilled content =>
      {| Processed.id := id; Processed.name := FileObj.name file;
         Processed.type := FileObj.type file; Processed.size := FileObj.size file;
         Processed.content := content;
         Processed.preview := createPreview content 200;
         Processed.wordCount := countWords content;
         Processed.error := None |}
  | Rejected e =>
      {| Processed.id := id; Processed.name := FileObj.name file;
         Processed.type := FileObj.type file; Processed.size := FileObj.size file;
         Processed.content := EmptyString;
         Processed.preview := EmptyString;
         Processed.wordCount := 0;
         Processed.error := Some (exn_message e) |}
  end.

(** ** Validating a file ([validateFile], [validateFileType],
    [validateFileSize]) *)

Definition allowedTypes : list string :=
  ["text/plain"; "application/pdf"; docx_type; "application/msword"]%list.

Inductive validation : Type :=
| valid
| invalid (error : string).

Definition validateFile (file : File) : validation :=
  let maxSize := 10 * 1024 * 1024 in
  if (maxSize <? FileObj.size file)%Z then
    invalid "File size must be less than 10MB"
  else if negb (existsb (String.eqb (FileObj.type file)) allowedTypes) then
    invalid "File type not supported. Please use PDF, DOCX, DOC, or TXT files."
  else valid.

Definition validateFileType (file : File) : bool :=
  existsb (String.eqb (FileObj.type file)) allowedTypes.

Definition validateFileSize (file : File) (maxSizeMB : Z) : bool :=
  let maxBytes := maxSizeMB * 1024 * 1024 in
  (FileObj.size file <=? maxBytes)%Z.

(** ** Dropping files on the page ([onDrop])

    [ids] are the identifiers that [generateId] returns, call by call.  The
    result is the state with the alerts shown.  [processFile] returns in
    every case, so the handler's own [catch] is not entered. *)
Fixpoint onDrop_loop (acceptedFiles : list File) (ids : nat -> string)
  (s : AppState) : AppState * list string :=
  match acceptedFiles with
  | [] => (s, []%list)
  | file :: rest =>
      match validateFile file with
      | invalid error =>
          let '(s', alerts) := onDrop_loop rest ids s in
          (s', ((FileObj.name file ++ ": " ++ error)%string :: alerts)%list)
      | valid =>
          let fileId := ids 0%nat in
          let processedFile := processFile file fileId in
          onDrop_loop rest (fun k => ids (S k))
            (addFile {| Upload.id := Processed.id processedFile;
                        Upload.name := Processed.name processedFile;
                        Upload.size := Processed.size processedFile;
                        Upload.type := Processed.type processedFile;
                        Upload.content := Some (Processed.content processedFile);
                        Upload.preview := Some (Processed.preview processedFile) |}
                     s)
      end
  end.

Definition onDrop (acceptedFiles : list File) (ids : nat -> string)
  (s : AppState) : AppState * list string :=
  let '(s', alerts) := onDrop_loop acceptedFiles ids s in
  (* Switch to files tab if files were added *)
  (if (0 <? List.length acceptedFiles)%nat then setActiveTab files_tab s' else s',
   alerts).

Local Close Scope string_scope.

(** ** The health route ([GET]) and the connection test *)

Local Open Scope string_scope.

(** [testOpenAIConnection]: [completion] is what awaiting the request
    gives, the number of choices of the reply or a rejection. *)
Definition testOpenAIConnection (completion : settled nat) : settled bool :=
  match completion with
  | Fulfilled choices => Fulfilled (0 <? choices)%nat
  | Rejected _ => Fulfilled false
  end.

Module Health.
Record services : Type := {
  database : string;
  openai : string;
  fileProcessing : string
}.

Record health : Type := {
  status : string;
  version : string;
  environment : string;
  health_services : services
}.
End Health.

(** [Object.values(health.services)] *)
Definition service_values (s : Health.services) : list string :=
  [Health.database s; Health.openai s; Health.fileProcessing s]%list.

(** The handler of the health route; [hasApiKey] says whether the
    analyzer's key is configured and [NODE_ENV] is the environment
    variable.  The times of the reply are left out.  The result is the
    status code with the body. *)
Definition health_GET (hasApiKey : bool) (NODE_ENV : option string)
  (completion : settled nat) : nat * Health.health :=
  let openai :=
    if hasApiKey then
      match testOpenAIConnection completion with
      | Fulfilled openaiHealthy =>
          if openaiHealthy then "operational" else "degraded"
      | Rejected _ => "unavailable"
      end
    else "not_configured" in
  let services :=
    {| Health.database := "operational";
       Health.openai := openai;
       Health.fileProcessing := "operational" |} in
  let status :=
    if existsb (String.eqb "unavailable") (service_values services) then "degraded"
    else if existsb (String.eqb "not_configured") (service_values services)
    then "partial"
    else "healthy" in
  let statusCode :=
    if String.eqb status "healthy" then 200%nat
    else if String.eqb status "partial" then 200%nat
    else if String.eqb status "degraded" then 503%nat
    else 500%nat in
  (statusCode,
   {| Health.status := status;
      Health.version := "1.0.0";
      Health.environment :=
        match NODE_ENV with
        | Some e => if String.eqb e EmptyString then "development" else e
        | None => "development"
        end;
      Health.health_services := services |}).

(** ** The analysis route and the store

    [storeAnalysisResult]; [createdAt] is the date of the call. *)
Definition storeAnalysisResult (db : InMemoryDB) (id : string)
  (fileIds : list string) (text : option string) (domain : string)
  (result : AnalysisResult) (createdAt : Z) : InMemoryDB * string :=
  storeAnalysis db
    {| Stored.analysis_id := id; Stored.fileIds := fileIds;
       Stored.text := text; Stored.domain := domain;
       Stored.result := result; Stored.analysis_createdAt := createdAt |}.

(** [storeUploadedFile] *)
Definition storeUploadedFile (db : InMemoryDB) (id name type : string)
  (size : Z) (content : string) (createdAt : Z) : InMemoryDB * string :=
  storeFile db
    {| Stored.id := id; Stored.name := name; Stored.type := type;
       Stored.size := size; Stored.content := content;
       Stored.createdAt := createdAt |}.

(** [body.domain_hint || 'auto'] *)
Definition request_domain (body : AnalysisRequest) : string :=
  match Request.domain_hint body with
  | Some d => if String.eqb d EmptyString then "auto" else d
  | None => "auto"
  end.

(** The store after [POST].  The handler stores the result object and adds
    the metadata to that same object afterwards, so the stored analysis
    holds the result as the reply carries it.  A request that is refused
    does not reach the store. *)
Definition POST_store (request : option AnalysisRequest) (hasApiKey : bool)
  (analysis : settled AnalysisResult) (newId now : string) (createdAt : Z)
  (db : InMemoryDB) : InMemoryDB :=
  match request, body (POST request hasApiKey analysis newId now) with
  | Some b, ResultBody analysisResult =>
      fst (storeAnalysisResult db newId
             (match Request.files b with Some files => files | None => []%list end)
             (Request.text b) (request_domain b) analysisResult createdAt)
  | _, _ => db
  end.

Local Close Scope string_scope.

(** ** The table of the items ([DataTable]) *)

Module Enhanced.
(** An item with its quadrant: [{...item, quadrant}]. *)
Record EnhancedItem : Type := {
  item : AnalysisItem;
  quadrant : option Quadrant
}.
End Enhanced.
Definition EnhancedItem : Type := Enhanced.EnhancedItem.

Definition enhancedItems (genv : global_env) (items : list AnalysisItem)
  (quadrants : list Quadrant) : option (list EnhancedItem) :=
  map_opt (fun item =>
             option_map (fun q => {| Enhanced.item := item; Enhanced.quadrant := q |})
                        (getQuadrantForItem genv (Item.x item) (Item.y item) quadrants))
          items.

Inductive SortField : Type :=
  sort_name | sort_x | sort_y | sort_confidence | sort_quadrant.

Inductive SortDirection : Type := asc | desc.

Record TableState : Type := {
  sortField : SortField;
  sortDirection : SortDirection;
  searchTerm : string;
  selectedQuadrant : string
}.

Local Open Scope string_scope.

(** The state of a new table. *)
Definition initial_table : TableState :=
  {| sortField := sort_confidence; sortDirection := desc;
     searchTerm := EmptyString; selectedQuadrant := "all" |}.

Definition handleSort (field : SortField) (st : TableState) : TableState :=
  let same :=
    match field, sortField st with
    | sort_name, sort_name | sort_x, sort_x | sort_y, sort_y
    | sort_confidence, sort_confidence | sort_quadrant, sort_quadrant => true
    | _, _ => false
    end in
  if same then
    {| sortField := sortField st;
       sortDirection := match sortDirection st with asc => desc | desc => asc end;
       searchTerm := searchTerm st; selectedQuadrant := selectedQuadrant st |}
  else
    {| sortField := field; sortDirection := desc;
       searchTerm := searchTerm st; selectedQuadrant := selectedQuadrant st |}.

(** [s.includes(search)] *)
Fixpoint starts_with (search s : text) : bool :=
  match search, s with
  | [], _ => true
  | _ :: _, [] => false
  | c :: search', d :: s' => Ascii.eqb c d && starts_with search' s'
  end.

Fixpoint text_includes (s search : text) : bool :=
  starts_with search s
  || match s with
     | [] => false
     | _ :: s' => text_includes s' search
     end.

Definition includes (s search : string) : bool :=
  text_includes (text_of s) (text_of search).

(** [a < b] on strings: by the first code unit that differs. *)
Fixpoint text_lt (a b : text) : bool :=
  match a, b with
  | _, [] => false
  | [], _ :: _ => true
  | c :: a', d :: b' =>
      if (char_code c <? char_code d)%Z then true
      else if (char_code d <? char_code c)%Z then false
      else text_lt a' b'
  end.

(** The value a row is sorted by. *)
Inductive sort_value : Type :=
| text_value (s : string)
| number_of (v : spec_float).

Definition sort_value_of (field : SortField) (a : EnhancedItem) : sort_value :=
  match field with
  | sort_name => text_value (toLowerCase (Item.name (Enhanced.item a)))
  | sort_x => number_of (number_value (Item.x (Enhanced.item a)))
  | sort_y => number_of (number_value (Item.y (Enhanced.item a)))
  | sort_confidence => number_of (number_value (Item.confidence (Enhanced.item a)))
  | sort_quadrant =>
      text_value match Enhanced.quadrant a with
                 | Some q => name q
                 | None => EmptyString
                 end
  end.

Definition value_lt (aVal bVal : sort_value) : bool :=
  match aVal, bVal with
  | text_value a, text_value b => text_lt (text_of a) (text_of b)
  | number_of a, number_of b => js_lt a b
  | _, _ => false
  end.

Definition compare_rows (field : SortField) (direction : SortDirection)
  (a b : EnhancedItem) : Z :=
  let aVal := sort_value_of field a in
  let bVal := sort_value_of field b in
  if value_lt aVal bVal then match direction with asc => -1 | desc => 1 end
  else if value_lt bVal aVal then match direction with asc => 1 | desc => -1 end
  else 0.

Definition matches_search (search : string) (a : EnhancedItem) : bool :=
  includes (toLowerCase (Item.name (Enhanced.item a))) search
  || includes (toLowerCase (Item.rationale (Enhanced.item a))) search
  || existsb (fun citation => includes (toLowerCase citation) search)
             (Item.citations (Enhanced.item a)).

Definition in_selected (selected : string) (a : EnhancedItem) : bool :=
  match Enhanced.quadrant a with
  | Some q => String.eqb (id q) selected
  | None => false
  end.

(** [processedItems].  [filter] makes a new array and [sort] sorts in
    place: when no filter is set, the array sorted is the array of the
    enhanced items itself, which the table keeps between renderings.  The
    result is the rows shown and the enhanced items as they are left. *)
Definition processedItems (enhanced : list EnhancedItem) (st : TableState)
  : list EnhancedItem * list EnhancedItem :=
  let searching := negb (String.eqb (searchTerm st) EmptyString) in
  let selecting := negb (String.eqb (selectedQuadrant st) "all") in
  let filtered :=
    if searching
    then filter (matches_search (toLowerCase (searchTerm st))) enhanced
    else enhanced in
  let filtered :=
    if selecting then filter (in_selected (selectedQuadrant st)) filtered
    else filtered in
  let sorted := sort (compare_rows (sortField st) (sortDirection st)) filtered in
  (sorted, if searching || selecting then enhanced else sorted).

Local Close Scope string_scope.

(** ** The average confidence as the components show it *)

Local Open Scope string_scope.

(** [QuadrantLegend], summary: the average is guarded. *)
Definition legend_confidence (items : list AnalysisItem) : string :=
  if (0 <? List.length items)%nat
  then fixed (js_mul (js_div (sum_of Item.confidence items)
                             (float_of_nat (List.length items)))
                     (literal 100 0)) 0 ++ "%"
  else "N/A".

(** [InsightsPanel], summary statistics: the average is not guarded. *)
Definition panel_confidence (items : list AnalysisItem) : string :=
  fixed (js_mul (js_div (sum_of Item.confidence items)
                        (float_of_nat (List.length items)))
                (literal 100 0)) 0 ++ "%".

(** [AnalysisResults], header: the confidence of the metadata. *)
Definition header_confidence (result : AnalysisResult) : string :=
  fixed (js_mul (meta_confidence (metadata result)) (literal 100 0)) 0 ++ "%".

Local Close Scope string_scope.

(** ** The CSV export ([downloadAsCSV])

    The values of the cells: texts, numbers and arrays of texts, as the
    items of a result have them; [cell_undefined] is a field that is not
    there. *)
Inductive cell : Type :=
| cell_string (s : string)
| cell_number (x : number)
| cell_strings (l : list string)
| cell_undefined.

(** An object with its keys in the order of their creation. *)
Definition row : Type := list (string * cell).

Fixpoint field (r : row) (key : string) : cell :=
  match r with
  | [] => cell_undefined
  | (k, v) :: r' => if String.eqb k key then v else field r' key
  end.

Definition hex_digit (n : Z) : ascii :=
  nth (Z.to_nat n) (text_of "0123456789abcdef") "0"%char.

Definition backslash : ascii := ascii_of_nat 92.
Definition double_quote : ascii := ascii_of_nat 34.

(** [QuoteJSONString], character by character. *)
Definition quote_char (c : ascii) : text :=
  let n := char_code c in
  if n =? 34 then [backslash; double_quote]
  else if n =? 92 then [backslash; backslash]
  else if n =? 8 then [backslash; "b"%char]
  else if n =? 12 then [backslash; "f"%char]
  else if n =? 10 then [backslash; "n"%char]
  else if n =? 13 then [backslash; "r"%char]
  else if n =? 9 then [backslash; "t"%char]
  else if n <? 32
  then [backslash; "u"%char; "0"%char; "0"%char; hex_digit (n / 16); hex_digit (n mod 16)]
  else [c].

Definition quote_text (s : string) : text :=
  double_quote :: flat_map quote_char (text_of s) ++ [double_quote].

Fixpoint join_text (sep : text) (l : list text) : text :=
  match l with
  | [] => []
  | [a] => a
  | a :: l' => a ++ sep ++ join_text sep l'
  end.

(** [value || ''] *)
Definition falsy (v : cell) : bool :=
  match v with
  | cell_string s => String.eqb s EmptyString
  | cell_number x =>
      match number_value x with
      | S754_zero _ | S754_nan => true
      | _ => false
      end
  | cell_strings _ => false
  | cell_undefined => true
  end.

(** [JSON.stringify] on the values of the cells; a number that is not
    finite is written [null], and of [undefined] the result is
    [undefined]. *)
Definition JSON_stringify (v : cell) : option text :=
  match v with
  | cell_string s => Some (quote_text s)
  | cell_number x =>
      match x with
      | Finite _ => Some (Number_toString x)
      | _ => Some (text_of "null")
      end
  | cell_strings l =>
      Some ("["%char :: join_text [","%char] (map quote_text l) ++ ["]"%char])
  | cell_undefined => None
  end.

(** [JSON.stringify(row[header] || '')], as [join] writes it. *)
Definition csv_cell (r : row) (header : string) : text :=
  let v := field r header in
  match JSON_stringify (if falsy v then cell_string EmptyString else v) with
  | Some t => t
  | None => []
  end.


(** An item as an object, its keys in the order in which the placeholder
    and the type declaration write them. *)
Definition item_row (item : AnalysisItem) : row :=
  [ ("name", cell_string (Item.name item));
    ("x", cell_number (Item.x item));
    ("y", cell_number (Item.y item));
    ("confidence", cell_number (Item.confidence item));
    ("rationale", cell_string (Item.rationale item));
    ("citations", cell_strings (Item.citations item)) ]%string.



(** * Properties *)

(** ** Characters and digits *)

Lemma char_code_range (c : ascii) : 0 <= char_code c < 256.
Proof.
  unfold char_code. pose proof (N_ascii_bounded c). lia.
Qed.

Lemma char_code_inj (c d : ascii) : char_code c = char_code d -> c = d.
Proof.
  unfold char_code. intros H.
  rewrite <- (ascii_N_embedding c), <- (ascii_N_embedding d).
  f_equal. lia.
Qed.

Lemma char_code_digit_char (d : Z) :
  0 <= d < 10 -> char_code (digit_char d) = 48 + d.
Proof.
  intros H. unfold char_code, digit_char.
  rewrite N_ascii_embedding by lia. lia.
Qed.

Lemma is_digit_digit_char (d : Z) : 0 <= d < 10 -> is_digit (digit_char d) = true.
Proof.
  intros H. unfold is_digit. rewrite char_code_digit_char by lia.
  apply andb_true_intro. split; apply Z.leb_le; lia.
Qed.

Lemma digit_val_digit_char (d : Z) : 0 <= d < 10 -> digit_val (digit_char d) = d.
Proof.
  intros H. unfold digit_val. rewrite char_code_digit_char by lia. lia.
Qed.

Lemma is_digit_val (c : ascii) : is_digit c = true -> 0 <= digit_val c < 10.
Proof.
  unfold is_digit, digit_val. intros H.
  apply andb_prop in H. destruct H as [H1 H2].
  apply Z.leb_le in H1. apply Z.leb_le in H2. lia.
Qed.

Lemma is_zero_char_eq (c : ascii) : is_zero_char c = true -> c = "0"%char.
Proof.
  unfold is_zero_char. intros H. apply Z.eqb_eq in H.
  apply char_code_inj. exact H.
Qed.

Lemma of_digits_from_app (acc : Z) (a b : text) :
  of_digits_from acc (a ++ b) = of_digits_from (of_digits_from acc a) b.
Proof. unfold of_digits_from. apply fold_left_app. Qed.

Lemma of_digits_from_shift (ds : text) (acc : Z) :
  of_digits_from acc ds = acc * 10 ^ Z.of_nat (List.length ds) + of_digits ds.
Proof.
  unfold of_digits. revert acc.
  induction ds as [|c ds IH]; intros acc.
  - simpl. lia.
  - unfold of_digits_from in *. cbn [fold_left].
    rewrite (IH (10 * acc + digit_val c)), (IH (10 * 0 + digit_val c)).
    replace (Z.of_nat (List.length (c :: ds))) with (Z.succ (Z.of_nat (List.length ds)))
      by (simpl List.length; lia).
    rewrite Z.pow_succ_r by lia. ring.
Qed.

Lemma of_digits_app (a b : text) :
  of_digits (a ++ b) = of_digits a * 10 ^ Z.of_nat (List.length b) + of_digits b.
Proof.
  unfold of_digits at 1. rewrite of_digits_from_app.
  rewrite of_digits_from_shift. reflexivity.
Qed.

Lemma of_digits_zeros (n : nat) : of_digits (repeat "0"%char n) = 0.
Proof.
  induction n as [|n IH].
  - reflexivity.
  - change (repeat "0"%char (S n)) with (["0"%char] ++ repeat "0"%char n).
    rewrite of_digits_app, IH. reflexivity.
Qed.

Lemma of_digits_nonneg (ds : text) : forallb is_digit ds = true -> 0 <= of_digits ds.
Proof.
  induction ds as [|c ds IH] using rev_ind; intros H.
  - unfold of_digits, of_digits_from. simpl. lia.
  - rewrite forallb_app in H. apply andb_prop in H. destruct H as [H1 H2].
    simpl in H2. rewrite andb_true_r in H2. apply is_digit_val in H2.
    rewrite of_digits_app. specialize (IH H1).
    unfold of_digits at 2, of_digits_from. simpl. simpl List.length. lia.
Qed.

(** The digits printed for a number: digits only, no leading zero, and they
    read back as the number. *)
Lemma digits_aux_app (fuel : nat) (n : Z) (acc : text) :
  digits_aux fuel n acc = digits_aux fuel n [] ++ acc.
Proof.
  revert n acc. induction fuel as [|fuel IH]; intros n acc.
  - reflexivity.
  - simpl. destruct (n / 10 =? 0).
    + reflexivity.
    + rewrite (IH (n / 10) (digit_char (n mod 10) :: acc)).
      rewrite (IH (n / 10) [digit_char (n mod 10)]).
      rewrite <- app_assoc. reflexivity.
Qed.

Lemma digits_aux_S (fuel : nat) (n : Z) (acc : text) :
  digits_aux (S fuel) n acc =
  if n / 10 =? 0 then digit_char (n mod 10) :: acc
  else digits_aux fuel (n / 10) (digit_char (n mod 10) :: acc).
Proof. reflexivity. Qed.

Lemma digits_aux_spec (fuel : nat) (n : Z) :
  0 <= n < 2 ^ Z.of_nat (S fuel) ->
  forallb is_digit (digits_aux (S fuel) n []) = true
  /\ of_digits (digits_aux (S fuel) n []) = n
  /\ (0 < n -> exists c r,
        digits_aux (S fuel) n [] = c :: r /\ is_zero_char c = false)
  /\ digits_aux (S fuel) n [] <> [].
Proof.
  revert n. induction fuel as [|fuel IH]; intros n Hn;
    assert (Hm : 0 <= n mod 10 < 10) by (apply Z.mod_pos_bound; lia);
    rewrite digits_aux_S; destruct (n / 10 =? 0) eqn:Hq.
  1, 3: apply Z.eqb_eq in Hq;
    assert (Hsmall : n = n mod 10)
      by (rewrite (Z.div_mod n 10) at 1 by lia; rewrite Hq; lia);
    repeat split;
    [ simpl; rewrite is_digit_digit_char by lia; reflexivity
    | unfold of_digits, of_digits_from; simpl;
      rewrite digit_val_digit_char by lia; lia
    | intros Hpos; exists (digit_char (n mod 10)), []; split; [reflexivity|];
      unfold is_zero_char; rewrite char_code_digit_char by lia;
      apply Z.eqb_neq; lia
    | discriminate ].
  - apply Z.eqb_neq in Hq. exfalso. apply Hq.
    apply Z.div_small. change (2 ^ Z.of_nat 1) with 2 in Hn. lia.
  - apply Z.eqb_neq in Hq.
    assert (Hdiv : 0 <= n / 10 < 2 ^ Z.of_nat (S fuel)).
    { split; [apply Z.div_pos; lia|].
      apply Z.div_lt_upper_bound; [lia|].
      replace (Z.of_nat (S (S fuel))) with (Z.succ (Z.of_nat (S fuel))) in Hn by lia.
      rewrite Z.pow_succ_r in Hn by lia. lia. }
    destruct (IH (n / 10) Hdiv) as (Hd & Hv & Hh & Hne).
    rewrite digits_aux_app.
    repeat split.
    + rewrite forallb_app, Hd. simpl.
      rewrite is_digit_digit_char by lia. reflexivity.
    + rewrite of_digits_app, Hv. simpl List.length.
      unfold of_digits, of_digits_from. simpl.
      rewrite digit_val_digit_char by lia.
      rewrite (Z.div_mod n 10) at 3 by lia. lia.
    + intros Hpos.
      assert (Hq' : 0 < n / 10) by lia.
      destruct (Hh Hq') as (c & r & Hr & Hz).
      exists c, (r ++ [digit_char (n mod 10)]). rewrite Hr.
      split; [reflexivity|exact Hz].
    + intros Habs. apply app_eq_nil in Habs. destruct Habs as [_ Habs]. discriminate.
Qed.

Lemma digits_of_Z_spec (n : Z) :
  0 <= n ->
  forallb is_digit (digits_of_Z n) = true
  /\ of_digits (digits_of_Z n) = n
  /\ (0 < n -> exists c r, digits_of_Z n = c :: r /\ is_zero_char c = false)
  /\ digits_of_Z n <> [].
Proof.
  intros Hn. unfold digits_of_Z. apply digits_aux_spec.
  split; [exact Hn|].
  destruct (Z.eq_dec n 0) as [->|Hne].
  - simpl. lia.
  - rewrite Nat2Z.inj_succ, Z2Nat.id by apply Z.log2_nonneg.
    apply Z.log2_spec. lia.
Qed.

(** ** Reading back a printed number *)

Definition stops (p : ascii -> bool) (s : text) : Prop :=
  match s with
  | [] => True
  | c :: _ => p c = false
  end.

Lemma span_app (p : ascii -> bool) (a b : text) :
  forallb p a = true -> stops p b -> span p (a ++ b) = (a, b).
Proof.
  intros Ha Hb. induction a as [|c a IH].
  - simpl. destruct b as [|d b]; [reflexivity|].
    simpl in *. rewrite Hb. reflexivity.
  - simpl in *. apply andb_prop in Ha. destruct Ha as [Hc Ha].
    rewrite Hc, (IH Ha). reflexivity.
Qed.

Lemma span_spec (p : ascii -> bool) (s : text) :
  forall a b, span p s = (a, b) ->
  s = a ++ b /\ forallb p a = true /\ stops p b.
Proof.
  induction s as [|c s IH]; intros a b H.
  - simpl in H. inversion H. repeat split.
  - simpl in H. destruct (p c) eqn:Hc.
    + destruct (span p s) as [a' b'] eqn:Hs. inversion H; subst.
      destruct (IH a' b eq_refl) as (H1 & H2 & H3).
      repeat split.
      * simpl. f_equal. exact H1.
      * simpl. rewrite Hc, H2. reflexivity.
      * exact H3.
    + inversion H; subst. repeat split. simpl. exact Hc.
Qed.

Lemma is_digit_ident (c : ascii) : is_digit c = true -> is_ident_char c = true.
Proof.
  intros H. unfold is_ident_char. rewrite H.
  rewrite orb_true_r. reflexivity.
Qed.

Lemma is_exp_char_ident (c : ascii) : is_exp_char c = true -> is_ident_char c = true.
Proof.
  unfold is_exp_char, is_ident_char, is_letter. intros H.
  apply orb_prop in H.
  destruct H as [H|H]; apply Z.eqb_eq in H; rewrite H; reflexivity.
Qed.

Lemma boundary_stops (rest : text) :
  boundary rest = true ->
  stops is_digit rest /\ stops is_dot rest /\ stops is_exp_char rest
  /\ stops is_ident_char rest.
Proof.
  destruct rest as [|c rest]; simpl; [tauto|].
  intros H. apply negb_true_iff in H. apply orb_false_elim in H.
  destruct H as [Hi Hd].
  repeat split; try assumption.
  - destruct (is_digit c) eqn:E; [|reflexivity].
    apply is_digit_ident in E. congruence.
  - destruct (is_exp_char c) eqn:E; [|reflexivity].
    apply is_exp_char_ident in E. congruence.
Qed.

Lemma lex_exponent_none (rest : text) :
  boundary rest = true -> lex_exponent rest = Some (0, rest).
Proof.
  intros H. destruct (boundary_stops rest H) as (_ & _ & He & _).
  destruct rest as [|c rest]; [reflexivity|].
  simpl in *. rewrite He. reflexivity.
Qed.

Lemma lex_exponent_printed (ex : Z) (rest : text) :
  boundary rest = true ->
  lex_exponent ("e"%char :: (if ex <? 0 then "-"%char else "+"%char)
                  :: digits_of_Z (Z.abs ex) ++ rest) = Some (ex, rest).
Proof.
  intros H. destruct (boundary_stops rest H) as (Hd & _).
  destruct (digits_of_Z_spec (Z.abs ex) (Z.abs_nonneg ex)) as (Hall & Hval & _ & Hne).
  unfold lex_exponent.
  assert (He : is_exp_char "e"%char = true) by reflexivity. rewrite He.
  destruct (ex <? 0) eqn:Hs; cbn [next_is tl orb Ascii.eqb Bool.eqb];
    cbv zeta;
    rewrite (span_app is_digit _ _ Hall Hd);
    destruct (digits_of_Z (Z.abs ex)) as [|c r] eqn:E; try congruence;
    rewrite Hval; f_equal; f_equal.
  - apply Z.ltb_lt in Hs. lia.
  - apply Z.ltb_ge in Hs. lia.
Qed.

(** The general shape of a literal the printer produces. *)
Lemma lex_number_shape (ip fp ext : text) (ex : Z) (rest : text) :
  forallb is_digit ip = true ->
  forallb is_digit fp = true ->
  is_nil ip && is_nil fp = false ->
  leading_zero ip = false ->
  lex_exponent (ext ++ rest) = Some (ex, rest) ->
  stops is_digit (ext ++ rest) ->
  (fp = [] -> stops is_dot (ext ++ rest)) ->
  boundary rest = true ->
  lex_number (ip ++ (match fp with [] => [] | _ => "."%char :: fp end) ++ ext ++ rest)
  = Some (Decimal (of_digits (ip ++ fp)) (ex - Z.of_nat (List.length fp)), rest).
Proof.
  intros Hip Hfp Hne Hlz Hex Hsd Hdot Hb.
  unfold lex_number.
  destruct fp as [|f fp'].
  - simpl app at 2. rewrite (span_app is_digit ip (ext ++ rest) Hip Hsd).
    specialize (Hdot eq_refl).
    assert (Hne' : is_nil ip = false)
      by (simpl in Hne; rewrite andb_true_r in Hne; exact Hne).
    destruct (ext ++ rest) as [|c r] eqn:E.
    + cbn [is_nil]. rewrite andb_true_r, Hne', Hlz. cbn [orb].
      rewrite Hex. simpl boundary.
      assert (rest = []) by (destruct ext; simpl in E; [exact E|discriminate]).
      subst rest. reflexivity.
    + simpl in Hdot. rewrite Hdot.
      cbn [is_nil]. rewrite andb_true_r, Hne', Hlz. cbn [orb].
      rewrite Hex, Hb. reflexivity.
  - assert (Hsp : span is_digit (ip ++ ("."%char :: f :: fp') ++ ext ++ rest)
                  = (ip, ("."%char :: f :: fp') ++ ext ++ rest)).
    { apply span_app; [exact Hip|]. reflexivity. }
    rewrite Hsp.
    change (("."%char :: f :: fp') ++ ext ++ rest)
      with ("."%char :: (f :: fp') ++ (ext ++ rest)).
    cbv beta iota.
    assert (Hd : is_dot "."%char = true) by reflexivity. rewrite Hd.
    rewrite (span_app is_digit (f :: fp') (ext ++ rest) Hfp Hsd).
    rewrite Hne, Hlz. cbn [orb].
    rewrite Hex, Hb. reflexivity.
Qed.

Lemma repeat_snoc {A : Type} (x : A) (n : nat) : repeat x n ++ [x] = x :: repeat x n.
Proof.
  induction n as [|n IH]; simpl; [reflexivity|]. rewrite IH. reflexivity.
Qed.

Lemma rev_repeat {A : Type} (x : A) (n : nat) : rev (repeat x n) = repeat x n.
Proof.
  induction n as [|n IH]; simpl; [reflexivity|].
  rewrite IH. apply repeat_snoc.
Qed.

Lemma drop_zeros_spec (l : text) :
  exists t, l = repeat "0"%char t ++ drop_zeros l.
Proof.
  induction l as [|c l IH].
  - exists O. reflexivity.
  - simpl. destruct (is_zero_char c) eqn:Hc.
    + destruct IH as [t IH]. exists (S t).
      apply is_zero_char_eq in Hc. subst c. simpl. f_equal. exact IH.
    + exists O. reflexivity.
Qed.

Lemma strip_trailing_zeros_spec (ds : text) :
  exists t, ds = strip_trailing_zeros ds ++ repeat "0"%char t.
Proof.
  destruct (drop_zeros_spec (rev ds)) as [t H].
  exists t. unfold strip_trailing_zeros.
  apply (f_equal (@rev ascii)) in H.
  rewrite rev_involutive, rev_app_distr, rev_repeat in H. exact H.
Qed.

Lemma forallb_repeat_zero (n : nat) : forallb is_digit (repeat "0"%char n) = true.
Proof. induction n; simpl; auto. Qed.

(** What the significant digits of a positive number look like. *)
Lemma significant_digits (a : Z) :
  0 < a ->
  exists c s' t,
    strip_trailing_zeros (digits_of_Z a) = c :: s'
    /\ digits_of_Z a = (c :: s') ++ repeat "0"%char t
    /\ forallb is_digit (c :: s') = true
    /\ is_zero_char c = false
    /\ a = of_digits (c :: s') * 10 ^ Z.of_nat t.
Proof.
  intros Ha.
  destruct (digits_of_Z_spec a ltac:(lia)) as (Hall & Hval & Hhead & _).
  destruct (Hhead Ha) as (c & r & Hds & Hc).
  destruct (strip_trailing_zeros_spec (digits_of_Z a)) as [t Ht].
  destruct (strip_trailing_zeros (digits_of_Z a)) as [|c' s'] eqn:Hs.
  - exfalso. simpl in Ht. rewrite Hds in Ht.
    destruct t; simpl in Ht; [discriminate|].
    inversion Ht; subst. discriminate.
  - assert (c' = c) by (rewrite Hds in Ht; simpl in Ht; inversion Ht; reflexivity).
    subst c'. exists c, s', t. repeat split; try assumption.
    + rewrite Ht in Hall. rewrite forallb_app in Hall.
      apply andb_prop in Hall. tauto.
    + rewrite <- Hval at 1. rewrite Ht, of_digits_app.
      rewrite of_digits_zeros, repeat_length. lia.
Qed.

Lemma inject_Z_pow10 (s p : Z) :
  0 <= p -> (inject_Z (s * 10 ^ p) == inject_Z s * (10 # 1) ^ p)%Q.
Proof.
  intros Hp. rewrite inject_Z_mult, Zpower_Qpower by exact Hp. reflexivity.
Qed.

Lemma ten_not_0 : ~ ((10 # 1) == 0)%Q.
Proof. discriminate. Qed.

Lemma dec_to_Q_shift (s p q : Z) :
  0 <= p ->
  (dec_to_Q (Decimal (s * 10 ^ p) q) == dec_to_Q (Decimal s (p + q)))%Q.
Proof.
  intros Hp. unfold dec_to_Q. simpl.
  rewrite inject_Z_pow10 by exact Hp.
  rewrite (Qpower_plus _ p q ten_not_0). ring.
Qed.

Definition is_num_char (c : ascii) : bool :=
  is_digit c || is_dot c || (char_code c =? 101) || (char_code c =? 43)
  || (char_code c =? 45).

Lemma is_digit_num (c : ascii) : is_digit c = true -> is_num_char c = true.
Proof. intros H. unfold is_num_char. rewrite H. reflexivity. Qed.

Lemma forallb_digit_num (s : text) :
  forallb is_digit s = true -> forallb is_num_char s = true.
Proof.
  intros H. rewrite forallb_forall in *. intros c Hc.
  apply is_digit_num. auto.
Qed.

Lemma leading_zero_head (c : ascii) (r : text) :
  is_zero_char c = false -> leading_zero (c :: r) = false.
Proof. intros H. destruct r; simpl; [reflexivity|exact H]. Qed.

Lemma of_digits_zeros_app (n : nat) (s : text) :
  of_digits (repeat "0"%char n ++ s) = of_digits s.
Proof. rewrite of_digits_app, of_digits_zeros. lia. Qed.

Lemma toString_pos_reads (a e : Z) (rest : text) :
  0 < a -> boundary rest = true ->
  exists d, lex_number (toString_pos a e ++ rest) = Some (d, rest)
            /\ (dec_to_Q d == dec_to_Q (Decimal a e))%Q.
Proof.
  intros Ha Hb.
  destruct (significant_digits a Ha) as (c & s' & t & Hs & Hds & Hall & Hc & Hval).
  destruct (boundary_stops rest Hb) as (Hsd & Hsdot & Hse & Hsi).
  assert (Htarget : (dec_to_Q (Decimal a e)
                     == dec_to_Q (Decimal (of_digits (c :: s')) (Z.of_nat t + e)))%Q).
  { rewrite Hval at 1. apply dec_to_Q_shift. lia. }
  assert (Hlz : forall r, leading_zero (c :: r) = false)
    by (intros r; apply leading_zero_head; exact Hc).
  unfold toString_pos. rewrite Hs. rewrite Hds, length_app, repeat_length.
  remember (c :: s') as s eqn:Es.
  remember (Z.of_nat (List.length s)) as k eqn:Ek.
  remember (Z.of_nat (List.length s + t) + e) as n eqn:En.
  assert (Hk : k = 1 + Z.of_nat (List.length s'))
    by (subst k s; simpl List.length; lia).
  assert (Hnk : n - k = Z.of_nat t + e) by (subst n k; lia).
  destruct ((k <=? n) && (n <=? 21)) eqn:C1.
  { (* digits followed by zeros *)
    apply andb_prop in C1. destruct C1 as [C1 _]. apply Z.leb_le in C1.
    pose proof (lex_number_shape (s ++ zeros (n - k)) [] [] 0 rest) as H.
    cbn [app] in H. rewrite app_nil_r in H.
    exists (Decimal (of_digits (s ++ zeros (n - k))) (0 - Z.of_nat 0)). split.
    - apply H;
        [ rewrite forallb_app, Hall; apply forallb_repeat_zero
        | reflexivity
        | subst s; reflexivity
        | subst s; cbn [app]; apply Hlz
        | apply lex_exponent_none; exact Hb
        | exact Hsd
        | intros _; exact Hsdot
        | exact Hb ].
    - rewrite Htarget. unfold zeros.
      rewrite of_digits_app, of_digits_zeros, repeat_length, Z2Nat.id by lia.
      rewrite Z.add_0_r. rewrite dec_to_Q_shift by lia.
      replace (n - k + (0 - Z.of_nat 0)) with (Z.of_nat t + e) by lia. reflexivity. }
  destruct ((0 <? n) && (n <=? 21)) eqn:C2.
  { (* a decimal point inside the digits *)
    apply andb_prop in C2. destruct C2 as [C2 C2']. apply Z.ltb_lt in C2.
    apply Z.leb_le in C2'.
    assert (Hlt : n < k).
    { destruct (k <=? n) eqn:E; [|apply Z.leb_gt in E; exact E].
      simpl in C1. apply Z.leb_gt in C1. lia. }
    remember (Z.to_nat n) as m eqn:Em.
    assert (Hm : (0 < m < List.length s)%nat) by lia.
    assert (Hsplit : firstn m s ++ skipn m s = s) by apply firstn_skipn.
    assert (Hlen : List.length (skipn m s) = (List.length s - m)%nat)
      by apply length_skipn.
    assert (Hall' : forallb is_digit (firstn m s) = true
                    /\ forallb is_digit (skipn m s) = true).
    { rewrite <- Hsplit in Hall. rewrite forallb_app in Hall.
      apply andb_prop in Hall. exact Hall. }
    destruct Hall' as [Hf1 Hf2].
    assert (Hfirst : exists r, firstn m s = c :: r).
    { destruct m; [lia|]. subst s. simpl. eexists. reflexivity. }
    destruct Hfirst as [r1 Hr1].
    pose proof (lex_number_shape (firstn m s) (skipn m s) [] 0 rest) as H.
    destruct (skipn m s) as [|f fp] eqn:Hsk; [simpl in Hlen; lia|].
    cbn [app] in H.
    exists (Decimal (of_digits (firstn m s ++ f :: fp))
                    (0 - Z.of_nat (List.length (f :: fp)))). split.
    - rewrite <- app_assoc. cbn [app].
      apply H;
        [ exact Hf1
        | exact Hf2
        | rewrite Hr1; reflexivity
        | rewrite Hr1; apply Hlz
        | apply lex_exponent_none; exact Hb
        | exact Hsd
        | discriminate
        | exact Hb ].
    - rewrite Htarget. rewrite Hsplit.
      replace (0 - Z.of_nat (List.length (f :: fp))) with (Z.of_nat t + e)
        by (rewrite Hlen; lia).
      rewrite Es. reflexivity. }
  destruct ((-6 <? n) && (n <=? 0)) eqn:C3.
  { (* zero, point, zeros, digits *)
    apply andb_prop in C3. destruct C3 as [_ C3]. apply Z.leb_le in C3.
    pose proof (lex_number_shape ["0"%char] (zeros (- n) ++ s) [] 0 rest) as H.
    assert (Hfpd : forallb is_digit (zeros (- n) ++ s) = true).
    { rewrite forallb_app, Hall. unfold zeros.
      rewrite forallb_repeat_zero. reflexivity. }
    assert (Hfpv : of_digits ("0"%char :: zeros (- n) ++ s) = of_digits s).
    { change ("0"%char :: zeros (- n) ++ s)
        with (repeat "0"%char 1 ++ (zeros (- n) ++ s)).
      unfold zeros. rewrite !of_digits_zeros_app. reflexivity. }
    assert (Hfpl : Z.of_nat (List.length (zeros (- n) ++ s)) = - n + k).
    { unfold zeros. rewrite length_app, repeat_length. lia. }
    destruct (zeros (- n) ++ s) as [|f fp] eqn:Hz.
    { apply app_eq_nil in Hz. destruct Hz as [_ Hz]. subst s. discriminate. }
    cbn [app] in H.
    exists (Decimal (of_digits ("0"%char :: f :: fp))
                    (0 - Z.of_nat (List.length (f :: fp)))). split.
    - cbn [app].
      apply H;
        [ reflexivity
        | exact Hfpd
        | reflexivity
        | reflexivity
        | apply lex_exponent_none; exact Hb
        | exact Hsd
        | discriminate
        | exact Hb ].
    - rewrite Htarget, Hfpv, Hfpl.
      replace (0 - (- n + k)) with (Z.of_nat t + e) by lia.
      rewrite Es. reflexivity. }
  (* exponent notation *)
  pose proof (lex_exponent_printed (n - 1) rest Hb) as Hexp.
  remember ("e"%char :: (if n - 1 <? 0 then "-"%char else "+"%char)
              :: digits_of_Z (Z.abs (n - 1))) as ext eqn:Eext.
  assert (Hext : exists r, ext = "e"%char :: r) by (subst ext; eexists; reflexivity).
  destruct Hext as [rext Hrext].
  pose proof (lex_number_shape [c] s' ext (n - 1) rest) as H.
  assert (Hc1 : forallb is_digit [c] = true /\ forallb is_digit s' = true).
  { subst s. simpl in Hall. apply andb_prop in Hall.
    simpl. rewrite andb_true_r. exact Hall. }
  destruct Hc1 as [Hc1 Hc2].
  assert (Hpre : lex_exponent (ext ++ rest) = Some (n - 1, rest)).
  { subst ext. exact Hexp. }
  assert (Hsd' : stops is_digit (ext ++ rest)) by (rewrite Hrext; reflexivity).
  assert (Hsdot' : stops is_dot (ext ++ rest)) by (rewrite Hrext; reflexivity).
  exists (Decimal (of_digits ([c] ++ s')) (n - 1 - Z.of_nat (List.length s'))). split.
  - subst s. cbv zeta. destruct s' as [|f fp]; cbv iota.
    + cbn [app] in H. cbn [app].
      apply H;
        [ exact Hc1 | reflexivity | reflexivity | reflexivity | exact Hpre
        | exact Hsd' | intros _; exact Hsdot' | exact Hb ].
    + cbn [app] in H. cbn [app]. rewrite <- app_assoc.
      apply H;
        [ exact Hc1 | exact Hc2 | reflexivity | reflexivity | exact Hpre
        | exact Hsd' | discriminate | exact Hb ].
  - rewrite Htarget.
    replace (n - 1 - Z.of_nat (List.length s')) with (Z.of_nat t + e) by lia.
    rewrite Es. reflexivity.
Qed.

Lemma forallb_firstn_skipn (p : ascii -> bool) (m : nat) (s : text) :
  forallb p s = true ->
  forallb p (firstn m s) = true /\ forallb p (skipn m s) = true.
Proof.
  intros H. rewrite <- (firstn_skipn m s) in H.
  rewrite forallb_app in H. apply andb_prop in H. exact H.
Qed.

(** A printed positive number starts with a digit and consists of digits,
    a dot, [e], [+] and [-] only. *)
Lemma toString_pos_chars (a e : Z) :
  0 < a ->
  exists c r, toString_pos a e = c :: r
              /\ is_digit c = true
              /\ forallb is_num_char (c :: r) = true.
Proof.
  intros Ha.
  destruct (significant_digits a Ha) as (c & s' & t & Hs & Hds & Hall & Hc & Hval).
  pose proof (forallb_digit_num _ Hall) as Hnum.
  assert (Hcd : is_digit c = true)
    by (simpl in Hall; apply andb_prop in Hall; tauto).
  unfold toString_pos. rewrite Hs.
  remember (Z.of_nat (List.length (digits_of_Z a)) + e) as n eqn:En.
  destruct ((Z.of_nat (List.length (c :: s')) <=? n) && (n <=? 21)).
  { exists c, (s' ++ zeros (n - Z.of_nat (List.length (c :: s')))).
    repeat split; [exact Hcd|].
    change (c :: s' ++ zeros (n - Z.of_nat (List.length (c :: s'))))
      with ((c :: s') ++ zeros (n - Z.of_nat (List.length (c :: s')))).
    rewrite forallb_app, Hnum. apply forallb_digit_num, forallb_repeat_zero. }
  destruct ((0 <? n) && (n <=? 21)) eqn:C2.
  { apply andb_prop in C2. destruct C2 as [C2 _]. apply Z.ltb_lt in C2.
    destruct (forallb_firstn_skipn is_num_char (Z.to_nat n) (c :: s') Hnum)
      as [H1 H2].
    destruct (Z.to_nat n) as [|m] eqn:Em; [lia|].
    simpl firstn in *. simpl skipn in *.
    exists c, (firstn m s' ++ "."%char :: skipn m s').
    repeat split; [exact Hcd|].
    change (c :: firstn m s' ++ "."%char :: skipn m s')
      with ((c :: firstn m s') ++ "."%char :: skipn m s').
    rewrite forallb_app, H1. simpl. exact H2. }
  destruct ((-6 <? n) && (n <=? 0)).
  { exists "0"%char, ("."%char :: zeros (- n) ++ c :: s').
    repeat split. simpl. rewrite forallb_app, Hnum.
    unfold zeros. rewrite (forallb_digit_num _ (forallb_repeat_zero _)).
    reflexivity. }
  destruct (digits_of_Z_spec (Z.abs (n - 1)) (Z.abs_nonneg _)) as (Hex & _).
  apply forallb_digit_num in Hex.
  assert (Hsign : is_num_char (if n - 1 <? 0 then "-"%char else "+"%char) = true)
    by (destruct (n - 1 <? 0); reflexivity).
  simpl in Hnum. apply andb_prop in Hnum. destruct Hnum as [Hn1 Hn2].
  cbv zeta. destruct s' as [|f fp].
  - eexists. eexists. repeat split; [exact Hcd|].
    simpl. rewrite Hn1, Hsign, Hex. reflexivity.
  - eexists. eexists. repeat split; [exact Hcd|].
    cbn [forallb]. rewrite Hn1. cbn [andb].
    change (is_num_char "."%char) with true. cbn [andb].
    rewrite forallb_app, Hn2. cbn [forallb andb].
    rewrite Hsign, Hex. reflexivity.
Qed.

(** Numbers whose spelling carries no sign: zero and the positive ones. *)
Definition nonneg (x : number) : Prop :=
  match x with
  | Finite d => 0 <= mant d
  | _ => False
  end.

Lemma decimal_value_ext (d d' : decimal) :
  (dec_to_Q d == dec_to_Q d')%Q -> decimal_value d = decimal_value d'.
Proof.
  intros H. unfold decimal_value. f_equal. apply Qred_complete. exact H.
Qed.

Lemma Number_toString_reads (x : number) (rest : text) :
  nonneg x -> boundary rest = true ->
  exists d, lex_number (Number_toString x ++ rest) = Some (d, rest)
            /\ decimal_value d = number_value x.
Proof.
  intros Hx Hb. destruct x as [[m e]| |neg]; try contradiction.
  simpl in Hx. unfold Number_toString. simpl mant. simpl expo.
  destruct (m =? 0) eqn:Hm0.
  - apply Z.eqb_eq in Hm0. subst m.
    destruct (boundary_stops rest Hb) as (Hsd & Hsdot & _ & _).
    pose proof (lex_number_shape ["0"%char] [] [] 0 rest) as H.
    cbn [app] in H.
    exists (Decimal (of_digits (["0"%char] ++ [])) (0 - Z.of_nat 0)). split.
    + apply H;
        [ reflexivity | reflexivity | reflexivity | reflexivity
        | apply lex_exponent_none; exact Hb | exact Hsd
        | intros _; exact Hsdot | exact Hb ].
    + apply decimal_value_ext. unfold dec_to_Q. simpl mant.
      change (inject_Z (of_digits (["0"%char] ++ []))) with 0%Q.
      change (inject_Z 0) with 0%Q.
      rewrite !Qmult_0_l. reflexivity.
  - apply Z.eqb_neq in Hm0.
    destruct (m <? 0) eqn:Hneg; [apply Z.ltb_lt in Hneg; lia|].
    destruct (toString_pos_reads m e rest ltac:(lia) Hb) as (d & Hd & Hq).
    exists d. split; [exact Hd|]. apply decimal_value_ext. exact Hq.
Qed.

Lemma Number_toString_chars (x : number) :
  nonneg x ->
  exists c r, Number_toString x = c :: r
              /\ is_digit c = true
              /\ forallb is_num_char (c :: r) = true.
Proof.
  intros Hx. destruct x as [[m e]| |neg]; try contradiction.
  simpl in Hx. unfold Number_toString. simpl mant. simpl expo.
  destruct (m =? 0) eqn:Hm0.
  - exists "0"%char, []. repeat split.
  - apply Z.eqb_neq in Hm0.
    destruct (m <? 0) eqn:Hneg; [apply Z.ltb_lt in Hneg; lia|].
    apply toString_pos_chars. lia.
Qed.

(** ** Literals of the rule text are untouched by the substitution *)

Definition is_lit_char (c : ascii) : bool :=
  is_digit c || is_dot c || is_exp_char c || (char_code c =? 43)
  || (char_code c =? 45).

Lemma is_digit_lit (c : ascii) : is_digit c = true -> is_lit_char c = true.
Proof. intros H. unfold is_lit_char. rewrite H. reflexivity. Qed.

Lemma forallb_digit_lit (s : text) :
  forallb is_digit s = true -> forallb is_lit_char s = true.
Proof.
  intros H. rewrite forallb_forall in *. intros c Hc.
  apply is_digit_lit. auto.
Qed.

Lemma is_exp_char_cases (c : ascii) :
  is_exp_char c = true -> c = "e"%char \/ c = "E"%char.
Proof.
  unfold is_exp_char. intros H. apply orb_prop in H.
  destruct H as [H|H]; apply Z.eqb_eq in H; [left|right];
    apply char_code_inj; exact H.
Qed.

Lemma is_dot_eq (c : ascii) : is_dot c = true -> c = "."%char.
Proof.
  unfold is_dot. intros H. apply Z.eqb_eq in H. apply char_code_inj. exact H.
Qed.

Lemma lex_exponent_inv (r2 : text) (ex : Z) (r3 : text) :
  lex_exponent r2 = Some (ex, r3) ->
  exists ext,
    r2 = ext ++ r3
    /\ forallb is_lit_char ext = true
    /\ (ext = [] \/ exists e r, ext = e :: r /\ is_exp_char e = true)
    /\ forall rest', boundary rest' = true ->
                     lex_exponent (ext ++ rest') = Some (ex, rest').
Proof.
  intros H. destruct r2 as [|c r].
  - simpl in H. inversion H; subst. exists []. repeat split.
    + left. reflexivity.
    + intros rest' Hb. apply lex_exponent_none. exact Hb.
  - unfold lex_exponent in H. destruct (is_exp_char c) eqn:Hc.
    + cbv zeta in H.
      match type of H with
      | context [span is_digit ?a] =>
          destruct (span is_digit a) as [ed r''] eqn:Es
      end.
      destruct (span_spec _ _ _ _ Es) as (Hr' & Hed & Hstop).
      destruct ed as [|e0 ed']; [discriminate|].
      cbv beta iota in H. injection H as Hex Hr3. subst ex r3.
      destruct r as [|h t].
      { simpl in Hr'. discriminate. }
      assert (Hform : exists pre,
                 h :: t = pre ++ (e0 :: ed') ++ r''
                 /\ forallb is_lit_char pre = true
                 /\ forall tail,
                      (if next_is "-"%char (pre ++ (e0 :: ed') ++ tail) then -1 else 1)
                      = (if next_is "-"%char (h :: t) then -1 else 1)
                      /\ (if next_is "+"%char (pre ++ (e0 :: ed') ++ tail)
                             || next_is "-"%char (pre ++ (e0 :: ed') ++ tail)
                          then tl (pre ++ (e0 :: ed') ++ tail)
                          else pre ++ (e0 :: ed') ++ tail)
                         = (e0 :: ed') ++ tail).
      { destruct (next_is "+"%char (h :: t) || next_is "-"%char (h :: t)) eqn:Hsg;
          try rewrite Hsg in Hr'.
        - simpl tl in Hr'. exists [h]. repeat split.
          + rewrite Hr'. reflexivity.
          + simpl. rewrite andb_true_r. unfold is_lit_char.
            simpl in Hsg. apply orb_prop in Hsg.
            destruct Hsg as [E|E]; apply Ascii.eqb_eq in E; subst h; reflexivity.
          + cbn [app next_is]. cbn [app next_is] in Hsg. rewrite Hsg. reflexivity.
        - exists []. repeat split.
          + exact Hr'.
          + cbn [app]. inversion Hr'; subst. reflexivity.
          + cbn [app]. inversion Hr'; subst.
            cbn [next_is] in *. rewrite Hsg. reflexivity. }
      destruct Hform as (pre & Hht & Hpre & Hreplay).
      exists (c :: pre ++ e0 :: ed'). repeat split.
      * rewrite Hht. simpl. rewrite <- app_assoc. reflexivity.
      * simpl. unfold is_lit_char at 1. rewrite Hc.
        rewrite !orb_true_r. simpl. rewrite forallb_app, Hpre.
        apply (forallb_digit_lit (e0 :: ed') Hed).
      * right. exists c, (pre ++ e0 :: ed'). split; [reflexivity|exact Hc].
      * intros rest' Hb. destruct (boundary_stops rest' Hb) as (Hsd & _).
        simpl app. unfold lex_exponent. rewrite Hc. cbv zeta.
        rewrite <- app_assoc.
        change ((e0 :: ed') ++ rest') with ((e0 :: ed') ++ rest') in *.
        destruct (Hreplay rest') as [Hs1 Hs2].
        change (pre ++ (e0 :: ed') ++ rest') with (pre ++ (e0 :: ed') ++ rest') in *.
        rewrite Hs2, Hs1.
        rewrite (span_app is_digit (e0 :: ed') rest' Hed Hsd).
        reflexivity.
    + inversion H; subst. exists []. repeat split.
      * left. reflexivity.
      * intros rest' Hb. apply lex_exponent_none. exact Hb.
Qed.

Lemma exp_char_not_digit_dot (e : ascii) :
  is_exp_char e = true -> is_digit e = false /\ is_dot e = false.
Proof.
  intros H. destruct (is_exp_char_cases e H); subst e; split; reflexivity.
Qed.

(** The shape of any literal, with or without a dot. *)
Lemma lex_number_shape_dot (dot : bool) (ip fp ext : text) (ex : Z) (rest : text) :
  forallb is_digit ip = true ->
  forallb is_digit fp = true ->
  is_nil ip && is_nil fp = false ->
  leading_zero ip = false ->
  lex_exponent (ext ++ rest) = Some (ex, rest) ->
  stops is_digit (ext ++ rest) ->
  (dot = false -> fp = [] /\ stops is_dot (ext ++ rest)) ->
  boundary rest = true ->
  lex_number (ip ++ (if dot then "."%char :: fp else []) ++ ext ++ rest)
  = Some (Decimal (of_digits (ip ++ fp)) (ex - Z.of_nat (List.length fp)), rest).
Proof.
  intros Hip Hfp Hne Hlz Hex Hsd Hdot Hb.
  destruct dot.
  - unfold lex_number.
    assert (Hsp : span is_digit (ip ++ ("."%char :: fp) ++ ext ++ rest)
                  = (ip, ("."%char :: fp) ++ ext ++ rest)).
    { apply span_app; [exact Hip|]. reflexivity. }
    rewrite Hsp.
    change (("."%char :: fp) ++ ext ++ rest)
      with ("."%char :: fp ++ (ext ++ rest)).
    cbv beta iota.
    assert (Hd : is_dot "."%char = true) by reflexivity. rewrite Hd.
    rewrite (span_app is_digit fp (ext ++ rest) Hfp Hsd).
    rewrite Hne, Hlz. cbn [orb].
    rewrite Hex, Hb. reflexivity.
  - destruct (Hdot eq_refl) as [-> Hsdot].
    apply (lex_number_shape ip [] ext ex rest); try assumption.
    intros _. exact Hsdot.
Qed.

Lemma lex_number_inv (s : text) (d : decimal) (rest : text) :
  lex_number s = Some (d, rest) ->
  exists lit,
    s = lit ++ rest
    /\ lit <> []
    /\ forallb is_lit_char lit = true
    /\ boundary rest = true
    /\ forall rest', boundary rest' = true ->
                     lex_number (lit ++ rest') = Some (d, rest').
Proof.
  intros H. unfold lex_number in H.
  destruct (span is_digit s) as [ip r1] eqn:E1.
  destruct (span_spec _ _ _ _ E1) as (Hs & Hip & Hstop1).
  (* the fraction *)
  assert (Hfrac : exists (dot : bool) fp r2,
             r1 = (if dot then "."%char :: fp else []) ++ r2
             /\ forallb is_digit fp = true
             /\ (match r1 with
                 | c :: r => if is_dot c then span is_digit r else ([], r1)
                 | [] => ([], r1)
                 end) = (fp, r2)
             /\ stops is_digit r2
             /\ (dot = false -> fp = [] /\ stops is_dot r2)).
  { destruct r1 as [|c r].
    - exists false, [], []. repeat split.
    - destruct (is_dot c) eqn:Hc.
      + apply is_dot_eq in Hc. subst c.
        destruct (span is_digit r) as [fp r2] eqn:E2.
        destruct (span_spec _ _ _ _ E2) as (Hr & Hfp & Hstop2).
        exists true, fp, r2. repeat split.
        * rewrite Hr. reflexivity.
        * exact Hfp.
        * exact Hstop2.
        * discriminate.
        * discriminate.
      + exists false, [], (c :: r). repeat split.
        * exact Hstop1.
        * exact Hc. }
  destruct Hfrac as (dot & fp & r2 & Hr1 & Hfp & Hm & Hstop2 & Hnodot).
  rewrite Hm in H.
  destruct ((is_nil ip && is_nil fp) || leading_zero ip) eqn:Hcond; [discriminate|].
  apply orb_false_elim in Hcond. destruct Hcond as [Hne Hlz].
  destruct (lex_exponent r2) as [[ex r3]|] eqn:Hex; [|discriminate].
  destruct (boundary r3) eqn:Hb; [|discriminate].
  inversion H; subst d rest. clear H.
  destruct (lex_exponent_inv _ _ _ Hex) as (ext & Hr2 & Hext & Hshape & Hreplay).
  exists (ip ++ (if dot then "."%char :: fp else []) ++ ext). repeat split.
  - rewrite Hs, Hr1, Hr2. rewrite <- !app_assoc. reflexivity.
  - intros Habs. apply app_eq_nil in Habs. destruct Habs as [Hi Habs].
    apply app_eq_nil in Habs. destruct Habs as [Hd _].
    subst ip. destruct dot; [discriminate|].
    destruct (Hnodot eq_refl) as [-> _]. discriminate.
  - rewrite !forallb_app, (forallb_digit_lit _ Hip), Hext.
    destruct dot; [|reflexivity].
    cbn [forallb]. change (is_lit_char "."%char) with true.
    rewrite (forallb_digit_lit _ Hfp). reflexivity.
  - exact Hb.
  - intros rest' Hb'. destruct (boundary_stops rest' Hb') as (Hsd & Hsdot & _).
    rewrite <- !app_assoc.
    apply lex_number_shape_dot; try assumption.
    + apply Hreplay. exact Hb'.
    + destruct Hshape as [->|(e & r & -> & He)]; [exact Hsd|].
      simpl. apply (exp_char_not_digit_dot e He).
    + intros Hd. destruct (Hnodot Hd) as [Hfpnil _]. split; [exact Hfpnil|].
      destruct Hshape as [->|(e & r & -> & He)]; [exact Hsdot|].
      simpl. apply (exp_char_not_digit_dot e He).
Qed.

(** ** The substitution of the coordinates, character by character *)

Arguments decimal_value : simpl never.
Arguments number_value : simpl never.
Arguments Number_toString : simpl never.
Arguments substitute : simpl never.
Arguments lex_number : simpl never.
Arguments lex_fuel : simpl never.
Arguments word_token : simpl never.
Arguments lex_punct : simpl never.

Definition not_xy (c : ascii) : bool :=
  negb (Ascii.eqb c "x"%char) && negb (Ascii.eqb c "y"%char).

Lemma not_xy_of (p : ascii -> bool) (c : ascii) :
  p "x"%char = false -> p "y"%char = false -> p c = true -> not_xy c = true.
Proof.
  intros Hx Hy Hc. unfold not_xy.
  destruct (Ascii.eqb c "x"%char) eqn:E1;
    [apply Ascii.eqb_eq in E1; subst; congruence|].
  destruct (Ascii.eqb c "y"%char) eqn:E2;
    [apply Ascii.eqb_eq in E2; subst; congruence|].
  reflexivity.
Qed.

Lemma forallb_not_xy_of (p : ascii -> bool) (s : text) :
  p "x"%char = false -> p "y"%char = false ->
  forallb p s = true -> forallb not_xy s = true.
Proof.
  intros Hx Hy H. rewrite forallb_forall in *. intros c Hc.
  apply (not_xy_of p); auto.
Qed.

Lemma replace_all_app (c : ascii) (by_ a b : text) :
  replace_all c by_ (a ++ b) = replace_all c by_ a ++ replace_all c by_ b.
Proof.
  induction a as [|d a IH]; simpl; [reflexivity|].
  destruct (Ascii.eqb d c); rewrite IH.
  - rewrite app_assoc. reflexivity.
  - reflexivity.
Qed.

Lemma replace_all_absent (c : ascii) (by_ s : text) :
  forallb (fun d => negb (Ascii.eqb d c)) s = true -> replace_all c by_ s = s.
Proof.
  induction s as [|d s IH]; simpl; [reflexivity|].
  intros H. apply andb_prop in H. destruct H as [Hd Hs].
  apply negb_true_iff in Hd. rewrite Hd, (IH Hs). reflexivity.
Qed.

Section Substitution.
Variables x y : number.
Hypothesis Hx : nonneg x.
Hypothesis Hy : nonneg y.

Lemma printed_absent (c : ascii) (z : number) :
  nonneg z -> is_num_char c = false ->
  forallb (fun d => negb (Ascii.eqb d c)) (Number_toString z) = true.
Proof.
  intros Hz Hc. destruct (Number_toString_chars z Hz) as (c0 & r & -> & _ & Hall).
  rewrite forallb_forall in *. intros d Hd. specialize (Hall d Hd).
  apply negb_true_iff.
  destruct (Ascii.eqb d c) eqn:E; [|reflexivity].
  apply Ascii.eqb_eq in E. subst. congruence.
Qed.

Lemma substitute_nil : substitute x y [] = [].
Proof. reflexivity. Qed.

Lemma substitute_app (a b : text) :
  substitute x y (a ++ b) = substitute x y a ++ substitute x y b.
Proof. unfold substitute. rewrite !replace_all_app. reflexivity. Qed.

Lemma substitute_x : substitute x y ["x"%char] = Number_toString x.
Proof.
  unfold substitute. simpl. rewrite app_nil_r.
  apply replace_all_absent. apply printed_absent; [exact Hx|reflexivity].
Qed.

Lemma substitute_y : substitute x y ["y"%char] = Number_toString y.
Proof. unfold substitute. simpl. apply app_nil_r. Qed.

Lemma substitute_plain_char (c : ascii) :
  not_xy c = true -> substitute x y [c] = [c].
Proof.
  unfold not_xy, substitute. intros H. apply andb_prop in H.
  destruct H as [H1 H2]. apply negb_true_iff in H1. apply negb_true_iff in H2.
  simpl. rewrite H1. simpl. rewrite H2. reflexivity.
Qed.

Lemma substitute_plain (s : text) :
  forallb not_xy s = true -> substitute x y s = s.
Proof.
  induction s as [|c s IH]; [reflexivity|].
  intros H. simpl in H. apply andb_prop in H. destruct H as [Hc Hs].
  change (c :: s) with ([c] ++ s).
  rewrite substitute_app, (substitute_plain_char c Hc), (IH Hs). reflexivity.
Qed.

Lemma substitute_cons_plain (c : ascii) (s : text) :
  not_xy c = true -> substitute x y (c :: s) = c :: substitute x y s.
Proof.
  intros H. change (c :: s) with ([c] ++ s).
  rewrite substitute_app, (substitute_plain_char c H). reflexivity.
Qed.

Lemma substitute_plain_app (a b : text) :
  forallb not_xy a = true -> substitute x y (a ++ b) = a ++ substitute x y b.
Proof.
  intros H. rewrite substitute_app, (substitute_plain a H). reflexivity.
Qed.

(** The first character after the substitution: unchanged unless it was
    a coordinate, which gives a digit. *)
Lemma substitute_head (s : text) :
  match s with
  | [] => substitute x y s = []
  | c :: s' =>
      (not_xy c = true /\ substitute x y s = c :: substitute x y s')
      \/ (not_xy c = false
          /\ exists d r, substitute x y s = d :: r /\ is_digit d = true)
  end.
Proof.
  destruct s as [|c s']; [reflexivity|].
  destruct (not_xy c) eqn:Hc.
  - left. split; [reflexivity|]. apply substitute_cons_plain. exact Hc.
  - right. split; [reflexivity|].
    change (c :: s') with ([c] ++ s'). rewrite substitute_app.
    unfold not_xy in Hc. apply andb_false_elim in Hc.
    destruct Hc as [Hc|Hc]; apply negb_false_iff in Hc;
      apply Ascii.eqb_eq in Hc; subst c.
    + rewrite substitute_x.
      destruct (Number_toString_chars x Hx) as (d & r & -> & Hd & _).
      exists d, (r ++ substitute x y s'). split; [reflexivity|exact Hd].
    + rewrite substitute_y.
      destruct (Number_toString_chars y Hy) as (d & r & -> & Hd & _).
      exists d, (r ++ substitute x y s'). split; [reflexivity|exact Hd].
Qed.

Lemma boundary_substitute (rest : text) :
  boundary rest = true -> boundary (substitute x y rest) = true.
Proof.
  intros H. destruct rest as [|c r]; [reflexivity|].
  assert (Hc : not_xy c = true).
  { simpl in H. apply negb_true_iff in H. apply orb_false_elim in H.
    destruct H as [Hi _]. unfold not_xy.
    destruct (Ascii.eqb c "x"%char) eqn:E1;
      [apply Ascii.eqb_eq in E1; subst; discriminate|].
    destruct (Ascii.eqb c "y"%char) eqn:E2;
      [apply Ascii.eqb_eq in E2; subst; discriminate|].
    reflexivity. }
  rewrite (substitute_cons_plain c r Hc). exact H.
Qed.

Lemma next_is_substitute (p : ascii) (s : text) :
  not_xy p = true -> is_digit p = false ->
  next_is p (substitute x y s) = next_is p s.
Proof.
  intros Hp Hd. pose proof (substitute_head s) as H.
  destruct s as [|c s']; [rewrite H; reflexivity|].
  destruct H as [[Hc ->]|[Hc (d & r & -> & Hdig)]]; [reflexivity|].
  simpl. transitivity false.
  - destruct (Ascii.eqb d p) eqn:E; [|reflexivity].
    apply Ascii.eqb_eq in E. subst. congruence.
  - symmetry. destruct (Ascii.eqb c p) eqn:E; [|reflexivity].
    apply Ascii.eqb_eq in E. subst. congruence.
Qed.

Lemma tl_substitute (p : ascii) (s : text) :
  not_xy p = true -> next_is p s = true ->
  tl (substitute x y s) = substitute x y (tl s).
Proof.
  intros Hp H. destruct s as [|c s']; [discriminate|].
  simpl in H. apply Ascii.eqb_eq in H. subst c.
  rewrite (substitute_cons_plain p s' Hp). reflexivity.
Qed.

Lemma lex_punct_substitute (c : ascii) (s : text) (t : token) (rest : text) :
  lex_punct c s = Some (t, rest) ->
  lex_punct c (substitute x y s) = Some (t, substitute x y rest).
Proof.
  intros H. unfold lex_punct in *.
  repeat match type of H with
         | context [if Ascii.eqb c ?k then _ else _] =>
             destruct (Ascii.eqb c k) eqn:?
         end;
    repeat first
      [ rewrite next_is_substitute by reflexivity
      | match goal with
        | E : next_is ?p ?s = true |- context [tl (substitute x y ?s)] =>
            rewrite (tl_substitute p s eq_refl E)
        end
      | match type of H with
        | context [next_is ?p ?s] => destruct (next_is p s) eqn:?
        end ];
    cbn [orb] in *; try discriminate;
    inversion H; subst; reflexivity.
Qed.

Lemma lex_punct_facts (c : ascii) (s : text) (t : token) (rest : text) :
  lex_punct c s = Some (t, rest) ->
  not_xy c = true
  /\ (List.length rest <= List.length s)%nat
  /\ match t with TIdent _ => False | _ => True end
  /\ (rest = s \/ rest = tl s \/ rest = tl (tl s)).
Proof.
  intros H. unfold lex_punct in H.
  assert (Hl1 : (List.length (tl s) <= List.length s)%nat)
    by (destruct s; simpl; lia).
  assert (Hl2 : (List.length (tl (tl s)) <= List.length s)%nat)
    by (destruct s as [|? [|? ?]]; simpl; lia).
  repeat match type of H with
         | context [if Ascii.eqb c ?k then _ else _] =>
             destruct (Ascii.eqb c k) eqn:?
         end;
    try discriminate;
    repeat match goal with
           | E : Ascii.eqb c _ = true |- _ => apply Ascii.eqb_eq in E; subst c
           end;
    repeat match type of H with
           | context [if ?b then _ else _] => destruct b
           end;
    try discriminate; inversion H; subst; repeat split; auto.
Qed.

Lemma word_token_inv (w : string) (t : token) :
  word_token w = Some t ->
  (w = "true"%string /\ t = TTrue) \/ (w = "false"%string /\ t = TFalse)
  \/ (w = "null"%string /\ t = TNull) \/ t = TIdent w.
Proof.
  unfold word_token. intros H.
  destruct (String.eqb w "true") eqn:E1.
  { apply String.eqb_eq in E1. inversion H. auto. }
  destruct (String.eqb w "false") eqn:E2.
  { apply String.eqb_eq in E2. inversion H. auto. }
  destruct (String.eqb w "null") eqn:E3.
  { apply String.eqb_eq in E3. inversion H. auto 6. }
  destruct (existsb (String.eqb w) unmodelled_words); [discriminate|].
  inversion H. auto 6.
Qed.

Lemma string_of_eq (w : text) (s : string) : string_of w = s -> w = text_of s.
Proof.
  intros H. subst s. unfold text_of, string_of.
  symmetry. apply list_ascii_of_string_of_list_ascii.
Qed.

Lemma lex_fuel_cons (f : nat) (c : ascii) (s' : text) :
  lex_fuel (S f) (c :: s') =
  if is_space c then lex_fuel f s'
  else if starts_number c then
    match lex_number (c :: s') with
    | Some (d, rest) =>
        option_map (cons (TNum (decimal_value d))) (lex_fuel f rest)
    | None => None
    end
  else if is_ident_start c then
    let '(w, rest) := span is_ident_char (c :: s') in
    if boundary rest then
      match word_token (string_of w) with
      | Some t => option_map (cons t) (lex_fuel f rest)
      | None => None
      end
    else None
  else
    match lex_punct c s' with
    | Some (t, rest) => option_map (cons t) (lex_fuel f rest)
    | None => None
    end.
Proof. reflexivity. Qed.

Definition subst_token (t : token) : token :=
  match t with
  | TIdent n =>
      if String.eqb n "x" then TNum (number_value x)
      else if String.eqb n "y" then TNum (number_value y)
      else t
  | _ => t
  end.

(** An identifier of the text is a coordinate, or has no letter [x] or
    [y] in it (the substitution would rewrite such a letter). *)
Definition rule_token (t : token) : bool :=
  match t with
  | TIdent n =>
      String.eqb n "x" || String.eqb n "y" || forallb not_xy (text_of n)
  | _ => true
  end.

(** Lexing a word that has neither [x] nor [y] in it, in front of a
    substituted rest. *)
Lemma lex_keyword (f : nat) (w : text) (t : token) (rest : text) :
  forallb not_xy w = true ->
  forallb is_ident_char w = true ->
  (exists c r, w = c :: r /\ is_space c = false /\ starts_number c = false
               /\ is_ident_start c = true) ->
  word_token (string_of w) = Some t ->
  boundary rest = true ->
  lex_fuel (S f) (w ++ substitute x y rest)
  = option_map (cons t) (lex_fuel f (substitute x y rest)).
Proof.
  intros Hxy Hid (c & r & -> & Hsp & Hnum & Hstart) Hw Hb.
  pose proof (boundary_substitute rest Hb) as Hb'.
  destruct (boundary_stops _ Hb') as (_ & _ & _ & Hstop).
  change ((c :: r) ++ substitute x y rest) with (c :: (r ++ substitute x y rest)).
  rewrite lex_fuel_cons, Hsp, Hnum, Hstart.
  change (c :: (r ++ substitute x y rest)) with ((c :: r) ++ substitute x y rest).
  rewrite (span_app is_ident_char (c :: r) _ Hid Hstop).
  rewrite Hb', Hw. reflexivity.
Qed.

Lemma is_digit_not_space (c : ascii) : is_digit c = true -> is_space c = false.
Proof.
  unfold is_digit, is_space. intros H. apply andb_prop in H.
  destruct H as [H1 H2]. apply Z.leb_le in H1. apply Z.leb_le in H2.
  apply orb_false_intro; apply Z.eqb_neq; lia.
Qed.

Lemma lex_substitute (fuel : nat) :
  forall (s : text) (toks : list token),
    lex_fuel fuel s = Some toks ->
    forallb rule_token toks = true ->
    forall fuel', (List.length (substitute x y s) < fuel')%nat ->
      lex_fuel fuel' (substitute x y s) = Some (map subst_token toks).
Proof.
  induction fuel as [|f IH]; intros s toks Hlex Hrule fuel' Hlen;
    [discriminate|].
  destruct fuel' as [|f']; [lia|].
  destruct s as [|c s'].
  { inversion Hlex; subst. reflexivity. }
  rewrite lex_fuel_cons in Hlex.
  destruct (is_space c) eqn:Hsp.
  { (* white space *)
    assert (Hc : not_xy c = true) by (apply (not_xy_of is_space); auto).
    rewrite (substitute_cons_plain c s' Hc) in *.
    rewrite lex_fuel_cons, Hsp. apply (IH s' toks Hlex Hrule).
    simpl in Hlen. lia. }
  destruct (starts_number c) eqn:Hnum.
  { (* a literal *)
    destruct (lex_number (c :: s')) as [[d rest]|] eqn:Hln; [|discriminate].
    destruct (lex_fuel f rest) as [toks'|] eqn:Hrest; [|discriminate].
    simpl in Hlex. inversion Hlex; subst toks. clear Hlex.
    destruct (lex_number_inv _ _ _ Hln) as (lit & Hs & Hne & Hlit & Hb & Hreplay).
    assert (Hplain : forallb not_xy lit = true)
      by (apply (forallb_not_xy_of is_lit_char); auto).
    rewrite Hs in *. rewrite (substitute_plain_app lit rest Hplain) in *.
    destruct lit as [|c0 lit']; [congruence|].
    inversion Hs; subst c0.
    change ((c :: lit') ++ substitute x y rest)
      with (c :: (lit' ++ substitute x y rest)).
    rewrite lex_fuel_cons, Hsp, Hnum.
    change (c :: (lit' ++ substitute x y rest))
      with ((c :: lit') ++ substitute x y rest).
    rewrite (Hreplay _ (boundary_substitute rest Hb)).
    simpl in Hrule.
    rewrite (IH rest toks' Hrest Hrule f').
    - reflexivity.
    - rewrite length_app in Hlen. simpl in Hlen. lia. }
  destruct (is_ident_start c) eqn:Hid.
  { (* a word *)
    destruct (span is_ident_char (c :: s')) as [w rest] eqn:Hspan.
    destruct (span_spec _ _ _ _ Hspan) as (Hs & Hw & Hstop).
    destruct (boundary rest) eqn:Hb; [|discriminate].
    destruct (word_token (string_of w)) as [t|] eqn:Hword; [|discriminate].
    destruct (lex_fuel f rest) as [toks'|] eqn:Hrest; [|discriminate].
    simpl in Hlex. inversion Hlex; subst toks. clear Hlex.
    simpl in Hrule. apply andb_prop in Hrule. destruct Hrule as [Ht Hrule].
    rewrite Hs in *.
    assert (Hkw : forall kw : string,
               w = text_of kw ->
               forallb not_xy (text_of kw) = true ->
               forallb is_ident_char (text_of kw) = true ->
               (exists c r, text_of kw = c :: r /\ is_space c = false
                            /\ starts_number c = false
                            /\ is_ident_start c = true) ->
               subst_token t = t ->
               lex_fuel (S f') (substitute x y (w ++ rest))
               = Some (map subst_token (t :: toks'))).
    { intros kw -> H1 H2 H3 H4.
      rewrite (substitute_plain_app _ rest H1) in Hlen.
      rewrite (substitute_plain_app _ rest H1).
      rewrite (lex_keyword f' _ t rest H1 H2 H3 Hword Hb).
      rewrite (IH rest toks' Hrest Hrule f').
      - simpl. rewrite H4. reflexivity.
      - rewrite length_app in Hlen. destruct H3 as (c1 & r1 & E3 & _).
        rewrite E3 in Hlen. simpl in Hlen. lia. }
    destruct (word_token_inv _ _ Hword) as [[E ->]|[[E ->]|[[E ->]| ->]]].
    - apply (Hkw "true"%string); try reflexivity.
      + apply string_of_eq. exact E.
      + exists "t"%char, (text_of "rue"). repeat split.
    - apply (Hkw "false"%string); try reflexivity.
      + apply string_of_eq. exact E.
      + exists "f"%char, (text_of "alse"). repeat split.
    - apply (Hkw "null"%string); try reflexivity.
      + apply string_of_eq. exact E.
      + exists "n"%char, (text_of "ull"). repeat split.
    - (* a coordinate *)
      simpl in Ht. simpl map. simpl subst_token.
      assert (Hcoord : forall (z : number) (nm : string),
                 nonneg z ->
                 w = text_of nm ->
                 substitute x y (text_of nm) = Number_toString z ->
                 lex_fuel (S f') (substitute x y (w ++ rest))
                 = Some (TNum (number_value z) :: map subst_token toks')).
      { intros z nm Hz -> Hsub.
        rewrite substitute_app, Hsub in Hlen.
        rewrite substitute_app, Hsub.
        destruct (Number_toString_chars z Hz) as (d0 & r0 & Hz0 & Hd0 & _).
        destruct (Number_toString_reads z _ Hz (boundary_substitute rest Hb))
          as (d & Hd & Hval).
        rewrite Hz0 in *.
        change ((d0 :: r0) ++ substitute x y rest)
          with (d0 :: (r0 ++ substitute x y rest)).
        rewrite lex_fuel_cons, (is_digit_not_space d0 Hd0).
        unfold starts_number at 1. rewrite Hd0. cbn [orb].
        change (d0 :: (r0 ++ substitute x y rest))
          with ((d0 :: r0) ++ substitute x y rest).
        rewrite Hd, Hval.
        rewrite (IH rest toks' Hrest Hrule f').
        - reflexivity.
        - rewrite length_app in Hlen. simpl in Hlen. lia. }
      destruct (String.eqb (string_of w) "x") eqn:E1.
      + apply String.eqb_eq in E1. apply string_of_eq in E1.
        apply (Hcoord x "x"%string Hx E1). apply substitute_x.
      + destruct (String.eqb (string_of w) "y") eqn:E2.
        * apply String.eqb_eq in E2. apply string_of_eq in E2.
          apply (Hcoord y "y"%string Hy E2). apply substitute_y.
        * (* another word, free of the letters x and y *)
          cbn [orb] in Ht.
          assert (Ew : w = text_of (string_of w))
            by (apply string_of_eq; reflexivity).
          assert (Hfirst : exists r, w = c :: r).
          { assert (Hic : is_ident_char c = true).
            { unfold is_ident_char. unfold is_ident_start in Hid.
              apply orb_prop in Hid. destruct Hid as [Hid|Hid].
              - apply orb_prop in Hid. destruct Hid as [Hid|Hid].
                + rewrite Hid. reflexivity.
                + rewrite Hid, !orb_true_r. reflexivity.
              - rewrite Hid, !orb_true_r. reflexivity. }
            destruct w as [|c' r].
            - simpl in Hs. rewrite <- Hs in Hstop. simpl in Hstop. congruence.
            - simpl in Hs. inversion Hs. eexists. reflexivity. }
          destruct Hfirst as [r Hr].
          replace (TIdent (string_of w) :: map subst_token toks')
            with (map subst_token (TIdent (string_of w) :: toks'))
            by (cbn [map subst_token]; rewrite E1, E2; reflexivity).
          apply (Hkw (string_of w) Ew Ht).
          -- rewrite <- Ew. exact Hw.
          -- exists c, r. rewrite <- Ew. repeat split; assumption.
          -- cbn [subst_token]. rewrite E1, E2. reflexivity. }
  (* a punctuator *)
  destruct (lex_punct c s') as [[t rest]|] eqn:Hp; [|discriminate].
  destruct (lex_fuel f rest) as [toks'|] eqn:Hrest; [|discriminate].
  simpl in Hlex. inversion Hlex; subst toks. clear Hlex.
  destruct (lex_punct_facts _ _ _ _ Hp) as (Hc & _ & Htok & Hshape).
  rewrite (substitute_cons_plain c s' Hc) in *.
  rewrite lex_fuel_cons, Hsp, Hnum, Hid.
  rewrite (lex_punct_substitute _ _ _ _ Hp).
  simpl in Hrule. apply andb_prop in Hrule. destruct Hrule as [_ Hrule].
  rewrite (IH rest toks' Hrest Hrule f').
  - simpl. destruct t; try reflexivity. contradiction.
  - pose proof (lex_punct_facts _ _ _ _ (lex_punct_substitute _ _ _ _ Hp))
      as (_ & Hle & _).
    simpl in Hlen. lia.
Qed.
End Substitution.

(** ** Parsing does not look at the operands *)

Section Coordinates.
Variables x y : number.

Fixpoint subst_expr (e : expr) : expr :=
  match e with
  | EIdent n =>
      if String.eqb n "x" then ENum (number_value x)
      else if String.eqb n "y" then ENum (number_value y)
      else e
  | EParen a => EParen (subst_expr a)
  | ENot a => ENot (subst_expr a)
  | ENeg a => ENeg (subst_expr a)
  | ECmp op a b => ECmp op (subst_expr a) (subst_expr b)
  | EAnd a b => EAnd (subst_expr a) (subst_expr b)
  | EOr a b => EOr (subst_expr a) (subst_expr b)
  | _ => e
  end.

Definition subst_parsed (r : parsed (expr * list token))
  : parsed (expr * list token) :=
  match r with
  | POk (e, rest) => POk (subst_expr e, map (subst_token x y) rest)
  | PSyntaxError => PSyntaxError
  | PFuel => PFuel
  end.

Lemma level_op_subst (l : level) (t : token) :
  level_op l (subst_token x y t) = level_op l t.
Proof.
  destruct t; try reflexivity. simpl.
  destruct (String.eqb name0 "x"); [destruct l; reflexivity|].
  destruct (String.eqb name0 "y"); destruct l; reflexivity.
Qed.

Lemma level_op_mk (l : level) (t : token) (mk : expr -> expr -> expr) :
  level_op l t = Some mk ->
  forall a b, subst_expr (mk a b) = mk (subst_expr a) (subst_expr b).
Proof.
  intros H a b. destruct l, t; simpl in H; try discriminate;
    try (destruct (is_equality op); try discriminate);
    inversion H; reflexivity.
Qed.

Lemma parse_subst (fuel : nat) :
  (forall l toks,
      parse_level fuel l (map (subst_token x y) toks)
      = subst_parsed (parse_level fuel l toks))
  /\ (forall l lhs toks,
         parse_loop fuel l (subst_expr lhs) (map (subst_token x y) toks)
         = subst_parsed (parse_loop fuel l lhs toks))
  /\ (forall toks,
         parse_unary fuel (map (subst_token x y) toks)
         = subst_parsed (parse_unary fuel toks)).
Proof.
  induction fuel as [|f (IHl & IHp & IHu)]; [repeat split; reflexivity|].
  assert (Hoperand : forall l toks,
             match next_level l with
             | Some l' => parse_level f l' (map (subst_token x y) toks)
             | None => parse_unary f (map (subst_token x y) toks)
             end
             = subst_parsed match next_level l with
                            | Some l' => parse_level f l' toks
                            | None => parse_unary f toks
                            end).
  { intros l toks. destruct (next_level l); [apply IHl|apply IHu]. }
  repeat split.
  - intros l toks. cbn [parse_level]. rewrite Hoperand.
    destruct (match next_level l with
              | Some l' => parse_level f l' toks
              | None => parse_unary f toks
              end) as [[lhs r]| |]; cbn [pbind subst_parsed]; [apply IHp|reflexivity..].
  - intros l lhs toks. cbn [parse_loop].
    destruct toks as [|t r]; [reflexivity|].
    cbn [map]. rewrite level_op_subst.
    destruct (level_op l t) as [mk|] eqn:Hmk; [|reflexivity].
    rewrite Hoperand.
    destruct (match next_level l with
              | Some l' => parse_level f l' r
              | None => parse_unary f r
              end) as [[rhs r']| |]; cbn [pbind subst_parsed]; [|reflexivity..].
    rewrite <- (level_op_mk l t mk Hmk). apply IHp.
  - intros toks. cbn [parse_unary].
    destruct toks as [|t r]; [reflexivity|].
    destruct t; cbn [map subst_token]; try reflexivity.
    + cbn [subst_parsed subst_expr].
      destruct (String.eqb name0 "x"); [reflexivity|].
      destruct (String.eqb name0 "y"); reflexivity.
    + rewrite IHl.
      destruct (parse_level f LOr r) as [[e r']| |];
        cbn [pbind subst_parsed]; [|reflexivity..].
      destruct r' as [|t' r'']; [reflexivity|].
      destruct t'; cbn [map subst_token]; try reflexivity.
      destruct (String.eqb name0 "x"); [reflexivity|].
      destruct (String.eqb name0 "y"); reflexivity.
    + rewrite IHu.
      destruct (parse_unary f r) as [[e r']| |]; reflexivity.
    + rewrite IHu.
      destruct (parse_unary f r) as [[e r']| |]; reflexivity.
Qed.

Lemma ends_operand_subst (t : token) :
  ends_operand (subst_token x y t) = ends_operand t.
Proof.
  destruct t; try reflexivity. simpl.
  destruct (String.eqb name0 "x"); [reflexivity|].
  destruct (String.eqb name0 "y"); reflexivity.
Qed.

Lemma unmodelled_adjacent_subst (toks : list token) :
  unmodelled_adjacent (map (subst_token x y) toks) = unmodelled_adjacent toks.
Proof.
  induction toks as [|a toks IH]; [reflexivity|].
  destruct toks as [|b r]; [reflexivity|].
  cbn [map unmodelled_adjacent] in *. rewrite IH, ends_operand_subst.
  f_equal. f_equal. destruct b; try reflexivity. simpl.
  destruct (String.eqb name0 "x"); [reflexivity|].
  destruct (String.eqb name0 "y"); reflexivity.
Qed.

(** The substituted tree evaluates as the specification's rule does. *)
Lemma eval_operand (genv : global_env) (e : expr) (o : Operand) :
  to_operand e = Some o ->
  eval genv (subst_expr e)
  = Some (Normal (VNum (operand_value o (number_value x) (number_value y)))).
Proof.
  destruct e; simpl; try discriminate.
  - intros H. inversion H. reflexivity.
  - destruct (String.eqb name0 "x"); [intros H; inversion H; reflexivity|].
    destruct (String.eqb name0 "y"); [intros H; inversion H; reflexivity|].
    discriminate.
Qed.

Lemma compare_numbers (op : cmp_op) (a b : spec_float) :
  grammar_op op = true ->
  compare_values op (VNum a) (VNum b) = Some (SFcmp op a b).
Proof. destruct op; try discriminate; reflexivity. Qed.

Lemma eval_rule (genv : global_env) (e : expr) :
  forall r, to_rule e = Some r ->
  eval genv (subst_expr e)
  = Some (Normal (VBool (evaluate r (number_value x) (number_value y)))).
Proof.
  induction e; intros r H; simpl in H; try discriminate.
  - simpl. apply IHe. exact H.
  - destruct (grammar_op op) eqn:Hop; [|discriminate].
    destruct (to_operand e1) as [a'|] eqn:Ha; [|discriminate].
    destruct (to_operand e2) as [b'|] eqn:Hb; [|discriminate].
    inversion H; subst r. cbn [subst_expr eval].
    rewrite (eval_operand genv e1 a' Ha), (eval_operand genv e2 b' Hb).
    cbn [cbind]. rewrite (compare_numbers op _ _ Hop). reflexivity.
  - destruct (to_rule e1) as [a'|] eqn:Ha; [|discriminate].
    destruct (to_rule e2) as [b'|] eqn:Hb; [|discriminate].
    inversion H; subst r. cbn [subst_expr eval].
    rewrite (IHe1 a' eq_refl). cbn [cbind to_boolean evaluate].
    destruct (evaluate a' (number_value x) (number_value y)).
    + rewrite (IHe2 b' eq_refl). reflexivity.
    + reflexivity.
  - destruct (to_rule e1) as [a'|] eqn:Ha; [|discriminate].
    destruct (to_rule e2) as [b'|] eqn:Hb; [|discriminate].
    inversion H; subst r. cbn [subst_expr eval].
    rewrite (IHe1 a' eq_refl). cbn [cbind to_boolean evaluate].
    destruct (evaluate a' (number_value x) (number_value y)).
    + reflexivity.
    + rewrite (IHe2 b' eq_refl). reflexivity.
Qed.

Lemma grammar_rule_token (toks : list token) :
  forallb grammar_token toks = true -> forallb (rule_token) toks = true.
Proof.
  intros H. rewrite forallb_forall in *. intros t Ht.
  specialize (H t Ht). destruct t; try reflexivity.
  simpl in *. rewrite H. reflexivity.
Qed.

Lemma strip_prefix_app (p s : text) : strip_prefix p (p ++ s) = Some s.
Proof.
  induction p as [|c p IH]; [reflexivity|].
  simpl. rewrite Ascii.eqb_refl. exact IH.
Qed.

(** The source's dynamic evaluation of a rule of the grammar gives the
    boolean the specification's evaluator gives, whatever the global
    bindings are. *)
Lemma evaluateQuadrantRule_compiled (genv : global_env) (ruleText : string)
  (r : Rule) :
  nonneg x -> nonneg y ->
  compile ruleText = Some r ->
  evaluateQuadrantRule genv ruleText x y
  = Some (VBool (evaluate r (number_value x) (number_value y))).
Proof.
  intros Hx Hy Hc. unfold compile in Hc.
  destruct (lex (text_of ruleText)) as [toks|] eqn:Hlex; [|discriminate].
  destruct (forallb grammar_token toks && negb (unmodelled_adjacent toks))
    eqn:Hg; [|discriminate].
  apply andb_prop in Hg. destruct Hg as [Hg Hadj].
  apply negb_true_iff in Hadj.
  destruct (parse_level (parse_fuel toks) LOr toks) as [[e rest]| |] eqn:Hp;
    try discriminate.
  destruct rest; [|discriminate].
  unfold evaluateQuadrantRule, call_new_Function. cbv zeta.
  rewrite strip_prefix_app.
  unfold lex in *.
  rewrite (lex_substitute x y Hx Hy _ _ _ Hlex (grammar_rule_token toks Hg))
    by lia.
  assert (Hne : toks <> []).
  { intros ->. cbv in Hp. discriminate. }
  destruct toks as [|t0 toks0]; [congruence|].
  unfold run_tokens.
  cbn [map]. change (subst_token x y t0 :: map (subst_token x y) toks0)
    with (map (subst_token x y) (t0 :: toks0)).
  rewrite unmodelled_adjacent_subst, Hadj.
  replace (parse_fuel (map (subst_token x y) (t0 :: toks0)))
    with (parse_fuel (t0 :: toks0))
    by (unfold parse_fuel; rewrite length_map; reflexivity).
  destruct (parse_subst (parse_fuel (t0 :: toks0))) as (Hl & _ & _).
  rewrite Hl, Hp. cbn [subst_parsed map].
  rewrite (eval_rule genv e r Hc). reflexivity.
Qed.

(** The textual substitution amounts to reading the text once and putting
    the coordinates in place of the identifiers [x] and [y]. *)
Lemma evaluateQuadrantRule_tokens (genv : global_env) (ruleText : string)
  (toks : list token) :
  nonneg x -> nonneg y ->
  lex (text_of ruleText) = Some toks ->
  forallb rule_token toks = true ->
  evaluateQuadrantRule genv ruleText x y
  = match run_tokens genv (map (subst_token x y) toks) with
    | Some (Normal v) => Some v
    | Some (Throw _) => Some (VBool false)
    | None => None
    end.
Proof.
  intros Hx Hy Hlex Hrule.
  unfold evaluateQuadrantRule, call_new_Function. cbv zeta.
  rewrite strip_prefix_app. unfold lex in *.
  rewrite (lex_substitute x y Hx Hy _ _ _ Hlex Hrule) by lia.
  reflexivity.
Qed.
End Coordinates.

(** ** Binary64 facts *)

Lemma iter_pos_invariant {A : Type} (P : A -> Prop) (f : A -> A) :
  (forall a, P a -> P (f a)) ->
  forall (p : positive) (a : A), P a -> P (iter_pos f p a).
Proof.
  intros Hf p. induction p as [p IH|p IH|]; intros a Ha; simpl.
  - apply IH, IH, Hf, Ha.
  - apply IH, IH, Ha.
  - apply Hf, Ha.
Qed.

Lemma shr_1_nonneg (mrs : shr_record) : 0 <= shr_m mrs -> 0 <= shr_m (shr_1 mrs).
Proof.
  destruct mrs as [m r s]. simpl. intros H.
  destruct m as [|[p|p|]|p]; simpl; lia.
Qed.

Lemma shr_fexp_nonneg (m e : Z) (l : location) :
  0 <= m -> 0 <= shr_m (fst (shr_fexp 53 1024 m e l)).
Proof.
  intros H. unfold shr_fexp, shr.
  assert (H0 : 0 <= shr_m (shr_record_of_loc m l))
    by (destruct l as [|[]]; exact H).
  destruct (fexp 53 1024 (Zdigits2 m + e) - e); simpl; try exact H0.
  apply (iter_pos_invariant (fun r => 0 <= shr_m r)); [apply shr_1_nonneg|exact H0].
Qed.

Lemma round_nearest_even_nonneg (m : Z) (l : location) :
  0 <= m -> 0 <= round_nearest_even m l.
Proof.
  intros H. destruct l as [|[]]; simpl; try lia.
  destruct (Z.even m); lia.
Qed.

Lemma binary_round_aux_not_nan (sx : bool) (mx ex : Z) (lx : location) :
  0 <= mx -> binary_round_aux 53 1024 sx mx ex lx <> S754_nan.
Proof.
  intros H. unfold binary_round_aux.
  pose proof (shr_fexp_nonneg mx ex lx H) as H1.
  destruct (shr_fexp 53 1024 mx ex lx) as [mrs' e'].
  simpl fst in H1.
  pose proof (shr_fexp_nonneg _ e' loc_Exact
                (round_nearest_even_nonneg _ (loc_of_shr_record mrs') H1)) as H2.
  destruct (shr_fexp 53 1024 (round_nearest_even (shr_m mrs') (loc_of_shr_record mrs'))
              e' loc_Exact) as [mrs'' e''].
  simpl fst in H2.
  destruct (shr_m mrs'') as [|m|m]; try discriminate.
  - destruct (e'' <=? 1024 - 53); discriminate.
  - lia.
Qed.

Lemma float_of_ratio_not_nan (neg : bool) (num den : positive) :
  float_of_ratio neg num den <> S754_nan.
Proof.
  unfold float_of_ratio, SFdiv_core_binary.
  match goal with
  | |- context [Z.div_eucl ?a ?b] =>
      pose proof (Z.div_eucl_eq a b ltac:(discriminate)) as Heq;
      pose proof (Z.mod_pos_bound a b ltac:(reflexivity)) as Hmod;
      assert (Ha : 0 <= a);
      [|unfold Z.modulo in Hmod; destruct (Z.div_eucl a b) as [q r] eqn:Hqr]
  end.
  - match goal with
    | |- 0 <= match ?s with _ => _ end =>
        destruct s; try lia; apply Z.shiftl_nonneg; lia
    end.
  - apply binary_round_aux_not_nan. nia.
Qed.

Lemma number_value_finite_not_nan (d : decimal) : decimal_value d <> S754_nan.
Proof.
  unfold decimal_value, float_of_Q.
  destruct (Qnum (Qred (dec_to_Q d))); try discriminate;
    apply float_of_ratio_not_nan.
Qed.

Lemma SFcompare_antisym (a b : spec_float) :
  SFcompare b a = option_map CompOpp (SFcompare a b).
Proof.
  destruct a as [sa|sa| |sa ma ea], b as [sb|sb| |sb mb eb];
    try reflexivity;
    try (destruct sa; reflexivity); try (destruct sb; reflexivity);
    try (destruct sa, sb; reflexivity).
  simpl. destruct sa, sb; try reflexivity; simpl;
    rewrite (Z.compare_antisym ea eb);
    destruct (ea ?= eb); simpl; try reflexivity;
    rewrite (Pos.compare_cont_antisym ma mb Eq); reflexivity.
Qed.

Lemma SFcompare_not_nan (a b : spec_float) :
  a <> S754_nan -> b <> S754_nan -> SFcompare a b <> None.
Proof.
  intros Ha Hb.
  destruct a as [sa|sa| |sa ma ea], b as [sb|sb| |sb mb eb];
    try congruence; simpl; discriminate.
Qed.

(** Among numbers that are not NaN, [a < b] is the negation of [b <= a]. *)
Lemma SFltb_negb_SFleb (a b : spec_float) :
  a <> S754_nan -> b <> S754_nan -> SFltb a b = negb (SFleb b a).
Proof.
  intros Ha Hb. unfold SFltb, SFleb. rewrite (SFcompare_antisym a b).
  pose proof (SFcompare_not_nan a b Ha Hb) as H.
  destruct (SFcompare a b) as [[]|]; try reflexivity. congruence.
Qed.

(** ** Rounding to binary64 *)

Lemma fexp64_eq (k : Z) : fexp64 k = Z.max (k - 53) (-1074).
Proof. reflexivity. Qed.

Lemma digits2_pos_bounds (p : positive) :
  2 ^ (Zpos (digits2_pos p) - 1) <= Zpos p < 2 ^ Zpos (digits2_pos p).
Proof.
  induction p as [p IH|p IH|]; cbn [digits2_pos].
  - rewrite Pos2Z.inj_succ, Z.pow_succ_r by lia.
    replace (Z.succ (Zpos (digits2_pos p)) - 1) with (Z.succ (Zpos (digits2_pos p) - 1)) by lia.
    rewrite Z.pow_succ_r by lia. lia.
  - rewrite Pos2Z.inj_succ, Z.pow_succ_r by lia.
    replace (Z.succ (Zpos (digits2_pos p)) - 1) with (Z.succ (Zpos (digits2_pos p) - 1)) by lia.
    rewrite Z.pow_succ_r by lia. lia.
  - simpl. lia.
Qed.

Lemma Zdigits2_bounds (m : Z) :
  0 < m -> 0 < Zdigits2 m /\ 2 ^ (Zdigits2 m - 1) <= m < 2 ^ Zdigits2 m.
Proof.
  destruct m as [|p|p]; try lia. intros _. split; [simpl; lia|].
  apply digits2_pos_bounds.
Qed.

Lemma Zdigits2_unique (m d : Z) :
  2 ^ (d - 1) <= m < 2 ^ d -> 0 < d -> Zdigits2 m = d.
Proof.
  intros [Hlo Hhi] Hd.
  assert (Hm : 0 < m) by (pose proof (Z.pow_pos_nonneg 2 (d - 1)); lia).
  destruct (Zdigits2_bounds m Hm) as (Hd' & Hlo' & Hhi').
  assert (H1 : d - 1 < Zdigits2 m).
  { apply (Z.pow_lt_mono_r_iff 2); lia. }
  assert (H2 : Zdigits2 m - 1 < d).
  { apply (Z.pow_lt_mono_r_iff 2); lia. }
  lia.
Qed.

Lemma Zdigits2_nonneg (m : Z) : 0 <= Zdigits2 m.
Proof. destruct m; simpl; lia. Qed.

(** The digits of a quotient by a power of two. *)
Lemma Zdigits2_div (m n : Z) :
  0 < m -> 0 <= n < Zdigits2 m ->
  Zdigits2 (m / 2 ^ n) = Zdigits2 m - n.
Proof.
  intros Hm Hn. destruct (Zdigits2_bounds m Hm) as (Hd & Hlo & Hhi).
  apply Zdigits2_unique; [|lia]. split.
  - apply Z.div_le_lower_bound; [apply Z.pow_pos_nonneg; lia|].
    rewrite <- Z.pow_add_r by lia.
    replace (n + (Zdigits2 m - n - 1)) with (Zdigits2 m - 1) by lia. exact Hlo.
  - apply Z.div_lt_upper_bound; [apply Z.pow_pos_nonneg; lia|].
    rewrite <- Z.pow_add_r by lia.
    replace (n + (Zdigits2 m - n)) with (Zdigits2 m) by lia. exact Hhi.
Qed.

Lemma Zdigits2_div_zero (m n : Z) :
  0 <= m -> Zdigits2 m <= n -> m / 2 ^ n = 0.
Proof.
  intros Hm Hn. apply Z.div_small. split; [exact Hm|].
  destruct (Z.eq_dec m 0) as [->|Hne]; [apply Z.pow_pos_nonneg; simpl in *; lia|].
  destruct (Zdigits2_bounds m ltac:(lia)) as (Hd & _ & Hhi).
  apply Z.lt_le_trans with (1 := Hhi). apply Z.pow_le_mono_r; lia.
Qed.

(** The digits of a successor. *)
Lemma Zdigits2_succ (m : Z) :
  0 < m ->
  Zdigits2 (m + 1) = Zdigits2 m
  \/ (m + 1 = 2 ^ Zdigits2 m /\ Zdigits2 (m + 1) = Zdigits2 m + 1).
Proof.
  intros Hm. destruct (Zdigits2_bounds m Hm) as (Hd & Hlo & Hhi).
  destruct (Z.eq_dec (m + 1) (2 ^ Zdigits2 m)) as [He|Hne].
  - right. split; [exact He|]. apply Zdigits2_unique; [|lia].
    replace (Zdigits2 m + 1 - 1) with (Zdigits2 m) by lia.
    rewrite He. split; [lia|]. apply Z.pow_lt_mono_r; lia.
  - left. apply Zdigits2_unique; lia.
Qed.

Lemma shr_1_div (mrs : shr_record) :
  0 <= shr_m mrs -> shr_m (shr_1 mrs) = shr_m mrs / 2.
Proof.
  destruct mrs as [m r s]. cbn [shr_m]. intros H.
  destruct m as [|[p|p|]|p]; try lia; cbn [shr_1 shr_m].
  - reflexivity.
  - apply Z.div_unique with (r := 1); lia.
  - apply Z.div_unique with (r := 0); lia.
  - reflexivity.
Qed.

Lemma iter_shr_1_div (p : positive) :
  forall mrs, 0 <= shr_m mrs ->
    shr_m (iter_pos shr_1 p mrs) = shr_m mrs / 2 ^ Zpos p
    /\ 0 <= shr_m (iter_pos shr_1 p mrs).
Proof.
  assert (Hpow : forall q, 0 < 2 ^ Zpos q) by (intros; apply Z.pow_pos_nonneg; lia).
  induction p as [p IH|p IH|]; intros mrs H; cbn [iter_pos].
  - pose proof (shr_1_div mrs H) as H1.
    assert (H1' : 0 <= shr_m (shr_1 mrs)) by (rewrite H1; apply Z.div_pos; lia).
    destruct (IH _ H1') as [H2 H2'].
    destruct (IH _ H2') as [H3 H3'].
    split; [|exact H3'].
    rewrite H3, H2, H1, !Z.div_div by (try apply Hpow; lia).
    f_equal. rewrite (Pos2Z.inj_xI p).
    replace (2 * Zpos p + 1) with (1 + Zpos p + Zpos p) by lia.
    rewrite !Z.pow_add_r by lia. change (2 ^ 1) with 2. ring.
  - destruct (IH _ H) as [H2 H2'].
    destruct (IH _ H2') as [H3 H3'].
    split; [|exact H3'].
    rewrite H3, H2, !Z.div_div by (try apply Hpow; lia).
    f_equal. rewrite (Pos2Z.inj_xO p).
    replace (2 * Zpos p) with (Zpos p + Zpos p) by lia.
    rewrite !Z.pow_add_r by lia. ring.
  - pose proof (shr_1_div mrs H) as H1. split; [exact H1|].
    rewrite H1. apply Z.div_pos; lia.
Qed.

(** What [shr_fexp] leaves of the mantissa, and the exponent it gives. *)
Lemma shr_fexp_spec (m e : Z) (l : location) :
  0 <= m ->
  let n := Z.max (fexp64 (Zdigits2 m + e) - e) 0 in
  shr_m (fst (shr_fexp 53 1024 m e l)) = m / 2 ^ n
  /\ snd (shr_fexp 53 1024 m e l) = e + n.
Proof.
  intros Hm n. unfold shr_fexp, shr. fold (fexp64 (Zdigits2 m + e)).
  assert (H0 : shr_m (shr_record_of_loc m l) = m) by (destruct l as [|[]]; reflexivity).
  subst n.
  destruct (fexp64 (Zdigits2 m + e) - e) as [|p|p] eqn:Hn; cbn [fst snd].
  - rewrite H0. simpl. rewrite Z.div_1_r. split; [reflexivity|lia].
  - destruct (iter_shr_1_div p (shr_record_of_loc m l)) as [H1 _]; [lia|].
    rewrite H1, H0. rewrite Z.max_l by lia. split; reflexivity.
  - rewrite H0. rewrite Z.max_r by lia. simpl. rewrite Z.div_1_r. split; [reflexivity|lia].
Qed.

Lemma round_nearest_even_cases (m : Z) (l : location) :
  round_nearest_even m l = m \/ round_nearest_even m l = m + 1.
Proof.
  destruct l as [|[]]; simpl; auto. destruct (Z.even m); auto.
Qed.

Lemma canonical_iff (m : positive) (e : Z) :
  canonical_mantissa 53 1024 m e = true <-> fexp64 (Zdigits2 (Zpos m) + e) = e.
Proof. unfold canonical_mantissa. apply Z.eqb_eq. Qed.

(** Renormalising a rounded mantissa: the second [shr_fexp] of
    [binary_round_aux]. *)
Lemma renormalise (m1 e' : Z) :
  0 < m1 -> -1074 <= e' ->
  (fexp64 (Zdigits2 m1 + e') = e'
   \/ (fexp64 (Zdigits2 m1 + e') = e' + 1 /\ exists d, 0 < d /\ m1 = 2 ^ d)) ->
  exists m2 e2,
    0 < m2
    /\ shr_m (fst (shr_fexp 53 1024 m1 e' loc_Exact)) = m2
    /\ snd (shr_fexp 53 1024 m1 e' loc_Exact) = e2
    /\ fexp64 (Zdigits2 m2 + e2) = e2
    /\ e' <= e2 <= e' + 1
    /\ m2 * 2 ^ (e2 + 1074) = m1 * 2 ^ (e' + 1074).
Proof.
  intros Hm He H.
  destruct (shr_fexp_spec m1 e' loc_Exact ltac:(lia)) as [Hs He2].
  cbv zeta in Hs, He2.
  destruct H as [H|(H & d & Hd & Hpow)].
  - rewrite H in Hs, He2. replace (e' - e') with 0 in * by lia.
    rewrite Z.max_r in Hs, He2 by lia. simpl in Hs. rewrite Z.div_1_r in Hs.
    exists m1, e'. repeat split; try assumption; try lia.
  - rewrite H in Hs, He2. replace (e' + 1 - e') with 1 in * by lia.
    rewrite Z.max_l in Hs, He2 by lia. change (2 ^ 1) with 2 in Hs.
    assert (Hhalf : m1 / 2 = 2 ^ (d - 1)).
    { rewrite Hpow. replace d with (Z.succ (d - 1)) at 1 by lia.
      rewrite Z.pow_succ_r by lia. rewrite Z.mul_comm. apply Z.div_mul. lia. }
    assert (Hd1 : Zdigits2 m1 = d + 1).
    { apply Zdigits2_unique; [|lia]. rewrite Hpow.
      replace (d + 1 - 1) with d by lia. split; [lia|].
      apply Z.pow_lt_mono_r; lia. }
    assert (Hd2 : Zdigits2 (m1 / 2) = d).
    { rewrite Hhalf. apply Zdigits2_unique; [|lia]. split; [lia|].
      apply Z.pow_lt_mono_r; lia. }
    exists (m1 / 2), (e' + 1).
    split; [rewrite Hhalf; apply Z.pow_pos_nonneg; lia|].
    split; [exact Hs|]. split; [exact He2|].
    split.
    { rewrite Hd2. rewrite Hd1 in H.
      replace (d + (e' + 1)) with (d + 1 + e') by lia. exact H. }
    split; [lia|].
    rewrite Hhalf, Hpow.
    rewrite <- !Z.pow_add_r by lia. f_equal. lia.
Qed.

(** What [binary_round_aux] returns for a mantissa that has at least the
    digits of its format: a valid number, next to the truncated mantissa
    [m'] at the exponent [e'] of the format. *)
Lemma binary_round_aux_spec (sx : bool) (mx ex : Z) (lx : location) :
  0 < mx -> ex <= fexp64 (Zdigits2 mx + ex) ->
  let e' := fexp64 (Zdigits2 mx + ex) in
  let m' := mx / 2 ^ (e' - ex) in
  let r := binary_round_aux 53 1024 sx mx ex lx in
  valid_binary 53 1024 r = true
  /\ ((r = S754_infinity sx /\ 1023 < Zdigits2 mx + ex)
      \/ exists m1,
           (m1 = m' \/ m1 = m' + 1)
           /\ ((m1 = 0 /\ r = S754_zero sx)
               \/ exists m e, r = S754_finite sx m e
                    /\ Zpos m * 2 ^ (e + 1074) = m1 * 2 ^ (e' + 1074))).
Proof.
  intros Hm Hex e' m' r. subst r. unfold binary_round_aux.
  destruct (shr_fexp_spec mx ex lx ltac:(lia)) as [Hs1 He1].
  cbv zeta in Hs1, He1. fold e' in Hs1, He1.
  rewrite Z.max_l in Hs1, He1 by lia.
  replace (ex + (e' - ex)) with e' in He1 by lia. fold m' in Hs1.
  destruct (shr_fexp 53 1024 mx ex lx) as [mrs1 e1]. cbn [fst snd] in Hs1, He1.
  subst e1.
  set (m1 := round_nearest_even (shr_m mrs1) (loc_of_shr_record mrs1)).
  assert (Hm1 : m1 = m' \/ m1 = m' + 1)
    by (subst m1; rewrite <- Hs1; apply round_nearest_even_cases).
  assert (Hm'0 : 0 <= m').
  { apply Z.div_pos; [lia|]. apply Z.pow_pos_nonneg; lia. }
  assert (He' : -1074 <= e' /\ e' = Z.max (Zdigits2 mx + ex - 53) (-1074)).
  { unfold e'. rewrite fexp64_eq. lia. }
  destruct (Zdigits2_bounds mx Hm) as (Hd & Hlo & Hhi).
  (* a mantissa truncated to nothing is below the least subnormal *)
  assert (Hzero : m' = 0 -> e' = -1074).
  { intros H0. destruct (Z_lt_le_dec (e' - ex) (Zdigits2 mx)) as [Hlt|Hge]; [|lia].
    exfalso. apply Z.div_small_iff in H0; [|apply Z.pow_nonzero; lia].
    destruct H0 as [H0|H0]; [|pose proof (Z.pow_pos_nonneg 2 (e' - ex)); lia].
    assert (2 ^ (e' - ex) <= 2 ^ (Zdigits2 mx - 1)) by (apply Z.pow_le_mono_r; lia).
    lia. }
  destruct (Z.eq_dec m1 0) as [Hz|Hnz].
  - (* the result is zero *)
    assert (Hm'z : m' = 0) by lia. specialize (Hzero Hm'z).
    rewrite Hz. rewrite Hzero.
    split; [reflexivity|]. right. exists 0. split; [left; lia|].
    left. split; reflexivity.
  - assert (Hpos : 0 < m1) by lia.
    destruct (renormalise m1 e' Hpos (proj1 He'))
      as (m2 & e2 & Hm2 & Hs2 & He2 & Hcan & Hrange & Hval).
    { destruct (Z.eq_dec m' 0) as [Hm'z|Hm'nz].
      - left. specialize (Hzero Hm'z).
        assert (m1 = 1) by lia. subst m1. rewrite H, Hzero. reflexivity.
      - assert (Hn : e' - ex < Zdigits2 mx).
        { destruct (Z_lt_le_dec (e' - ex) (Zdigits2 mx)) as [Hlt|Hge]; [exact Hlt|].
          exfalso. apply Hm'nz. apply Zdigits2_div_zero; lia. }
        assert (Hd' : Zdigits2 m' + e' = Zdigits2 mx + ex).
        { unfold m'. rewrite Zdigits2_div by lia. lia. }
        destruct Hm1 as [Hm1|Hm1].
        + left. rewrite Hm1, Hd'. reflexivity.
        + destruct (Zdigits2_succ m' ltac:(lia)) as [Hsame|[Hpow Hmore]].
          * left. rewrite Hm1, Hsame, Hd'. reflexivity.
          * rewrite Hm1, Hmore.
            replace (Zdigits2 m' + 1 + e') with (Zdigits2 mx + ex + 1) by lia.
            rewrite fexp64_eq.
            destruct (Z_le_gt_dec (-1074) (Zdigits2 mx + ex - 53)) as [Hn'|Hs'].
            -- right. split; [lia|]. exists (Zdigits2 m'). split; [|exact Hpow].
               destruct (Zdigits2_bounds m' ltac:(lia)) as (H & _). exact H.
            -- left. lia. }
    destruct (shr_fexp 53 1024 m1 e' loc_Exact) as [mrs2 e2']. cbn [fst snd] in Hs2, He2.
    rewrite Hs2, He2.
    destruct m2 as [|p|p]; try lia.
    destruct (Z.leb_spec e2 (1024 - 53)) as [Hle|Hgt].
    + split.
      * cbn [valid_binary]. unfold bounded.
        apply andb_true_intro. split; [apply canonical_iff; exact Hcan|].
        apply Z.leb_le. exact Hle.
      * right. exists m1. split; [exact Hm1|]. right. exists p, e2.
        split; [reflexivity|exact Hval].
    + split; [reflexivity|]. left. split; [reflexivity|]. lia.
Qed.

(** ** The order of binary64 numbers *)

Lemma valid_finite_bounds (s : bool) (m : positive) (e : Z) :
  valid_binary 53 1024 (S754_finite s m e) = true ->
  -1074 <= e /\ Zpos m < 2 ^ 53 /\ (e <> -1074 -> 2 ^ 52 <= Zpos m).
Proof.
  cbn [valid_binary]. unfold bounded. intros H. apply andb_prop in H.
  destruct H as [H _]. apply canonical_iff in H. rewrite fexp64_eq in H.
  destruct (Zdigits2_bounds (Zpos m) ltac:(lia)) as (Hd & Hlo & Hhi).
  split; [lia|]. split.
  - apply Z.lt_le_trans with (1 := Hhi). apply Z.pow_le_mono_r; lia.
  - intros Hne. replace (Zdigits2 (Zpos m)) with 53 in Hlo by lia. exact Hlo.
Qed.

Lemma scaled_lt (m1 m2 : positive) (e1 e2 : Z) :
  -1074 <= e1 -> Zpos m1 < 2 ^ 53 -> 2 ^ 52 <= Zpos m2 -> e1 < e2 ->
  Zpos m1 * 2 ^ (e1 + 1074) < Zpos m2 * 2 ^ (e2 + 1074).
Proof.
  intros He1 H1 H2 Hlt.
  replace (e2 + 1074) with ((e1 + 1074) + 1 + (e2 - e1 - 1)) by lia.
  rewrite (Z.pow_add_r 2 (e1 + 1074 + 1) (e2 - e1 - 1)) by lia.
  rewrite (Z.pow_add_r 2 (e1 + 1074) 1) by lia. change (2 ^ 1) with 2.
  change (2 ^ 53) with (2 ^ 52 * 2) in H1.
  pose proof (Z.pow_pos_nonneg 2 (e1 + 1074) ltac:(lia) ltac:(lia)) as HA.
  pose proof (Z.pow_pos_nonneg 2 (e2 - e1 - 1) ltac:(lia) ltac:(lia)) as HB.
  set (A := 2 ^ (e1 + 1074)) in *. set (B := 2 ^ (e2 - e1 - 1)) in *.
  set (T := 2 ^ 52) in *.
  assert (Zpos m1 * A < T * 2 * A) by (apply Z.mul_lt_mono_pos_r; assumption).
  assert (T * (2 * A) <= Zpos m2 * (2 * A))
    by (apply Z.mul_le_mono_nonneg_r; lia).
  assert (Zpos m2 * (2 * A) * 1 <= Zpos m2 * (2 * A) * B)
    by (apply Z.mul_le_mono_nonneg_l; lia).
  lia.
Qed.

(** On valid numbers the comparison is the comparison of the values. *)
Lemma SFcompare_valid (a b : spec_float) :
  valid_binary 53 1024 a = true -> valid_binary 53 1024 b = true ->
  finite_or_zero a = true -> finite_or_zero b = true ->
  SFcompare a b = Some (SF2Z a ?= SF2Z b).
Proof.
  intros Va Vb Fa Fb.
  destruct a as [sa|sa| |sa ma ea], b as [sb|sb| |sb mb eb]; try discriminate.
  - reflexivity.
  - cbn [SFcompare SF2Z].
    pose proof (Z.pow_pos_nonneg 2 (eb + 1074)) as HB.
    destruct (valid_finite_bounds _ _ _ Vb) as (Heb & _).
    destruct sb; f_equal; symmetry;
      [apply Z.compare_gt_iff|apply Z.compare_lt_iff]; nia.
  - cbn [SFcompare SF2Z].
    pose proof (Z.pow_pos_nonneg 2 (ea + 1074)) as HA.
    destruct (valid_finite_bounds _ _ _ Va) as (Hea & _).
    destruct sa; f_equal; symmetry;
      [apply Z.compare_lt_iff|apply Z.compare_gt_iff]; nia.
  - destruct (valid_finite_bounds _ _ _ Va) as (Hea & Hma & Hna).
    destruct (valid_finite_bounds _ _ _ Vb) as (Heb & Hmb & Hnb).
    pose proof (Z.pow_pos_nonneg 2 (ea + 1074) ltac:(lia) ltac:(lia)) as HA.
    pose proof (Z.pow_pos_nonneg 2 (eb + 1074) ltac:(lia) ltac:(lia)) as HB.
    set (PA := Zpos ma * 2 ^ (ea + 1074)) in *.
    set (PB := Zpos mb * 2 ^ (eb + 1074)) in *.
    assert (HPA : 0 < PA) by (unfold PA; lia).
    assert (HPB : 0 < PB) by (unfold PB; lia).
    assert (Hcmp : (PA ?= PB)
                   = match ea ?= eb with
                     | Datatypes.Lt => Datatypes.Lt
                     | Datatypes.Gt => Datatypes.Gt
                     | Datatypes.Eq => Pos.compare_cont Datatypes.Eq ma mb
                     end).
    { unfold PA, PB. destruct (Z.compare_spec ea eb) as [Heq|Hlt|Hgt].
      - subst eb. rewrite <- Zmult_compare_compat_r by lia. reflexivity.
      - apply Z.compare_lt_iff. apply scaled_lt; try assumption. apply Hnb. lia.
      - apply Z.compare_gt_iff. apply scaled_lt; try assumption. apply Hna. lia. }
    cbn [SFcompare SF2Z]. fold PA PB. f_equal.
    destruct sa, sb.
    + replace (-1 * PA) with (- PA) by lia. replace (-1 * PB) with (- PB) by lia.
      rewrite Z.compare_opp, (Z.compare_antisym PA PB), Hcmp.
      destruct (ea ?= eb); reflexivity.
    + symmetry. apply Z.compare_lt_iff. lia.
    + symmetry. apply Z.compare_gt_iff. lia.
    + rewrite !Z.mul_1_l. symmetry. exact Hcmp.
Qed.

Lemma SFltb_valid (a b : spec_float) :
  valid_binary 53 1024 a = true -> valid_binary 53 1024 b = true ->
  finite_or_zero a = true -> finite_or_zero b = true ->
  SFltb a b = (SF2Z a <? SF2Z b).
Proof.
  intros Va Vb Fa Fb. unfold SFltb, Z.ltb.
  rewrite (SFcompare_valid a b Va Vb Fa Fb). reflexivity.
Qed.

Lemma SFleb_valid (a b : spec_float) :
  valid_binary 53 1024 a = true -> valid_binary 53 1024 b = true ->
  finite_or_zero a = true -> finite_or_zero b = true ->
  SFleb a b = (SF2Z a <=? SF2Z b).
Proof.
  intros Va Vb Fa Fb. unfold SFleb, Z.leb.
  rewrite (SFcompare_valid a b Va Vb Fa Fb). reflexivity.
Qed.

(** ** Integers as binary64 numbers *)

Lemma iter_xO_pow (p d : positive) :
  Zpos (Pos.iter xO p d) = Zpos p * 2 ^ Zpos d.
Proof.
  rewrite (Pos.iter_swap_gen _ _ Zpos xO (Z.mul 2)) by reflexivity.
  rewrite <- Z.shiftl_mul_pow2 by lia. reflexivity.
Qed.

Lemma binary_round_aux_exact (sx : bool) (m : positive) (e : Z) :
  fexp64 (Zdigits2 (Zpos m) + e) = e -> e <= 971 ->
  binary_round_aux 53 1024 sx (Zpos m) e loc_Exact = S754_finite sx m e.
Proof.
  intros Hc He. unfold binary_round_aux, shr_fexp.
  fold (fexp64 (Zdigits2 (Zpos m) + e)). rewrite Hc, Z.sub_diag.
  cbn [shr shr_record_of_loc shr_m loc_of_shr_record round_nearest_even].
  fold (fexp64 (Zdigits2 (Zpos m) + e)). rewrite Hc, Z.sub_diag.
  cbn [shr shr_record_of_loc shr_m].
  destruct (Z.leb_spec e (1024 - 53)); [reflexivity|lia].
Qed.

(** A positive integer below [2^53] is a binary64 number. *)
Lemma float_of_Z_spec (c : Z) :
  0 < c < 2 ^ 53 ->
  exists m, float_of_Z c = S754_finite false m (Zdigits2 c - 53)
            /\ Zpos m = c * 2 ^ (53 - Zdigits2 c)
            /\ valid_binary 53 1024 (float_of_Z c) = true.
Proof.
  intros [Hc Hlt]. destruct c as [|p|p]; try lia.
  destruct (Zdigits2_bounds (Zpos p) Hc) as (Hd & Hlo & Hhi).
  assert (Hd53 : Zdigits2 (Zpos p) <= 53).
  { destruct (Z_le_gt_dec (Zdigits2 (Zpos p)) 53) as [H|H]; [exact H|].
    exfalso. assert (2 ^ 53 <= 2 ^ (Zdigits2 (Zpos p) - 1))
      by (apply Z.pow_le_mono_r; lia). lia. }
  unfold float_of_Z, binary_normalize, binary_round, shl_align.
  fold (Zdigits2 (Zpos p)). fold (fexp64 (Zdigits2 (Zpos p) + 0)).
  rewrite fexp64_eq, Z.add_0_r, Z.max_l, Z.sub_0_r by lia.
  set (d := Zdigits2 (Zpos p)) in *.
  destruct (d - 53) as [|q|q] eqn:Hq; try lia.
  - (* 53 digits already *)
    assert (Hcan : fexp64 (Zdigits2 (Zpos p) + 0) = 0)
      by (fold d; rewrite fexp64_eq; lia).
    rewrite (binary_round_aux_exact false p 0 Hcan ltac:(lia)).
    exists p. split; [reflexivity|]. split.
    + replace (53 - d) with 0 by lia. lia.
    + cbn [valid_binary]. unfold bounded. apply andb_true_intro.
      split; [apply canonical_iff; exact Hcan|reflexivity].
  - (* shifted to 53 digits *)
    assert (Hval : Zpos (Pos.iter xO p q) = Zpos p * 2 ^ (53 - d)).
    { rewrite iter_xO_pow. f_equal. f_equal. lia. }
    assert (Hdig : Zdigits2 (Zpos (Pos.iter xO p q)) = 53).
    { apply Zdigits2_unique; [|lia]. rewrite Hval.
      pose proof (Z.pow_pos_nonneg 2 (53 - d) ltac:(lia) ltac:(lia)).
      assert (E1 : 2 ^ (53 - 1) = 2 ^ (d - 1) * 2 ^ (53 - d))
        by (rewrite <- Z.pow_add_r by lia; f_equal; lia).
      assert (E2 : 2 ^ 53 = 2 ^ d * 2 ^ (53 - d))
        by (rewrite <- Z.pow_add_r by lia; f_equal; lia).
      split.
      - rewrite E1. apply Z.mul_le_mono_nonneg_r; lia.
      - rewrite E2. apply Z.mul_lt_mono_pos_r; lia. }
    assert (Hcan : fexp64 (Zdigits2 (Zpos (Pos.iter xO p q)) + Zneg q) = Zneg q)
      by (rewrite Hdig, fexp64_eq; lia).
    rewrite (binary_round_aux_exact false _ _ Hcan ltac:(lia)).
    exists (Pos.iter xO p q). split; [reflexivity|]. split; [exact Hval|].
    cbn [valid_binary]. unfold bounded. apply andb_true_intro.
    split; [apply canonical_iff; exact Hcan|apply Z.leb_le; lia].
Qed.

Lemma SF2Z_float_of_Z (c : Z) :
  0 <= c < 2 ^ 53 ->
  SF2Z (float_of_Z c) = c * 2 ^ 1074
  /\ valid_binary 53 1024 (float_of_Z c) = true
  /\ finite_or_zero (float_of_Z c) = true.
Proof.
  intros [Hc Hlt]. destruct (Z.eq_dec c 0) as [->|Hne].
  - repeat split.
  - destruct (float_of_Z_spec c ltac:(lia)) as (m & Hf & Hm & Hv).
    split; [|split; [exact Hv|rewrite Hf; reflexivity]].
    rewrite Hf. cbn [SF2Z]. rewrite Hm, Z.mul_1_l, <- Z.mul_assoc.
    destruct (Zdigits2_bounds c ltac:(lia)) as (Hd & Hlo & Hhi).
    assert (Zdigits2 c <= 53).
    { destruct (Z_le_gt_dec (Zdigits2 c) 53) as [H|H]; [exact H|].
      exfalso. assert (2 ^ 53 <= 2 ^ (Zdigits2 c - 1))
        by (apply Z.pow_le_mono_r; lia). lia. }
    rewrite <- Z.pow_add_r by lia. f_equal. f_equal. lia.
Qed.

(** ** The clustering threshold *)

Lemma literal_04 : literal 4 (-1) = S754_finite false 7205759403792794 (-54).
Proof. vm_compute. reflexivity. Qed.

Lemma pow_le_digits (m d : Z) : 0 < m -> m < 2 ^ d -> 0 <= d -> Zdigits2 m <= d.
Proof.
  intros Hm Hlt Hd. destruct (Zdigits2_bounds m Hm) as (Hd' & Hlo & _).
  destruct (Z_le_gt_dec (Zdigits2 m) d) as [H|H]; [exact H|].
  exfalso. assert (2 ^ d <= 2 ^ (Zdigits2 m - 1)) by (apply Z.pow_le_mono_r; lia).
  lia.
Qed.

Lemma pow_ge_digits (m d : Z) : 2 ^ d <= m -> 0 <= d -> d < Zdigits2 m.
Proof.
  intros Hle Hd.
  assert (Hm : 0 < m) by (pose proof (Z.pow_pos_nonneg 2 d); lia).
  destruct (Zdigits2_bounds m Hm) as (Hd' & _ & Hhi).
  destruct (Z_lt_le_dec d (Zdigits2 m)) as [H|H]; [exact H|].
  exfalso. assert (2 ^ Zdigits2 m <= 2 ^ d) by (apply Z.pow_le_mono_r; lia).
  lia.
Qed.

(** [c > n * 0.4] in binary64 is [5 c > 2 n] in integers, for the sizes an
    array can have. *)
Lemma clustering_test (c n : Z) :
  0 <= c < 2 ^ 53 -> 0 < n < 2 ^ 32 ->
  js_gt (float_of_Z c) (js_mul (float_of_Z n) (literal 4 (-1)))
  = (2 * n <? 5 * c).
Proof.
  intros Hc Hn.
  destruct (SF2Z_float_of_Z c Hc) as (Hzc & Hvc & Hfc).
  destruct (float_of_Z_spec n ltac:(lia)) as (mn & Hfn & Hmn & Hvn).
  rewrite Hfn in Hvn.
  destruct (valid_finite_bounds _ _ _ Hvn) as (_ & Hmn_hi & Hmn_lo).
  assert (Hdn : 0 < Zdigits2 n <= 32).
  { split; [apply Zdigits2_bounds; lia|apply pow_le_digits; lia]. }
  specialize (Hmn_lo ltac:(lia)).
  unfold js_gt, js_mul. rewrite Hfn, literal_04. cbn [SFmul xorb].
  rewrite Pos2Z.inj_mul.
  set (M := 7205759403792794) in *.
  set (dn := Zdigits2 n) in *.
  set (P := Zpos mn * M).
  set (ex := dn - 53 + -54).
  assert (HP : 2 ^ 104 <= P < 2 ^ 106).
  { unfold P. change (2 ^ 104) with (2 ^ 52 * 2 ^ 52).
    change (2 ^ 106) with (2 ^ 53 * 2 ^ 53).
    assert (2 ^ 52 <= M < 2 ^ 53) by (unfold M; split; reflexivity || discriminate).
    split; nia. }
  assert (HdP : 105 <= Zdigits2 P <= 106).
  { split; [apply Z.lt_pred_le, pow_ge_digits; lia|apply pow_le_digits; lia]. }
  destruct (Zdigits2_bounds P ltac:(lia)) as (_ & HPlo & HPhi).
  set (dP := Zdigits2 P) in *.
  assert (He' : fexp64 (dP + ex) = dP + ex - 53)
    by (rewrite fexp64_eq; unfold ex; lia).
  destruct (binary_round_aux_spec false P ex loc_Exact ltac:(lia))
    as (Hvalid & [[_ Hover]|(m1 & Hm1 & Hres)]).
  { fold dP. rewrite He'. lia. }
  { fold dP in Hover. unfold ex in Hover. lia. }
  fold dP in Hm1, Hres. rewrite He' in Hm1, Hres.
  replace (dP + ex - 53 - ex) with (dP - 53) in Hm1 by lia.
  set (S := 2 ^ (dP - 53)) in *.
  set (m' := P / S) in *.
  assert (HS : 0 < S) by (apply Z.pow_pos_nonneg; lia).
  assert (Hm'lo : m' * S <= P).
  { unfold m'. rewrite Z.mul_comm. apply Z.mul_div_le. exact HS. }
  assert (Hm'hi : P < (m' + 1) * S).
  { unfold m'. pose proof (Z.mod_pos_bound P S HS).
    pose proof (Z.div_mod P S ltac:(lia)). lia. }
  assert (Hm'pos : 0 < m').
  { unfold m'. apply Z.div_str_pos. split; [exact HS|].
    apply Z.le_trans with (2 := HPlo). apply Z.pow_le_mono_r; lia. }
  destruct Hres as [[Hz _]|(m & e & Hr & Hval)]; [lia|].
  rewrite Hr in Hvalid.
  rewrite Hr, (SFltb_valid _ _ Hvalid Hvc eq_refl Hfc), Hzc.
  cbn [SF2Z]. rewrite Z.mul_1_l, Hval.
  (* both sides in units of [2^(e' + 1074)] *)
  set (t := 160 - dP - dn).
  assert (Ht : 22 <= t) by (unfold t; lia).
  replace 1074 with ((dP + ex - 53 + 1074) + t) at 2 by (unfold t, ex; lia).
  rewrite (Z.pow_add_r 2 (dP + ex - 53 + 1074) t) by (unfold ex; lia).
  set (E := 2 ^ (dP + ex - 53 + 1074)).
  assert (HE : 0 < E) by (apply Z.pow_pos_nonneg; unfold ex; lia).
  set (T := 2 ^ t).
  set (A := 2 ^ (53 - dn)).
  assert (HA : 2 ^ 21 <= A) by (apply Z.pow_le_mono_r; lia).
  assert (HTS : T * S = 2 ^ 54 * A).
  { unfold T, S, A. rewrite <- !Z.pow_add_r by lia. f_equal. unfold t. lia. }
  assert (HPA : P = n * A * M) by (unfold P, A; rewrite Hmn; reflexivity).
  assert (HSle : S <= 2 ^ 53) by (apply Z.pow_le_mono_r; lia).
  assert (H5M : 5 * M = 2 * 2 ^ 54 + 2) by reflexivity.
  assert (Hgoal : m1 < c * T <-> 2 * n < 5 * c).
  { split.
    - intros Hlt.
      destruct (Z_lt_le_dec (2 * n) (5 * c)) as [H|H]; [exact H|exfalso].
      (* c T <= m' *)
      assert (c * (T * S) <= P).
      { rewrite HTS, HPA.
        assert (5 * (c * (2 ^ 54 * A)) <= 5 * (n * A * M)); [|lia].
        replace (5 * (n * A * M)) with (n * A * (5 * M)) by ring.
        rewrite H5M.
        assert (5 * c * (2 ^ 54 * A) <= 2 * n * (2 ^ 54 * A))
          by (apply Z.mul_le_mono_nonneg_r; lia).
        nia. }
      assert (m1 * S < c * T * S) by (apply Z.mul_lt_mono_pos_r; lia).
      assert (m' * S <= m1 * S) by (apply Z.mul_le_mono_nonneg_r; lia).
      assert (c * T <= m').
      { apply Z.lt_succ_r.
        apply (Z.mul_lt_mono_pos_r S); [exact HS|].
        replace (Z.succ m' * S) with ((m' + 1) * S) by lia.
        replace (c * T * S) with (c * (T * S)) by ring. lia. }
      lia.
    - intros Hlt.
      apply (Z.mul_lt_mono_pos_r S); [exact HS|].
      replace (c * T * S) with (c * (T * S)) by ring. rewrite HTS.
      assert (m1 * S <= P + S) by nia.
      assert (5 * (P + S) < 5 * (c * (2 ^ 54 * A))); [|lia].
      rewrite HPA.
      replace (5 * (n * A * M + S)) with (n * A * (5 * M) + 5 * S) by ring.
      rewrite H5M.
      assert ((2 * n + 1) * (2 ^ 54 * A) <= 5 * c * (2 ^ 54 * A))
        by (apply Z.mul_le_mono_nonneg_r; lia).
      assert (2 * n * A + 5 * S < 2 ^ 54 * A); [|lia].
      assert (2 * n * A <= 2 ^ 33 * A) by (apply Z.mul_le_mono_nonneg_r; lia).
      assert (5 * S <= 2 ^ 35 * A).
      { apply Z.le_trans with (5 * 2 ^ 53); [lia|].
        apply Z.le_trans with (2 ^ 35 * 2 ^ 21); [discriminate|].
        apply Z.mul_le_mono_nonneg_l; lia. }
      assert ((2 ^ 33 + 2 ^ 35) * A < 2 ^ 54 * A)
        by (apply Z.mul_lt_mono_pos_r; [lia|reflexivity]).
      lia. }
  replace (c * (E * T)) with (c * T * E) by ring.
  destruct (Z.ltb_spec (2 * n) (5 * c)) as [H|H].
  - apply Z.ltb_lt. apply Z.mul_lt_mono_pos_r; [exact HE|].
    apply Hgoal. exact H.
  - apply Z.ltb_ge.
    destruct (Z_lt_le_dec (m1 * E) (c * T * E)) as [H'|H']; [exfalso|exact H'].
    apply Z.mul_lt_mono_pos_r in H'; [|exact HE].
    apply Hgoal in H'. lia.
Qed.

(** ** Numeric literals are valid binary64 numbers *)

Lemma fexp64_mono (a b : Z) : a <= b -> fexp64 a <= fexp64 b.
Proof. rewrite !fexp64_eq. lia. Qed.

Lemma float_of_ratio_valid (neg : bool) (num den : positive) :
  valid_binary 53 1024 (float_of_ratio neg num den) = true.
Proof.
  unfold float_of_ratio, SFdiv_core_binary.
  rewrite !Z.add_0_r, Z.sub_diag.
  fold (fexp64 (Zdigits2 (Zpos num) - Zdigits2 (Zpos den))).
  set (d1 := Zdigits2 (Zpos num)). set (d2 := Zdigits2 (Zpos den)).
  set (e' := Z.min (fexp64 (d1 - d2)) 0).
  destruct (Zdigits2_bounds (Zpos num) ltac:(lia)) as (Hd1 & Hlo1 & Hhi1).
  destruct (Zdigits2_bounds (Zpos den) ltac:(lia)) as (Hd2 & Hlo2 & Hhi2).
  fold d1 in Hd1, Hlo1, Hhi1. fold d2 in Hd2, Hlo2, Hhi2.
  assert (He' : -1074 <= e' <= 0 /\ e' <= fexp64 (d1 - d2)).
  { unfold e'. rewrite fexp64_eq. lia. }
  set (m' := match 0 - e' with
             | 0 => Zpos num
             | Zpos _ => Z.shiftl (Zpos num) (0 - e')
             | Zneg _ => 0
             end).
  assert (Hm' : m' = Zpos num * 2 ^ (- e')).
  { unfold m'. replace (0 - e') with (- e') by lia.
    destruct (- e') as [|p|p] eqn:Hs; try lia; cbv beta iota.
    apply Z.shiftl_mul_pow2. lia. }
  pose proof (Z.div_eucl_eq m' (Zpos den) ltac:(lia)) as Heq.
  pose proof (Z.mod_pos_bound m' (Zpos den) ltac:(lia)) as Hmod.
  unfold Z.modulo in Hmod.
  destruct (Z.div_eucl m' (Zpos den)) as [q r].
  assert (Hq0 : 0 <= q) by nia.
  destruct (Z.eq_dec q 0) as [Hz|Hnz].
  - (* the quotient vanishes: below the least subnormal *)
    assert (e' = -1074).
    { destruct (Z.eq_dec e' (-1074)) as [H|H]; [exact H|exfalso].
      subst q. assert (Hlt : m' < Zpos den) by lia.
      assert (Hge : 2 ^ d2 <= m').
      { rewrite Hm'.
        apply Z.le_trans with (2 ^ (d1 - 1) * 2 ^ (- e'));
          [|apply Z.mul_le_mono_nonneg_r; [apply Z.pow_nonneg|]; lia].
        rewrite <- Z.pow_add_r by lia. apply Z.pow_le_mono_r; [lia|].
        unfold e' in *. rewrite fexp64_eq in *. lia. }
      lia. }
    rewrite Hz, H. destruct (new_location (Zpos den) r) as [|[]]; reflexivity.
  - apply binary_round_aux_spec; [lia|].
    apply Z.le_trans with (1 := proj2 He'). apply fexp64_mono.
    destruct (Z_le_gt_dec (d1 - e' - d2) 0) as [Hs|Hs].
    + pose proof (proj1 (Zdigits2_bounds q ltac:(lia))). lia.
    + assert (Hq : 2 ^ (d1 - e' - d2 - 1) <= q).
      { destruct (Z_le_gt_dec (2 ^ (d1 - e' - d2 - 1)) q) as [H|H]; [exact H|exfalso].
        assert (Hub : m' < Zpos den * 2 ^ (d1 - e' - d2 - 1)) by nia.
        assert (Hub' : Zpos den * 2 ^ (d1 - e' - d2 - 1)
                       <= 2 ^ d2 * 2 ^ (d1 - e' - d2 - 1))
          by (apply Z.mul_le_mono_nonneg_r; [apply Z.pow_nonneg|]; lia).
        rewrite <- Z.pow_add_r in Hub' by lia.
        replace (d2 + (d1 - e' - d2 - 1)) with ((d1 - 1) + (- e')) in Hub' by lia.
        rewrite Z.pow_add_r in Hub' by lia.
        assert (2 ^ (d1 - 1) * 2 ^ (- e') <= m')
          by (rewrite Hm'; apply Z.mul_le_mono_nonneg_r;
              [apply Z.pow_nonneg|]; lia).
        lia. }
      pose proof (pow_ge_digits q _ Hq ltac:(lia)). lia.
Qed.

Lemma decimal_value_valid (d : decimal) :
  valid_binary 53 1024 (decimal_value d) = true.
Proof.
  unfold decimal_value, float_of_Q.
  destruct (Qnum (Qred (dec_to_Q d))); try reflexivity;
    apply float_of_ratio_valid.
Qed.

(** ** The default quadrants partition the plane (C1) *)

(** A coordinate of a Point: a number of the closed range [0, 100]. *)
Definition in_range (x : number) : Prop :=
  match x with
  | Finite d => 0 <= mant d /\ (dec_to_Q d <= 100)%Q
  | _ => False
  end.

Lemma in_range_nonneg (x : number) : in_range x -> nonneg x.
Proof. destruct x; simpl; tauto. Qed.

Lemma in_range_not_nan (x : number) : in_range x -> number_value x <> S754_nan.
Proof.
  destruct x; simpl; try tauto. intros _. apply number_value_finite_not_nan.
Qed.

Definition fifty : spec_float := literal 50 0.

(** The four canonical regions. *)
Definition region_Q1 (vx vy : spec_float) : bool := js_ge vx fifty && js_ge vy fifty.
Definition region_Q2 (vx vy : spec_float) : bool := js_lt vx fifty && js_ge vy fifty.
Definition region_Q3 (vx vy : spec_float) : bool := js_lt vx fifty && js_lt vy fifty.
Definition region_Q4 (vx vy : spec_float) : bool := js_ge vx fifty && js_lt vy fifty.

Definition default_rules : list string :=
  ["x >= 50 && y >= 50"; "x < 50 && y >= 50"; "x < 50 && y < 50";
   "x >= 50 && y < 50"]%string.

Lemma default_rules_of (xLabel yLabel : string) :
  map rule (generateDefaultQuadrants xLabel yLabel) = default_rules.
Proof. reflexivity. Qed.

Lemma default_rule_values (genv : global_env) (x y : number) :
  nonneg x -> nonneg y ->
  map (fun r => evaluateQuadrantRule genv r x y) default_rules
  = [ Some (VBool (region_Q1 (number_value x) (number_value y)));
      Some (VBool (region_Q2 (number_value x) (number_value y)));
      Some (VBool (region_Q3 (number_value x) (number_value y)));
      Some (VBool (region_Q4 (number_value x) (number_value y))) ].
Proof.
  intros Hx Hy. unfold default_rules. cbn [map].
  repeat match goal with
         | |- context [evaluateQuadrantRule genv ?r x y] =>
             let c := eval vm_compute in (compile r) in
             match c with
             | Some ?t =>
                 rewrite (evaluateQuadrantRule_compiled x y genv r t Hx Hy)
                   by (vm_compute; reflexivity)
             end
         end.
  reflexivity.
Qed.

Lemma js_lt_fifty (v : spec_float) :
  v <> S754_nan -> js_lt v fifty = negb (js_ge v fifty).
Proof.
  intros H. unfold js_lt, js_ge. apply SFltb_negb_SFleb; [exact H|discriminate].
Qed.

Lemma getQuadrantForItem_cons (genv : global_env) (x y : number)
  (q : Quadrant) (rest : list Quadrant) (b : bool) :
  evaluateQuadrantRule genv (rule q) x y = Some (VBool b) ->
  getQuadrantForItem genv x y (q :: rest)
  = if b then Some (Some q) else getQuadrantForItem genv x y rest.
Proof. intros H. cbn [getQuadrantForItem]. rewrite H. destruct b; reflexivity. Qed.

(** C1.  For every point of [0,100] x [0,100] the classifier returns a
    quadrant of the default set (never [null]), and that quadrant is the only
    one whose rule holds at the point: exactly one of the four rules matches.
    The four canonical regions are pairwise disjoint. *)
Theorem C1_default_quadrants_partition
  (genv : global_env) (xLabel yLabel : string) (x y : number) :
  in_range x -> in_range y ->
  (exists q,
      getQuadrantForItem genv x y (generateDefaultQuadrants xLabel yLabel)
      = Some (Some q)
      /\ In q (generateDefaultQuadrants xLabel yLabel)
      /\ forall q', In q' (generateDefaultQuadrants xLabel yLabel) ->
           (evaluateQuadrantRule genv (rule q') x y = Some (VBool true) <-> q' = q)
           /\ (q' <> q -> evaluateQuadrantRule genv (rule q') x y = Some (VBool false)))
  /\ (let vx := number_value x in
      let vy := number_value y in
      region_Q1 vx vy && region_Q2 vx vy = false
      /\ region_Q1 vx vy && region_Q3 vx vy = false
      /\ region_Q1 vx vy && region_Q4 vx vy = false
      /\ region_Q2 vx vy && region_Q3 vx vy = false
      /\ region_Q2 vx vy && region_Q4 vx vy = false
      /\ region_Q3 vx vy && region_Q4 vx vy = false).
Proof.
  intros Hrx Hry.
  pose proof (default_rule_values genv x y (in_range_nonneg x Hrx)
                (in_range_nonneg y Hry)) as Hv.
  unfold default_rules in Hv. cbn [map] in Hv.
  injection Hv as H1 H2 H3 H4.
  pose proof (js_lt_fifty _ (in_range_not_nan x Hrx)) as Hlx.
  pose proof (js_lt_fifty _ (in_range_not_nan y Hry)) as Hly.
  unfold region_Q1, region_Q2, region_Q3, region_Q4 in *.
  rewrite Hlx, Hly in *.
  set (bx := js_ge (number_value x) fifty) in *.
  set (by_ := js_ge (number_value y) fifty) in *.
  split.
  - unfold generateDefaultQuadrants.
    match goal with
    | |- exists q, getQuadrantForItem _ _ _ [?q1; ?q2; ?q3; ?q4] = _ /\ _ =>
        set (Q1 := q1); set (Q2 := q2); set (Q3 := q3); set (Q4 := q4)
    end.
    assert (D12 : Q1 <> Q2) by discriminate.
    assert (D13 : Q1 <> Q3) by discriminate.
    assert (D14 : Q1 <> Q4) by discriminate.
    assert (D23 : Q2 <> Q3) by discriminate.
    assert (D24 : Q2 <> Q4) by discriminate.
    assert (D34 : Q3 <> Q4) by discriminate.
    change (evaluateQuadrantRule genv (rule Q1) x y = Some (VBool (bx && by_))) in H1.
    change (evaluateQuadrantRule genv (rule Q2) x y = Some (VBool (negb bx && by_))) in H2.
    change (evaluateQuadrantRule genv (rule Q3) x y
            = Some (VBool (negb bx && negb by_))) in H3.
    change (evaluateQuadrantRule genv (rule Q4) x y = Some (VBool (bx && negb by_))) in H4.
    rewrite (getQuadrantForItem_cons _ _ _ _ _ _ H1).
    rewrite (getQuadrantForItem_cons _ _ _ _ _ _ H2).
    rewrite (getQuadrantForItem_cons _ _ _ _ _ _ H3).
    rewrite (getQuadrantForItem_cons _ _ _ _ _ _ H4).
    clearbody Q1 Q2 Q3 Q4.
    destruct bx, by_; cbn [andb negb] in *;
      [exists Q1|exists Q4|exists Q2|exists Q3];
      (split; [reflexivity|]);
      (split; [simpl; tauto|]);
      intros q' Hq';
      destruct Hq' as [<-|[<-|[<-|[<-|[]]]]];
      (split; [split; [intros Hm; try reflexivity; congruence
                       |intros Heq; try assumption; congruence]
              |intros Hne; try assumption; congruence]).
  - cbv zeta. destruct bx, by_; repeat split; reflexivity.
Qed.

Lemma in_range_int_50 : in_range (int 50).
Proof. split; [simpl; lia|]. unfold Qle. simpl. lia. Qed.

Lemma in_range_49_5 : in_range (dec 495 (-1)).
Proof. split; [simpl; lia|]. unfold Qle. simpl. lia. Qed.

(** The statement at the point (50, 49.5). *)
Lemma C1_witness :
  in_range (int 50) /\ in_range (dec 495 (-1))
  /\ exists q,
       getQuadrantForItem no_globals (int 50) (dec 495 (-1))
         (generateDefaultQuadrants "Probability" "Impact") = Some (Some q)
       /\ id q = "Q4"%string.
Proof.
  split; [exact in_range_int_50|]. split; [exact in_range_49_5|].
  destruct (C1_default_quadrants_partition no_globals "Probability" "Impact"
              (int 50) (dec 495 (-1)) in_range_int_50 in_range_49_5)
    as [(q & Hq & _) _].
  exists q. split; [exact Hq|].
  vm_compute in Hq. inversion Hq. reflexivity.
Defined.

(** ** First match wins (C3) *)

(** The truth of the classifier's test [if (evaluateQuadrantRule(...))]. *)
Definition rule_holds (genv : global_env) (x y : number) (q : Quadrant)
  : option bool :=
  match evaluateQuadrantRule genv (rule q) x y with
  | Some v => to_boolean v
  | None => None
  end.

Lemma getQuadrantForItem_step (genv : global_env) (x y : number)
  (q : Quadrant) (rest : list Quadrant) :
  getQuadrantForItem genv x y (q :: rest)
  = match rule_holds genv x y q with
    | None => None
    | Some true => Some (Some q)
    | Some false => getQuadrantForItem genv x y rest
    end.
Proof.
  unfold rule_holds. cbn [getQuadrantForItem].
  destruct (evaluateQuadrantRule genv (rule q) x y); reflexivity.
Qed.

(** C3.  The classifier tries the rules in list order and returns the first
    quadrant whose rule holds at the point; it returns [null] exactly when no
    rule holds; and it has a result whenever every rule has one. *)
Theorem C3_first_match (genv : global_env) (x y : number) (quadrants : list Quadrant) :
  (forall q,
      getQuadrantForItem genv x y quadrants = Some (Some q)
      <-> exists before after,
            quadrants = before ++ q :: after
            /\ (forall p, In p before -> rule_holds genv x y p = Some false)
            /\ rule_holds genv x y q = Some true)
  /\ (getQuadrantForItem genv x y quadrants = Some None
      <-> forall q, In q quadrants -> rule_holds genv x y q = Some false)
  /\ ((forall q, In q quadrants -> rule_holds genv x y q <> None)
      -> getQuadrantForItem genv x y quadrants <> None).
Proof.
  induction quadrants as [|q0 rest (IHfound & IHnull & IHtotal)].
  - repeat split.
    + intros H. discriminate.
    + intros (before & after & H & _). destruct before; discriminate.
    + intros _ q [].
    + intros _. discriminate.
  - rewrite getQuadrantForItem_step.
    destruct (rule_holds genv x y q0) as [[|]|] eqn:H0.
    + (* the first rule holds *)
      repeat split.
      * intros H. inversion H; subst q.
        exists [], rest. repeat split; [intros p []|exact H0].
      * intros (before & after & Hq & Hb & Hh).
        destruct before as [|b before].
        -- inversion Hq. reflexivity.
        -- inversion Hq; subst b. specialize (Hb q0 (or_introl eq_refl)). congruence.
      * discriminate.
      * intros H. specialize (H q0 (or_introl eq_refl)). congruence.
      * discriminate.
    + (* it does not: go on with the rest *)
      repeat split.
      * intros H. apply IHfound in H. destruct H as (before & after & Hq & Hb & Hh).
        exists (q0 :: before), after. repeat split.
        -- simpl. f_equal. exact Hq.
        -- intros p [<-|Hp]; [exact H0|apply Hb, Hp].
        -- exact Hh.
      * intros (before & after & Hq & Hb & Hh).
        destruct before as [|b before].
        -- injection Hq as Hq1 Hq2. subst q. congruence.
        -- injection Hq as Hq1 Hq2. apply IHfound.
           exists before, after. repeat split; [exact Hq2| |exact Hh].
           intros p Hp. apply Hb. right. exact Hp.
      * intros H q [<-|Hq]; [exact H0|]. apply IHnull; assumption.
      * intros H. apply IHnull. intros q Hq. apply H. right. exact Hq.
      * intros H. apply IHtotal. intros q Hq. apply H. right. exact Hq.
    + (* the rule leaves the modelled language *)
      repeat split.
      * discriminate.
      * intros (before & after & Hq & Hb & Hh).
        destruct before as [|b before].
        -- inversion Hq; subst q. congruence.
        -- inversion Hq; subst b. specialize (Hb q0 (or_introl eq_refl)). congruence.
      * discriminate.
      * intros H. specialize (H q0 (or_introl eq_refl)). congruence.
      * intros H. exfalso. apply (H q0 (or_introl eq_refl)). exact H0.
Qed.

(** ** Determinism and statelessness (C8) *)

(** The rule sets the rule language accepts. *)
Definition accepted (quadrants : list Quadrant) : Prop :=
  Forall (fun q => compile (rule q) <> None) quadrants.

(** The rule of a quadrant, decided by the specification's evaluator. *)
Definition matches (vx vy : spec_float) (q : Quadrant) : bool :=
  match compile (rule q) with
  | Some r => evaluate r vx vy
  | None => false
  end.

Lemma getQuadrantForItem_accepted (genv : global_env) (x y : number)
  (quadrants : list Quadrant) :
  nonneg x -> nonneg y -> accepted quadrants ->
  getQuadrantForItem genv x y quadrants
  = Some (find (matches (number_value x) (number_value y)) quadrants).
Proof.
  intros Hx Hy Hacc. induction Hacc as [|q rest Hq _ IH]; [reflexivity|].
  destruct (compile (rule q)) as [r|] eqn:Hc; [|congruence].
  rewrite (getQuadrantForItem_cons genv x y q rest _
             (evaluateQuadrantRule_compiled x y genv (rule q) r Hx Hy Hc)).
  cbn [find]. unfold matches at 1. rewrite Hc.
  destruct (evaluate r (number_value x) (number_value y)); [reflexivity|exact IH].
Qed.

(** C8.  The only state the dynamic evaluation could read is the global
    environment.  For a rule the grammar accepts and a point of the plane, the
    evaluation returns the same boolean under any two global environments
    (the one the specification's evaluator computes from the rule and the
    point alone), and classifying the point against an accepted quadrant
    sequence returns the same quadrant under any two global environments. *)
Theorem C8_deterministic_stateless
  (g1 g2 : global_env) (ruleText : string) (r : Rule) (x y : number)
  (quadrants : list Quadrant) :
  in_range x -> in_range y ->
  compile ruleText = Some r ->
  accepted quadrants ->
  (exists b : bool,
      evaluateQuadrantRule g1 ruleText x y = Some (VBool b)
      /\ evaluateQuadrantRule g2 ruleText x y = Some (VBool b)
      /\ b = evaluate r (number_value x) (number_value y))
  /\ (exists result : option Quadrant,
         getQuadrantForItem g1 x y quadrants = Some result
         /\ getQuadrantForItem g2 x y quadrants = Some result).
Proof.
  intros Hx Hy Hc Hacc.
  apply in_range_nonneg in Hx. apply in_range_nonneg in Hy.
  split.
  - exists (evaluate r (number_value x) (number_value y)).
    rewrite !(evaluateQuadrantRule_compiled x y _ ruleText r Hx Hy Hc).
    repeat split.
  - exists (find (matches (number_value x) (number_value y)) quadrants).
    rewrite !(getQuadrantForItem_accepted _ x y quadrants Hx Hy Hacc).
    split; reflexivity.
Qed.

(** A global environment that binds names a rule text could mention. *)
Definition busy_globals : global_env :=
  fun n => if String.eqb n "x" then Some (VNum (literal 99 0))
           else if String.eqb n "y" then Some (VBool true)
           else Some VOther.

Lemma default_quadrants_accepted (xLabel yLabel : string) :
  accepted (generateDefaultQuadrants xLabel yLabel).
Proof. repeat constructor; vm_compute; discriminate. Qed.

(** The statement at the point (50, 49.5), for the first default rule and
    the default quadrant set, under two different global environments. *)
Lemma C8_witness :
  (exists b : bool,
      evaluateQuadrantRule no_globals "x >= 50 && y >= 50" (int 50) (dec 495 (-1))
      = Some (VBool b)
      /\ evaluateQuadrantRule busy_globals "x >= 50 && y >= 50" (int 50)
           (dec 495 (-1)) = Some (VBool b)
      /\ b = false)
  /\ (exists result : option Quadrant,
         getQuadrantForItem no_globals (int 50) (dec 495 (-1))
           (generateDefaultQuadrants "Probability" "Impact") = Some result
         /\ getQuadrantForItem busy_globals (int 50) (dec 495 (-1))
              (generateDefaultQuadrants "Probability" "Impact") = Some result).
Proof.
  assert (Hc : compile "x >= 50 && y >= 50"
               = Some (And (Compare Ge (Var VarX) (Literal fifty))
                           (Compare Ge (Var VarY) (Literal fifty))))
    by (vm_compute; reflexivity).
  destruct (C8_deterministic_stateless no_globals busy_globals
              "x >= 50 && y >= 50" _ (int 50) (dec 495 (-1))
              (generateDefaultQuadrants "Probability" "Impact")
              in_range_int_50 in_range_49_5 Hc
              (default_quadrants_accepted "Probability" "Impact"))
    as [(b & H1 & H2 & Hb) Hq].
  split; [|exact Hq].
  exists b. repeat split; [exact H1|exact H2|].
  rewrite Hb. vm_compute. reflexivity.
Defined.

(** ** The parser has fuel enough *)

Definition depth (l : level) : nat :=
  match l with LOr => 4 | LAnd => 3 | LEq => 2 | LRel => 1 end.

(** What the operand parser of a level needs. *)
Definition operand_depth (l : level) : nat :=
  match next_level l with Some l' => depth l' | None => 0 end.

Lemma operand_depth_S (l : level) : depth l = S (operand_depth l).
Proof. destruct l; reflexivity. Qed.

Definition shorter (toks : list token) (r : parsed (expr * list token)) : Prop :=
  match r with
  | POk (_, rest) => (List.length rest < List.length toks)%nat
  | _ => True
  end.

Definition not_longer (toks : list token) (r : parsed (expr * list token)) : Prop :=
  match r with
  | POk (_, rest) => (List.length rest <= List.length toks)%nat
  | _ => True
  end.

(** An operand takes at least one token. *)
Lemma parse_consumes (fuel : nat) :
  (forall l toks, shorter toks (parse_level fuel l toks))
  /\ (forall l lhs toks, not_longer toks (parse_loop fuel l lhs toks))
  /\ (forall toks, shorter toks (parse_unary fuel toks)).
Proof.
  induction fuel as [|f (IHl & IHp & IHu)]; [repeat split; exact I|].
  assert (Hoperand : forall l toks,
             shorter toks match next_level l with
                          | Some l' => parse_level f l' toks
                          | None => parse_unary f toks
                          end).
  { intros l toks. destruct (next_level l); [apply IHl|apply IHu]. }
  repeat split.
  - intros l toks. cbn [parse_level].
    pose proof (Hoperand l toks) as H.
    destruct (match next_level l with
              | Some l' => parse_level f l' toks
              | None => parse_unary f toks
              end) as [[lhs r]| |]; cbn [pbind]; try exact I.
    pose proof (IHp l lhs r) as H'.
    destruct (parse_loop f l lhs r) as [[e r']| |]; try exact I.
    simpl in *. lia.
  - intros l lhs toks. cbn [parse_loop].
    destruct toks as [|t r]; [simpl; lia|].
    destruct (level_op l t) as [mk|]; [|simpl; lia].
    pose proof (Hoperand l r) as H.
    destruct (match next_level l with
              | Some l' => parse_level f l' r
              | None => parse_unary f r
              end) as [[rhs r']| |]; cbn [pbind]; try exact I.
    pose proof (IHp l (mk lhs rhs) r') as H'.
    destruct (parse_loop f l (mk lhs rhs) r') as [[e r'']| |]; try exact I.
    simpl in *. lia.
  - intros toks. cbn [parse_unary].
    destruct toks as [|t r]; [exact I|].
    destruct t; try exact I; try (simpl; lia).
    + pose proof (IHl LOr r) as H.
      destruct (parse_level f LOr r) as [[e r']| |]; cbn [pbind]; try exact I.
      destruct r' as [|t' r'']; [exact I|].
      destruct t'; try exact I. simpl in *. lia.
    + pose proof (IHu r) as H.
      destruct (parse_unary f r) as [[e r']| |]; cbn [pbind]; try exact I.
      simpl in *. lia.
    + pose proof (IHu r) as H.
      destruct (parse_unary f r) as [[e r']| |]; cbn [pbind]; try exact I.
      simpl in *. lia.
Qed.

Lemma parse_enough_fuel (fuel : nat) :
  (forall l toks,
      (6 * List.length toks + 1 + depth l <= fuel)%nat ->
      parse_level fuel l toks <> PFuel)
  /\ (forall l lhs toks,
         (6 * List.length toks + 1 + depth l <= fuel)%nat ->
         parse_loop fuel l lhs toks <> PFuel)
  /\ (forall toks,
         (6 * List.length toks + 1 <= fuel)%nat ->
         parse_unary fuel toks <> PFuel).
Proof.
  induction fuel as [|f (IHl & IHp & IHu)]; [repeat split; intros; lia|].
  assert (Hoperand : forall l toks,
             (6 * List.length toks + 1 + operand_depth l <= f)%nat ->
             match next_level l with
             | Some l' => parse_level f l' toks
             | None => parse_unary f toks
             end <> PFuel).
  { intros l toks. unfold operand_depth.
    destruct (next_level l); [apply IHl|intros H; apply IHu; lia]. }
  assert (Hshort : forall l toks,
             shorter toks match next_level l with
                          | Some l' => parse_level f l' toks
                          | None => parse_unary f toks
                          end).
  { intros l toks. destruct (parse_consumes f) as (Hl & _ & Hu).
    destruct (next_level l); [apply Hl|apply Hu]. }
  repeat split.
  - intros l toks Hf. cbn [parse_level].
    pose proof (Hoperand l toks) as H. pose proof (Hshort l toks) as Hs.
    rewrite operand_depth_S in Hf.
    destruct (match next_level l with
              | Some l' => parse_level f l' toks
              | None => parse_unary f toks
              end) as [[lhs r]| |]; cbn [pbind]; try discriminate.
    + apply IHp. simpl in Hs. rewrite operand_depth_S. lia.
    + exfalso. apply H; [lia|reflexivity].
  - intros l lhs toks Hf. cbn [parse_loop].
    destruct toks as [|t r]; [discriminate|].
    destruct (level_op l t) as [mk|]; [|discriminate].
    pose proof (Hoperand l r) as H. pose proof (Hshort l r) as Hs.
    rewrite operand_depth_S in Hf. cbn [List.length] in Hf.
    destruct (match next_level l with
              | Some l' => parse_level f l' r
              | None => parse_unary f r
              end) as [[rhs r']| |]; cbn [pbind]; try discriminate.
    + apply IHp. simpl in Hs. rewrite operand_depth_S. lia.
    + exfalso. apply H; [lia|reflexivity].
  - intros toks Hf. cbn [parse_unary].
    destruct toks as [|t r]; [discriminate|].
    cbn [List.length] in Hf.
    destruct t; try discriminate.
    + pose proof (IHl LOr r) as H.
      destruct (parse_level f LOr r) as [[e r']| |]; cbn [pbind];
        try discriminate.
      * destruct r' as [|t' r'']; [discriminate|]. destruct t'; discriminate.
      * exfalso. apply H; [simpl; lia|reflexivity].
    + pose proof (IHu r) as H.
      destruct (parse_unary f r) as [[e r']| |]; cbn [pbind]; try discriminate.
      exfalso. apply H; [lia|reflexivity].
    + pose proof (IHu r) as H.
      destruct (parse_unary f r) as [[e r']| |]; cbn [pbind]; try discriminate.
      exfalso. apply H; [lia|reflexivity].
Qed.

Lemma parse_fuel_enough (toks : list token) :
  parse_level (parse_fuel toks) LOr toks <> PFuel.
Proof.
  destruct (parse_enough_fuel (parse_fuel toks)) as (H & _ & _).
  apply H. unfold parse_fuel. simpl. lia.
Qed.

(** ** What the evaluation returns (C10) *)

(** Global bindings that hold numbers, booleans, [null] or [undefined]. *)
Definition primitive_env (genv : global_env) : Prop :=
  forall n, genv n <> Some VOther.

Definition primitive (c : completion) : Prop :=
  match c with
  | Normal v => v <> VOther
  | Throw _ => True
  end.

(** The rule texts of the modelled expression language, well formed or
    not: every word is a coordinate or a name without the letters [x] and
    [y]. *)
Definition modelled_rule (ruleText : string) : bool :=
  match lex (text_of ruleText) with
  | Some toks => forallb rule_token toks && negb (unmodelled_adjacent toks)
  | None => false
  end.

Lemma to_boolean_primitive (v : value) :
  v <> VOther -> exists b, to_boolean v = Some b.
Proof. destruct v; simpl; intros H; try congruence; eauto. Qed.

Lemma to_number_primitive (v : value) :
  v <> VOther -> exists f, to_number v = Some f.
Proof. destruct v; simpl; intros H; try congruence; eauto. Qed.

Lemma compare_values_primitive (op : cmp_op) (a b : value) :
  a <> VOther -> b <> VOther -> exists r, compare_values op a b = Some r.
Proof.
  intros Ha Hb.
  destruct (to_number_primitive a Ha) as [fa Hfa].
  destruct (to_number_primitive b Hb) as [fb Hfb].
  assert (Hl : exists r, loosely_equal a b = Some r).
  { unfold loosely_equal. rewrite Hfa, Hfb.
    destruct a, b; try congruence; simpl; eauto. }
  assert (Hs : exists r, strictly_equal a b = Some r).
  { destruct a, b; try congruence; simpl; eauto. }
  destruct Hl as [rl Hl], Hs as [rs Hs].
  destruct op; simpl; rewrite ?Hfa, ?Hfb, ?Hl, ?Hs; simpl; eauto.
Qed.

Lemma eval_total (genv : global_env) (e : expr) :
  primitive_env genv ->
  exists c, eval genv e = Some c /\ primitive c.
Proof.
  intros Hg. induction e; cbn [eval].
  - eexists; split; [reflexivity|discriminate].
  - eexists; split; [reflexivity|discriminate].
  - eexists; split; [reflexivity|discriminate].
  - unfold lookup_identifier.
    destruct (String.eqb name0 "undefined");
      [eexists; split; [reflexivity|discriminate]|].
    destruct (String.eqb name0 "NaN");
      [eexists; split; [reflexivity|discriminate]|].
    destruct (String.eqb name0 "Infinity");
      [eexists; split; [reflexivity|discriminate]|].
    destruct (genv name0) as [v|] eqn:Hv.
    + exists (Normal v). split; [reflexivity|].
      simpl. intros ->. exact (Hg _ Hv).
    + eexists; split; [reflexivity|exact I].
  - exact IHe.
  - destruct IHe as ([v|err] & -> & Hp); cbn [cbind].
    + destruct (to_boolean_primitive v Hp) as [b ->].
      eexists; split; [reflexivity|discriminate].
    + eexists; split; [reflexivity|exact I].
  - destruct IHe as ([v|err] & -> & Hp); cbn [cbind].
    + destruct (to_number_primitive v Hp) as [f ->].
      eexists; split; [reflexivity|discriminate].
    + eexists; split; [reflexivity|exact I].
  - destruct IHe1 as ([va|err] & -> & Hpa); cbn [cbind];
      [|eexists; split; [reflexivity|exact I]].
    destruct IHe2 as ([vb|err] & -> & Hpb); cbn [cbind];
      [|eexists; split; [reflexivity|exact I]].
    destruct (compare_values_primitive op va vb Hpa Hpb) as [r ->].
    eexists; split; [reflexivity|discriminate].
  - destruct IHe1 as ([va|err] & -> & Hpa); cbn [cbind];
      [|eexists; split; [reflexivity|exact I]].
    destruct (to_boolean_primitive va Hpa) as [[|] ->].
    + exact IHe2.
    + eexists; split; [reflexivity|exact Hpa].
  - destruct IHe1 as ([va|err] & -> & Hpa); cbn [cbind];
      [|eexists; split; [reflexivity|exact I]].
    destruct (to_boolean_primitive va Hpa) as [[|] ->].
    + eexists; split; [reflexivity|exact Hpa].
    + exact IHe2.
Qed.

Lemma run_tokens_total (genv : global_env) (toks : list token) :
  primitive_env genv -> unmodelled_adjacent toks = false ->
  exists c, run_tokens genv toks = Some c /\ primitive c.
Proof.
  intros Hg Hadj. unfold run_tokens.
  destruct toks as [|t r]; [eexists; split; [reflexivity|discriminate]|].
  rewrite Hadj.
  pose proof (parse_fuel_enough (t :: r)) as Hf.
  destruct (parse_level (parse_fuel (t :: r)) LOr (t :: r)) as [[e rest]| |];
    [|eexists; split; [reflexivity|exact I]|congruence].
  destruct rest; [apply eval_total, Hg|].
  eexists; split; [reflexivity|exact I].
Qed.

(** What [try { ... } catch { return false }] makes of a completion. *)
Definition caught (c : completion) : value :=
  match c with
  | Normal v => v
  | Throw _ => VBool false
  end.

Lemma evaluateQuadrantRule_total (genv : global_env) (ruleText : string)
  (x y : number) :
  primitive_env genv -> nonneg x -> nonneg y ->
  modelled_rule ruleText = true ->
  exists toks c,
    lex (text_of ruleText) = Some toks
    /\ run_tokens genv (map (subst_token x y) toks) = Some c
    /\ primitive c
    /\ evaluateQuadrantRule genv ruleText x y = Some (caught c).
Proof.
  intros Hg Hx Hy Hm. unfold modelled_rule in Hm.
  destruct (lex (text_of ruleText)) as [toks|] eqn:Hlex; [|discriminate].
  apply andb_prop in Hm. destruct Hm as [Hrule Hadj].
  apply negb_true_iff in Hadj.
  destruct (run_tokens_total genv (map (subst_token x y) toks) Hg)
    as (c & Hc & Hp).
  { rewrite unmodelled_adjacent_subst. exact Hadj. }
  exists toks, c. repeat split; [exact Hc|exact Hp|].
  rewrite (evaluateQuadrantRule_tokens x y genv ruleText toks Hx Hy Hlex Hrule).
  rewrite Hc. destruct c; reflexivity.
Qed.

Lemma caught_primitive (c : completion) : primitive c -> caught c <> VOther.
Proof. destruct c; simpl; [tauto|discriminate]. Qed.

Lemma getQuadrantForItem_total (genv : global_env) (x y : number)
  (quadrants : list Quadrant) :
  primitive_env genv -> nonneg x -> nonneg y ->
  Forall (fun q => modelled_rule (rule q) = true) quadrants ->
  exists result, getQuadrantForItem genv x y quadrants = Some result.
Proof.
  intros Hg Hx Hy Hall.
  induction Hall as [|q rest Hq _ IH]; [eexists; reflexivity|].
  destruct (evaluateQuadrantRule_total genv (rule q) x y Hg Hx Hy Hq)
    as (toks & c & _ & _ & Hp & Hv).
  cbn [getQuadrantForItem]. rewrite Hv.
  destruct (to_boolean_primitive _ (caught_primitive c Hp)) as [[|] ->].
  - eexists; reflexivity.
  - exact IH.
Qed.

(** The rule [x] at the point (50, 50): the evaluation returns the number
    50, which is not a boolean; the classifier takes it for a match. *)
Definition bare_x : Quadrant :=
  {| id := "Q1"; name := "Any"; description := EmptyString;
     implication := EmptyString; rule := "x"; color := "#ef4444" |}.

(** The evaluation never throws.  For every rule text of the modelled
    expression language, well formed or not, and every point with finite
    non-negative coordinates, the evaluation returns a value: the one the
    expression evaluates to, and [false] when building or running the
    expression throws.  The classifier can test the truthiness of that value,
    so [getQuadrantForItem] returns a quadrant or [null] for every quadrant
    sequence with such rules. *)
Lemma evaluateQuadrantRule_never_throws
  (genv : global_env) (x y : number) :
  primitive_env genv -> nonneg x -> nonneg y ->
  (forall ruleText, modelled_rule ruleText = true ->
     exists toks c v,
       lex (text_of ruleText) = Some toks
       /\ run_tokens genv (map (subst_token x y) toks) = Some c
       /\ evaluateQuadrantRule genv ruleText x y = Some v
       /\ (forall err, c = Throw err -> v = VBool false)
       /\ (forall w, c = Normal w -> v = w)
       /\ (exists b, to_boolean v = Some b))
  /\ (forall quadrants,
         Forall (fun q => modelled_rule (rule q) = true) quadrants ->
         exists result, getQuadrantForItem genv x y quadrants = Some result).
Proof.
  intros Hg Hx Hy. split.
  - intros ruleText Hm.
    destruct (evaluateQuadrantRule_total genv ruleText x y Hg Hx Hy Hm)
      as (toks & c & Hlex & Hc & Hp & Hv).
    exists toks, c, (caught c). repeat split; try assumption.
    + intros err ->. reflexivity.
    + intros w ->. reflexivity.
    + apply to_boolean_primitive, caught_primitive, Hp.
  - intros quadrants. apply getQuadrantForItem_total; assumption.
Qed.

(** C10.  The evaluation does not always return a boolean.  For the rule
    text [x] at the point (50, 50) the substituted text is [50]: the function,
    declared to return a boolean, returns the number 50, and the classifier,
    which tests the truthiness of what it gets, takes the quadrant. *)
Theorem C10_bare_coordinate_is_not_boolean :
  evaluateQuadrantRule no_globals (rule bare_x) (int 50) (int 50)
  = Some (VNum fifty)
  /\ (forall b : bool,
         evaluateQuadrantRule no_globals (rule bare_x) (int 50) (int 50)
         <> Some (VBool b))
  /\ getQuadrantForItem no_globals (int 50) (int 50) [bare_x]
     = Some (Some bare_x).
Proof.
  assert (H : evaluateQuadrantRule no_globals (rule bare_x) (int 50) (int 50)
              = Some (VNum fifty)) by (vm_compute; reflexivity).
  split; [exact H|]. split.
  - intros b. rewrite H. discriminate.
  - vm_compute. reflexivity.
Qed.

Lemma no_globals_primitive : primitive_env no_globals.
Proof. intros n. discriminate. Qed.

Lemma nonneg_int_50 : nonneg (int 50).
Proof. exact (in_range_nonneg _ in_range_int_50). Qed.

(** A quadrant whose rule names an unknown identifier, and one whose rule is
    malformed. *)
Definition unknown_name : Quadrant :=
  {| id := "Q1"; name := "Unknown"; description := EmptyString;
     implication := EmptyString; rule := "foo > 1"; color := "#ef4444" |}.

Definition malformed : Quadrant :=
  {| id := "Q2"; name := "Malformed"; description := EmptyString;
     implication := EmptyString; rule := "x >= && 50"; color := "#f97316" |}.

(** A malformed rule, a rule with an unknown identifier and a rule that is
    a bare coordinate, at the point (50, 50): the classifier has a result. *)
Example never_throws_at_50_50 :
  exists result,
    getQuadrantForItem no_globals (int 50) (int 50)
      [malformed; unknown_name; bare_x] = Some result.
Proof.
  destruct (evaluateQuadrantRule_never_throws no_globals (int 50) (int 50)
              no_globals_primitive nonneg_int_50 nonneg_int_50) as [_ H2].
  apply H2.
  repeat (constructor; [vm_compute; reflexivity|]). constructor.
Qed.

(** ** Rules outside the grammar are not rejected (C2) *)

(** A quadrant whose rule is the literal [true]. *)
Definition always : Quadrant :=
  {| id := "Q3"; name := "Always"; description := EmptyString;
     implication := EmptyString; rule := "true"; color := "#22c55e" |}.


Definition of_completion (c : completion) : Realm.completion value error_kind :=
  match c with
  | Normal v => Realm.Returned v
  | Throw err => Realm.Thrown err
  end.

(** A realm that runs the model: its values are those of the model, and a
    text of the modelled expression language is run as the model runs it,
    without any change of the state. *)
Definition runs_the_model {S : Type} (genv : global_env)
  (R : Realm.realm value error_kind S) : Prop :=
  Realm.false_value R = VBool false
  /\ (forall v b, to_boolean v = Some b -> Realm.ToBoolean R v = b)
  /\ (forall body c s,
         call_new_Function genv body = Some c ->
         Realm.new_Function R body s = (of_completion c, s)).

(** Where the model has a result, a realm that runs the model has the same. *)
Lemma Realm_evaluateQuadrantRule {S : Type} (genv : global_env)
  (R : Realm.realm value error_kind S) (ruleText : string) (x y : number)
  (v : value) (s : S) :
  runs_the_model genv R ->
  evaluateQuadrantRule genv ruleText x y = Some v ->
  Realm.evaluateQuadrantRule R ruleText x y s = (v, s).
Proof.
  intros (Hf & _ & Hrun). unfold evaluateQuadrantRule, Realm.evaluateQuadrantRule.
  cbv zeta.
  destruct (call_new_Function genv
              (text_of "return " ++ substitute x y (text_of ruleText)))
    as [c|] eqn:Hc; [|discriminate].
  rewrite (Hrun _ _ s Hc). destruct c as [w|err]; cbn [of_completion].
  - intros H. injection H as <-. reflexivity.
  - intros H. injection H as <-. rewrite Hf. reflexivity.
Qed.

Lemma Realm_getQuadrantForItem {S : Type} (genv : global_env)
  (R : Realm.realm value error_kind S) (x y : number)
  (quadrants : list Quadrant) (result : option Quadrant) (s : S) :
  runs_the_model genv R ->
  getQuadrantForItem genv x y quadrants = Some result ->
  Realm.getQuadrantForItem R x y quadrants s = (result, s).
Proof.
  intros HR. induction quadrants as [|q rest IH]; cbn [getQuadrantForItem].
  - intros H. injection H as <-. reflexivity.
  - destruct (evaluateQuadrantRule genv (rule q) x y) as [v|] eqn:Hv;
      [|discriminate].
    destruct (to_boolean v) as [b|] eqn:Hb; [|discriminate].
    cbn [Realm.getQuadrantForItem].
    rewrite (Realm_evaluateQuadrantRule genv R (rule q) x y v s HR Hv).
    destruct HR as (_ & Ht & _). rewrite (Ht v b Hb).
    destruct b; [|exact IH].
    intros H. injection H as <-. reflexivity.
Qed.

(** A rule text with a token outside the grammar: a character that starts
    no token of the expression language, or a token that the grammar does not
    have. *)
Definition outside_grammar (ruleText : string) : bool :=
  match lex (text_of ruleText) with
  | Some toks => negb (forallb grammar_token toks)
  | None => true
  end.




(** A realm for the examples: it has no global bindings and no state, it
    runs the texts of the modelled expression language as the model does, and
    every other text throws in it. *)
Definition sample_realm : Realm.realm value error_kind unit :=
  {| Realm.ToBoolean := fun v =>
       match to_boolean v with Some b => b | None => true end;
     Realm.false_value := VBool false;
     Realm.false_is_falsy := eq_refl;
     Realm.new_Function := fun body s =>
       match call_new_Function no_globals body with
       | Some c => (of_completion c, s)
       | None => (Realm.Thrown SyntaxError, s)
       end |}.

Lemma sample_realm_runs_the_model : runs_the_model no_globals sample_realm.
Proof.
  split; [reflexivity|]. split.
  - intros v b H. cbn. rewrite H. reflexivity.
  - intros body c s H. cbn. rewrite H. reflexivity.
Qed.

(** A quadrant whose rule calls a function. *)
Definition with_call : Quadrant :=
  {| id := "Q4"; name := "Call"; description := EmptyString;
     implication := EmptyString; rule := "x > 50 && alert(1)";
     color := "#3b82f6" |}.


Example out_of_grammar_samples :
  outside_grammar (rule unknown_name) = true
  /\ outside_grammar (rule always) = true
  /\ outside_grammar (rule with_call) = true
  /\ outside_grammar "x = 5" = true
  /\ outside_grammar ("x == " ++ quote ++ "a" ++ quote) = true
  /\ outside_grammar "x >= 50 && y >= 50" = false
  /\ Realm.getQuadrantForItem sample_realm (int 50) (int 50)
       [unknown_name; always] tt
     = (Some always, tt).
Proof. repeat split; vm_compute; reflexivity. Qed.

(** ** The insight aggregator: its counts and the shape of its result *)

Lemma filter_opt_length {A : Type} (p : A -> option bool) (l r : list A) :
  filter_opt p l = Some r -> (List.length r <= List.length l)%nat.
Proof.
  revert r. induction l as [|a l IH]; intros r H; simpl in H.
  - inversion H. simpl. lia.
  - destruct (p a) as [b|]; [|discriminate].
    destruct (filter_opt p l) as [r'|]; [|discriminate].
    inversion H. specialize (IH r' eq_refl). destruct b; simpl; lia.
Qed.

Lemma filter_opt_filter {A : Type} (p : A -> option bool) (l r : list A) :
  filter_opt p l = Some r ->
  r = filter (fun a => match p a with Some true => true | _ => false end) l.
Proof.
  revert r. induction l as [|a l IH]; intros r H.
  - injection H as <-. reflexivity.
  - cbn [filter_opt] in H. destruct (p a) as [b|] eqn:Hp; [|discriminate].
    destruct (filter_opt p l) as [r'|]; [|discriminate].
    injection H as <-. cbn [filter]. rewrite Hp, <- (IH r' eq_refl).
    destruct b; reflexivity.
Qed.

Lemma filter_opt_total {A : Type} (p : A -> option bool) (l : list A) :
  (forall a, In a l -> p a <> None) -> exists r, filter_opt p l = Some r.
Proof.
  induction l as [|a l IH]; intros H; simpl; [eauto|].
  destruct (p a) as [b|] eqn:Hp; [|exfalso; apply (H a); [left; reflexivity|exact Hp]].
  destruct IH as [r ->]; [intros a' Ha'; apply H; right; exact Ha'|].
  eauto.
Qed.

Lemma map_opt_total {A B : Type} (f : A -> option B) (l : list A) :
  (forall a, In a l -> f a <> None) -> exists r, map_opt f l = Some r.
Proof.
  induction l as [|a l IH]; intros H; simpl; [eauto|].
  destruct (f a) as [b|] eqn:Hf; [|exfalso; apply (H a); [left; reflexivity|exact Hf]].
  destruct IH as [r ->]; [intros a' Ha'; apply H; right; exact Ha'|].
  eauto.
Qed.

Lemma map_opt_Forall2 {A B : Type} (f : A -> option B) (l : list A) (r : list B) :
  map_opt f l = Some r -> Forall2 (fun a b => f a = Some b) l r.
Proof.
  revert r. induction l as [|a l IH]; intros r H; simpl in H.
  - inversion H. constructor.
  - destruct (f a) as [b|] eqn:Hf; [|discriminate].
    destruct (map_opt f l) as [r'|]; [|discriminate].
    inversion H. constructor; [exact Hf|apply IH; reflexivity].
Qed.

Lemma counts_spec (genv : global_env) (items : list AnalysisItem)
  (all qs : list Quadrant) (counts : list QuadrantCount) :
  map_opt (fun q =>
             option_map (fun its => {| Count.quadrant := q; Count.items := its |})
                        (filter_opt (item_in_quadrant genv all q) items))
          qs = Some counts ->
  map Count.quadrant counts = qs
  /\ forall qc, In qc counts ->
       filter_opt (item_in_quadrant genv all (Count.quadrant qc)) items
       = Some (Count.items qc)
       /\ (List.length (Count.items qc) <= List.length items)%nat.
Proof.
  intros H. apply map_opt_Forall2 in H.
  induction H as [|q qc qs qcs Hq _ IH]; [split; [reflexivity|intros qc []]|].
  destruct IH as [IHm IHc].
  destruct (filter_opt (item_in_quadrant genv all q) items) as [its|] eqn:Hf;
    [|discriminate].
  simpl in Hq. inversion Hq; subst qc. split.
  - simpl. f_equal. exact IHm.
  - intros qc [<-|Hin]; [|apply IHc; exact Hin].
    simpl. split; [exact Hf|apply (filter_opt_length _ _ _ Hf)].
Qed.

(** One count per quadrant, in order, each holding items of the
    collection. *)
Lemma quadrantCounts_spec (genv : global_env) (items : list AnalysisItem)
  (quadrants : list Quadrant) (counts : list QuadrantCount) :
  quadrantCounts genv items quadrants = Some counts ->
  map Count.quadrant counts = quadrants
  /\ forall qc, In qc counts ->
       filter_opt (item_in_quadrant genv quadrants (Count.quadrant qc)) items
       = Some (Count.items qc)
       /\ (List.length (Count.items qc) <= List.length items)%nat.
Proof. apply counts_spec. Qed.

(** The counts exist as soon as every item can be classified. *)
Lemma quadrantCounts_total (genv : global_env) (items : list AnalysisItem)
  (quadrants : list Quadrant) :
  (forall item, In item items ->
     getQuadrantForItem genv (Item.x item) (Item.y item) quadrants <> None) ->
  exists counts, quadrantCounts genv items quadrants = Some counts.
Proof.
  intros H. unfold quadrantCounts. apply map_opt_total. intros q _.
  destruct (filter_opt_total (item_in_quadrant genv quadrants q) items) as [r ->];
    [|discriminate].
  intros item Hin. specialize (H item Hin). unfold item_in_quadrant.
  destruct (getQuadrantForItem genv (Item.x item) (Item.y item) quadrants)
    as [[iq|]|]; [discriminate|discriminate|congruence].
Qed.

(** The fold keeps a count that no other count exceeds. *)
Lemma fold_larger_count (rest : list QuadrantCount) :
  forall first,
    let maxQuadrant := fold_left larger_count rest first in
    In maxQuadrant (first :: rest)
    /\ forall qc, In qc (first :: rest) ->
         (List.length (Count.items qc)
          <= List.length (Count.items maxQuadrant))%nat.
Proof.
  induction rest as [|c rest IH]; intros first; cbn [fold_left].
  - split; [left; reflexivity|]. intros qc [<-|[]]. lia.
  - destruct (IH (larger_count first c)) as [Hin Hmax]. cbv zeta in *.
    set (m := fold_left larger_count rest (larger_count first c)) in *.
    assert (Hl : (List.length (Count.items first)
                  <= List.length (Count.items (larger_count first c))
                  /\ List.length (Count.items c)
                     <= List.length (Count.items (larger_count first c)))%nat).
    { unfold larger_count.
      destruct (Nat.ltb_spec (List.length (Count.items first))
                  (List.length (Count.items c))); lia. }
    split.
    + destruct Hin as [Hin|Hin]; [|right; right; exact Hin].
      rewrite <- Hin. unfold larger_count.
      destruct (List.length (Count.items first) <? List.length (Count.items c))%nat;
        [right; left; reflexivity|left; reflexivity].
    + intros qc [<-|[<-|Hqc]].
      * specialize (Hmax _ (or_introl eq_refl)). lia.
      * specialize (Hmax _ (or_introl eq_refl)). lia.
      * apply Hmax. right. exact Hqc.
Qed.

Definition is_type (t : insight_type) (i : GeneratedInsight) : bool :=
  match t, Insight.type i with
  | InsightType.distribution, InsightType.distribution
  | InsightType.confidence, InsightType.confidence
  | InsightType.outliers, InsightType.outliers
  | InsightType.patterns, InsightType.patterns
  | InsightType.recommendations, InsightType.recommendations => true
  | _, _ => false
  end.

(** The test of the distribution analysis, [c > n * 0.4]. *)
Definition clusters (c n : nat) : bool :=
  js_gt (float_of_nat c) (js_mul (float_of_nat n) (literal 4 (-1))).

(** [((c / n) * 100).toFixed(0)] *)
Definition percentage (c n : nat) : string :=
  fixed (js_mul (js_div (float_of_nat c) (float_of_nat n)) (literal 100 0)) 0.

(** With counts at hand the aggregator returns: the clustering insight
    comes first if there is one, then the confidence insights, then the
    outlier insight if there is one, then the others. *)
Lemma generateDataInsights_returns (genv : global_env)
  (items : list AnalysisItem) (quadrants : list Quadrant) (axes : Axes)
  (first : QuadrantCount) (rest : list QuadrantCount) :
  quadrantCounts genv items quadrants = Some (first :: rest) ->
  let maxQuadrant := fold_left larger_count rest first in
  let c := List.length (Count.items maxQuadrant) in
  let n := List.length items in
  let outliers := filter is_outlier items in
  exists ins2 ins3 tail,
    generateDataInsights genv items quadrants axes
    = Returns ((if clusters c n
                then [clustering_insight maxQuadrant (percentage c n)]
                else [])
               ++ ins2 ++ ins3
               ++ (if (0 <? List.length outliers)%nat
                   then [outlier_insight outliers] else [])
               ++ tail)
    /\ Forall (fun i => Insight.type i = InsightType.confidence) (ins2 ++ ins3)
    /\ Forall (fun i => Insight.type i = InsightType.patterns
                        \/ Insight.type i = InsightType.recommendations) tail.
Proof.
  intros Hc. cbv zeta. unfold generateDataInsights. rewrite Hc.
  cbn [of_option obind reduce]. cbv zeta.
  eexists _, _, _. split; [reflexivity|]. split.
  - apply Forall_app. split;
      match goal with
      | |- Forall _ (if ?b then _ else _) =>
          destruct b; repeat constructor
      end.
  - repeat (apply Forall_app; split);
      match goal with
      | |- Forall _ (if ?b then _ else _) =>
          destruct b; [constructor; [simpl; auto|constructor]|constructor]
      end.
Qed.

Lemma filter_is_type_other (t : insight_type) (l : list GeneratedInsight)
  (P : insight_type -> Prop) :
  Forall (fun i => P (Insight.type i)) l ->
  (forall t', P t' -> t' <> t) ->
  filter (is_type t) l = [].
Proof.
  intros H Hne. induction H as [|i l Hi _ IH]; [reflexivity|].
  simpl. rewrite IH. unfold is_type.
  specialize (Hne _ Hi).
  destruct t, (Insight.type i); try reflexivity; congruence.
Qed.

(** ** Empty inputs (C4) *)

Lemma quadrantCounts_no_items (genv : global_env) (quadrants : list Quadrant) :
  quadrantCounts genv [] quadrants
  = Some (map (fun q => {| Count.quadrant := q; Count.items := [] |}) quadrants).
Proof.
  unfold quadrantCounts. generalize (item_in_quadrant genv quadrants) as f.
  intros f. induction quadrants as [|q qs IH]; [reflexivity|].
  cbn [map_opt filter_opt option_map map] in *. rewrite IH. reflexivity.
Qed.

(** Without items and with at least one quadrant the aggregator returns no
    insight. *)
Lemma generateDataInsights_no_items (genv : global_env) (q : Quadrant)
  (quadrants : list Quadrant) (axes : Axes) :
  generateDataInsights genv [] (q :: quadrants) axes = Returns [].
Proof.
  pose proof (quadrantCounts_no_items genv (q :: quadrants)) as Hc.
  cbn [map] in Hc.
  destruct (fold_larger_count
              (map (fun q => {| Count.quadrant := q; Count.items := [] |}) quadrants)
              {| Count.quadrant := q; Count.items := [] |}) as [Hin _].
  cbv zeta in Hin.
  assert (Hitems : Count.items
                     (fold_left larger_count
                        (map (fun q => {| Count.quadrant := q; Count.items := [] |})
                           quadrants)
                        {| Count.quadrant := q; Count.items := [] |}) = []).
  { destruct Hin as [<-|Hin]; [reflexivity|].
    apply in_map_iff in Hin. destruct Hin as (q' & <- & _). reflexivity. }
  unfold generateDataInsights. rewrite Hc.
  cbn [of_option obind reduce]. rewrite Hitems.
  vm_compute. reflexivity.
Qed.

(** Without a quadrant there is no count to start the reduction from, and
    the aggregator throws.  The insights panel, which is the one caller,
    passes the quadrants of the analysis result, and these are the four
    default quadrants. *)
Lemma generateDataInsights_no_quadrants (genv : global_env)
  (items : list AnalysisItem) (axes : Axes) :
  generateDataInsights genv items [] axes
  = Throws (TypeError "Reduce of empty array with no initial value").
Proof. reflexivity. Qed.

(** C4.  With no item the aggregator returns the empty insight sequence,
    whatever the quadrants it is given are, as long as there is one, and the
    overall confidence of a result without items is 0.  So it is for every
    result that the analysis route answers with: when it has no items, its
    confidence is 0 and the aggregator, called as the insights panel calls
    it, returns the empty sequence. *)
Theorem C4_empty_items
  (genv : global_env) (quadrants : list Quadrant) (axes : Axes) :
  quadrants <> [] ->
  generateDataInsights genv [] quadrants axes = Returns []
  /\ overallConfidence [] = S754_zero false
  /\ (forall request hasApiKey analysisData processingTime newId now result,
         body (POST request hasApiKey
                 (analyzeContent analysisData processingTime) newId now)
         = ResultBody result ->
         items result = [] ->
         meta_confidence (metadata result) = S754_zero false
         /\ dataInsights genv result = Returns []).
Proof.
  intros Hq. split; [|split; [reflexivity|]].
  - destruct quadrants as [|q rest]; [congruence|].
    apply generateDataInsights_no_items.
  - intros request hasApiKey analysisData processingTime newId now result.
    unfold POST. destruct request as [b|]; [|discriminate].
    destruct (Request.text b) as [text|]; [|discriminate].
    destruct ((String.length text =? 0)%nat || (String.length (trim text) <? 10)%nat);
      [discriminate|].
    destruct (50000 <? Z.of_nat (String.length text)); [discriminate|].
    destruct (negb (existsb _ validDomains)); [discriminate|].
    destruct hasApiKey; [destruct analysisData as [d|]|].
    + intros H Hitems. injection H as <-. unfold dataInsights.
      cbn [analyzeContent with_metadata items metadata plain_metadata
             meta_confidence] in *.
      rewrite Hitems. split; [reflexivity|].
      apply generateDataInsights_no_items.
    + intros H Hitems. injection H as <-. discriminate Hitems.
    + intros H Hitems. injection H as <-. discriminate Hitems.
Qed.

(** The statement for the four default quadrants. *)
Lemma C4_witness :
  generateDataInsights no_globals []
    (generateDefaultQuadrants "Probability" "Impact")
    {| Axis.x := "Probability"; Axis.y := "Impact"; Axis.rationale := EmptyString |}
  = Returns []
  /\ overallConfidence [] = S754_zero false.
Proof.
  destruct (C4_empty_items no_globals
              (generateDefaultQuadrants "Probability" "Impact")
              {| Axis.x := "Probability"; Axis.y := "Impact";
                 Axis.rationale := EmptyString |})
    as (H1 & H2 & _).
  - discriminate.
  - split; [exact H1|exact H2].
Defined.

(** ** The clustering insight (C5) *)

Lemma clusters_spec (c n : nat) :
  (c <= n)%nat -> (0 < n)%nat -> Z.of_nat n < 2 ^ 32 ->
  clusters c n = (2 * n <? 5 * c)%nat.
Proof.
  intros Hc Hn Hlt. unfold clusters, float_of_nat.
  rewrite clustering_test by lia.
  destruct (Z.ltb_spec (2 * Z.of_nat n) (5 * Z.of_nat c)),
    (Nat.ltb_spec (2 * n) (5 * c)); try reflexivity; lia.
Qed.

Lemma filter_is_type_if (t : insight_type) (b : bool) (i : GeneratedInsight) :
  filter (is_type t) (if b then [i] else [])
  = if b && is_type t i then [i] else [].
Proof. destruct b; [|reflexivity]. simpl. destruct (is_type t i); reflexivity. Qed.

(** The insights of one type in the aggregator's result. *)
Lemma generateDataInsights_by_type (genv : global_env)
  (items : list AnalysisItem) (quadrants : list Quadrant) (axes : Axes)
  (first : QuadrantCount) (rest : list QuadrantCount) :
  quadrantCounts genv items quadrants = Some (first :: rest) ->
  let maxQuadrant := fold_left larger_count rest first in
  let c := List.length (Count.items maxQuadrant) in
  let n := List.length items in
  let outliers := filter is_outlier items in
  exists insights,
    generateDataInsights genv items quadrants axes = Returns insights
    /\ filter (is_type InsightType.distribution) insights
       = (if clusters c n
          then [clustering_insight maxQuadrant (percentage c n)] else [])
    /\ filter (is_type InsightType.outliers) insights
       = (if (0 <? List.length outliers)%nat
          then [outlier_insight outliers] else []).
Proof.
  intros Hc. cbv zeta.
  destruct (generateDataInsights_returns genv items quadrants axes first rest Hc)
    as (ins2 & ins3 & tail & Hret & Hconf & Htail).
  cbv zeta in Hret. eexists. split; [exact Hret|].
  apply Forall_app in Hconf. destruct Hconf as [H2 H3].
  split.
  - rewrite !filter_app, !filter_is_type_if.
    rewrite (filter_is_type_other _ ins2 (eq InsightType.confidence))
      by (try (eapply Forall_impl; [|exact H2]; simpl; intros; congruence);
          intros t' <-; discriminate).
    rewrite (filter_is_type_other _ ins3 (eq InsightType.confidence))
      by (try (eapply Forall_impl; [|exact H3]; simpl; intros; congruence);
          intros t' <-; discriminate).
    rewrite (filter_is_type_other _ tail
               (fun t => t = InsightType.patterns \/ t = InsightType.recommendations))
      by (try exact Htail; intros t' [->| ->]; discriminate).
    cbn [is_type clustering_insight outlier_insight Insight.type].
    rewrite !andb_true_r, !andb_false_r, !app_nil_r. reflexivity.
  - rewrite !filter_app, !filter_is_type_if.
    rewrite (filter_is_type_other _ ins2 (eq InsightType.confidence))
      by (try (eapply Forall_impl; [|exact H2]; simpl; intros; congruence);
          intros t' <-; discriminate).
    rewrite (filter_is_type_other _ ins3 (eq InsightType.confidence))
      by (try (eapply Forall_impl; [|exact H3]; simpl; intros; congruence);
          intros t' <-; discriminate).
    rewrite (filter_is_type_other _ tail
               (fun t => t = InsightType.patterns \/ t = InsightType.recommendations))
      by (try exact Htail; intros t' [->| ->]; discriminate).
    cbn [is_type clustering_insight outlier_insight Insight.type].
    rewrite !andb_true_r, !andb_false_r, !app_nil_r. reflexivity.
Qed.

(** The items that the classifier puts in a quadrant with the id of [q]. *)
Definition classified_in (genv : global_env) (quadrants : list Quadrant)
  (q : Quadrant) (items : list AnalysisItem) : list AnalysisItem :=
  filter (fun item =>
            match getQuadrantForItem genv (Item.x item) (Item.y item) quadrants with
            | Some (Some itemQuadrant) => String.eqb (id itemQuadrant) (id q)
            | _ => false
            end)
         items.

(** The counts are those of the classifier: the count of a quadrant holds
    the items for which the classifier returns a quadrant with its id. *)
Lemma counts_classified (genv : global_env) (items : list AnalysisItem)
  (all qs : list Quadrant) (counts : list QuadrantCount) :
  map_opt (fun q =>
             option_map (fun its => {| Count.quadrant := q; Count.items := its |})
                        (filter_opt (item_in_quadrant genv all q) items))
          qs = Some counts ->
  counts = map (fun q => {| Count.quadrant := q;
                            Count.items := classified_in genv all q items |}) qs.
Proof.
  revert counts. induction qs as [|q qs IH]; intros counts H.
  - injection H as <-. reflexivity.
  - cbn [map_opt] in H.
    destruct (filter_opt (item_in_quadrant genv all q) items) as [its|] eqn:Hf;
      [|discriminate].
    cbn [option_map] in H.
    destruct (map_opt _ qs) as [rest|]; [|discriminate].
    injection H as <-. cbn [map]. rewrite <- (IH rest eq_refl).
    rewrite (filter_opt_filter _ _ _ Hf). f_equal. f_equal.
    unfold classified_in. apply filter_ext. intros item.
    unfold item_in_quadrant.
    destruct (getQuadrantForItem genv (Item.x item) (Item.y item) all)
      as [[iq|]|]; try reflexivity.
    destruct (String.eqb (id iq) (id q)); reflexivity.
Qed.

Lemma quadrantCounts_classified (genv : global_env) (items : list AnalysisItem)
  (quadrants : list Quadrant) (counts : list QuadrantCount) :
  quadrantCounts genv items quadrants = Some counts ->
  counts = map (fun q => {| Count.quadrant := q;
                            Count.items := classified_in genv quadrants q items |})
               quadrants.
Proof. apply counts_classified. Qed.

(** The fold keeps the first of the largest counts: the counts before it
    are smaller and no count after it is larger. *)
Lemma fold_larger_first (rest : list QuadrantCount) :
  forall first,
    let maxQuadrant := fold_left larger_count rest first in
    exists before after,
      first :: rest = before ++ maxQuadrant :: after
      /\ (forall qc, In qc before ->
            (List.length (Count.items qc)
             < List.length (Count.items maxQuadrant))%nat)
      /\ (forall qc, In qc after ->
            (List.length (Count.items qc)
             <= List.length (Count.items maxQuadrant))%nat).
Proof.
  induction rest as [|c rest IH]; intros first; cbn [fold_left].
  - exists [], []. split; [reflexivity|]. split; intros qc [].
  - destruct (IH (larger_count first c)) as (before & after & Hsplit & Hb & Ha).
    cbv zeta in *.
    set (m := fold_left larger_count rest (larger_count first c)) in *.
    unfold larger_count in Hsplit.
    destruct (Nat.ltb_spec (List.length (Count.items first))
                (List.length (Count.items c))) as [Hlt|Hge].
    + exists (first :: before), after. split; [cbn; rewrite <- Hsplit; reflexivity|].
      split; [|exact Ha].
      intros qc [<-|Hin]; [|apply Hb, Hin].
      assert (Hc : In c (before ++ m :: after))
        by (rewrite <- Hsplit; left; reflexivity).
      apply in_app_or in Hc. destruct Hc as [Hc|[Hmc|Hc]].
      * specialize (Hb c Hc). lia.
      * rewrite Hmc. exact Hlt.
      * specialize (Ha c Hc). lia.
    + destruct before as [|b before].
      * cbn [app] in Hsplit.
        assert (Hm : first = m) by congruence.
        assert (Hrest : rest = after) by congruence.
        exists [], (c :: after). split; [cbn; rewrite <- Hm, Hrest; reflexivity|].
        split; [intros qc []|].
        intros qc [<-|Hin]; [rewrite <- Hm; exact Hge|apply Ha, Hin].
      * cbn [app] in Hsplit.
        assert (Hfirst : first = b) by congruence.
        assert (Hrest : rest = before ++ m :: after) by congruence.
        exists (first :: c :: before), after.
        split; [cbn; rewrite Hrest; reflexivity|]. split; [|exact Ha].
        assert (Hf : (List.length (Count.items first)
                      < List.length (Count.items m))%nat).
        { apply Hb. left. symmetry. exact Hfirst. }
        clear Hsplit.
        intros qc [<-|[<-|Hin]]; [exact Hf|lia|].
        apply Hb. right. exact Hin.
Qed.

(** C5.  For a non-empty item collection (of a size an array can have)
    whose items can all be classified, and a quadrant sequence that is not
    empty, the aggregator returns.  The count of a quadrant is the number of
    items for which the classifier returns a quadrant with its id, and
    [maxQuadrant] is the first quadrant of the sequence whose count [c] is the
    largest: the counts before it are smaller, no count after it is larger.
    The result holds a clustering insight exactly when [c] is strictly more
    than 40% of the number [n] of items, that is when [2 n < 5 c].  The insight
    is then the only one of its type; its description is made of the
    percentage [((c / n) * 100).toFixed(0)] and of the name of [maxQuadrant],
    and it lists the items that the classifier puts there. *)
Theorem C5_clustering_insight
  (genv : global_env) (items : list AnalysisItem) (quadrants : list Quadrant)
  (axes : Axes) :
  items <> [] ->
  Z.of_nat (List.length items) < 2 ^ 32 ->
  quadrants <> [] ->
  (forall item, In item items ->
     getQuadrantForItem genv (Item.x item) (Item.y item) quadrants <> None) ->
  exists before maxQuadrant after insights,
    quadrants = before ++ maxQuadrant :: after
    /\ let count q := List.length (classified_in genv quadrants q items) in
       let c := count maxQuadrant in
       let n := List.length items in
       let insight :=
         clustering_insight
           {| Count.quadrant := maxQuadrant;
              Count.items := classified_in genv quadrants maxQuadrant items |}
           (percentage c n) in
       (forall q, In q before -> (count q < c)%nat)
       /\ (forall q, In q after -> (count q <= c)%nat)
       /\ generateDataInsights genv items quadrants axes = Returns insights
       /\ filter (is_type InsightType.distribution) insights
          = (if (2 * n <? 5 * c)%nat then [insight] else [])
       /\ Insight.description insight
          = (percentage c n ++ "% of items are concentrated in the "
               ++ quote ++ name maxQuadrant ++ quote
               ++ " quadrant, suggesting a clear pattern in your data.")%string
       /\ Insight.items insight
          = Some (classified_in genv quadrants maxQuadrant items).
Proof.
  intros Hitems Hsize Hquadrants Hclass.
  destruct (quadrantCounts_total genv items quadrants Hclass) as [counts Hc].
  pose proof (quadrantCounts_classified genv items quadrants counts Hc) as Hcounts.
  destruct counts as [|first rest];
    [destruct quadrants; [congruence|discriminate Hcounts]|].
  destruct (fold_larger_first rest first) as (cb & ca & Hsplit & Hb & Ha).
  cbv zeta in Hsplit, Hb, Ha.
  destruct (generateDataInsights_by_type genv items quadrants axes first rest Hc)
    as (insights & Hret & Hdist & _).
  cbv zeta in Hdist.
  set (m := fold_left larger_count rest first) in *.
  set (mk := fun q => {| Count.quadrant := q;
                         Count.items := classified_in genv quadrants q items |}) in *.
  rewrite Hsplit in Hcounts. symmetry in Hcounts.
  apply map_eq_app in Hcounts.
  destruct Hcounts as (before & tail & Hq & Hbefore & Htail).
  apply map_eq_cons in Htail.
  destruct Htail as (maxQuadrant & after & Htl & Hm & Hafter).
  exists before, maxQuadrant, after, insights.
  split; [rewrite Hq, Htl; reflexivity|]. cbv zeta.
  assert (Hlen : List.length (Count.items m)
                 = List.length (classified_in genv quadrants maxQuadrant items))
    by (rewrite <- Hm; reflexivity).
  split; [|split; [|split; [exact Hret|split; [|split; reflexivity]]]].
  - intros q Hin. rewrite <- Hlen.
    apply (Hb (mk q)). rewrite <- Hbefore. apply in_map, Hin.
  - intros q Hin. rewrite <- Hlen.
    apply (Ha (mk q)). rewrite <- Hafter. apply in_map, Hin.
  - rewrite Hdist, <- Hlen.
    change {| Count.quadrant := maxQuadrant;
              Count.items := classified_in genv quadrants maxQuadrant items |}
      with (mk maxQuadrant).
    rewrite Hm, clusters_spec; [reflexivity| | |exact Hsize].
    + rewrite Hlen. apply filter_length_le.
    + destruct items; [congruence|simpl; lia].
Qed.

(** Ten items, five of them in the first quadrant. *)
Definition sample_item (n : string) (px py : Z) : AnalysisItem :=
  {| Item.name := n; Item.x := int px; Item.y := int py;
     Item.confidence := dec 7 (-1); Item.rationale := EmptyString;
     Item.citations := [] |}.

Definition ten_items : list AnalysisItem :=
  [ sample_item "A" 75 85; sample_item "B" 60 60; sample_item "C" 90 70;
    sample_item "D" 55 95; sample_item "E" 80 50; sample_item "F" 25 65;
    sample_item "G" 10 90; sample_item "H" 20 20; sample_item "I" 40 10;
    sample_item "J" 60 30 ].

Definition sample_axes : Axes :=
  {| Axis.x := "Probability"; Axis.y := "Impact"; Axis.rationale := EmptyString |}.

Lemma ten_items_classified :
  forall item, In item ten_items ->
    getQuadrantForItem no_globals (Item.x item) (Item.y item)
      (generateDefaultQuadrants "Probability" "Impact") <> None.
Proof.
  intros item Hin. unfold ten_items in Hin. cbn [In] in Hin.
  repeat (destruct Hin as [<-|Hin]; [vm_compute; discriminate|]).
  destruct Hin.
Qed.

Lemma count_of_second_quadrant :
  forall q, In q (tl (generateDefaultQuadrants "Probability" "Impact")) ->
    (List.length (classified_in no_globals
                    (generateDefaultQuadrants "Probability" "Impact") q ten_items)
     <= 2)%nat.
Proof.
  intros q Hin. cbn [generateDefaultQuadrants tl In] in Hin.
  repeat (destruct Hin as [<-|Hin]; [vm_compute; lia|]). destruct Hin.
Qed.

Lemma count_of_first_quadrant :
  List.length (classified_in no_globals
                 (generateDefaultQuadrants "Probability" "Impact")
                 (hd bare_x (generateDefaultQuadrants "Probability" "Impact"))
                 ten_items)
  = 5%nat.
Proof. vm_compute. reflexivity. Qed.

(** The statement for ten items of which five fall in the first default
    quadrant: the clustering insight is emitted, it names that quadrant and
    says 50%, and it lists the five items. *)
Lemma C5_witness :
  exists insights,
    generateDataInsights no_globals ten_items
      (generateDefaultQuadrants "Probability" "Impact") sample_axes
    = Returns insights
    /\ map Insight.description
         (filter (is_type InsightType.distribution) insights)
       = [ ("50% of items are concentrated in the " ++ quote
              ++ "High Probability / High Impact" ++ quote
              ++ " quadrant, suggesting a clear pattern in your data.")%string ]
    /\ map Insight.items (filter (is_type InsightType.distribution) insights)
       = [ Some (firstn 5 ten_items) ].
Proof.
  destruct (C5_clustering_insight no_globals ten_items
              (generateDefaultQuadrants "Probability" "Impact") sample_axes)
    as (before & maxQuadrant & after & insights & Hsplit & H).
  - discriminate.
  - vm_compute. reflexivity.
  - discriminate.
  - exact ten_items_classified.
  - cbv zeta in H. destruct H as (Hb & _ & Hret & Hdist & _).
    exists insights. split; [exact Hret|].
    destruct before as [|b before].
    + cbn [app] in Hsplit. cbn [generateDefaultQuadrants] in Hsplit.
      injection Hsplit as Hm _. subst maxQuadrant.
      rewrite Hdist. split; vm_compute; reflexivity.
    + exfalso.
      assert (Hin : In maxQuadrant
                      (tl (generateDefaultQuadrants "Probability" "Impact"))).
      { rewrite Hsplit. cbn [app tl]. apply in_elt. }
      pose proof (count_of_second_quadrant maxQuadrant Hin) as Hle.
      specialize (Hb b (or_introl eq_refl)).
      assert (Hb0 : b = hd bare_x (generateDefaultQuadrants "Probability" "Impact"))
        by (rewrite Hsplit; reflexivity).
      rewrite Hb0, count_of_first_quadrant in Hb. lia.
Defined.

Example ten_items_clustering :
  exists insights,
    generateDataInsights no_globals ten_items
      (generateDefaultQuadrants "Probability" "Impact") sample_axes
    = Returns insights
    /\ map Insight.description (filter (is_type InsightType.distribution) insights)
       = [ ("50% of items are concentrated in the " ++ quote
              ++ "High Probability / High Impact" ++ quote
              ++ " quadrant, suggesting a clear pattern in your data.")%string ].
Proof. eexists. split; vm_compute; reflexivity. Qed.

(** ** Outliers (C9) *)

(** The exact value of a binary64 number that is not NaN or infinite. *)
Definition exact (f : spec_float) : Q := Qmake (SF2Z f) (2 ^ 1074).

Lemma exact_lt (c : Z) (f : spec_float) :
  (inject_Z c < exact f)%Q <-> c * 2 ^ 1074 < SF2Z f.
Proof.
  unfold Qlt, exact, inject_Z. cbn [Qnum Qden].
  rewrite Pos2Z.inj_pow. change (Zpos 2) with 2. change (Zpos 1074) with 1074.
  rewrite Z.mul_1_r. reflexivity.
Qed.

Lemma exact_gt (c : Z) (f : spec_float) :
  (exact f < inject_Z c)%Q <-> SF2Z f < c * 2 ^ 1074.
Proof.
  unfold Qlt, exact, inject_Z. cbn [Qnum Qden].
  rewrite Pos2Z.inj_pow. change (Zpos 2) with 2. change (Zpos 1074) with 1074.
  rewrite Z.mul_1_r. reflexivity.
Qed.

Lemma literal_90 : literal 90 0 = float_of_Z 90.
Proof. vm_compute. reflexivity. Qed.

Lemma literal_10 : literal 10 0 = float_of_Z 10.
Proof. vm_compute. reflexivity. Qed.

Lemma number_value_valid (x : number) : valid_binary 53 1024 (number_value x) = true.
Proof. destruct x; try reflexivity. apply decimal_value_valid. Qed.

(** A coordinate above a small integer, and below one. *)
Lemma js_gt_integer (x : number) (c : Z) :
  0 <= c < 2 ^ 53 -> finite_or_zero (number_value x) = true ->
  js_gt (number_value x) (float_of_Z c) = true
  <-> (inject_Z c < exact (number_value x))%Q.
Proof.
  intros Hc Hf. destruct (SF2Z_float_of_Z c Hc) as (Hz & Hv & Hfz).
  unfold js_gt.
  rewrite (SFltb_valid _ _ Hv (number_value_valid x) Hfz Hf), Hz.
  rewrite exact_lt. apply Z.ltb_lt.
Qed.

Lemma js_lt_integer (x : number) (c : Z) :
  0 <= c < 2 ^ 53 -> finite_or_zero (number_value x) = true ->
  js_lt (number_value x) (float_of_Z c) = true
  <-> (exact (number_value x) < inject_Z c)%Q.
Proof.
  intros Hc Hf. destruct (SF2Z_float_of_Z c Hc) as (Hz & Hv & Hfz).
  unfold js_lt.
  rewrite (SFltb_valid _ _ (number_value_valid x) Hv Hf Hfz), Hz.
  rewrite exact_gt. apply Z.ltb_lt.
Qed.

(** An item is an outlier exactly when a coordinate is outside the closed
    interval [10, 90]. *)
Lemma is_outlier_spec (item : AnalysisItem) :
  finite_or_zero (number_value (Item.x item)) = true ->
  finite_or_zero (number_value (Item.y item)) = true ->
  let px := exact (number_value (Item.x item)) in
  let py := exact (number_value (Item.y item)) in
  is_outlier item = true
  <-> ~ (10 <= px /\ px <= 90)%Q \/ ~ (10 <= py /\ py <= 90)%Q.
Proof.
  intros Hx Hy px py. unfold is_outlier. rewrite literal_90, literal_10.
  rewrite !orb_true_iff.
  assert (H90 : 0 <= 90 < 2 ^ 53) by (split; [lia|reflexivity]).
  assert (H10 : 0 <= 10 < 2 ^ 53) by (split; [lia|reflexivity]).
  rewrite (js_gt_integer (Item.x item) 90 H90 Hx),
    (js_lt_integer (Item.x item) 10 H10 Hx),
    (js_gt_integer (Item.y item) 90 H90 Hy),
    (js_lt_integer (Item.y item) 10 H10 Hy).
  fold px py. change (inject_Z 90) with 90%Q. change (inject_Z 10) with 10%Q.
  split.
  - intros [[H|H]|[H|H]].
    + left. intros [_ H']. apply (Qlt_not_le _ _ H H').
    + left. intros [H' _]. apply (Qlt_not_le _ _ H H').
    + right. intros [_ H']. apply (Qlt_not_le _ _ H H').
    + right. intros [H' _]. apply (Qlt_not_le _ _ H H').
  - intros [H|H].
    + left. destruct (Qlt_le_dec 90 px) as [H1|H1]; [left; exact H1|].
      destruct (Qlt_le_dec px 10) as [H2|H2]; [right; exact H2|].
      exfalso. apply H. split; assumption.
    + right. destruct (Qlt_le_dec 90 py) as [H1|H1]; [left; exact H1|].
      destruct (Qlt_le_dec py 10) as [H2|H2]; [right; exact H2|].
      exfalso. apply H. split; assumption.
Qed.

(** With a quadrant sequence that is not empty, the aggregator returns and
    its result holds exactly one outlier insight, listing all outliers, when
    there is an outlier, and none otherwise. *)
Lemma outlier_insight_spec (genv : global_env) (items : list AnalysisItem)
  (quadrants : list Quadrant) (axes : Axes) :
  quadrants <> [] ->
  (forall item, In item items ->
     getQuadrantForItem genv (Item.x item) (Item.y item) quadrants <> None) ->
  exists insights,
    generateDataInsights genv items quadrants axes = Returns insights
    /\ filter (is_type InsightType.outliers) insights
       = match filter is_outlier items with
         | [] => []
         | outliers => [outlier_insight outliers]
         end.
Proof.
  intros Hquadrants Hclass.
  destruct (quadrantCounts_total genv items quadrants Hclass) as [counts Hc].
  destruct (quadrantCounts_spec genv items quadrants counts Hc) as [Hmap _].
  destruct counts as [|first rest]; [simpl in Hmap; congruence|].
  destruct (generateDataInsights_by_type genv items quadrants axes first rest Hc)
    as (insights & Hret & _ & Hout).
  cbv zeta in Hout. exists insights. split; [exact Hret|].
  rewrite Hout. destruct (filter is_outlier items); reflexivity.
Qed.

Definition item_95_50 : AnalysisItem := sample_item "K" 95 50.
Definition item_50_50 : AnalysisItem := sample_item "L" 50 50.

(** C9.  An item is an outlier exactly when a coordinate is outside the
    closed interval [10, 90]: the item at (95, 50) is one, the items at
    (50, 50) and at (10, 90) are not.  For every item collection whose items
    can be classified against a quadrant sequence that is not empty, the
    aggregator returns, and its result holds exactly one outlier insight, which
    lists all outliers, when there is an outlier, and none when there is no
    outlier. *)
Theorem C9_outlier_insight (genv : global_env) (items : list AnalysisItem)
  (quadrants : list Quadrant) (axes : Axes) :
  quadrants <> [] ->
  (forall item, In item items ->
     getQuadrantForItem genv (Item.x item) (Item.y item) quadrants <> None) ->
  let outliers := filter is_outlier items in
  (forall item,
      finite_or_zero (number_value (Item.x item)) = true ->
      finite_or_zero (number_value (Item.y item)) = true ->
      let px := exact (number_value (Item.x item)) in
      let py := exact (number_value (Item.y item)) in
      (In item items /\ (~ (10 <= px /\ px <= 90)%Q \/ ~ (10 <= py /\ py <= 90)%Q))
      <-> In item outliers)
  /\ (exists insights,
         generateDataInsights genv items quadrants axes = Returns insights
         /\ filter (is_type InsightType.outliers) insights
            = match outliers with
              | [] => []
              | _ :: _ => [outlier_insight outliers]
              end)
  /\ Insight.items (outlier_insight outliers) = Some outliers
  /\ is_outlier item_95_50 = true
  /\ is_outlier item_50_50 = false
  /\ is_outlier (sample_item "M" 10 90) = false.
Proof.
  intros Hq Hclass outliers. split; [|split; [|repeat split]].
  - intros item Hx Hy px py. unfold outliers. rewrite filter_In.
    pose proof (is_outlier_spec item Hx Hy) as Hspec. cbv zeta in Hspec.
    fold px py in Hspec. rewrite Hspec. reflexivity.
  - destruct (outlier_insight_spec genv items quadrants axes Hq Hclass)
      as (insights & Hret & Hout).
    exists insights. split; [exact Hret|]. rewrite Hout. fold outliers.
    destruct outliers; reflexivity.
Qed.

(** The statement for the items at (95, 50) and at (50, 50) and the four
    default quadrants: one outlier insight, listing the first item. *)
Lemma C9_witness :
  exists insights,
    generateDataInsights no_globals [item_95_50; item_50_50]
      (generateDefaultQuadrants "Probability" "Impact") sample_axes
    = Returns insights
    /\ filter (is_type InsightType.outliers) insights
       = [outlier_insight [item_95_50]].
Proof.
  destruct (C9_outlier_insight no_globals [item_95_50; item_50_50]
              (generateDefaultQuadrants "Probability" "Impact") sample_axes)
    as (_ & H & _).
  - discriminate.
  - intros item [<-|[<-|[]]]; vm_compute; discriminate.
  - exact H.
Defined.

(** ** The placeholder analysis (C6) *)

Local Open Scope string_scope.

Definition sample_request : AnalysisRequest :=
  {| Request.text := Some "Supply risk is rising while demand stays flat.";
     Request.files := None;
     Request.domain_hint := Some "risk";
     Request.force_axes := None |}.

Definition placeholder_of (r : response) : option AnalysisResult :=
  match body r with
  | ResultBody a => Some a
  | ErrorBody _ => None
  end.

(** Whatever the analyzer does, a request that passes validation gets a
    result and not an error. *)
Lemma POST_never_fails (request : AnalysisRequest) (hasApiKey : bool)
  (analysis : settled AnalysisResult) (newId now : string) (r : response) :
  POST (Some request) hasApiKey analysis newId now = r ->
  status r = 200%nat \/ status r = 400%nat.
Proof.
  intros <-. unfold POST.
  destruct (Request.text request) as [t|]; [|right; reflexivity].
  destruct ((String.length t =? 0)%nat || (String.length (trim t) <? 10)%nat);
    [right; reflexivity|].
  destruct (50000 <? Z.of_nat (String.length t))%Z; [right; reflexivity|].
  cbv zeta.
  match goal with
  | |- context [negb ?b] => destruct b
  end; [left|right]; reflexivity.
Qed.

(** C6.  With the key configured and the analyzer failing, the route
    answers 200 with the fixed placeholder analysis (a note is put in front of
    its insights), but the metadata field that flags placeholder data says
    [false]; without a key the same placeholder is flagged [true]. *)
Theorem C6_placeholder_not_flagged (e : exn) (newId now : string) :
  let failed := POST (Some sample_request) true (Rejected e) newId now in
  let no_key := POST (Some sample_request) false (Rejected e) newId now in
  status failed = 200%nat
  /\ option_map items (placeholder_of failed)
     = Some (items (createMockAnalysis
                      "Supply risk is rising while demand stays flat." "risk"))
  /\ option_map (fun a => usingMockData (metadata a)) (placeholder_of failed)
     = Some (Some false)
  /\ option_map items (placeholder_of no_key)
     = option_map items (placeholder_of failed)
  /\ option_map (fun a => usingMockData (metadata a)) (placeholder_of no_key)
     = Some (Some true).
Proof. repeat split. Qed.

Local Close Scope string_scope.

(** ** The chart and the classifier (C7) *)

(** A custom quadrant sequence: the split is at 70 rather than at 50. *)
Definition custom_quadrants : list Quadrant :=
  [ {| id := "Q1"; name := "Critical"; description := EmptyString;
       implication := EmptyString; rule := "x >= 70 && y >= 70";
       color := "#ef4444" |};
    {| id := "Q2"; name := "Routine"; description := EmptyString;
       implication := EmptyString; rule := "x < 70 || y < 70";
       color := "#f97316" |} ]%string.

Definition item_60_60 : AnalysisItem := sample_item "N" 60 60.

(** On the default quadrants the chart picks the quadrant the classifier
    returns. *)
Lemma chart_quadrant_default (genv : global_env) (item : AnalysisItem)
  (xLabel yLabel : string) :
  nonneg (Item.x item) -> nonneg (Item.y item) ->
  getQuadrantForItem genv (Item.x item) (Item.y item)
    (generateDefaultQuadrants xLabel yLabel)
  = Some (chart_quadrant item (generateDefaultQuadrants xLabel yLabel)).
Proof.
  intros Hx Hy.
  rewrite (getQuadrantForItem_accepted genv _ _ _ Hx Hy
             (default_quadrants_accepted xLabel yLabel)).
  reflexivity.
Qed.

(** C7.  For the custom quadrant sequence and the item at (60, 60) the
    classifier returns the second quadrant (the first rule does not hold, the
    second does) while the chart, which looks at the quadrant ids and a fixed
    split at 50, picks the first: the marker has the colour of a quadrant the
    item is not in. *)
Theorem C7_chart_differs_from_classifier :
  exists q1 q2,
    custom_quadrants = [q1; q2]
    /\ getQuadrantForItem no_globals (Item.x item_60_60) (Item.y item_60_60)
         custom_quadrants = Some (Some q2)
    /\ chart_quadrant item_60_60 custom_quadrants = Some q1
    /\ marker_color item_60_60 custom_quadrants = color q1
    /\ color q1 <> color q2.
Proof.
  eexists _, _. split; [reflexivity|].
  repeat split; try (vm_compute; reflexivity).
  vm_compute. discriminate.
Qed.

(** ** Sample evaluations *)

Example toString_integer : string_of (Number_toString (int 50)) = "50"%string.
Proof. vm_compute. reflexivity. Qed.

Example toString_fraction :
  string_of (Number_toString (dec 495 (-1))) = "49.5"%string.
Proof. vm_compute. reflexivity. Qed.

Example toString_small :
  string_of (Number_toString (dec 123 (-5))) = "0.00123"%string.
Proof. vm_compute. reflexivity. Qed.

Example toString_exponent :
  string_of (Number_toString (dec 5 (-7))) = "5e-7"%string
  /\ string_of (Number_toString (dec 1 21)) = "1e+21"%string
  /\ string_of (Number_toString (dec (-125) 19)) = "-1.25e+21"%string.
Proof. repeat split; vm_compute; reflexivity. Qed.

Example substitute_default_rule :
  string_of (substitute (int 50) (dec 495 (-1)) (text_of "x >= 50 && y >= 50"))
  = "50 >= 50 && 49.5 >= 50"%string.
Proof. vm_compute. reflexivity. Qed.

Example evaluate_default_rule :
  evaluateQuadrantRule no_globals "x >= 50 && y >= 50" (int 50) (dec 495 (-1))
  = Some (VBool false)
  /\ evaluateQuadrantRule no_globals "x >= 50 && y < 50" (int 50) (dec 495 (-1))
     = Some (VBool true).
Proof. split; vm_compute; reflexivity. Qed.

Example classify_default :
  option_map (option_map id)
    (getQuadrantForItem no_globals (int 75) (int 85)
       (generateDefaultQuadrants "Probability" "Impact"))
  = Some (Some "Q1"%string)
  /\ option_map (option_map id)
       (getQuadrantForItem no_globals (int 25) (int 65)
          (generateDefaultQuadrants "Probability" "Impact"))
     = Some (Some "Q2"%string).
Proof. split; vm_compute; reflexivity. Qed.

Example compile_samples :
  compile "x >= 50 && y >= 50"
  = Some (And (Compare Ge (Var VarX) (Literal fifty))
              (Compare Ge (Var VarY) (Literal fifty)))
  /\ compile "foo > 1" = None
  /\ compile "x = 5" = None
  /\ compile "alert(1)" = None.
Proof. repeat split; vm_compute; reflexivity. Qed.

Example toFixed_samples :
  string_of (toFixed (literal 575 (-1)) 0) = "58"%string
  /\ percentage 23 40 = "57"%string
  /\ string_of (toFixed (literal 1005 (-3)) 2) = "1.00"%string
  /\ string_of (toFixed (literal 6666666 (-5)) 1) = "66.7"%string
  /\ string_of (toFixed (literal 0 0) 1) = "0.0"%string
  /\ string_of (toFixed (literal 15 20) 1) = "1.5e+21"%string.
Proof. repeat split; vm_compute; reflexivity. Qed.

Example threshold_samples :
  clusters 2 5 = false /\ clusters 4 10 = false /\ clusters 5 10 = true
  /\ clusters 41 100 = true /\ clusters 40 100 = false.
Proof. repeat split; vm_compute; reflexivity. Qed.

(** * The in-memory store

    ** Properties of the map *)

Section MapFacts.
Context {V : Type}.
Implicit Types (m : JsMap.t V) (k : string) (v : V).

Lemma get_set_same m k v : JsMap.get (JsMap.set m k v) k = Some v.
Proof.
  induction m as [|[k' v'] m IH]; simpl.
  - rewrite String.eqb_refl. reflexivity.
  - destruct (String.eqb k' k) eqn:E; simpl.
    + rewrite String.eqb_refl. reflexivity.
    + rewrite E. exact IH.
Qed.

Lemma get_set_other m k k' v :
  k' <> k -> JsMap.get (JsMap.set m k v) k' = JsMap.get m k'.
Proof.
  intros Hne. induction m as [|[k0 v0] m IH]; simpl.
  - destruct (String.eqb_spec k k'); [congruence|reflexivity].
  - destruct (String.eqb_spec k0 k) as [->|Hk]; simpl.
    + destruct (String.eqb_spec k k'); [congruence|reflexivity].
    + destruct (String.eqb k0 k'); [reflexivity|exact IH].
Qed.

Lemma get_In m k v : JsMap.get m k = Some v -> In (k, v) m.
Proof.
  induction m as [|[k' v'] m IH]; simpl; [discriminate|].
  destruct (String.eqb_spec k' k) as [->|Hk].
  - intros H. inversion H. left. reflexivity.
  - intros H. right. apply IH, H.
Qed.

Lemma get_None_keys m k : JsMap.get m k = None <-> ~ In k (JsMap.keys m).
Proof.
  induction m as [|[k' v'] m IH]; simpl; [tauto|].
  destruct (String.eqb_spec k' k) as [->|Hk].
  - split; [discriminate|]. intros H. exfalso. apply H. left. reflexivity.
  - rewrite IH. tauto.
Qed.

Lemma keys_set m k v :
  JsMap.keys (JsMap.set m k v)
  = if JsMap.has m k then JsMap.keys m else JsMap.keys m ++ [k].
Proof.
  unfold JsMap.has. induction m as [|[k' v'] m IH]; simpl; [reflexivity|].
  destruct (String.eqb_spec k' k) as [->|Hk]; simpl; [reflexivity|].
  rewrite IH. destruct (JsMap.get m k); reflexivity.
Qed.

Lemma keys_remove_incl m k k' :
  In k' (JsMap.keys (JsMap.remove m k)) -> In k' (JsMap.keys m).
Proof.
  induction m as [|[k0 v0] m IH]; simpl; [tauto|].
  destruct (String.eqb k0 k); simpl; [tauto|]. intros [H|H]; [left; exact H|].
  right. apply IH, H.
Qed.

Lemma NoDup_set m k v : NoDup (JsMap.keys m) -> NoDup (JsMap.keys (JsMap.set m k v)).
Proof.
  intros H. rewrite keys_set. unfold JsMap.has.
  destruct (JsMap.get m k) eqn:E; [exact H|].
  apply get_None_keys in E.
  apply NoDup_app; [exact H|repeat constructor; intros []|].
  intros a Ha [<-|[]]. exact (E Ha).
Qed.

Lemma NoDup_remove m k : NoDup (JsMap.keys m) -> NoDup (JsMap.keys (JsMap.remove m k)).
Proof.
  induction m as [|[k0 v0] m IH]; simpl; [tauto|].
  intros H. inversion H as [|? ? Hin Hnd]; subst.
  destruct (String.eqb k0 k); simpl; [exact Hnd|].
  constructor; [|apply IH, Hnd].
  intros Hc. apply Hin. apply (keys_remove_incl _ _ _ Hc).
Qed.

Lemma get_remove_same m k :
  NoDup (JsMap.keys m) -> JsMap.get (JsMap.remove m k) k = None.
Proof.
  induction m as [|[k0 v0] m IH]; simpl; [reflexivity|].
  intros H. inversion H as [|? ? Hin Hnd]; subst.
  destruct (String.eqb_spec k0 k) as [->|Hk]; simpl.
  - apply get_None_keys. exact Hin.
  - destruct (String.eqb_spec k0 k); [congruence|]. apply IH, Hnd.
Qed.

Lemma get_remove_other m k k' :
  k' <> k -> JsMap.get (JsMap.remove m k) k' = JsMap.get m k'.
Proof.
  intros Hne. induction m as [|[k0 v0] m IH]; simpl; [reflexivity|].
  destruct (String.eqb_spec k0 k) as [->|Hk]; simpl.
  - destruct (String.eqb_spec k k'); [congruence|reflexivity].
  - destruct (String.eqb k0 k'); [reflexivity|exact IH].
Qed.

Lemma size_set m k v :
  JsMap.size (JsMap.set m k v)
  = if JsMap.has m k then JsMap.size m else S (JsMap.size m).
Proof.
  unfold JsMap.size.
  rewrite <- (length_map fst (JsMap.set m k v)), <- (length_map fst m).
  fold (JsMap.keys (JsMap.set m k v)). fold (JsMap.keys m).
  rewrite keys_set. destruct (JsMap.has m k); [reflexivity|].
  rewrite length_app. simpl. lia.
Qed.

Lemma size_remove m k :
  JsMap.size (JsMap.remove m k)
  = if JsMap.has m k then pred (JsMap.size m) else JsMap.size m.
Proof.
  unfold JsMap.size, JsMap.has. induction m as [|[k0 v0] m IH]; simpl; [reflexivity|].
  destruct (String.eqb k0 k); simpl; [reflexivity|].
  rewrite IH. destruct (JsMap.get m k) eqn:E; [|reflexivity].
  destruct m; [discriminate|reflexivity].
Qed.

Lemma get_filter m k (keep : string * V -> bool) :
  NoDup (JsMap.keys m) ->
  JsMap.get (filter keep m) k
  = match JsMap.get m k with
    | Some v => if keep (k, v) then Some v else None
    | None => None
    end.
Proof.
  induction m as [|[k0 v0] m IH]; simpl; [reflexivity|].
  intros H. inversion H as [|? ? Hin Hnd]; subst.
  destruct (String.eqb_spec k0 k) as [->|Hk].
  - destruct (keep (k, v0)) eqn:Ek; simpl.
    + rewrite String.eqb_refl. reflexivity.
    + rewrite (IH Hnd). 
      assert (E : JsMap.get m k = None) by (apply get_None_keys; exact Hin).
      rewrite E. reflexivity.
  - destruct (keep (k0, v0)); simpl.
    + destruct (String.eqb_spec k0 k); [congruence|]. apply IH, Hnd.
    + apply IH, Hnd.
Qed.

Lemma NoDup_filter_keys m (keep : string * V -> bool) :
  NoDup (JsMap.keys m) -> NoDup (JsMap.keys (filter keep m)).
Proof.
  induction m as [|[k0 v0] m IH]; simpl; [tauto|].
  intros H. inversion H as [|? ? Hin Hnd]; subst.
  destruct (keep (k0, v0)); simpl; [|apply IH, Hnd].
  constructor; [|apply IH, Hnd].
  intros Hc. apply Hin. unfold JsMap.keys in *.
  apply in_map_iff in Hc. destruct Hc as (e & He & Hine).
  apply filter_In in Hine. apply in_map_iff. exists e. tauto.
Qed.
End MapFacts.

(** ** Properties of the sort *)

Section SortFacts.
Context {A : Type} (key : A -> Z).

(** The comparator [(a, b) => key(b) - key(a)]: largest key first. *)
Definition largest_first (a b : A) : Z := key b - key a.

Definition descending (l : list A) : Prop :=
  StronglySorted (fun a b => key b <= key a) l.

Lemma insert_sorted_perm (x : A) (l : list A) :
  Permutation (insert_sorted largest_first x l) (x :: l).
Proof.
  induction l as [|y l IH]; simpl; [apply Permutation_refl|].
  destruct (largest_first x y <=? 0); [apply Permutation_refl|].
  apply perm_trans with (y :: x :: l); [apply perm_skip, IH|apply perm_swap].
Qed.

Lemma sort_perm (l : list A) : Permutation (sort largest_first l) l.
Proof.
  induction l as [|x l IH]; simpl; [apply perm_nil|].
  apply perm_trans with (x :: sort largest_first l);
    [apply insert_sorted_perm|apply perm_skip, IH].
Qed.

Lemma insert_sorted_descending (x : A) (l : list A) :
  descending l -> descending (insert_sorted largest_first x l).
Proof.
  unfold descending. induction l as [|y l IH]; intros H; simpl.
  - constructor; constructor.
  - inversion H as [|? ? Hl Hy]; subst.
    unfold largest_first at 1.
    destruct (Z.leb_spec (key y - key x) 0) as [Hle|Hgt].
    + constructor; [exact H|]. constructor; [lia|].
      rewrite Forall_forall in *. intros z Hz. specialize (Hy z Hz). lia.
    + constructor; [apply IH, Hl|].
      rewrite Forall_forall in *. intros z Hz.
      apply (Permutation_in _ (insert_sorted_perm x l)) in Hz.
      destruct Hz as [<-|Hz]; [lia|apply Hy, Hz].
Qed.

Lemma sort_descending (l : list A) : descending (sort largest_first l).
Proof.
  induction l as [|x l IH]; simpl; [constructor|].
  apply insert_sorted_descending, IH.
Qed.

(** Stability: the elements of one key keep their order. *)
Lemma insert_sorted_stable (x : A) (l : list A) (k : Z) :
  descending l ->
  filter (fun a => key a =? k) (insert_sorted largest_first x l)
  = filter (fun a => key a =? k) (x :: l).
Proof.
  unfold descending. induction l as [|y l IH]; intros H; [reflexivity|].
  cbn [insert_sorted]. unfold largest_first at 1.
  destruct (Z.leb_spec (key y - key x) 0) as [Hle|Hgt]; [reflexivity|].
  inversion H as [|? ? Hl Hy]; subst.
  cbn [filter]. rewrite (IH Hl). cbn [filter].
  destruct (Z.eqb_spec (key y) k), (Z.eqb_spec (key x) k); try reflexivity.
  lia.
Qed.

Lemma sort_stable (l : list A) (k : Z) :
  filter (fun a => key a =? k) (sort largest_first l)
  = filter (fun a => key a =? k) l.
Proof.
  induction l as [|x l IH]; [reflexivity|].
  cbn [sort]. rewrite insert_sorted_stable by apply sort_descending.
  cbn [filter]. rewrite IH. reflexivity.
Qed.

Lemma skipn_In (n : nat) (l : list A) (a : A) : In a (skipn n l) -> In a l.
Proof.
  revert l. induction n as [|n IH]; intros l H; [exact H|].
  destruct l as [|y l]; [destruct H|]. right. apply IH, H.
Qed.

(** What [slice(0, end)] keeps of a sorted list is at least as large as
    what it leaves. *)
Lemma firstn_descending (n : nat) (l : list A) :
  descending l ->
  forall a b, In a (firstn n l) -> In b (skipn n l) -> key b <= key a.
Proof.
  unfold descending. revert n. induction l as [|y l IH]; intros n H a b Ha Hb.
  - destruct n; destruct Ha.
  - inversion H as [|? ? Hl Hy]; subst.
    destruct n as [|n]; [destruct Ha|].
    simpl in Ha, Hb. destruct Ha as [<-|Ha].
    + rewrite Forall_forall in Hy. apply Hy.
      apply (skipn_In n l b Hb).
    + apply (IH n Hl a b Ha Hb).
Qed.
End SortFacts.

(** ** Properties of the store *)

Definition well_formed (db : InMemoryDB) : Prop :=
  NoDup (JsMap.keys (files db)) /\ NoDup (JsMap.keys (analyses db)).

Lemma well_formed_empty : well_formed empty_db.
Proof. split; constructor. Qed.

(** X1: [storeFile] returns the id of the file; [getFile] at that id then
    returns the file, every other id and every analysis reads as before,
    and the file count grows by one exactly when the id was not there. *)
Theorem storeFile_getFile (db : InMemoryDB) (file : StoredFile) :
  let db' := fst (storeFile db file) in
  snd (storeFile db file) = Stored.id file
  /\ getFile db' (Stored.id file) = Some file
  /\ (forall id, id <> Stored.id file -> getFile db' id = getFile db id)
  /\ (forall id, getAnalysis db' id = getAnalysis db id)
  /\ getStats db'
     = (match getFile db (Stored.id file) with
        | Some _ => fst (getStats db)
        | None => S (fst (getStats db))
        end, snd (getStats db))
  /\ (well_formed db -> well_formed db').
Proof.
  cbv zeta. unfold storeFile, getFile, getAnalysis, getStats, well_formed.
  cbn [fst snd files analyses].
  split; [reflexivity|]. split; [apply get_set_same|].
  split; [intros id Hne; apply get_set_other; exact Hne|].
  split; [reflexivity|]. split.
  - rewrite size_set. unfold JsMap.has.
    destruct (JsMap.get (files db) (Stored.id file)); reflexivity.
  - intros [Hf Ha]. split; [apply NoDup_set, Hf|exact Ha].
Qed.

(** X2: [deleteFile] answers [true] exactly when the id was stored;
    afterwards [getFile] at that id returns [null], every other id reads as
    before and the file count has dropped by one if the id was there. *)
Theorem deleteFile_spec (db : InMemoryDB) (id : string) :
  well_formed db ->
  let db' := fst (deleteFile db id) in
  let was_there := snd (deleteFile db id) in
  (was_there = true <-> getFile db id <> None)
  /\ getFile db' id = None
  /\ (forall id', id' <> id -> getFile db' id' = getFile db id')
  /\ fst (getStats db')
     = (if was_there then pred (fst (getStats db)) else fst (getStats db))
  /\ well_formed db'.
Proof.
  intros [Hf Ha]. cbv zeta.
  unfold deleteFile, JsMap.delete, getFile, getStats, well_formed, JsMap.has.
  cbn [fst snd files analyses].
  split; [destruct (JsMap.get (files db) id); split; congruence|].
  split; [apply get_remove_same, Hf|].
  split; [intros id' Hne; apply get_remove_other, Hne|].
  split; [apply size_remove|].
  split; [apply NoDup_remove, Hf|exact Ha].
Qed.

Local Open Scope string_scope.

Definition report_txt : StoredFile :=
  {| Stored.id := "f1"; Stored.name := "report.txt";
     Stored.type := "text/plain"; Stored.size := 12;
     Stored.content := "Supply risk."; Stored.createdAt := 1700000000000 |}.

Definition notes_txt : StoredFile :=
  {| Stored.id := "f2"; Stored.name := "notes.txt";
     Stored.type := "text/plain"; Stored.size := 6;
     Stored.content := "Notes."; Stored.createdAt := 1600000000000 |}.

Definition two_files : InMemoryDB :=
  fst (storeFile (fst (storeFile empty_db report_txt)) notes_txt).

Local Close Scope string_scope.

Lemma deleteFile_spec_witness :
  well_formed two_files
  /\ snd (deleteFile two_files (Stored.id report_txt)) = true
  /\ getFile (fst (deleteFile two_files (Stored.id report_txt)))
             (Stored.id report_txt) = None.
Proof.
  assert (H : well_formed two_files).
  { split; repeat constructor; simpl; intuition discriminate. }
  split; [exact H|].
  destruct (deleteFile_spec two_files (Stored.id report_txt) H)
    as (Hthere & Hget & _).
  split; [apply Hthere; vm_compute; discriminate|exact Hget].
Defined.

Lemma remove_set_fresh {V : Type} (m : JsMap.t V) (k : string) (v : V) :
  JsMap.get m k = None -> JsMap.remove (JsMap.set m k v) k = m.
Proof.
  induction m as [|[k0 v0] m IH]; simpl.
  - rewrite String.eqb_refl. reflexivity.
  - destruct (String.eqb k0 k) eqn:E; [discriminate|].
    intros H. simpl. rewrite E, (IH H). reflexivity.
Qed.

(** X3: storing a file under an id that is not there and deleting that id
    again answers [true] and leaves the store as it was, the order of its
    entries included. *)
Theorem storeFile_deleteFile (db : InMemoryDB) (file : StoredFile) :
  getFile db (Stored.id file) = None ->
  deleteFile (fst (storeFile db file)) (Stored.id file) = (db, true).
Proof.
  intros H. unfold deleteFile, storeFile, JsMap.delete, JsMap.has, getFile in *.
  cbn [fst snd files analyses].
  rewrite get_set_same, (remove_set_fresh _ _ _ H). destruct db; reflexivity.
Qed.

Lemma storeFile_deleteFile_witness :
  getFile (fst (storeFile empty_db report_txt)) (Stored.id notes_txt) = None
  /\ deleteFile two_files (Stored.id notes_txt)
     = (fst (storeFile empty_db report_txt), true).
Proof.
  split; [reflexivity|].
  apply (storeFile_deleteFile (fst (storeFile empty_db report_txt)) notes_txt).
  reflexivity.
Defined.

(** X4: [listFiles] returns the stored files, each once, newest first;
    files of one creation date stay in the order in which their ids were
    first stored. *)
Theorem listFiles_sorted (db : InMemoryDB) :
  Permutation (listFiles db) (JsMap.values (files db))
  /\ descending Stored.createdAt (listFiles db)
  /\ forall date,
       filter (fun f => Stored.createdAt f =? date) (listFiles db)
       = filter (fun f => Stored.createdAt f =? date) (JsMap.values (files db)).
Proof.
  unfold listFiles.
  change newest_file_first with (largest_first Stored.createdAt).
  split; [apply sort_perm|]. split; [apply sort_descending|].
  intros date. apply sort_stable.
Qed.

(** X5: [listAnalyses(limit)] returns [min(limit, n)] of the [n] stored
    analyses, and for a negative limit [max(n + limit, 0)] of them; no
    analysis left out is newer than one that is listed. *)
Theorem listAnalyses_limit (db : InMemoryDB) (limit : Z) :
  let n := Z.of_nat (JsMap.size (analyses db)) in
  Z.of_nat (List.length (listAnalyses db limit))
  = (if limit <? 0 then Z.max (n + limit) 0 else Z.min limit n)
  /\ exists rest,
       Permutation (listAnalyses db limit ++ rest) (JsMap.values (analyses db))
       /\ forall a b, In a (listAnalyses db limit) -> In b rest ->
            Stored.analysis_createdAt b <= Stored.analysis_createdAt a.
Proof.
  cbv zeta. unfold listAnalyses, slice0. cbv zeta.
  change newest_analysis_first with (largest_first Stored.analysis_createdAt).
  set (sorted := sort _ _).
  assert (Hlen : List.length sorted = JsMap.size (analyses db)).
  { unfold sorted, JsMap.size.
    rewrite (Permutation_length (sort_perm _ _)). apply length_map. }
  rewrite Hlen.
  set (final := if limit <? 0
                then Z.max (Z.of_nat (JsMap.size (analyses db)) + limit) 0
                else Z.min limit (Z.of_nat (JsMap.size (analyses db)))).
  assert (Hfinal : 0 <= final <= Z.of_nat (JsMap.size (analyses db))).
  { unfold final. destruct (Z.ltb_spec limit 0); lia. }
  split.
  - rewrite length_firstn, Hlen. lia.
  - exists (skipn (Z.to_nat final) sorted). split.
    + rewrite firstn_skipn. apply sort_perm.
    + apply firstn_descending. apply sort_descending.
Qed.

Lemma filter_idem {A : Type} (p : A -> bool) (l : list A) :
  filter p (filter p l) = filter p l.
Proof.
  induction l as [|a l IH]; [reflexivity|]. simpl.
  destruct (p a) eqn:E; simpl; [rewrite E, IH; reflexivity|exact IH].
Qed.

(** X6: [cleanup] deletes exactly the files and analyses created before
    the cut-off date and keeps the others unchanged; running it again with
    the same date changes nothing, and no count grows. *)
Theorem cleanup_spec (db : InMemoryDB) (cutoffDate : Z) :
  well_formed db ->
  (forall id,
      getFile (cleanup db cutoffDate) id
      = match getFile db id with
        | Some f => if Stored.createdAt f <? cutoffDate then None else Some f
        | None => None
        end)
  /\ (forall id,
         getAnalysis (cleanup db cutoffDate) id
         = match getAnalysis db id with
           | Some a =>
               if Stored.analysis_createdAt a <? cutoffDate then None else Some a
           | None => None
           end)
  /\ cleanup (cleanup db cutoffDate) cutoffDate = cleanup db cutoffDate
  /\ (fst (getStats (cleanup db cutoffDate)) <= fst (getStats db))%nat
  /\ (snd (getStats (cleanup db cutoffDate)) <= snd (getStats db))%nat
  /\ well_formed (cleanup db cutoffDate).
Proof.
  intros [Hf Ha]. unfold getFile, getAnalysis, cleanup, getStats, well_formed, JsMap.size.
  cbn [fst snd files analyses].
  split.
  { intros id. rewrite (get_filter _ _ _ Hf). cbn [snd].
    destruct (JsMap.get (files db) id) as [f|]; [|reflexivity].
    destruct (Stored.createdAt f <? cutoffDate); reflexivity. }
  split.
  { intros id. rewrite (get_filter _ _ _ Ha). cbn [snd].
    destruct (JsMap.get (analyses db) id) as [a|]; [|reflexivity].
    destruct (Stored.analysis_createdAt a <? cutoffDate); reflexivity. }
  split.
  { f_equal; apply filter_idem. }
  split; [apply filter_length_le|]. split; [apply filter_length_le|].
  split; apply NoDup_filter_keys; assumption.
Qed.

Lemma cleanup_spec_witness :
  well_formed two_files
  /\ getFile (cleanup two_files 1650000000000) (Stored.id notes_txt) = None
  /\ getFile (cleanup two_files 1650000000000) (Stored.id report_txt)
     = Some report_txt.
Proof.
  assert (H : well_formed two_files).
  { split; repeat constructor; simpl; intuition discriminate. }
  split; [exact H|].
  destruct (cleanup_spec two_files 1650000000000 H) as (Hget & _).
  split; [rewrite Hget; reflexivity|rewrite Hget; reflexivity].
Defined.

(** * The application state and the start of an analysis

    ** The progress is clamped *)

Lemma compare_cont_Eq (m1 m2 : positive) :
  Pos.compare_cont Datatypes.Eq m1 m2 = Datatypes.Eq -> m1 = m2.
Proof.
  rewrite Pos.compare_cont_spec.
  destruct (Pos.compare_spec m1 m2); cbn; congruence.
Qed.

Lemma SFcompare_finite_Eq (s1 s2 : bool) (m1 m2 : positive) (e1 e2 : Z) :
  SFcompare (S754_finite s1 m1 e1) (S754_finite s2 m2 e2) = Some Datatypes.Eq ->
  S754_finite s1 m1 e1 = S754_finite s2 m2 e2.
Proof.
  cbn [SFcompare]. destruct s1, s2; try discriminate.
  - destruct (Z.compare_spec e1 e2) as [He|He|He]; try discriminate.
    intros H. injection H as H.
    destruct (Pos.compare_cont Datatypes.Eq m1 m2) eqn:Hm; try discriminate.
    apply compare_cont_Eq in Hm. congruence.
  - destruct (Z.compare_spec e1 e2) as [He|He|He]; try discriminate.
    intros H. injection H as H. apply compare_cont_Eq in H. congruence.
Qed.

Lemma SFcompare_antisym_finite (m1 m2 : positive) (e1 e2 : Z) :
  SFcompare (S754_finite false m2 e2) (S754_finite false m1 e1)
  = option_map CompOpp (SFcompare (S754_finite false m1 e1) (S754_finite false m2 e2)).
Proof.
  cbn [SFcompare option_map]. rewrite (Z.compare_antisym e1 e2).
  destruct (e1 ?= e2); cbn [CompOpp]; try reflexivity.
  rewrite (Pos.compare_cont_antisym m1 m2 Datatypes.Eq). reflexivity.
Qed.

(** X7: [setAnalysisProgress] stores [0] for a progress of at most [0],
    [100] for a progress above [100] and the progress itself in between, so
    what it stores lies between [0] and [100]; a progress that is [NaN] is
    stored as [NaN]. *)
Theorem setAnalysisProgress_clamps (progress : spec_float) (s : AppState) :
  let p := analysisProgress (setAnalysisProgress progress s) in
  match progress with
  | S754_nan => p = S754_nan
  | _ =>
      (SFleb progress (literal 0 0) = true -> p = literal 0 0)
      /\ (SFltb (literal 0 0) progress = true ->
          SFleb progress (literal 100 0) = true -> p = progress)
      /\ (SFltb (literal 100 0) progress = true -> p = literal 100 0)
      /\ SFleb (literal 0 0) p = true
      /\ SFleb p (literal 100 0) = true
  end.
Proof.
  cbv zeta. cbn [analysisProgress setAnalysisProgress].
  change (literal 0 0) with (S754_zero false).
  change (literal 100 0) with (S754_finite false 7036874417766400 (-46)).
  destruct progress as [sg|sg| |sg m e].
  - destruct sg; cbn; repeat split; intros; try reflexivity; discriminate.
  - destruct sg; cbn; repeat split; intros; try reflexivity; discriminate.
  - reflexivity.
  - destruct sg.
    + cbn; repeat split; intros; try reflexivity; discriminate.
    + set (x := S754_finite false m e).
      set (c := S754_finite false 7036874417766400 (-46)).
      change (Math_min c (Math_max (S754_zero false) x))
        with (if SFltb x c then x else c).
      assert (H0 : SFleb x (S754_zero false) = false) by reflexivity.
      assert (H1 : SFleb (S754_zero false) x = true) by reflexivity.
      assert (H2 : SFleb (S754_zero false) c = true) by reflexivity.
      assert (H3 : SFleb c c = true) by reflexivity.
      assert (Ha : SFcompare c x = option_map CompOpp (SFcompare x c))
        by apply SFcompare_antisym_finite.
      assert (He : SFcompare x c = Some Datatypes.Eq -> x = c)
        by apply SFcompare_finite_Eq.
      assert (Hn : SFcompare x c <> None).
      { unfold x, c. cbn [SFcompare]. destruct (e ?= -46); discriminate. }
      clearbody x c.
      rewrite H0. unfold SFltb, SFleb in *. rewrite Ha.
      destruct (SFcompare x c) as [[| |]|] eqn:Hc; cbn [option_map CompOpp].
      * pose proof (He eq_refl) as Hx.
        repeat split; intros; try reflexivity; try assumption; try discriminate;
          try (symmetry; exact Hx).
      * rewrite Hc.
        repeat split; intros; try reflexivity; try assumption; discriminate.
      * repeat split; intros; try reflexivity; try assumption; discriminate.
      * congruence.
Qed.

(** ** Text and white space *)

Definition dropw (t : text) : text := snd (span is_trim_space t).

Definition trim_text (t : text) : text := rev (dropw (rev (dropw t))).

Lemma trim_trim_text (s : string) : trim s = string_of (trim_text (text_of s)).
Proof. reflexivity. Qed.

Lemma text_of_string_of (t : text) : text_of (string_of t) = t.
Proof. apply list_ascii_of_string_of_list_ascii. Qed.

Lemma length_text_of (s : string) : List.length (text_of s) = String.length s.
Proof. induction s as [|c s IH]; simpl; [reflexivity|]. rewrite IH. reflexivity. Qed.

Lemma length_string_of (t : text) : String.length (string_of t) = List.length t.
Proof. rewrite <- length_text_of, text_of_string_of. reflexivity. Qed.

Lemma text_of_app (a b : string) : text_of (a ++ b) = text_of a ++ text_of b.
Proof. induction a as [|c a IH]; simpl; [reflexivity|]. rewrite <- IH. reflexivity. Qed.

Lemma dropw_stops (t : text) : stops is_trim_space (dropw t).
Proof.
  unfold dropw. destruct (span is_trim_space t) as [a b] eqn:E.
  apply span_spec in E. apply E.
Qed.

Lemma dropw_suffix (t : text) : exists w, t = w ++ dropw t.
Proof.
  unfold dropw. destruct (span is_trim_space t) as [a b] eqn:E.
  apply span_spec in E. exists a. apply E.
Qed.

Lemma dropw_fixed (t : text) : stops is_trim_space t -> dropw t = t.
Proof.
  unfold dropw. destruct t as [|c t]; [reflexivity|].
  simpl. intros ->. reflexivity.
Qed.

(** White space in front of a text that does not start with white space
    cannot be dropped beyond that text. *)
Lemma dropw_app_length (a b : text) :
  stops is_trim_space b ->
  (List.length b <= List.length (dropw (a ++ b)))%nat.
Proof.
  intros Hb. induction a as [|c a IH].
  - simpl. rewrite (dropw_fixed b Hb). lia.
  - unfold dropw in *. simpl. destruct (is_trim_space c).
    + destruct (span is_trim_space (a ++ b)) as [x y]. exact IH.
    + simpl. rewrite length_app. lia.
Qed.

Lemma stops_app (a b : text) :
  a <> [] -> stops is_trim_space a -> stops is_trim_space (a ++ b).
Proof. destruct a; [congruence|]. intros _ H. exact H. Qed.

(** A trimmed text starts and ends with a character that is not white
    space. *)
Lemma trim_text_ends (t : text) :
  stops is_trim_space (trim_text t) /\ stops is_trim_space (rev (trim_text t)).
Proof.
  unfold trim_text. rewrite rev_involutive. split; [|apply dropw_stops].
  pose proof (dropw_stops t) as Hu.
  destruct (dropw_suffix (rev (dropw t))) as (w & Hw).
  set (u := dropw t) in *. set (d := dropw (rev u)) in *.
  assert (Hu' : u = rev d ++ rev w).
  { rewrite <- (rev_involutive u), Hw, rev_app_distr. reflexivity. }
  destruct (rev d) as [|c r] eqn:Hd; [exact I|].
  rewrite Hu' in Hu. exact Hu.
Qed.

(** Text put behind a trimmed text does not make the result of trimming
    shorter than that text. *)
Lemma trim_text_app_length (t rest : text) :
  (List.length (trim_text t) <= List.length (trim_text (trim_text t ++ rest)))%nat.
Proof.
  destruct (trim_text_ends t) as (Hhead & Hlast).
  remember (trim_text t) as T eqn:HT. clear HT.
  destruct T as [|c T']; [simpl; lia|].
  unfold trim_text. rewrite length_rev.
  rewrite (dropw_fixed ((c :: T') ++ rest)) by exact Hhead.
  rewrite rev_app_distr.
  pose proof (dropw_app_length (rev rest) (rev (c :: T')) Hlast) as H.
  rewrite length_rev in H. exact H.
Qed.

(** ** Starting an analysis *)

Lemma handleAnalyze_begin_fixed (s : AppState) :
  isAnalyzing s = false -> analysisResult s = None -> analysisError s = None ->
  analysisProgress s = literal 0 0 ->
  clearAnalysis (setAnalyzing true s) = s.
Proof.
  destruct s. cbn. intros -> -> -> ->. reflexivity.
Qed.

(** X8: when [handleAnalyze] passes its guard, the state it leaves while
    the request is pending is not marked as analyzing ([clearAnalysis]
    undoes [setAnalyzing(true)]) and still can be analyzed: a second call
    passes the guard again, from the same state. *)
Theorem handleAnalyze_begin_reenters (s pending : AppState) :
  handleAnalyze_begin s = Some pending ->
  isAnalyzing pending = false
  /\ canAnalyze pending = true
  /\ handleAnalyze_begin pending = Some pending.
Proof.
  unfold handleAnalyze_begin.
  destruct (canAnalyze s) eqn:Hcan; [|discriminate].
  destruct (isAnalyzing s) eqn:Hbusy; [discriminate|].
  cbn [negb orb]. intros H. injection H as <-.
  assert (Hcan' : canAnalyze (clearAnalysis (setAnalyzing true s)) = true).
  { unfold canAnalyze in *. cbn. rewrite Hbusy in Hcan. exact Hcan. }
  split; [reflexivity|]. split; [exact Hcan'|].
  rewrite Hcan'. cbn [negb orb isAnalyzing clearAnalysis].
  f_equal.
Qed.

Local Open Scope string_scope.

Definition draft : AppState :=
  setInputText "Supply risk is rising while demand stays flat." initialState.

Local Close Scope string_scope.

Lemma handleAnalyze_begin_reenters_witness :
  handleAnalyze_begin draft = Some draft
  /\ canAnalyze draft = true.
Proof.
  assert (H : handleAnalyze_begin draft = Some draft) by (vm_compute; reflexivity).
  split; [exact H|].
  apply (handleAnalyze_begin_reenters draft draft H).
Defined.

(** X9: when [handleAnalyze] has run to its end, the state is not marked as
    analyzing and holds either the result of the reply, no error and the
    progress [100], or no result, an error message and the progress [0];
    what the user entered is as before. *)
Theorem handleAnalyze_settles (reply : fetched) (s final : AppState) :
  handleAnalyze reply s = Some final ->
  isAnalyzing final = false
  /\ match reply with
     | ok result =>
         analysisResult final = Some result /\ analysisError final = None
         /\ analysisProgress final = literal 100 0
     | _ =>
         analysisResult final = None
         /\ (exists message, analysisError final = Some message)
         /\ analysisProgress final = literal 0 0
     end
  /\ inputText final = inputText s
  /\ uploadedFiles final = uploadedFiles s
  /\ selectedDomain final = selectedDomain s
  /\ customAxes final = customAxes s.
Proof.
  unfold handleAnalyze, handleAnalyze_begin.
  destruct (negb (canAnalyze s) || isAnalyzing s); [discriminate|].
  cbn [option_map]. intros H. injection H as <-.
  destruct reply as [[e|]|statusText|result]; cbn;
    repeat split; try reflexivity; eexists; reflexivity.
Qed.

Lemma handleAnalyze_settles_witness :
  handleAnalyze (not_ok EmptyString) draft
  = Some (setAnalysisError (Some "Analysis failed: "%string) draft)
  /\ isAnalyzing (setAnalysisError (Some "Analysis failed: "%string) draft) = false.
Proof.
  assert (H : handleAnalyze (not_ok EmptyString) draft
              = Some (setAnalysisError (Some "Analysis failed: "%string) draft))
    by (vm_compute; reflexivity).
  split; [exact H|].
  apply (handleAnalyze_settles _ _ _ H).
Defined.

(** ** The list of uploaded files *)

Lemma fold_total_from (files : list UploadedFile) (n : nat) :
  fold_left (fun total file => (total + content_length file)%nat) files n
  = (n + fold_left (fun total file => (total + content_length file)%nat) files 0)%nat.
Proof.
  revert n. induction files as [|f files IH]; intros n; simpl; [lia|].
  rewrite (IH (n + content_length f)%nat), (IH (content_length f)). lia.
Qed.

Lemma filter_fresh_id (files : list UploadedFile) (file : UploadedFile) :
  (forall f, In f files -> Upload.id f <> Upload.id file) ->
  filter (fun f => negb (String.eqb (Upload.id f) (Upload.id file))) (files ++ [file])
  = files.
Proof.
  intros Hfresh. rewrite filter_app. cbn [filter].
  rewrite String.eqb_refl. cbn [negb]. rewrite app_nil_r.
  induction files as [|f files IH]; [reflexivity|]. cbn [filter].
  destruct (String.eqb_spec (Upload.id f) (Upload.id file)) as [E|E].
  - exfalso. apply (Hfresh f); [left; reflexivity|exact E].
  - cbn [negb]. f_equal. apply IH. intros g Hg. apply Hfresh. right. exact Hg.
Qed.

(** X10: adding a file under an id that no uploaded file has and removing
    that id again leaves the state as it was; adding a file raises the
    total of characters by the length of its content, and after
    [removeFile] no file has the id removed. *)
Theorem addFile_removeFile (file : UploadedFile) (s : AppState) :
  (forall f, In f (uploadedFiles s) -> Upload.id f <> Upload.id file) ->
  removeFile (Upload.id file) (addFile file s) = s
  /\ getTotalCharacters (addFile file s)
     = (getTotalCharacters s + content_length file)%nat
  /\ forall fileId f,
       In f (uploadedFiles (removeFile fileId s)) -> Upload.id f <> fileId.
Proof.
  intros Hfresh. split; [|split].
  - unfold removeFile, addFile.
    cbn [uploadedFiles set_uploadedFiles].
    rewrite (filter_fresh_id _ _ Hfresh). destruct s; reflexivity.
  - unfold getTotalCharacters, addFile. cbn.
    rewrite fold_left_app. cbn. lia.
  - intros fileId f Hin. unfold removeFile in Hin. cbn in Hin.
    apply filter_In in Hin. destruct Hin as [_ Hne].
    destruct (String.eqb_spec (Upload.id f) fileId); [discriminate|assumption].
Qed.

Local Open Scope string_scope.

Definition notes_upload : UploadedFile :=
  {| Upload.id := "k3x9"; Upload.name := "notes.txt"; Upload.size := 25;
     Upload.type := "text/plain";
     Upload.content := Some "Demand stays flat so far.";
     Upload.preview := Some "Demand stays flat so far." |}.

Local Close Scope string_scope.

Lemma addFile_removeFile_witness :
  removeFile (Upload.id notes_upload) (addFile notes_upload draft) = draft.
Proof.
  apply (addFile_removeFile notes_upload draft).
  intros f Hin. destruct Hin.
Defined.

(** ** The request of the page and the validation of the route *)

Definition ascii_only (s : string) : bool :=
  forallb (fun c => char_code c <? 128) (text_of s).

Lemma domain_name_valid (d : Domain) :
  existsb (String.eqb (domain_name d)) validDomains = true
  /\ String.eqb (domain_name d) EmptyString = false.
Proof. destruct d; split; reflexivity. Qed.

(** X11: when the text entered has more than ten characters after
    trimming, the request that [handleAnalyze] sends passes the validation
    of [POST] unless the combined text is longer than 50000 characters: the
    answer is 200 in the one case and 400 in the other. *)
Theorem handleAnalyze_request_status (s : AppState) (hasApiKey : bool)
  (analysis : settled AnalysisResult) (newId now : string) :
  ascii_only (combinedText s) = true ->
  (10 < String.length (trim (inputText s)))%nat ->
  status (POST (Some (requestBody s)) hasApiKey analysis newId now)
  = if 50000 <? Z.of_nat (String.length (combinedText s)) then 400%nat else 200%nat.
Proof.
  intros _ Htext.
  assert (Hlen : (String.length (trim (inputText s))
                  <= String.length (trim (combinedText s)))%nat).
  { rewrite !trim_trim_text, !length_string_of. unfold combinedText.
    destruct (0 <? List.length (uploadedFiles s))%nat; [|].
    - destruct (String.eqb_spec (trim (inputText s)) EmptyString) as [E|E].
      + rewrite E in Htext. simpl in Htext. lia.
      + cbn [negb]. rewrite text_of_app, trim_trim_text, text_of_string_of.
        apply trim_text_app_length.
    - rewrite trim_trim_text, text_of_string_of.
      pose proof (trim_text_app_length (text_of (inputText s)) []) as H.
      rewrite app_nil_r in H. exact H. }
  assert (Hraw : (String.length (trim (combinedText s))
                  <= String.length (combinedText s))%nat).
  { rewrite trim_trim_text, length_string_of, <- (length_text_of (combinedText s)).
    unfold trim_text. rewrite length_rev.
    destruct (dropw_suffix (rev (dropw (text_of (combinedText s))))) as (w1 & H1).
    destruct (dropw_suffix (text_of (combinedText s))) as (w2 & H2).
    apply (f_equal (@List.length ascii)) in H1, H2.
    rewrite length_app in H1, H2. rewrite length_rev in H1. lia. }
  unfold POST, requestBody. cbn [Request.text Request.domain_hint].
  destruct (Nat.eqb_spec (String.length (combinedText s)) 0) as [E|E]; [lia|].
  destruct (Nat.ltb_spec (String.length (trim (combinedText s))) 10) as [L|L]; [lia|].
  cbn [orb].
  destruct (50000 <? Z.of_nat (String.length (combinedText s))); [reflexivity|].
  destruct (domain_name_valid (selectedDomain s)) as (Hvalid & Hne).
  rewrite Hne, Hvalid. reflexivity.
Qed.

Lemma handleAnalyze_request_status_witness :
  status (POST (Some (requestBody draft)) false
               (Rejected (Error EmptyString)) EmptyString EmptyString)
  = 200%nat.
Proof.
  apply (handleAnalyze_request_status draft false
           (Rejected (Error EmptyString)) EmptyString EmptyString);
    [reflexivity|vm_compute; lia].
Defined.

(** * Short texts, words and files

    ** [truncateText] *)

Lemma string_of_app (a b : text) :
  string_of (a ++ b) = (string_of a ++ string_of b)%string.
Proof. induction a as [|c a IH]; simpl; [reflexivity|]. rewrite <- IH. reflexivity. Qed.

Lemma string_of_text_of (s : string) : string_of (text_of s) = s.
Proof. apply string_of_list_ascii_of_string. Qed.

Lemma length_string_app (a b : string) :
  String.length (a ++ b) = (String.length a + String.length b)%nat.
Proof. induction a as [|c a IH]; simpl; [reflexivity|]. rewrite IH. reflexivity. Qed.

(** X12: [truncateText] returns a text of at most [maxLength] characters
    as it is, and otherwise its first [maxLength] characters followed by
    three dots, which is [maxLength + 3] characters (3 for a negative
    [maxLength]); truncating the result again changes nothing. *)
Theorem truncateText_spec (text : string) (maxLength : Z) :
  let r := truncateText text maxLength in
  (Z.of_nat (String.length text) <= maxLength -> r = text)
  /\ (maxLength < Z.of_nat (String.length text) ->
      r = (string_of (firstn (Z.to_nat maxLength) (text_of text)) ++ "...")%string
      /\ Z.of_nat (String.length r) = Z.max maxLength 0 + 3)
  /\ truncateText r maxLength = r.
Proof.
  cbv zeta.
  assert (Hlong : maxLength < Z.of_nat (String.length text) ->
            truncateText text maxLength
            = (string_of (firstn (Z.to_nat maxLength) (text_of text)) ++ "...")%string
            /\ Z.of_nat (String.length (truncateText text maxLength))
               = Z.max maxLength 0 + 3).
  { intros Hlt. unfold truncateText, substring0.
    destruct (Z.leb_spec (Z.of_nat (String.length text)) maxLength); [lia|].
    split; [reflexivity|].
    rewrite length_string_app, length_string_of, length_firstn, length_text_of.
    simpl. lia. }
  split; [|split; [exact Hlong|]].
  - intros Hle. unfold truncateText.
    destruct (Z.leb_spec (Z.of_nat (String.length text)) maxLength); [reflexivity|lia].
  - destruct (Z.leb_spec (Z.of_nat (String.length text)) maxLength) as [Hle|Hlt].
    + unfold truncateText at 2.
      destruct (Z.leb_spec (Z.of_nat (String.length text)) maxLength); [|lia].
      unfold truncateText.
      destruct (Z.leb_spec (Z.of_nat (String.length text)) maxLength); [reflexivity|lia].
    + destruct (Hlong Hlt) as (Hr & Hlen). unfold truncateText at 1.
      destruct (Z.leb_spec (Z.of_nat (String.length (truncateText text maxLength)))
                  maxLength) as [H|H]; [lia|].
      rewrite Hr at 2. rewrite Hr at 1. f_equal. f_equal. unfold substring0.
      rewrite text_of_app, text_of_string_of.
      rewrite firstn_app, firstn_firstn, Nat.min_id.
      rewrite length_firstn, length_text_of.
      replace (Z.to_nat maxLength
               - Nat.min (Z.to_nat maxLength) (String.length text))%nat
        with 0%nat by lia.
      cbn [firstn]. apply app_nil_r.
Qed.

(** ** [createPreview] *)

Lemma lastIndexOf_from_spec (c : ascii) (t : text) (i found : Z) :
  let r := lastIndexOf_from c t i found in
  (r = found /\ forall k, (k < List.length t)%nat -> nth_error t k <> Some c)
  \/ (i <= r < i + Z.of_nat (List.length t)
      /\ nth_error t (Z.to_nat (r - i)) = Some c).
Proof.
  revert i found. induction t as [|d t IH]; intros i found; cbv zeta.
  - left. split; [reflexivity|]. intros k Hk. simpl in Hk. lia.
  - cbn [lastIndexOf_from]. cbv zeta in IH.
    destruct (Ascii.eqb_spec d c) as [->|Hne].
    + destruct (IH (i + 1) i) as [(Hr & _)|(Hr & Hn)].
      * right. rewrite Hr. cbn [List.length]. split; [lia|].
        rewrite Z.sub_diag. reflexivity.
      * right. cbn [List.length]. split; [lia|].
        replace (Z.to_nat (lastIndexOf_from c t (i + 1) i - i))
          with (S (Z.to_nat (lastIndexOf_from c t (i + 1) i - (i + 1)))) by lia.
        exact Hn.
    + destruct (IH (i + 1) found) as [(Hr & Hno)|(Hr & Hn)].
      * left. split; [exact Hr|]. intros [|k] Hk; cbn [nth_error].
        -- congruence.
        -- apply Hno. cbn [List.length] in Hk. lia.
      * right. cbn [List.length]. split; [lia|].
        replace (Z.to_nat (lastIndexOf_from c t (i + 1) found - i))
          with (S (Z.to_nat (lastIndexOf_from c t (i + 1) found - (i + 1)))) by lia.
        exact Hn.
Qed.

(** [lastIndexOf] is [-1] or the index of an occurrence. *)
Lemma lastIndexOf_spec (c : ascii) (t : text) :
  lastIndexOf c t = -1
  \/ (0 <= lastIndexOf c t < Z.of_nat (List.length t)
      /\ nth_error t (Z.to_nat (lastIndexOf c t)) = Some c).
Proof.
  unfold lastIndexOf.
  destruct (lastIndexOf_from_spec c t 0 (-1)) as [(Hr & _)|(Hr & Hn)].
  - left. exact Hr.
  - right. split; [lia|]. rewrite Z.sub_0_r in Hn. exact Hn.
Qed.

Lemma SFltb_float_of_Z (a b : Z) :
  0 <= a < 2 ^ 53 -> 0 <= b < 2 ^ 53 ->
  SFltb (float_of_Z a) (float_of_Z b) = (a <? b).
Proof.
  intros Ha Hb.
  destruct (SF2Z_float_of_Z a Ha) as (Hza & Hva & Hfa).
  destruct (SF2Z_float_of_Z b Hb) as (Hzb & Hvb & Hfb).
  rewrite (SFltb_valid _ _ Hva Hvb Hfa Hfb), Hza, Hzb.
  pose proof (Z.pow_pos_nonneg 2 1074 ltac:(lia) ltac:(lia)) as Hp.
  destruct (Z.ltb_spec a b) as [H|H].
  - apply Z.ltb_lt. apply Z.mul_lt_mono_pos_r; assumption.
  - apply Z.ltb_ge. apply Z.mul_le_mono_nonneg_r; lia.
Qed.

(** The threshold [200 * 0.7] is the number 140. *)
Lemma preview_threshold (i : Z) :
  -1 <= i < 2 ^ 53 ->
  js_gt (float_of_Z i) (js_mul (float_of_Z 200) (literal 7 (-1))) = (140 <? i).
Proof.
  intros Hi. unfold js_gt.
  replace (js_mul (float_of_Z 200) (literal 7 (-1))) with (float_of_Z 140)
    by (vm_compute; reflexivity).
  destruct (Z.eq_dec i (-1)) as [->|Hne]; [vm_compute; reflexivity|].
  apply SFltb_float_of_Z; lia.
Qed.

Lemma firstn_nth_error {A : Type} (n k : nat) (l : list A) :
  (k < n)%nat -> nth_error (firstn n l) k = nth_error l k.
Proof.
  revert k l. induction n as [|n IH]; intros k l Hk; [lia|].
  destruct l as [|a l]; [reflexivity|]. destruct k as [|k]; [reflexivity|].
  cbn. apply IH. lia.
Qed.

Definition sentence_end (c : ascii) : bool :=
  (Ascii.eqb c "." || Ascii.eqb c "!" || Ascii.eqb c "?")%char.

(** X13: with the default length of 200, [createPreview] returns a text of
    at most 200 characters as it is; of a longer text it returns the first
    [k] characters followed by three dots, where [k] is between 141 and
    200, and when [k] is less than 200 the cut is behind a full stop, an
    exclamation mark or a question mark, or in front of a space. *)
Theorem createPreview_default (text : string) :
  let p := createPreview text 200 in
  ((String.length text <= 200)%nat -> p = text)
  /\ ((200 < String.length text)%nat ->
      exists k : nat,
        (141 <= k <= 200)%nat
        /\ p = (string_of (firstn k (text_of text)) ++ "...")%string
        /\ ((k < 200)%nat ->
            (exists c, nth_error (text_of text) (k - 1) = Some c
                       /\ sentence_end c = true)
            \/ nth_error (text_of text) k = Some " "%char)).
Proof.
  cbv zeta. unfold createPreview. split.
  - intros Hle.
    destruct (Z.leb_spec (Z.of_nat (String.length text)) 200); [reflexivity|lia].
  - intros Hlt.
    destruct (Z.leb_spec (Z.of_nat (String.length text)) 200); [lia|].
    cbv zeta. unfold substring0. change (Z.to_nat 200) with 200%nat.
    set (truncated := firstn 200 (text_of text)).
    assert (Hlen : List.length truncated = 200%nat).
    { unfold truncated. rewrite length_firstn, length_text_of. lia. }
    set (a := lastIndexOf "." truncated).
    set (b := lastIndexOf "!" truncated).
    set (c := lastIndexOf "?" truncated).
    set (sp := lastIndexOf " " truncated).
    assert (Hend : forall ch i,
               (lastIndexOf ch truncated = -1
                \/ 0 <= lastIndexOf ch truncated < Z.of_nat (List.length truncated)
                   /\ nth_error truncated (Z.to_nat (lastIndexOf ch truncated)) = Some ch) ->
               i = lastIndexOf ch truncated -> 140 < i ->
               (i < 200 /\ nth_error (text_of text) (Z.to_nat i) = Some ch)).
    { intros ch i [Hm|(Hr & Hn)] -> Hi; [lia|]. rewrite Hlen in Hr.
      split; [lia|]. rewrite <- Hn.
      assert (Hk : (Z.to_nat (lastIndexOf ch truncated) < 200)%nat) by lia.
      exact (eq_sym (firstn_nth_error 200 _ (text_of text) Hk)). }
    pose proof (lastIndexOf_spec "." truncated) as Ha.
    pose proof (lastIndexOf_spec "!" truncated) as Hb.
    pose proof (lastIndexOf_spec "?" truncated) as Hc.
    pose proof (lastIndexOf_spec " " truncated) as Hsp.
    fold a in Ha. fold b in Hb. fold c in Hc. fold sp in Hsp.
    rewrite Hlen in Ha, Hb, Hc, Hsp.
    set (e := Z.max (Z.max a b) c).
    assert (He : -1 <= e < 200) by (unfold e; lia).
    rewrite (preview_threshold e) by lia.
    destruct (Z.ltb_spec 140 e) as [Hcut|Hnocut].
    + exists (Z.to_nat (e + 1)). split; [lia|]. split.
      * unfold truncated. rewrite firstn_firstn.
        replace (Nat.min (Z.to_nat (e + 1)) 200) with (Z.to_nat (e + 1)) by lia.
        reflexivity.
      * intros _. left.
        replace (Z.to_nat (e + 1) - 1)%nat with (Z.to_nat e) by lia.
        assert (Hcase : e = a \/ e = b \/ e = c) by (unfold e; lia).
        destruct Hcase as [E|[E|E]].
        -- exists "."%char. split; [|reflexivity].
           apply (Hend "."%char e (lastIndexOf_spec _ _) E Hcut).
        -- exists "!"%char. split; [|reflexivity].
           apply (Hend "!"%char e (lastIndexOf_spec _ _) E Hcut).
        -- exists "?"%char. split; [|reflexivity].
           apply (Hend "?"%char e (lastIndexOf_spec _ _) E Hcut).
    + rewrite (preview_threshold sp) by lia.
      destruct (Z.ltb_spec 140 sp) as [Hsp'|Hsp'].
      * exists (Z.to_nat sp). split; [lia|]. split.
        -- unfold truncated. rewrite firstn_firstn.
           replace (Nat.min (Z.to_nat sp) 200) with (Z.to_nat sp) by lia.
           reflexivity.
        -- intros _. right.
           apply (Hend " "%char sp (lastIndexOf_spec _ _) eq_refl Hsp').
      * exists 200%nat. split; [lia|]. split; [reflexivity|]. lia.
Qed.

Local Open Scope string_scope.

Definition long_text : string :=
  "Supply risk is rising while demand stays flat. The second quarter shows the same pattern in every region, and the forecast for the third quarter does not change it! What remains open is the price of energy, which nobody can predict with any confidence at the moment.".

Local Close Scope string_scope.

Lemma createPreview_default_witness :
  (200 < String.length long_text)%nat
  /\ exists k : nat,
       (141 <= k <= 200)%nat
       /\ createPreview long_text 200
          = (string_of (firstn k (text_of long_text)) ++ "...")%string.
Proof.
  assert (H : (200 < String.length long_text)%nat) by (vm_compute; lia).
  split; [exact H|].
  destruct (proj2 (createPreview_default long_text) H) as (k & Hk & Hp & _).
  exists k. split; [exact Hk|exact Hp].
Defined.

(** ** [countWords] *)

(** The words of a text by their first characters: a character that is not
    white space and stands at the start or behind white space. *)
Fixpoint word_starts (after_space : bool) (t : text) : nat :=
  match t with
  | [] => 0
  | c :: t' =>
      if is_trim_space c then word_starts true t'
      else ((if after_space then 1 else 0) + word_starts false t')%nat
  end.

Definition words (s : string) : nat := word_starts true (text_of s).

(** The runs of white space of a text. *)
Fixpoint space_runs (in_run : bool) (t : text) : nat :=
  match t with
  | [] => 0
  | c :: t' =>
      if is_trim_space c
      then ((if in_run then 0 else 1) + space_runs true t')%nat
      else space_runs false t'
  end.

Lemma split_spaces_length (cur : text) (in_run : bool) (t : text) :
  List.length (split_spaces cur in_run t) = S (space_runs in_run t).
Proof.
  revert cur in_run. induction t as [|c t IH]; intros cur in_run; [reflexivity|].
  cbn [split_spaces space_runs]. destruct (is_trim_space c).
  - destruct in_run; cbn [List.length]; rewrite IH; reflexivity.
  - apply IH.
Qed.

(** In a text that does not end with white space every run of white space
    is followed by a word. *)
Lemma word_starts_runs (t : text) :
  stops is_trim_space (rev t) ->
  word_starts false t = space_runs false t
  /\ word_starts true t
     = (space_runs true t + match t with [] => 0 | _ :: _ => 1 end)%nat.
Proof.
  induction t as [|c t IH]; intros Hlast; [split; reflexivity|].
  assert (Hlast' : t <> [] -> stops is_trim_space (rev t)).
  { intros Hne. cbn [rev] in Hlast. destruct (rev t) as [|d r] eqn:E.
    - apply (f_equal (@rev ascii)) in E. rewrite rev_involutive in E.
      contradiction.
    - exact Hlast. }
  cbn [word_starts space_runs]. destruct (is_trim_space c) eqn:Hc.
  - destruct t as [|d t].
    + cbn in Hlast. congruence.
    + destruct (IH (Hlast' ltac:(discriminate))) as (_ & H1).
      rewrite H1. split; lia.
  - destruct t as [|d t]; [split; reflexivity|].
    destruct (IH (Hlast' ltac:(discriminate))) as (H0 & _).
    rewrite H0. split; lia.
Qed.

Lemma word_starts_leading (w t : text) (after_space : bool) :
  forallb is_trim_space w = true -> w <> [] ->
  word_starts after_space (w ++ t) = word_starts true t.
Proof.
  revert after_space. induction w as [|c w IH]; intros p Hw Hne; [congruence|].
  cbn in Hw. apply andb_prop in Hw. destruct Hw as [Hc Hw].
  cbn [app word_starts]. rewrite Hc.
  destruct w as [|d w]; [reflexivity|]. apply IH; [exact Hw|discriminate].
Qed.

Lemma word_starts_trailing (t w : text) (after_space : bool) :
  forallb is_trim_space w = true ->
  word_starts after_space (t ++ w) = word_starts after_space t.
Proof.
  intros Hw. revert after_space. induction t as [|c t IH]; intros p.
  - destruct w as [|d w]; [reflexivity|].
    pose proof (word_starts_leading (d :: w) [] p Hw ltac:(discriminate)) as H.
    rewrite app_nil_r in H. exact H.
  - cbn [app word_starts]. rewrite !IH. reflexivity.
Qed.

Lemma word_starts_app (a b : text) (c : ascii) (after_space : bool) :
  is_trim_space c = true ->
  word_starts after_space (a ++ c :: b)
  = (word_starts after_space a + word_starts true b)%nat.
Proof.
  intros Hc. revert after_space. induction a as [|d a IH]; intros p.
  - cbn [app word_starts]. rewrite Hc. reflexivity.
  - cbn [app word_starts]. rewrite !IH. destruct (is_trim_space d); lia.
Qed.

(** A text is white space, its trimmed text and white space. *)
Lemma trim_text_split (t : text) :
  exists w1 w2, t = w1 ++ trim_text t ++ w2
                /\ forallb is_trim_space w1 = true
                /\ forallb is_trim_space w2 = true.
Proof.
  unfold trim_text, dropw.
  destruct (span is_trim_space t) as [w1 u] eqn:E1.
  destruct (span_spec _ _ _ _ E1) as (H1 & Hw1 & _). cbn [snd].
  destruct (span is_trim_space (rev u)) as [w2 d] eqn:E2.
  destruct (span_spec _ _ _ _ E2) as (H2 & Hw2 & _). cbn [snd].
  exists w1, (rev w2). split; [|split; [exact Hw1|]].
  - rewrite H1. f_equal. rewrite <- rev_app_distr, <- H2, rev_involutive.
    reflexivity.
  - rewrite forallb_forall in *. intros x Hx. apply Hw2, in_rev, Hx.
Qed.

Lemma words_trim_text (t : text) :
  word_starts true (trim_text t) = word_starts true t.
Proof.
  destruct (trim_text_split t) as (w1 & w2 & Ht & Hw1 & Hw2).
  rewrite Ht at 2. rewrite app_assoc, word_starts_trailing by exact Hw2.
  destruct w1 as [|c w1]; [reflexivity|].
  rewrite word_starts_leading by (assumption || discriminate). reflexivity.
Qed.

Lemma countWords_words (s : string) : countWords s = words s.
Proof.
  unfold countWords, words. rewrite trim_trim_text.
  rewrite <- (words_trim_text (text_of s)).
  destruct (trim_text_ends (text_of s)) as (Hhead & Hlast).
  destruct (trim_text (text_of s)) as [|c T] eqn:HT; [reflexivity|].
  cbn [string_of string_of_list_ascii String.eqb].
  change (String c (string_of_list_ascii T)) with (string_of (c :: T)).
  rewrite text_of_string_of, split_spaces_length.
  destruct (word_starts_runs (c :: T) Hlast) as (_ & H1). rewrite H1.
  cbn [stops] in Hhead. cbn [space_runs]. rewrite Hhead. lia.
Qed.

Lemma words_zero (t : text) :
  word_starts true t = 0%nat <-> forallb is_trim_space t = true.
Proof.
  induction t as [|c t IH]; [split; reflexivity|].
  cbn [word_starts forallb]. destruct (is_trim_space c); cbn [andb].
  - exact IH.
  - split; [lia|discriminate].
Qed.

(** X14: on text in ASCII [countWords] counts the words, the maximal runs
    of characters that are not white space: it is 0 exactly for a text
    that is empty or all white space, and the count of two texts put
    together with a space between them is the sum of their counts. *)
Theorem countWords_spec (a b : string) :
  ascii_only a = true -> ascii_only b = true ->
  countWords a = words a
  /\ (countWords a = 0%nat <-> forallb is_trim_space (text_of a) = true)
  /\ countWords (a ++ " " ++ b) = (countWords a + countWords b)%nat.
Proof.
  intros _ _. rewrite !countWords_words. split; [reflexivity|].
  split; [apply words_zero|].
  unfold words. rewrite text_of_app. cbn [text_of list_ascii_of_string append].
  apply word_starts_app. reflexivity.
Qed.

Local Open Scope string_scope.

Lemma countWords_spec_witness :
  countWords "Supply risk is rising" = 4%nat
  /\ countWords ("Supply risk" ++ " " ++ "is rising") = (2 + 2)%nat.
Proof.
  destruct (countWords_spec "Supply risk" "is rising" eq_refl eq_refl)
    as (_ & _ & Hsum).
  split; [reflexivity|]. rewrite Hsum. reflexivity.
Defined.

Local Close Scope string_scope.

(** ** The text taken out of a Word file *)

Definition printable (c : ascii) : bool :=
  (32 <=? char_code c) && (char_code c <=? 126).

(** No two white space characters side by side. *)
Fixpoint single_spaced (t : text) : bool :=
  match t with
  | [] => true
  | c :: t' =>
      negb (is_trim_space c
            && match t' with [] => false | d :: _ => is_trim_space d end)
      && single_spaced t'
  end.

Definition starts_with_space (t : text) : bool :=
  match t with [] => false | c :: _ => is_trim_space c end.

(** Printable characters that the clean-up keeps, single spaces between
    them, none at either end. *)
Definition normal_text (t : text) : bool :=
  forallb (fun c => printable c && is_kept c
                    && (negb (is_trim_space c) || Ascii.eqb c " ")) t
  && single_spaced t
  && negb (starts_with_space t)
  && negb (starts_with_space (rev t)).

Lemma char_code_ascii_of_byte (b : Byte.byte) :
  char_code (ascii_of_byte b) = Z.of_N (Byte.to_N b).
Proof. destruct b; reflexivity. Qed.

Lemma collapse_spaces_chars (p : ascii -> bool) (in_run : bool) (t : text) :
  p " "%char = true -> forallb p t = true ->
  forallb p (collapse_spaces in_run t) = true.
Proof.
  intros Hsp. revert in_run. induction t as [|c t IH]; intros in_run Ht; [reflexivity|].
  cbn in Ht. apply andb_prop in Ht. destruct Ht as [Hc Ht].
  cbn [collapse_spaces]. destruct (is_trim_space c).
  - destruct in_run; [apply IH, Ht|]. cbn [forallb]. rewrite Hsp. apply IH, Ht.
  - cbn [forallb]. rewrite Hc. apply IH, Ht.
Qed.

Lemma collapse_spaces_spaces (in_run : bool) (t : text) :
  forallb (fun c => negb (is_trim_space c) || Ascii.eqb c " ")
          (collapse_spaces in_run t) = true.
Proof.
  revert in_run. induction t as [|c t IH]; intros in_run; [reflexivity|].
  cbn [collapse_spaces]. destruct (is_trim_space c) eqn:Hc.
  - destruct in_run; [apply IH|]. cbn [forallb]. rewrite IH. reflexivity.
  - cbn [forallb]. rewrite Hc, IH. reflexivity.
Qed.

Lemma collapse_spaces_single (in_run : bool) (t : text) :
  single_spaced (collapse_spaces in_run t) = true
  /\ (in_run = true -> starts_with_space (collapse_spaces in_run t) = false).
Proof.
  revert in_run. induction t as [|c t IH]; intros in_run; [split; reflexivity|].
  cbn [collapse_spaces]. destruct (is_trim_space c) eqn:Hc.
  - destruct (IH true) as (H1 & H2). specialize (H2 eq_refl).
    destruct in_run; [split; [exact H1|intros _; exact H2]|].
    split; [|discriminate]. cbn [single_spaced]. rewrite H1.
    unfold starts_with_space in H2.
    destruct (collapse_spaces true t); [reflexivity|]. rewrite H2. reflexivity.
  - destruct (IH false) as (H1 & _). split.
    + cbn [single_spaced]. rewrite Hc, H1. reflexivity.
    + intros _. cbn [starts_with_space]. exact Hc.
Qed.

Lemma single_spaced_app (a b : text) :
  single_spaced (a ++ b) = true -> single_spaced a = true /\ single_spaced b = true.
Proof.
  induction a as [|c a IH]; intros H; [split; [reflexivity|exact H]|].
  cbn [app single_spaced] in H. apply andb_prop in H. destruct H as [H1 H2].
  destruct (IH H2) as (Ha & Hb). split; [|exact Hb].
  cbn [single_spaced]. rewrite Ha, andb_true_r.
  destruct a as [|d a]; [rewrite andb_false_r; reflexivity|exact H1].
Qed.

Lemma stops_starts (t : text) :
  stops is_trim_space t <-> starts_with_space t = false.
Proof. destruct t; cbn; [split; auto|reflexivity]. Qed.

Lemma collapse_spaces_fixed (in_run : bool) (t : text) :
  forallb (fun c => negb (is_trim_space c) || Ascii.eqb c " ") t = true ->
  single_spaced t = true ->
  (in_run = true -> starts_with_space t = false) ->
  collapse_spaces in_run t = t.
Proof.
  revert in_run. induction t as [|c t IH]; intros in_run Hsp Hs Hrun; [reflexivity|].
  cbn in Hsp. apply andb_prop in Hsp. destruct Hsp as [Hc Hsp].
  cbn [single_spaced] in Hs. apply andb_prop in Hs. destruct Hs as [Hcd Hs].
  cbn [collapse_spaces]. destruct (is_trim_space c) eqn:Ec.
  - destruct in_run; [specialize (Hrun eq_refl); cbn in Hrun; congruence|].
    cbn in Hc. apply Ascii.eqb_eq in Hc. subst c. f_equal.
    apply IH; [exact Hsp|exact Hs|]. intros _.
    unfold starts_with_space. destruct t as [|d t]; [reflexivity|].
    cbn [andb negb] in Hcd. destruct (is_trim_space d); [discriminate|reflexivity].
  - f_equal. apply IH; [exact Hsp|exact Hs|discriminate].
Qed.

Lemma trim_text_fixed (t : text) :
  starts_with_space t = false -> starts_with_space (rev t) = false ->
  trim_text t = t.
Proof.
  intros H1 H2. unfold trim_text.
  rewrite (dropw_fixed t) by (apply stops_starts; exact H1).
  rewrite (dropw_fixed (rev t)) by (apply stops_starts; exact H2).
  apply rev_involutive.
Qed.

(** X15: the text that [processWordFile] takes out of a file consists of
    printable characters that its clean-up keeps, with single spaces and
    none at either end; and the bytes of a text that has this form give
    the text back. *)
Theorem extractWordText_normal (uint8Array : list Byte.byte) (t : text) :
  normal_text (text_of (extractWordText uint8Array)) = true
  /\ (normal_text t = true ->
      extractWordText (map byte_of_ascii t) = string_of t).
Proof.
  split.
  - unfold extractWordText. rewrite trim_trim_text, !text_of_string_of.
    set (u := map ascii_of_byte _).
    assert (Hu : forallb printable u = true).
    { unfold u. apply forallb_forall. intros c Hc.
      apply in_map_iff in Hc. destruct Hc as (b & <- & Hb).
      apply filter_In in Hb. unfold printable.
      rewrite char_code_ascii_of_byte. apply Hb. }
    set (v := filter is_kept u).
    assert (Hv : forallb (fun c => printable c && is_kept c) v = true).
    { apply forallb_forall. intros c Hc. apply filter_In in Hc.
      destruct Hc as [Hc ->]. rewrite forallb_forall in Hu.
      rewrite (Hu c Hc). reflexivity. }
    set (w := collapse_spaces false v).
    assert (Hw1 : forallb (fun c => printable c && is_kept c) w = true)
      by (apply collapse_spaces_chars; [reflexivity|exact Hv]).
    pose proof (collapse_spaces_spaces false v) as Hw2. fold w in Hw2.
    destruct (collapse_spaces_single false v) as (Hw3 & _). fold w in Hw3.
    destruct (trim_text_split w) as (w1 & w2 & Hsplit & _ & _).
    destruct (trim_text_ends w) as (Hhead & Hlast).
    set (T := trim_text w) in *.
    rewrite Hsplit in Hw1, Hw2, Hw3.
    rewrite !forallb_app in Hw1, Hw2.
    apply andb_prop in Hw1. destruct Hw1 as [_ Hw1].
    apply andb_prop in Hw1. destruct Hw1 as [Hw1 _].
    apply andb_prop in Hw2. destruct Hw2 as [_ Hw2].
    apply andb_prop in Hw2. destruct Hw2 as [Hw2 _].
    apply single_spaced_app in Hw3. destruct Hw3 as [_ Hw3].
    apply single_spaced_app in Hw3. destruct Hw3 as [Hw3 _].
    apply stops_starts in Hhead. apply stops_starts in Hlast.
    unfold normal_text. rewrite Hw3, Hhead, Hlast, !andb_true_r.
    apply forallb_forall. intros c Hc. rewrite forallb_forall in Hw1, Hw2.
    rewrite (Hw1 c Hc), (Hw2 c Hc). reflexivity.
  - intros Hn. unfold normal_text in Hn.
    apply andb_prop in Hn. destruct Hn as [Hn Hlast].
    apply andb_prop in Hn. destruct Hn as [Hn Hhead].
    apply andb_prop in Hn. destruct Hn as [Hall Hs].
    apply negb_true_iff in Hhead, Hlast.
    unfold extractWordText. rewrite trim_trim_text, text_of_string_of. f_equal.
    assert (Hbytes : map ascii_of_byte
                       (filter (fun char => (32 <=? Z.of_N (Byte.to_N char))
                                            && (Z.of_N (Byte.to_N char) <=? 126))
                               (map byte_of_ascii t)) = t).
    { clear Hs Hhead Hlast. induction t as [|c t IH]; [reflexivity|].
      cbn in Hall. apply andb_prop in Hall. destruct Hall as [Hc Hall].
      apply andb_prop in Hc. destruct Hc as [Hc _].
      apply andb_prop in Hc. destruct Hc as [Hc _].
      cbn [map filter]. rewrite <- char_code_ascii_of_byte, ascii_of_byte_of_ascii.
      unfold printable in Hc. rewrite Hc. cbn [map].
      rewrite ascii_of_byte_of_ascii, (IH Hall). reflexivity. }
    rewrite Hbytes.
    assert (Hkept : filter is_kept t = t).
    { clear Hs Hhead Hlast Hbytes. induction t as [|c t IH]; [reflexivity|].
      cbn in Hall. apply andb_prop in Hall. destruct Hall as [Hc Hall].
      apply andb_prop in Hc. destruct Hc as [Hc _].
      apply andb_prop in Hc. destruct Hc as [_ Hc].
      cbn [filter]. rewrite Hc, (IH Hall). reflexivity. }
    rewrite Hkept.
    assert (Hspaces : forallb (fun c => negb (is_trim_space c) || Ascii.eqb c " ") t
                      = true).
    { apply forallb_forall. intros c Hc. rewrite forallb_forall in Hall.
      specialize (Hall c Hc). apply andb_prop in Hall. apply Hall. }
    rewrite (collapse_spaces_fixed false t Hspaces Hs) by discriminate.
    apply trim_text_fixed; assumption.
Qed.

Local Open Scope string_scope.

Lemma extractWordText_normal_witness :
  normal_text (text_of "Supply risk (high) is rising.") = true
  /\ extractWordText (map byte_of_ascii (text_of "Supply risk (high) is rising."))
     = "Supply risk (high) is rising.".
Proof.
  split; [reflexivity|].
  rewrite <- (string_of_text_of "Supply risk (high) is rising.") at 2.
  apply (extractWordText_normal [] _). reflexivity.
Defined.

Local Close Scope string_scope.

(** ** Validation and processing agree on the file types *)

Definition is_valid (v : validation) : bool :=
  match v with valid => true | invalid _ => false end.

Lemma processFile_read (file : File) (id : string) :
  validateFileType file = true ->
  exists read,
    (read = processTextFile file \/ read = processPDFFile file
     \/ read = processWordFile file)
    /\ processFile file id
       = match read with
         | Fulfilled content =>
             {| Processed.id := id; Processed.name := FileObj.name file;
                Processed.type := FileObj.type file;
                Processed.size := FileObj.size file;
                Processed.content := content;
                Processed.preview := createPreview content 200;
                Processed.wordCount := countWords content;
                Processed.error := None |}
         | Rejected e =>
             {| Processed.id := id; Processed.name := FileObj.name file;
                Processed.type := FileObj.type file;
                Processed.size := FileObj.size file;
                Processed.content := EmptyString;
                Processed.preview := EmptyString;
                Processed.wordCount := 0;
                Processed.error := Some (exn_message e) |}
         end.
Proof.
  unfold validateFileType, allowedTypes, processFile. cbn [existsb].
  rewrite orb_false_r. intros H.
  destruct (String.eqb (FileObj.type file) "text/plain");
    [eexists; split; [left; reflexivity|reflexivity]|].
  destruct (String.eqb (FileObj.type file) "application/pdf");
    [eexists; split; [right; left; reflexivity|reflexivity]|].
  cbn [orb] in H. rewrite H.
  eexists; split; [right; right; reflexivity|reflexivity].
Qed.

Lemma unsupported_not_read (file : File) (read : settled string) (type : string) :
  read = processTextFile file \/ read = processPDFFile file
  \/ read = processWordFile file ->
  match read with
  | Fulfilled _ => True
  | Rejected e => exn_message e <> ("Unsupported file type: " ++ type)%string
  end.
Proof.
  intros [->|[->| ->]].
  - unfold processTextFile. destruct (FileObj.readAsText file) as [[c|]|].
    + destruct (String.eqb c EmptyString); [discriminate|exact I].
    + discriminate.
    + discriminate.
  - unfold processPDFFile. destruct (FileObj.readAsArrayBuffer file) as [[b|]|].
    + destruct (FileObj.getDocument file) as [pages|[e|]];
        [exact I|discriminate|discriminate].
    + discriminate.
    + discriminate.
  - unfold processWordFile. destruct (FileObj.readAsArrayBuffer file) as [[b|]|].
    + destruct (String.length (extractWordText b) <? 100)%nat; [discriminate|exact I].
    + discriminate.
    + discriminate.
Qed.

(** X16: [validateFile] accepts a file exactly when [validateFileSize]
    with its default of 10 MB and [validateFileType] both do, and reports
    the size first; [processFile] never reports an accepted file as of an
    unsupported type, and always does so for a type that
    [validateFileType] refuses. *)
Theorem validateFile_spec (file : File) (id : string) :
  is_valid (validateFile file)
  = validateFileSize file 10 && validateFileType file
  /\ (validateFileSize file 10 = false ->
      validateFile file = invalid "File size must be less than 10MB")
  /\ (validateFile file = valid ->
      Processed.error (processFile file id)
      <> Some ("Unsupported file type: " ++ FileObj.type file)%string)
  /\ (validateFileType file = false ->
      Processed.error (processFile file id)
      = Some ("Unsupported file type: " ++ FileObj.type file)%string
      /\ Processed.content (processFile file id) = EmptyString).
Proof.
  assert (Hsize : validateFileSize file 10
                  = negb (10 * 1024 * 1024 <? FileObj.size file)).
  { unfold validateFileSize. cbv zeta.
    destruct (Z.leb_spec (FileObj.size file) (10 * 1024 * 1024)),
             (Z.ltb_spec (10 * 1024 * 1024) (FileObj.size file));
      try reflexivity; lia. }
  split; [|split; [|split]].
  - rewrite Hsize. unfold validateFile, validateFileType. cbv zeta.
    destruct (10 * 1024 * 1024 <? FileObj.size file); [reflexivity|].
    destruct (existsb (String.eqb (FileObj.type file)) allowedTypes); reflexivity.
  - rewrite Hsize. unfold validateFile. cbv zeta.
    destruct (10 * 1024 * 1024 <? FileObj.size file); [reflexivity|discriminate].
  - unfold validateFile. cbv zeta.
    destruct (10 * 1024 * 1024 <? FileObj.size file); [discriminate|].
    destruct (existsb (String.eqb (FileObj.type file)) allowedTypes) eqn:Ht;
      [|discriminate].
    intros _. destruct (processFile_read file id Ht) as (read & Hread & ->).
    pose proof (unsupported_not_read file read (FileObj.type file) Hread) as Hno.
    destruct read as [content|e]; cbn [Processed.error]; [discriminate|].
    intros H. injection H as H. exact (Hno H).
  - unfold validateFileType, allowedTypes, processFile. cbn [existsb].
    rewrite orb_false_r. intros H.
    apply orb_false_iff in H. destruct H as [H1 H].
    apply orb_false_iff in H. destruct H as [H2 H].
    rewrite H1, H2, H. split; reflexivity.
Qed.

(** ** Dropped files *)

Definition upload_of (p : ProcessedFile) : UploadedFile :=
  {| Upload.id := Processed.id p; Upload.name := Processed.name p;
     Upload.size := Processed.size p; Upload.type := Processed.type p;
     Upload.content := Some (Processed.content p);
     Upload.preview := Some (Processed.preview p) |}.

Definition alert_of (file : File) : list string :=
  match validateFile file with
  | valid => []
  | invalid error => [(FileObj.name file ++ ": " ++ error)%string]
  end.

(** The result of [processFile] carries the identifier given and the
    name, type and size of the file, whether the processing fails or not;
    with an error the content is empty. *)
Lemma processFile_info (file : File) (id : string) :
  Processed.id (processFile file id) = id
  /\ Processed.name (processFile file id) = FileObj.name file
  /\ Processed.type (processFile file id) = FileObj.type file
  /\ Processed.size (processFile file id) = FileObj.size file
  /\ (Processed.error (processFile file id) <> None ->
      Processed.content (processFile file id) = EmptyString).
Proof.
  unfold processFile. cbv zeta.
  match goal with |- context [match ?r with Fulfilled _ => _ | Rejected _ => _ end] =>
    destruct r end; cbn; repeat split; congruence.
Qed.

Lemma onDrop_loop_spec (acceptedFiles : list File) (ids : nat -> string)
  (s : AppState) :
  let accepted := filter (fun f => is_valid (validateFile f)) acceptedFiles in
  exists added,
    fst (onDrop_loop acceptedFiles ids s)
    = set_uploadedFiles (uploadedFiles s ++ added) s
    /\ Forall2 (fun f u => exists id, u = upload_of (processFile f id))
               accepted added
    /\ map Upload.id added = map ids (seq 0 (List.length accepted))
    /\ snd (onDrop_loop acceptedFiles ids s) = flat_map alert_of acceptedFiles.
Proof.
  cbv zeta. revert ids s. induction acceptedFiles as [|f files IH]; intros ids s.
  - exists []. cbn. rewrite app_nil_r. destruct s. repeat split. constructor.
  - cbn [onDrop_loop filter flat_map]. unfold alert_of at 1.
    destruct (validateFile f) as [|error] eqn:Hv; cbn [is_valid].
    + destruct (IH (fun k => ids (S k))
                   (addFile (upload_of (processFile f (ids 0%nat))) s))
        as (added & H1 & H2 & H3 & H4).
      exists (upload_of (processFile f (ids 0%nat)) :: added).
      split; [|split; [|split]].
      * fold (upload_of (processFile f (ids 0%nat))). rewrite H1.
        unfold addFile, set_uploadedFiles. cbn. rewrite <- app_assoc. reflexivity.
      * constructor; [exists (ids 0%nat); reflexivity|exact H2].
      * cbn [map List.length seq].
        apply f_equal2; [apply (processFile_info f (ids 0%nat))|].
        rewrite <- seq_shift, map_map. exact H3.
      * fold (upload_of (processFile f (ids 0%nat))). rewrite H4. reflexivity.
    + destruct (IH ids s) as (added & H1 & H2 & H3 & H4).
      exists added. destruct (onDrop_loop files ids s) as [s' alerts].
      cbn [fst snd] in *. split; [exact H1|]. split; [exact H2|].
      split; [exact H3|]. rewrite H4. reflexivity.
Qed.

(** X17: [onDrop] adds one upload for every file that [validateFile]
    accepts, in their order, each with the name of its file, the content
    that [processFile] gives (the empty text when the processing failed),
    and the next generated identifier; it shows one alert for every file
    that is refused and none for a file whose processing failed; and it
    switches to the files tab whenever a file was dropped. *)
Theorem onDrop_adds_accepted (acceptedFiles : list File) (ids : nat -> string)
  (s : AppState) :
  let accepted := filter (fun f => is_valid (validateFile f)) acceptedFiles in
  let s' := fst (onDrop acceptedFiles ids s) in
  exists added,
    uploadedFiles s' = uploadedFiles s ++ added
    /\ Forall2 (fun f u => exists id, u = upload_of (processFile f id))
               accepted added
    /\ map Upload.name added = map FileObj.name accepted
    /\ map Upload.id added = map ids (seq 0 (List.length accepted))
    /\ snd (onDrop acceptedFiles ids s) = flat_map alert_of acceptedFiles
    /\ List.length (snd (onDrop acceptedFiles ids s))
       = (List.length acceptedFiles - List.length accepted)%nat
    /\ activeTab s' = match acceptedFiles with [] => activeTab s | _ :: _ => files_tab end
    /\ inputText s' = inputText s.
Proof.
  cbv zeta. unfold onDrop.
  destruct (onDrop_loop_spec acceptedFiles ids s) as (added & H1 & H2 & H3 & H4).
  destruct (onDrop_loop acceptedFiles ids s) as [s1 alerts]. cbn [fst snd] in *.
  subst s1 alerts. exists added.
  assert (Hnames : map Upload.name added
                   = map FileObj.name
                       (filter (fun f => is_valid (validateFile f)) acceptedFiles)).
  { clear H3. induction H2 as [|f u fs us (id & ->) _ IH]; [reflexivity|].
    cbn [map]. rewrite IH. apply f_equal2; [|reflexivity].
    apply (processFile_info f id). }
  assert (Halerts : List.length (flat_map alert_of acceptedFiles)
                    = (List.length acceptedFiles
                       - List.length (filter (fun f => is_valid (validateFile f))
                                             acceptedFiles))%nat).
  { clear. induction acceptedFiles as [|f files IH]; [reflexivity|].
    cbn [flat_map filter]. rewrite length_app, IH. unfold alert_of.
    pose proof (filter_length_le (fun f => is_valid (validateFile f)) files).
    destruct (validateFile f); cbn [is_valid List.length]; lia. }
  destruct acceptedFiles as [|f files].
  - cbn [List.length Nat.ltb Nat.leb]. repeat split; try assumption; reflexivity.
  - cbn [List.length Nat.ltb Nat.leb]. repeat split; try assumption; reflexivity.
Qed.

(** * The routes

    ** The health route *)

(** X18: the health route answers 200 in every case: the overall status
    is [partial] without a key and [healthy] with one, also when the
    connection test fails and the analyzer is reported as [degraded]; the
    analyzer is never reported as [unavailable]. *)
Theorem health_GET_always_200 (hasApiKey : bool) (NODE_ENV : option string)
  (completion : settled nat) :
  let '(statusCode, health) := health_GET hasApiKey NODE_ENV completion in
  statusCode = 200%nat
  /\ Health.status health = (if hasApiKey then "healthy" else "partial")%string
  /\ Health.openai (Health.health_services health)
     = (if hasApiKey
        then match completion with
             | Fulfilled (S _) => "operational"
             | _ => "degraded"
             end
        else "not_configured")%string
  /\ Health.openai (Health.health_services health) <> "unavailable"%string.
Proof.
  destruct hasApiKey; [|repeat split; discriminate].
  destruct completion as [[|n]|e]; repeat split; discriminate.
Qed.

(** ** The analysis route and the store *)

(** X19: when [POST] answers 200 the store holds an analysis under the
    identifier of the reply, with the result as the reply carries it, the
    text and the domain of the request; every other analysis and every
    file reads as before.  When it answers otherwise the store is as
    before. *)
Theorem POST_store_spec (request : option AnalysisRequest) (hasApiKey : bool)
  (analysis : settled AnalysisResult) (newId now : string) (createdAt : Z)
  (db : InMemoryDB) :
  let reply := POST request hasApiKey analysis newId now in
  let db' := POST_store request hasApiKey analysis newId now createdAt db in
  match body reply with
  | ResultBody r =>
      status reply = 200%nat
      /\ analysisId (metadata r) = Some newId
      /\ (exists stored,
            getAnalysis db' newId = Some stored
            /\ Stored.result stored = r
            /\ Stored.analysis_createdAt stored = createdAt
            /\ (exists b, request = Some b
                          /\ Stored.text stored = Request.text b
                          /\ Stored.domain stored = request_domain b))
      /\ (forall id, id <> newId -> getAnalysis db' id = getAnalysis db id)
      /\ (forall id, getFile db' id = getFile db id)
  | ErrorBody _ => status reply <> 200%nat /\ db' = db
  end.
Proof.
  cbv zeta. unfold POST_store.
  destruct request as [b|]; [|split; [discriminate|reflexivity]].
  destruct (body (POST (Some b) hasApiKey analysis newId now)) as [r|err] eqn:Hbody.
  - unfold storeAnalysisResult, storeAnalysis, getAnalysis, getFile.
    cbn [fst analyses files Stored.analysis_id].
    assert (H : status (POST (Some b) hasApiKey analysis newId now) = 200%nat
                /\ analysisId (metadata r) = Some newId).
    { revert Hbody. unfold POST.
      destruct (Request.text b) as [text|]; [|discriminate].
      destruct ((String.length text =? 0)%nat || (String.length (trim text) <? 10)%nat);
        [discriminate|].
      destruct (50000 <? Z.of_nat (String.length text)); [discriminate|].
      destruct (negb (existsb _ validDomains)); [discriminate|].
      intros H. injection H as <-. split; reflexivity. }
    destruct H as (Hs & Hid). split; [exact Hs|]. split; [exact Hid|].
    split; [|split].
    + eexists. split; [apply get_set_same|]. cbn.
      repeat split. exists b. repeat split.
    + intros id Hne. apply get_set_other. exact Hne.
    + reflexivity.
  - split; [|reflexivity]. revert Hbody. unfold POST.
    destruct (Request.text b) as [text|]; [|discriminate].
    destruct ((String.length text =? 0)%nat || (String.length (trim text) <? 10)%nat);
      [discriminate|].
    destruct (50000 <? Z.of_nat (String.length text)); [discriminate|].
    destruct (negb (existsb _ validDomains)); discriminate.
Qed.

(** ** What every reply of the analysis route has *)

Lemma analyzeContent_quadrants (analysisData : option OpenAIAnalysisResponse)
  (processingTime : spec_float) (r : AnalysisResult) :
  analyzeContent analysisData processingTime = Fulfilled r ->
  quadrants r = generateDefaultQuadrants (Axis.x (axes r)) (Axis.y (axes r)).
Proof.
  destruct analysisData as [d|]; [|discriminate].
  intros H. injection H as <-. reflexivity.
Qed.

(** X27: every result that [POST] returns, from the analyzer or as the
    placeholder, holds the four default quadrants for its axes, so that on
    its items with coordinates without a sign the chart picks the quadrant
    of the classifier. *)
Theorem POST_result_default_quadrants (request : option AnalysisRequest)
  (hasApiKey : bool) (analysisData : option OpenAIAnalysisResponse)
  (processingTime : spec_float) (newId now : string) (r : AnalysisResult) :
  body (POST request hasApiKey (analyzeContent analysisData processingTime) newId now)
  = ResultBody r ->
  quadrants r = generateDefaultQuadrants (Axis.x (axes r)) (Axis.y (axes r))
  /\ forall genv item,
       nonneg (Item.x item) -> nonneg (Item.y item) ->
       getQuadrantForItem genv (Item.x item) (Item.y item) (quadrants r)
       = Some (chart_quadrant item (quadrants r)).
Proof.
  intros H.
  assert (Hq : quadrants r
               = generateDefaultQuadrants (Axis.x (axes r)) (Axis.y (axes r))).
  { revert H. unfold POST. destruct request as [b|]; [|discriminate].
    destruct (Request.text b) as [text|]; [|discriminate].
    destruct ((String.length text =? 0)%nat || (String.length (trim text) <? 10)%nat);
      [discriminate|].
    destruct (50000 <? Z.of_nat (String.length text)); [discriminate|].
    destruct (negb (existsb _ validDomains)); [discriminate|].
    destruct hasApiKey.
    - destruct (analyzeContent analysisData processingTime) as [a|e] eqn:Ha.
      + intros E. injection E as <-. cbn [quadrants axes with_metadata].
        apply (analyzeContent_quadrants _ _ _ Ha).
      + intros E. injection E as <-. reflexivity.
    - intros E. injection E as <-. reflexivity. }
  split; [exact Hq|]. intros genv item Hx Hy. rewrite Hq.
  apply chart_quadrant_default; assumption.
Qed.

Lemma POST_result_default_quadrants_witness :
  exists r,
    body (POST (Some sample_request) false (analyzeContent None (literal 0 0))
               EmptyString EmptyString) = ResultBody r
    /\ quadrants r = generateDefaultQuadrants (Axis.x (axes r)) (Axis.y (axes r)).
Proof.
  eexists. split; [reflexivity|].
  apply (POST_result_default_quadrants (Some sample_request) false None
           (literal 0 0) EmptyString EmptyString).
  reflexivity.
Defined.

(** X28: without a key the reply of [POST] is the placeholder whatever the
    text and the forced axes are.  Every request gets an identifier and a
    time stamp of its own; two requests that are accepted and ask for the
    same domain get results that differ at most in the identifier, the time
    stamp and the length of the text in the metadata. *)
Theorem POST_demo_ignores_text (b1 b2 : AnalysisRequest)
  (analysis1 analysis2 : settled AnalysisResult)
  (newId1 now1 newId2 now2 : string) (r1 r2 : AnalysisResult) :
  body (POST (Some b1) false analysis1 newId1 now1) = ResultBody r1 ->
  body (POST (Some b2) false analysis2 newId2 now2) = ResultBody r2 ->
  request_domain b1 = request_domain b2 ->
  axes r1 = axes r2 /\ items r1 = items r2 /\ quadrants r1 = quadrants r2
  /\ insights r1 = insights r2
  /\ usingMockData (metadata r1) = Some true
  /\ analysisId (metadata r1) = Some newId1
  /\ analysisId (metadata r2) = Some newId2
  /\ timestamp (metadata r1) = Some now1
  /\ timestamp (metadata r2) = Some now2
  /\ with_metadata r1
       {| processing_time := processing_time (metadata r1);
          meta_confidence := meta_confidence (metadata r1);
          analysisId := analysisId (metadata r2);
          timestamp := timestamp (metadata r2);
          meta_domain := meta_domain (metadata r1);
          textLength := textLength (metadata r2);
          usingMockData := usingMockData (metadata r1) |}
     = r2.
Proof.
  unfold POST, request_domain.
  destruct (Request.text b1) as [t1|]; [|discriminate].
  destruct ((String.length t1 =? 0)%nat || (String.length (trim t1) <? 10)%nat);
    [discriminate|].
  destruct (50000 <? Z.of_nat (String.length t1)); [discriminate|].
  destruct (Request.text b2) as [t2|]; [|discriminate].
  destruct ((String.length t2 =? 0)%nat || (String.length (trim t2) <? 10)%nat);
    [discriminate|].
  destruct (50000 <? Z.of_nat (String.length t2)); [discriminate|].
  set (d1 := match Request.domain_hint b1 with
             | Some d => if String.eqb d EmptyString then "auto"%string else d
             | None => "auto"%string
             end).
  set (d2 := match Request.domain_hint b2 with
             | Some d => if String.eqb d EmptyString then "auto"%string else d
             | None => "auto"%string
             end).
  destruct (negb (existsb (String.eqb d1) validDomains)); [discriminate|].
  destruct (negb (existsb (String.eqb d2) validDomains)); [discriminate|].
  intros H1 H2 Hd. injection H1 as <-. injection H2 as <-. rewrite Hd.
  repeat split.
Qed.

(** A second request for the domain of [sample_request], with another text
    and with forced axes. *)
Definition second_request : AnalysisRequest :=
  {| Request.text := Some "Two suppliers are late and one plant is idle."%string;
     Request.files := None;
     Request.domain_hint := Some "risk"%string;
     Request.force_axes := Some (Some "Delay"%string, Some "Cost"%string) |}.

Lemma POST_demo_ignores_text_witness :
  exists r1 r2,
    body (POST (Some sample_request) false (Rejected (Error EmptyString))
               "id-1" "2024-01-01T00:00:00.000Z") = ResultBody r1
    /\ body (POST (Some second_request) false (Rejected (Error EmptyString))
                "id-2" "2024-01-02T00:00:00.000Z") = ResultBody r2
    /\ items r1 = items r2
    /\ insights r1 = insights r2
    /\ analysisId (metadata r1) = Some "id-1"%string
    /\ analysisId (metadata r2) = Some "id-2"%string
    /\ textLength (metadata r1) = Some 46%nat
    /\ textLength (metadata r2) = Some 45%nat.
Proof.
  eexists _, _. split; [reflexivity|]. split; [reflexivity|].
  destruct (POST_demo_ignores_text sample_request second_request
              (Rejected (Error EmptyString)) (Rejected (Error EmptyString))
              "id-1" "2024-01-01T00:00:00.000Z"
              "id-2" "2024-01-02T00:00:00.000Z" _ _ eq_refl eq_refl eq_refl)
    as (_ & Hitems & _ & Hins & _ & Hid1 & Hid2 & _).
  split; [exact Hitems|]. split; [exact Hins|].
  split; [exact Hid1|]. split; [exact Hid2|].
  split; reflexivity.
Defined.

(** * The classifier and the aggregator, continued

    ** The counts of the quadrants *)

Lemma getQuadrantForItem_In (genv : global_env) (x y : number)
  (quadrants : list Quadrant) (q : Quadrant) :
  getQuadrantForItem genv x y quadrants = Some (Some q) -> In q quadrants.
Proof.
  induction quadrants as [|q' rest IH]; [discriminate|].
  rewrite getQuadrantForItem_step.
  destruct (rule_holds genv x y q') as [[|]|]; try discriminate.
  - intros H. injection H as <-. left. reflexivity.
  - intros H. right. apply IH, H.
Qed.

(** The item is counted for the quadrant. *)
Definition counted (genv : global_env) (quadrants : list Quadrant)
  (q : Quadrant) (item : AnalysisItem) : bool :=
  match item_in_quadrant genv quadrants q item with
  | Some true => true
  | _ => false
  end.

(** The classifier has a quadrant for the item. *)
Definition classified (genv : global_env) (quadrants : list Quadrant)
  (item : AnalysisItem) : bool :=
  match getQuadrantForItem genv (Item.x item) (Item.y item) quadrants with
  | Some (Some _) => true
  | _ => false
  end.

Lemma counts_lengths (genv : global_env) (items : list AnalysisItem)
  (all qs : list Quadrant) (counts : list QuadrantCount) :
  map_opt (fun q =>
             option_map (fun its => {| Count.quadrant := q; Count.items := its |})
                        (filter_opt (item_in_quadrant genv all q) items))
          qs = Some counts ->
  map (fun qc => List.length (Count.items qc)) counts
  = map (fun q => List.length (filter (counted genv all q) items)) qs.
Proof.
  revert counts. induction qs as [|q qs IH]; intros counts H.
  - injection H as <-. reflexivity.
  - cbn [map_opt] in H.
    destruct (filter_opt (item_in_quadrant genv all q) items) as [its|] eqn:Hf;
      [|discriminate].
    cbn [option_map] in H.
    destruct (map_opt _ qs) as [rest|]; [|discriminate].
    injection H as <-. cbn [map Count.items].
    rewrite (IH rest eq_refl), (filter_opt_filter _ _ _ Hf). reflexivity.
Qed.

Fixpoint total (l : list nat) : nat :=
  match l with
  | [] => 0
  | n :: l' => n + total l'
  end.

Lemma one_quadrant_of_id (quadrants : list Quadrant) (q : Quadrant) :
  NoDup (map id quadrants) -> In q quadrants ->
  total (map (fun q' => if String.eqb (id q) (id q') then 1 else 0)%nat quadrants)
  = 1%nat.
Proof.
  induction quadrants as [|q0 rest IH]; intros Hnd Hin; [destruct Hin|].
  cbn [map] in Hnd. inversion Hnd as [|? ? Hnot Hrest]; subst.
  cbn [map total]. destruct Hin as [->|Hin].
  - rewrite String.eqb_refl.
    assert (Hz : total (map (fun q' => if String.eqb (id q) (id q') then 1 else 0)%nat
                               rest) = 0%nat).
    { clear IH Hrest Hnd. induction rest as [|q1 rest IH]; [reflexivity|].
      cbn [map total].
      destruct (String.eqb_spec (id q) (id q1)) as [E|E].
      - exfalso. apply Hnot. left. symmetry. exact E.
      - apply IH. intros H. apply Hnot. right. exact H. }
    rewrite Hz. reflexivity.
  - destruct (String.eqb_spec (id q) (id q0)) as [E|E].
    + exfalso. apply Hnot. rewrite <- E. apply in_map, Hin.
    + apply (IH Hrest Hin).
Qed.

Lemma counted_sum (genv : global_env) (quadrants : list Quadrant)
  (item : AnalysisItem) :
  NoDup (map id quadrants) ->
  total (map (fun q => if counted genv quadrants q item then 1 else 0)%nat
                quadrants)
  = (if classified genv quadrants item then 1 else 0)%nat.
Proof.
  intros Hnd. unfold counted, classified, item_in_quadrant.
  destruct (getQuadrantForItem genv (Item.x item) (Item.y item) quadrants)
    as [[q|]|] eqn:Hq.
  - etransitivity;
      [|exact (one_quadrant_of_id quadrants q Hnd
                 (getQuadrantForItem_In _ _ _ _ _ Hq))].
    f_equal. apply map_ext. intros q'.
    destruct (String.eqb (id q) (id q')); reflexivity.
  - clear. induction quadrants as [|q0 rest IH]; [reflexivity|]. exact IH.
  - clear. induction quadrants as [|q0 rest IH]; [reflexivity|]. exact IH.
Qed.

Lemma sum_of_counts (f : Quadrant -> AnalysisItem -> bool)
  (items : list AnalysisItem) (quadrants : list Quadrant) :
  total (map (fun q => List.length (filter (f q) items)) quadrants)
  = total (map (fun item =>
                     total (map (fun q => if f q item then 1 else 0)%nat quadrants))
                  items).
Proof.
  induction items as [|item items IH].
  - cbn. induction quadrants; [reflexivity|]. cbn. exact IHquadrants.
  - cbn [map total filter]. rewrite <- IH. clear IH.
    induction quadrants as [|q rest IHq]; [reflexivity|].
    cbn [map total]. rewrite IHq.
    destruct (f q item); cbn [List.length]; lia.
Qed.

Lemma sum_of_flags {A : Type} (p : A -> bool) (l : list A) :
  total (map (fun a => if p a then 1 else 0)%nat l) = List.length (filter p l).
Proof.
  induction l as [|a l IH]; [reflexivity|]. cbn. rewrite IH.
  destruct (p a); reflexivity.
Qed.

Lemma counts_total_classified (genv : global_env)
  (items : list AnalysisItem) (quadrants : list Quadrant)
  (counts : list QuadrantCount) :
  NoDup (map id quadrants) ->
  quadrantCounts genv items quadrants = Some counts ->
  total (map (fun qc => List.length (Count.items qc)) counts)
  = List.length (filter (classified genv quadrants) items).
Proof.
  intros Hnd Hc.
  unfold quadrantCounts in Hc. rewrite (counts_lengths _ _ _ _ _ Hc).
  rewrite sum_of_counts, <- sum_of_flags. f_equal. apply map_ext.
  intros item. apply counted_sum, Hnd.
Qed.

(** X20: when the quadrants have different ids, the counts that the
    aggregator takes add up to the number of items that the classifier has
    a quadrant for: no item is counted twice and only the items without a
    quadrant are not counted. *)
Theorem quadrantCounts_partition (genv : global_env)
  (items : list AnalysisItem) (quadrants : list Quadrant)
  (counts : list QuadrantCount) :
  NoDup (map id quadrants) ->
  quadrantCounts genv items quadrants = Some counts ->
  map Count.quadrant counts = quadrants
  /\ total (map (fun qc => List.length (Count.items qc)) counts)
     = List.length (filter (classified genv quadrants) items)
  /\ (total (map (fun qc => List.length (Count.items qc)) counts)
      <= List.length items)%nat.
Proof.
  intros Hnd Hc.
  pose proof (counts_total_classified genv items quadrants counts Hnd Hc) as Hsum.
  split; [apply (quadrantCounts_spec _ _ _ _ Hc)|]. split; [exact Hsum|].
  rewrite Hsum. apply filter_length_le.
Qed.

Lemma quadrantCounts_partition_witness :
  exists counts,
    quadrantCounts no_globals ten_items
      (generateDefaultQuadrants "Probability" "Impact") = Some counts
    /\ total (map (fun qc => List.length (Count.items qc)) counts) = 10%nat.
Proof.
  destruct (quadrantCounts no_globals ten_items
              (generateDefaultQuadrants "Probability" "Impact"))
    as [counts|] eqn:Hc; [|vm_compute in Hc; discriminate Hc].
  exists counts. split; [reflexivity|].
  destruct (quadrantCounts_partition no_globals ten_items
              (generateDefaultQuadrants "Probability" "Impact") counts)
    as (_ & Hsum & _).
  - cbn. repeat constructor; cbn; intuition discriminate.
  - exact Hc.
  - rewrite Hsum. vm_compute. reflexivity.
Defined.

Lemma default_classified (genv : global_env) (xLabel yLabel : string)
  (x y : number) :
  in_range x -> in_range y ->
  exists q, getQuadrantForItem genv x y (generateDefaultQuadrants xLabel yLabel)
            = Some (Some q).
Proof.
  intros Hrx Hry.
  pose proof (default_rule_values genv x y (in_range_nonneg x Hrx)
                (in_range_nonneg y Hry)) as Hv.
  unfold default_rules in Hv. cbn [map] in Hv.
  injection Hv as H1 H2 H3 H4.
  pose proof (js_lt_fifty _ (in_range_not_nan x Hrx)) as Hlx.
  pose proof (js_lt_fifty _ (in_range_not_nan y Hry)) as Hly.
  unfold region_Q1, region_Q2, region_Q3, region_Q4 in *.
  rewrite Hlx, Hly in *.
  set (bx := js_ge (number_value x) fifty) in *.
  set (by_ := js_ge (number_value y) fifty) in *.
  unfold generateDefaultQuadrants.
  match goal with
  | |- exists q, getQuadrantForItem _ _ _ [?q1; ?q2; ?q3; ?q4] = _ =>
      change (evaluateQuadrantRule genv (rule q1) x y
              = Some (VBool (bx && by_))) in H1;
      change (evaluateQuadrantRule genv (rule q2) x y
              = Some (VBool (negb bx && by_))) in H2;
      change (evaluateQuadrantRule genv (rule q3) x y
              = Some (VBool (negb bx && negb by_))) in H3;
      change (evaluateQuadrantRule genv (rule q4) x y
              = Some (VBool (bx && negb by_))) in H4
  end.
  rewrite (getQuadrantForItem_cons _ _ _ _ _ _ H1).
  rewrite (getQuadrantForItem_cons _ _ _ _ _ _ H2).
  rewrite (getQuadrantForItem_cons _ _ _ _ _ _ H3).
  rewrite (getQuadrantForItem_cons _ _ _ _ _ _ H4).
  destruct bx, by_; cbn [andb negb]; eexists; reflexivity.
Qed.

(** X21: with the default quadrants and items whose coordinates are in
    the range from 0 to 100, the aggregator has counts, and they add up to
    the number of items: every item is counted in exactly one quadrant. *)
Theorem default_counts_cover (genv : global_env) (xLabel yLabel : string)
  (items : list AnalysisItem) :
  Forall (fun item => in_range (Item.x item) /\ in_range (Item.y item)) items ->
  exists counts,
    quadrantCounts genv items (generateDefaultQuadrants xLabel yLabel) = Some counts
    /\ total (map (fun qc => List.length (Count.items qc)) counts)
       = List.length items.
Proof.
  intros Hitems. rewrite Forall_forall in Hitems.
  set (quadrants := generateDefaultQuadrants xLabel yLabel).
  assert (Hall : forall item, In item items ->
             classified genv quadrants item = true).
  { intros item Hin. destruct (Hitems item Hin) as (Hx & Hy).
    destruct (default_classified genv xLabel yLabel _ _ Hx Hy) as (q & Hq).
    unfold classified, quadrants. rewrite Hq. reflexivity. }
  destruct (quadrantCounts_total genv items quadrants) as (counts & Hc).
  { intros item Hin. specialize (Hall item Hin). unfold classified in Hall.
    destruct (getQuadrantForItem genv (Item.x item) (Item.y item) quadrants);
      [discriminate|discriminate]. }
  exists counts. split; [exact Hc|].
  assert (Hnd : NoDup (map id quadrants)).
  { cbn. repeat constructor; cbn; intuition discriminate. }
  pose proof (counts_total_classified genv items quadrants counts Hnd Hc) as Hsum.
  rewrite Hsum. clear Hsum Hc. induction items as [|item items IH]; [reflexivity|].
  cbn [filter]. rewrite (Hall item (or_introl eq_refl)). cbn [List.length].
  f_equal. apply IH; intros; [apply Hitems|apply Hall]; right; assumption.
Qed.

Lemma in_range_int (n : Z) : 0 <= n <= 100 -> in_range (int n).
Proof.
  intros H. split; [simpl; lia|]. unfold Qle, dec_to_Q. simpl. lia.
Qed.

Lemma default_counts_cover_witness :
  exists counts,
    quadrantCounts no_globals [item_95_50; item_50_50]
      (generateDefaultQuadrants "Probability" "Impact") = Some counts
    /\ total (map (fun qc => List.length (Count.items qc)) counts) = 2%nat.
Proof.
  apply (default_counts_cover no_globals "Probability" "Impact"
           [item_95_50; item_50_50]).
  repeat constructor; apply in_range_int; cbn; lia.
Defined.

(** ** The outliers and the chart *)

(** X23: when there is a quadrant, the aggregator returns, and its
    insights hold exactly one outlier insight, listing all outliers, if an
    item has a coordinate above 90 or below 10, and none otherwise. *)
Theorem outlier_insight_once (genv : global_env) (items : list AnalysisItem)
  (quadrants : list Quadrant) (axes : Axes) :
  quadrants <> [] ->
  (forall item, In item items ->
     getQuadrantForItem genv (Item.x item) (Item.y item) quadrants <> None) ->
  exists insights,
    generateDataInsights genv items quadrants axes = Returns insights
    /\ filter (is_type InsightType.outliers) insights
       = match filter is_outlier items with
         | [] => []
         | outliers => [outlier_insight outliers]
         end.
Proof. apply outlier_insight_spec. Qed.

Lemma outlier_insight_once_witness :
  exists insights,
    generateDataInsights no_globals ten_items
      (generateDefaultQuadrants "Probability" "Impact") sample_axes
    = Returns insights
    /\ filter (is_type InsightType.outliers) insights
       = match filter is_outlier ten_items with
         | [] => []
         | outliers => [outlier_insight outliers]
         end.
Proof.
  apply (outlier_insight_once no_globals ten_items
           (generateDefaultQuadrants "Probability" "Impact") sample_axes).
  - discriminate.
  - exact ten_items_classified.
Defined.

(** X24: on the default quadrants the chart picks the quadrant of the
    classifier for every item whose coordinates have no sign, so the marker
    has the colour of that quadrant. *)
Theorem chart_agrees_on_default_quadrants (genv : global_env)
  (item : AnalysisItem) (xLabel yLabel : string) :
  nonneg (Item.x item) -> nonneg (Item.y item) ->
  getQuadrantForItem genv (Item.x item) (Item.y item)
    (generateDefaultQuadrants xLabel yLabel)
  = Some (chart_quadrant item (generateDefaultQuadrants xLabel yLabel))
  /\ exists q,
       chart_quadrant item (generateDefaultQuadrants xLabel yLabel) = Some q
       /\ marker_color item (generateDefaultQuadrants xLabel yLabel) = color q.
Proof.
  intros Hx Hy.
  pose proof (chart_quadrant_default genv item xLabel yLabel Hx Hy) as Hc.
  split; [exact Hc|].
  assert (Hnn : forall x, nonneg x -> number_value x <> S754_nan).
  { intros [d| |] H; [|destruct H|destruct H].
    apply number_value_finite_not_nan. }
  pose proof (js_lt_fifty _ (Hnn _ Hx)) as Hlx.
  pose proof (js_lt_fifty _ (Hnn _ Hy)) as Hly.
  unfold marker_color, chart_quadrant, generateDefaultQuadrants.
  cbn [find id String.eqb Ascii.eqb Bool.eqb].
  fold fifty. rewrite Hlx, Hly.
  destruct (js_ge (number_value (Item.x item)) fifty),
           (js_ge (number_value (Item.y item)) fifty);
    cbn [andb negb]; eexists; split; reflexivity.
Qed.

Lemma chart_agrees_on_default_quadrants_witness :
  exists q,
    chart_quadrant item_50_50 (generateDefaultQuadrants "Probability" "Impact")
    = Some q
    /\ marker_color item_50_50 (generateDefaultQuadrants "Probability" "Impact")
       = color q.
Proof.
  apply (chart_agrees_on_default_quadrants no_globals item_50_50
           "Probability" "Impact"); cbn; lia.
Defined.

(** * The table of the items

    ** Sorting with a comparator *)

Lemma insert_sorted_In {A : Type} (compare : A -> A -> Z) (x a : A) (l : list A) :
  In a (insert_sorted compare x l) <-> a = x \/ In a l.
Proof.
  induction l as [|y l IH]; cbn [insert_sorted In]; [intuition|].
  destruct (compare x y <=? 0); cbn [In]; [intuition|].
  rewrite IH. intuition.
Qed.

Lemma sort_In {A : Type} (compare : A -> A -> Z) (a : A) (l : list A) :
  In a (sort compare l) <-> In a l.
Proof.
  induction l as [|x l IH]; cbn [sort In]; [tauto|].
  rewrite insert_sorted_In, IH. intuition.
Qed.

(** Two comparators that agree in sign on the elements sort alike. *)
Lemma sort_ext {A : Type} (c1 c2 : A -> A -> Z) (l : list A) :
  (forall a b, In a l -> In b l -> (c1 a b <=? 0) = (c2 a b <=? 0)) ->
  sort c1 l = sort c2 l.
Proof.
  induction l as [|x l IH]; intros H; [reflexivity|].
  cbn [sort]. rewrite IH by (intros; apply H; right; assumption).
  assert (Hins : forall r, (forall b, In b r -> In b l) ->
            insert_sorted c1 x r = insert_sorted c2 x r).
  { induction r as [|y r IHr]; intros Hr; [reflexivity|].
    cbn [insert_sorted].
    rewrite (H x y (or_introl eq_refl) (or_intror (Hr y (or_introl eq_refl)))).
    destruct (c2 x y <=? 0); [reflexivity|].
    f_equal. apply IHr. intros b Hb. apply Hr. right. exact Hb. }
  apply Hins. intros b Hb. apply (sort_In c2 b l), Hb.
Qed.

Lemma StronglySorted_filter {A : Type} (R : A -> A -> Prop) (p : A -> bool)
  (l : list A) :
  StronglySorted R l -> StronglySorted R (filter p l).
Proof.
  induction 1 as [|a l Hl IH Ha]; [constructor|].
  cbn [filter]. destruct (p a); [|exact IH].
  constructor; [exact IH|]. rewrite Forall_forall in *.
  intros b Hb. apply filter_In in Hb. apply Ha, Hb.
Qed.

(** ** The rows of the table *)

Definition numeric (field : SortField) : bool :=
  match field with
  | sort_x | sort_y | sort_confidence => true
  | _ => false
  end.

(** The number a row is sorted by. *)
Definition sort_number (field : SortField) (a : EnhancedItem) : spec_float :=
  match sort_value_of field a with
  | number_of v => v
  | text_value _ => S754_nan
  end.

(** The values of the field are finite numbers. *)
Definition finite_values (field : SortField) (rows : list EnhancedItem) : Prop :=
  Forall (fun a => finite_or_zero (sort_number field a) = true) rows.

(** Largest first for [desc], smallest first for [asc]. *)
Definition row_key (field : SortField) (direction : SortDirection)
  (a : EnhancedItem) : Z :=
  match direction with
  | desc => SF2Z (sort_number field a)
  | asc => - SF2Z (sort_number field a)
  end.

Lemma sort_number_valid (field : SortField) (a : EnhancedItem) :
  valid_binary 53 1024 (sort_number field a) = true.
Proof.
  unfold sort_number, sort_value_of.
  destruct field; try reflexivity; apply number_value_valid.
Qed.

Lemma compare_rows_key (field : SortField) (direction : SortDirection)
  (a b : EnhancedItem) :
  numeric field = true ->
  finite_or_zero (sort_number field a) = true ->
  finite_or_zero (sort_number field b) = true ->
  compare_rows field direction a b
  = Z.sgn (largest_first (row_key field direction) a b).
Proof.
  intros Hnum Ha Hb. unfold compare_rows, largest_first, row_key. cbv zeta.
  assert (Hv : forall u v, value_lt (sort_value_of field u) (sort_value_of field v)
                           = js_lt (sort_number field u) (sort_number field v)).
  { intros u v. unfold sort_number. destruct field; try discriminate; reflexivity. }
  rewrite !Hv. unfold js_lt.
  rewrite (SFltb_valid _ _ (sort_number_valid field a) (sort_number_valid field b) Ha Hb).
  rewrite (SFltb_valid _ _ (sort_number_valid field b) (sort_number_valid field a) Hb Ha).
  destruct (Z.ltb_spec (SF2Z (sort_number field a)) (SF2Z (sort_number field b))),
           (Z.ltb_spec (SF2Z (sort_number field b)) (SF2Z (sort_number field a)));
    destruct direction; lia.
Qed.

Lemma sort_rows_key (field : SortField) (direction : SortDirection)
  (rows : list EnhancedItem) :
  numeric field = true -> finite_values field rows ->
  sort (compare_rows field direction) rows
  = sort (largest_first (row_key field direction)) rows.
Proof.
  intros Hnum Hfin. unfold finite_values in Hfin. rewrite Forall_forall in Hfin.
  apply sort_ext. intros a b Ha Hb.
  rewrite (compare_rows_key field direction a b Hnum (Hfin a Ha) (Hfin b Hb)).
  destruct (Z.leb_spec (largest_first (row_key field direction) a b) 0),
           (Z.leb_spec (Z.sgn (largest_first (row_key field direction) a b)) 0);
    try reflexivity; lia.
Qed.

(** The rows in the order of the comparator: no row comes after a row
    below it. *)
Definition in_order (field : SortField) (direction : SortDirection)
  (rows : list EnhancedItem) : Prop :=
  StronglySorted (fun a b => compare_rows field direction a b <= 0) rows.

Lemma descending_in_order (field : SortField) (direction : SortDirection)
  (rows : list EnhancedItem) :
  numeric field = true -> finite_values field rows ->
  descending (row_key field direction) rows -> in_order field direction rows.
Proof.
  intros Hnum Hfin. unfold descending, in_order, finite_values in *.
  induction 1 as [|a l Hl IH Ha]; [constructor|].
  inversion Hfin as [|? ? Hfa Hfl]; subst.
  constructor; [apply IH, Hfl|].
  rewrite Forall_forall in *. intros b Hb.
  rewrite (compare_rows_key field direction a b Hnum Hfa (Hfl b Hb)).
  specialize (Ha b Hb). unfold largest_first. lia.
Qed.

(** The rows that the filters of the table let through. *)
Definition shown (st : TableState) (a : EnhancedItem) : bool :=
  (String.eqb (searchTerm st) EmptyString
   || matches_search (toLowerCase (searchTerm st)) a)
  && (String.eqb (selectedQuadrant st) "all"
      || in_selected (selectedQuadrant st) a).

Lemma processedItems_rows (enhanced : list EnhancedItem) (st : TableState) :
  fst (processedItems enhanced st)
  = sort (compare_rows (sortField st) (sortDirection st)) (filter (shown st) enhanced).
Proof.
  unfold processedItems, shown. cbv zeta. cbn [fst]. f_equal.
  destruct (String.eqb (searchTerm st) EmptyString),
           (String.eqb (selectedQuadrant st) "all"); cbn [negb orb andb].
  - induction enhanced as [|a l IH]; [reflexivity|]. cbn [filter]. f_equal. exact IH.
  - apply filter_ext. intros a. reflexivity.
  - apply filter_ext. intros a. rewrite andb_true_r. reflexivity.
  - induction enhanced as [|a l IH]; [reflexivity|]. cbn [filter].
    destruct (matches_search (toLowerCase (searchTerm st)) a); cbn [filter andb];
      rewrite IH; reflexivity.
Qed.

Lemma finite_values_filter (field : SortField) (p : EnhancedItem -> bool)
  (rows : list EnhancedItem) :
  finite_values field rows -> finite_values field (filter p rows).
Proof.
  unfold finite_values. rewrite !Forall_forall. intros H a Ha.
  apply filter_In in Ha. apply H, Ha.
Qed.

Lemma finite_values_perm (field : SortField) (l l' : list EnhancedItem) :
  Permutation l l' -> finite_values field l -> finite_values field l'.
Proof.
  unfold finite_values. rewrite !Forall_forall. intros Hp H a Ha.
  apply H. apply (Permutation_in _ (Permutation_sym Hp)), Ha.
Qed.

Lemma processedItems_sorted_aux (enhanced : list EnhancedItem) (st : TableState) :
  numeric (sortField st) = true -> finite_values (sortField st) enhanced ->
  Permutation (fst (processedItems enhanced st)) (filter (shown st) enhanced)
  /\ in_order (sortField st) (sortDirection st) (fst (processedItems enhanced st)).
Proof.
  intros Hnum Hfin. rewrite processedItems_rows.
  pose proof (finite_values_filter _ (shown st) _ Hfin) as Hfin'.
  rewrite (sort_rows_key _ (sortDirection st) _ Hnum Hfin').
  set (key := row_key (sortField st) (sortDirection st)).
  split; [apply sort_perm|].
  apply descending_in_order; [exact Hnum| |apply sort_descending].
  apply (finite_values_perm _ _ _ (Permutation_sym (sort_perm key _)) Hfin').
Qed.

Lemma processedItems_stable_aux (enhanced : list EnhancedItem) (st : TableState) :
  numeric (sortField st) = true -> finite_values (sortField st) enhanced ->
  forall value : Z,
    filter (fun a => SF2Z (sort_number (sortField st) a) =? value)
           (fst (processedItems enhanced st))
    = filter (fun a => SF2Z (sort_number (sortField st) a) =? value)
             (filter (shown st) enhanced).
Proof.
  intros Hnum Hfin value. rewrite processedItems_rows.
  pose proof (finite_values_filter _ (shown st) _ Hfin) as Hfin'.
  rewrite (sort_rows_key _ (sortDirection st) _ Hnum Hfin').
  pose proof (sort_stable (row_key (sortField st) (sortDirection st))
                (filter (shown st) enhanced)) as Hst.
  unfold row_key in *. destruct (sortDirection st).
  - specialize (Hst (- value)).
    assert (E : forall l : list EnhancedItem,
               filter (fun a => - SF2Z (sort_number (sortField st) a) =? - value) l
               = filter (fun a => SF2Z (sort_number (sortField st) a) =? value) l).
    { intros l. apply filter_ext. intros a.
      destruct (Z.eqb_spec (SF2Z (sort_number (sortField st) a)) value),
               (Z.eqb_spec (- SF2Z (sort_number (sortField st) a)) (- value));
        try reflexivity; lia. }
    rewrite !E in Hst. exact Hst.
  - exact (Hst value).
Qed.

(** X25: sorted by [x], [y] or the confidence, whose values are finite
    numbers, the rows of the table are the items that the search and the
    quadrant filter let through, each once, in the order of the field and
    the direction, and rows of equal value are in the order in which the
    table holds the items. *)
Theorem processedItems_sorted (enhanced : list EnhancedItem) (st : TableState) :
  numeric (sortField st) = true -> finite_values (sortField st) enhanced ->
  let rows := fst (processedItems enhanced st) in
  Permutation rows (filter (shown st) enhanced)
  /\ in_order (sortField st) (sortDirection st) rows
  /\ forall value : Z,
       filter (fun a => SF2Z (sort_number (sortField st) a) =? value) rows
       = filter (fun a => SF2Z (sort_number (sortField st) a) =? value)
                (filter (shown st) enhanced).
Proof.
  intros Hnum Hfin. cbv zeta.
  destruct (processedItems_sorted_aux enhanced st Hnum Hfin) as (P & O).
  split; [exact P|]. split; [exact O|].
  apply processedItems_stable_aux; assumption.
Qed.

(** X26: without a search and a quadrant filter the table sorts the array
    of its items in place, so that sorting by one numeric field and then
    by another leaves the rows in the order of the second field with the
    rows of equal value in the order of the first. *)
Theorem processedItems_cumulative (enhanced : list EnhancedItem)
  (first second : TableState) :
  searchTerm first = EmptyString -> selectedQuadrant first = "all"%string ->
  searchTerm second = EmptyString -> selectedQuadrant second = "all"%string ->
  numeric (sortField first) = true -> numeric (sortField second) = true ->
  finite_values (sortField first) enhanced ->
  finite_values (sortField second) enhanced ->
  let kept := snd (processedItems enhanced first) in
  let rows := fst (processedItems kept second) in
  kept = fst (processedItems enhanced first)
  /\ Permutation rows enhanced
  /\ in_order (sortField second) (sortDirection second) rows
  /\ forall value : Z,
       in_order (sortField first) (sortDirection first)
         (filter (fun a => SF2Z (sort_number (sortField second) a) =? value) rows).
Proof.
  intros Hs1 Hq1 Hs2 Hq2 Hn1 Hn2 Hf1 Hf2. cbv zeta.
  assert (Hall : forall st l, searchTerm st = EmptyString ->
                   selectedQuadrant st = "all"%string -> filter (shown st) l = l).
  { intros st l Hs Hq. unfold shown. rewrite Hs, Hq, !String.eqb_refl.
    cbn [orb andb].
    induction l as [|a l IH]; [reflexivity|]. cbn [filter]. f_equal. exact IH. }
  assert (Hkept : snd (processedItems enhanced first)
                  = fst (processedItems enhanced first)).
  { unfold processedItems. cbv zeta. rewrite Hs1, Hq1, !String.eqb_refl.
    reflexivity. }
  rewrite Hkept. split; [reflexivity|].
  destruct (processedItems_sorted_aux enhanced first Hn1 Hf1) as (P1 & O1).
  rewrite (Hall first enhanced Hs1 Hq1) in P1.
  set (kept := fst (processedItems enhanced first)) in *.
  assert (Hf2' : finite_values (sortField second) kept)
    by (apply (finite_values_perm _ _ _ (Permutation_sym P1) Hf2)).
  destruct (processedItems_sorted_aux kept second Hn2 Hf2') as (P2 & O2).
  pose proof (processedItems_stable_aux kept second Hn2 Hf2') as S2.
  rewrite (Hall second kept Hs2 Hq2) in P2, S2.
  split; [apply (Permutation_trans P2 P1)|]. split; [exact O2|].
  intros value. rewrite S2. apply StronglySorted_filter. exact O1.
Qed.

Definition sample_rows : list EnhancedItem :=
  map (fun item => {| Enhanced.item := item; Enhanced.quadrant := None |})
      [sample_item "A" 75 85; sample_item "B" 25 65; sample_item "C" 75 30].

Lemma sample_rows_finite (field : SortField) :
  numeric field = true -> finite_values field sample_rows.
Proof.
  intros H. destruct field; try discriminate;
    repeat (constructor; [vm_compute; reflexivity|]); constructor.
Qed.

Lemma processedItems_sorted_witness :
  Permutation (fst (processedItems sample_rows initial_table)) sample_rows
  /\ in_order sort_confidence desc (fst (processedItems sample_rows initial_table)).
Proof.
  destruct (processedItems_sorted sample_rows initial_table eq_refl
              (sample_rows_finite sort_confidence eq_refl)) as (P & O & _).
  split; [exact P|exact O].
Defined.

Lemma processedItems_cumulative_witness :
  let kept := snd (processedItems sample_rows initial_table) in
  let rows := fst (processedItems kept (handleSort sort_x initial_table)) in
  Permutation rows sample_rows
  /\ in_order sort_x desc rows.
Proof.
  destruct (processedItems_cumulative sample_rows initial_table
              (handleSort sort_x initial_table)
              eq_refl eq_refl eq_refl eq_refl eq_refl eq_refl
              (sample_rows_finite sort_confidence eq_refl)
              (sample_rows_finite sort_x eq_refl)) as (_ & P & O & _).
  split; [exact P|exact O].
Defined.

(** * The average confidence on the page *)

(** X29: for a result of [analyzeContent] with at least one item, the
    legend, the insights panel and the header show the same average
    confidence; without items the legend shows [N/A], the header [0%] and
    the insights panel [NaN%]. *)
Theorem confidence_displays (analysisData : OpenAIAnalysisResponse)
  (processingTime : spec_float) (result : AnalysisResult) :
  analyzeContent (Some analysisData) processingTime = Fulfilled result ->
  match items result with
  | [] =>
      legend_confidence (items result) = "N/A"%string
      /\ header_confidence result = "0%"%string
      /\ panel_confidence (items result) = "NaN%"%string
  | _ :: _ =>
      legend_confidence (items result) = panel_confidence (items result)
      /\ header_confidence result = panel_confidence (items result)
  end.
Proof.
  intros H. injection H as <-. cbn [items metadata].
  unfold header_confidence, plain_metadata. cbn [metadata meta_confidence].
  unfold overallConfidence.
  destruct (reply_items analysisData) as [|item rest].
  - split; [reflexivity|]. split; vm_compute; reflexivity.
  - split; reflexivity.
Qed.

Lemma confidence_displays_witness :
  panel_confidence [] = "NaN%"%string /\ legend_confidence [] = "N/A"%string.
Proof.
  destruct (confidence_displays
              {| reply_axes := sample_axes; reply_items := [];
                 reply_insights := [] |}
              (literal 0 0) _ eq_refl) as (H1 & _ & H3).
  split; [exact H3|exact H1].
Defined.

(** * The CSV export *)













(** The line of an item. *)
Definition item_line (item : AnalysisItem) : text :=
  join_text [","%char]
    (map (csv_cell (item_row item))
         ["name"; "x"; "y"; "confidence"; "rationale"; "citations"]%string).


(** * Sample evaluations, continued *)

Local Open Scope string_scope.

Example truncateText_samples :
  truncateText "Supply risk" 6 = "Supply..."
  /\ truncateText "Supply risk" (-1) = "..."
  /\ truncateText "Supply" 6 = "Supply".
Proof. repeat split. Qed.

Example createPreview_sample :
  createPreview long_text 200
  = "Supply risk is rising while demand stays flat. The second quarter shows the same pattern in every region, and the forecast for the third quarter does not change it!...".
Proof. vm_compute. reflexivity. Qed.

Example countWords_samples :
  countWords "  two  words " = 2%nat /\ countWords "   " = 0%nat
  /\ countWords EmptyString = 0%nat.
Proof. repeat split. Qed.

(** An upload whose content is eleven spaces lets the page start an
    analysis, and the route refuses the request. *)
Definition blank_upload : UploadedFile :=
  {| Upload.id := "k3x9"; Upload.name := "n"; Upload.size := 11;
     Upload.type := "text/plain";
     Upload.content := Some "           ";
     Upload.preview := Some EmptyString |}.

Example blank_upload_refused :
  canAnalyze (addFile blank_upload initialState) = true
  /\ status (POST (Some (requestBody (addFile blank_upload initialState))) false
                  (Rejected (Error EmptyString)) EmptyString EmptyString)
     = 400%nat.
Proof. split; vm_compute; reflexivity. Qed.

(** A text file that cannot be read is added without content and without
    an alert. *)
Definition unreadable_file : File :=
  {| FileObj.name := "notes.txt"; FileObj.type := "text/plain";
     FileObj.size := 12;
     FileObj.readAsText := onerror; FileObj.readAsArrayBuffer := onerror;
     FileObj.getDocument := pdf_rejected None |}.

Example unreadable_file_added :
  map Upload.content
      (uploadedFiles (fst (onDrop [unreadable_file] (fun _ => "id1") initialState)))
  = [Some EmptyString]%list
  /\ snd (onDrop [unreadable_file] (fun _ => "id1") initialState) = []%list
  /\ Processed.error (processFile unreadable_file "id1")
     = Some "File reading failed".
Proof. repeat split. Qed.

(** The line of an item at [x = 0]. *)
Example item_line_sample :
  string_of (item_line (sample_item "A" 0 85))
  = quote ++ "A" ++ quote ++ "," ++ quote ++ quote ++ ",85,0.7,"
      ++ quote ++ quote ++ ",[]".
Proof. vm_compute. reflexivity. Qed.

Example health_samples :
  fst (health_GET true None (Rejected (Error "down"))) = 200%nat
  /\ Health.status (snd (health_GET true None (Rejected (Error "down")))) = "healthy"
  /\ Health.status (snd (health_GET false None (Fulfilled 1%nat))) = "partial".
Proof. repeat split. Qed.

Example listFiles_sample :
  map Stored.id (listFiles two_files) = ["f1"; "f2"]%list
  /\ List.length (listAnalyses empty_db (-3)) = 0%nat.
Proof. split; reflexivity. Qed.

Local Close Scope string_scope.
